(* ===== verification/_CoqProject ===== *)
-Q . S2P
Prelude.v
Clock.v
Float.v
Strings.v
Json.v
Base64.v
Bolt.v
Lru.v
Record.v
NameDB.v
NamesSpec.v
ExpirySpec.v
Utxo.v
UtxoSpec.v
Batch.v
BatchSpec.v
Config.v
Script.v
ScriptSpec.v
Wire.v
AuxPow.v
Genesis.v
AuxPowSpec.v
Encryption.v
Mempool.v
Chain.v
ChainUpdate.v
Wallet.v
WalletTx.v
ChainSpec.v
ChainNames.v
MempoolSpec.v
PeerScore.v
PeerScoreSpec.v
RateLimit.v
Network.v
NetworkSpec.v
NetworkReach.v
Node.v
Rpc.v
RpcNames.v
RpcWallet.v
RpcChain.v
RpcServer.v
Client.v
Settings.v
Startup.v
StartupSpec.v
Logging.v
Daemon.v
LoadTest.v
RpcSpec.v
AutoLock.v
UpdateSpec.v
WalletSpec.v
WalletTxSpec.v
BlockSpec.v
Ref.v
BlockProps.v
Grown.v
ChainProps.v
StoreProps.v
ScriptProps.v
NetProps.v
WalletProps.v
RpcNamesSpec.v
ClientSpec.v
DaemonSpec.v
Mail.v
Smtp.v
SmtpSpec.v
Permamail.v
RpcProps.v
ClientProps.v
RefText.v
DaemonProps.v
MailProps.v
Metrics.v
MetricsProps.v
StartupProps.v
