(* ===== verification/Prelude.v ===== *)
(** * nmcd, a Namecoin library and daemon: verification development

    nmcd keeps a block chain (btcd's, embedded) and, beside it, a database of names.
    A block is checked, given to btcd, and, when it extends the main chain, applied to
    the database: names that are due expire, spent outputs leave the UTXO set, created
    outputs enter it, and the name operations of the outputs (NAME_NEW, a commitment;
    NAME_FIRSTUPDATE, the registration; NAME_UPDATE) write names, histories and
    commitments.  When btcd disconnects a block the database is rolled back.  Blocks
    after an activation height carry a merged-mining proof (AuxPow).

    ** Files

    - Prelude.v: bytes and machine integers ([int32], [uint32], ... wrap around), errors
      ([EWrap] is Go's %w, [EJoin] errors.Join), [res] (a Go result and error), the state
      and error monad [M] with its weakest-precondition rules [wp] and the hint database
      [wp], the loops [forM] and [try], and [MapRange]: the unspecified order in which Go
      ranges over a map.
    - Bolt.v: the store bbolt, a third-party package: class [Bolt] with its laws
      [BoltLaws] (a bucket is a map with sorted keys; sizes of keys and values) and
      [BoltCommits] (a commit succeeds); [RefBolt] satisfies them.
    - Lru.v: namedb/cache.go and chain/auxpow_cache.go: a linked list in a heap with a map
      into it, and its refinement to an association list.
    - Record.v: the encodings of records and keys of namedb/namedb.go and namedb/utxo.go.
    - NameDB.v, Utxo.v, Batch.v: the operations of namedb/namedb.go, namedb/utxo.go and
      namedb/batch.go.  Each Go method is a definition of the same name; the body given to
      Update or View is a computation over the buckets.
    - NamesSpec.v, ExpirySpec.v, UtxoSpec.v, BatchSpec.v: what they
      promise: [ndb_wf] (buckets, expiration index and cache agree), [ndb_names],
      [ndb_history], [ndb_utxos] (what the buckets mean), and one lemma per operation.
    - Config.v: config/config.go, config/subsidy.go and the fields of
      config/namecoin_params.go that the code reads; the total of the subsidies.
      Genesis.v: the genesis blocks and the whole parameters of that file, with SHA-256 and
      the encoding of blocks on the wire ([WireFormat]; [BitcoinWire] also satisfies the
      laws of Wire.v).
    - Script.v, ScriptSpec.v: chain/name_script.go and the script builders of
      wallet/wallet.go.
    - Wire.v: btcd's transactions and headers; class [Wire] (hashes and encodings) with
      its laws, and the instance [RefWire]; what the network keeps of a btcd peer.
    - AuxPow.v, AuxPowSpec.v: chain/auxpow.go, chain/block.go, chain/auxpow_validation.go.
    - Chain.v: the checks of chain/blockchain.go for blocks and the mempool, over the
      classes [BtcLib] (Hash160, addresses, proof of work).  ChainUpdate.v: the effects:
      updateNameDatabase, rollbackNameOperations, ProcessBlock; btcd's chain is the class
      [Btcd], a state and a step that reports notifications.
    - ChainSpec.v, ChainNames.v: each check decides a predicate ([decides]):
      [subsidy_ok], [pays_fee], [output_ok], [block_names_ok], [tx_names_ok].
    - UpdateSpec.v: the abstract state of the names ([names_state]), the step of one
      output ([out_step]), and that the code implements it ([models]).
    - BlockSpec.v: the same for a block ([steps], [spent_by], [created]),
      its rollback, and that a block the checks accept meets their preconditions.
    - Ref.v: the concrete inputs of the witnesses.
    - BlockProps.v, ChainProps.v, StoreProps.v, ScriptProps.v: the claims about the
      files above, each followed by its witness, and runs on concrete inputs.
    - Clock.v: time.Time and time.Duration as nanoseconds.  Float.v: float64 as the
      binary64 numbers of the Standard Library's SpecFloat, with the order and rounding
      facts the scores need.  Strings.v: the functions of strings, net, strconv and
      path/filepath that are used; UTF-8 and the functions of unicode, utf8 and bytes, over
      the tables of the language ([UnicodeTables]).
    - Mempool.v, MempoolSpec.v: network/mempool.go.  PeerScore.v, PeerScoreSpec.v:
      network/peerscore.go.  RateLimit.v: the limiter of
      rpc/ratelimit.go, a heap with a list of addresses, and its refinement to a list of
      buckets.
    - Network.v: network/peermgr.go and network/sync.go: peers, pool, requested blocks
      and the synchronisation over the chain of ChainUpdate.v.  NetworkSpec.v: one lemma
      per handler.  NetworkReach.v: the step relation of a node ([node_step]: a message, a
      tick, a call, a block of the chain; time passes) and the invariants by rule
      induction over [rtc].  NetProps.v: the claims.
    - Base64.v: encoding/base64 and its round trip.  Encryption.v: wallet/encryption.go
      over the classes [Crypto], [CryptoLaws] (AES-GCM and scrypt).
    - Wallet.v: the keys, the storage and the locking of wallet/wallet.go over the classes
      [KeyLib], [Disk], [WalletJson]; a [World] is the wallet, the file and the entropy.
      WalletTx.v: its transactions over the class [TxScript].
    - WalletSpec.v: the abstract vault, its step and the simulation.  WalletTxSpec.v: what
      a built transaction is.  WalletProps.v: the claims, over toy instances of the
      classes.
    - Json.v: JSON values and how Go reads parameters from them.  Node.v: the queries of
      btcd's chain ([BtcdQueries]) and the chain of ChainUpdate.v as a node's.
    - Rpc.v: the state of the server of rpc/server.go, which holds the chain (through the
      peer manager), the wallet and the limiter, and the monad [Handler] of a handler: it
      goes on, replies (Go's early return), or panics.  RpcNames.v, RpcWallet.v,
      RpcChain.v: rpc/name_handlers.go, rpc/wallet_handlers.go, rpc/blockchain_handlers.go.
      RpcServer.v: the rest of rpc/server.go: dispatch, authentication, HTTP.
    - RpcSpec.v: what a handler leaves alone ([stable]), the bytes of the authentication,
      the searches.  AutoLock.v: the automatic lock of the wallet as a step
      relation of critical sections.  RpcProps.v: the claims.
    - Client.v: client/embedded.go, its options of client/types.go and the seeds of
      network/seeds.go: a node, its wallet and a flag in one record; a wait reads the
      events it observes from its context.  Grown.v: what every database grown by blocks
      hides ([names_hidden]).  RpcNamesSpec.v, ClientSpec.v: the handlers and methods that
      look for the output of a name, waiting, listing.  ClientProps.v: the claims.
    - Json.v, again: the text of JSON ([JsonText], its law) and the decoding of structs.
      Daemon.v: client/daemon.go and client/client.go over the class [Transport]: replies,
      the context, timers.  DaemonSpec.v: the trace of a call, and the server of
      RpcServer.v as the transport.  RefText.v: a concrete text.  DaemonProps.v: the claims.
    - Mail.v: mail/config.go, bridge/namecoin.go and mail/router.go.  Smtp.v: mail/smtp.go:
      a session reads from a list of bytes, writes while the connection takes lines, and
      calls the upstream server, class [Upstream].  The cache of Mail.v is also a function of
      its history.  SmtpSpec.v: the loops, the calls of a delivery, the invariant of a
      session.  Permamail.v: cmd/permamail/main.go over these.  MailProps.v: the claims.
    - Settings.v: config/configfile.go, package flag and [parseFlags] of cmd/nmcd/main.go;
      the host (environment, files) is the class [Host].
    - Startup.v: internal/server/server.go and what it opens and closes in chain, network
      and rpc; the operating system is a set of open handles ([Machine]) and the class
      [System], which says which call fails.  StartupSpec.v: a rule for each
      operation, on each of its paths ([own]).
    - Logging.v: internal/logging/logger.go, the handlers of log/slog, and [main] of
      cmd/nmcd/main.go.  StartupProps.v: the claims about these three.
    - Metrics.v: metrics/metrics.go and metrics/prometheus.go.  MetricsProps.v: the calls
      as values ([Event]) and what the counters say of them.
    - LoadTest.v: loadtest/runner.go and loadtest/cmd/main.go over the transport of Daemon.v;
      the workers take their steps in any order.

    ** What the theorems show

    - Blocks (BlockProps, ChainProps).  Connecting a block that the checks accept succeeds,
      implements the abstract steps ([connect_refines]) and is undone by disconnecting it
      ([connect_disconnect]; its parts [expire_restore], [spend_restore]).  The checks
      decide the predicates of ChainSpec and ChainNames ([validateNameOperations_iff],
      [validateAuxPow_accepts], [validateBlockSubsidy_iff],
      [ValidateMempoolTransaction_iff]); only the owner updates a name
      ([update_needs_owner]) and the mempool agrees with the block
      ([mempool_block_agree]).  Where the code fails to keep a promise the theorem says
      so ([reregistered_name_lost], [sync_stalls], [failed_unlock_leaks],
      [fee_overflow_mints]).
    - The store (StoreProps).  Operations are atomic, the names are a map behind the
      cache, the batch writer equals the direct writes in any order of the map, the cache
      refines a list, scans and histories are exact, encodings round-trip.
    - Scripts and merged mining (ScriptProps): builders and parser, Merkle
      branches, the commitment search, the serialization of blocks.
    - The network (NetProps).  The pool holds valid transactions for a bounded time,
      requests and peers stay within their limits, headers are requested once each, a node
      that is behind asks a best peer, relays reach everybody but the sender, scores are
      between 0 and 100, the best peers are the best, the limiter refines its
      specification and bounds its tokens.
    - The wallet (WalletProps).  Wallet, file and password hash refine a vault, a password
      brings back exactly the keys, transactions spend, pay and sign what they should.
    - The RPC server (RpcProps).  Which request may change what ([request_effects]), who is
      served ([auth_exact]), that an opened wallet is locked again in time
      ([autolock_in_time]) and where it is not ([encrypted_wallet_open]), what the queries
      answer ([getrawtransaction_exact], [balance_and_unspent]).
    - The client (ClientProps).  When a wait ends ([WaitForConfirmation_exact]), what the
      pages of a listing hold ([ListNames_pages]), and that no name can be updated through
      the server or the client ([name_updates_refused]).
    - The daemon client (DaemonProps).  Over the server it answers as the embedded client
      does ([daemon_agrees]); requests, retries and waits of a call ([rpcCall_bounded]).
    - Networks (DaemonProps).  What the genesis blocks are and which hashes they have
      ([genesis_blocks]); that the detection of a network knows none of them
      ([network_not_recognised]).
    - Mail (MailProps).  A session ends ([session_ends]); what it sends on and how
      ([relay_sends]), which bytes ([body_exact]); the router and the bridge
      ([route_exact], [bridge_reads]); the arguments of the command
      ([permamail_flags_first]).
    - The process (StartupProps).  Where each setting comes from ([settings_precedence]);
      a start that fails closes what it opened, a stop closes the rest, in order, and when
      it does not return ([server_lifecycle], [main_closes]); what a line of the log holds
      ([daemon_logging]).
    - Metrics (MetricsProps).  The counters are a function of the calls
      ([metrics_history]) and a scrape delivers them ([scrape_history]).
    - Load tests (LoadTest.v).  Counts and percentiles of a run ([load_results],
      [percentile_rank]); its rate ([rate_limit_exceeded]); when the command fails
      ([loadtest_exit], [unknown_test_passes], [continuous_passes]).

    ** Bounds and choices

    - Go code runs under a mutex, so operations are single steps; the database's state is
      passed explicitly.  A cache write inside a transaction that fails stays, as in Go.
    - Recursion is structural on lists; the commitment search uses the script's length
      as fuel, which it cannot exceed since every hit consumes the magic bytes; the loops
      of an SMTP session use the length of the input, of which each turn reads a byte, and
      satisfy the equations of the loops ([session_ends]).  A loop that waits takes a list
      of events or a number of turns.
    - Heights are int32, indexes uint32, values int64, with their wrap-around; the
      hypotheses [is_int32] etc. say which numbers the Go types can hold.
    - In the store and the chain a time is its Unix second; in the network, the limiter
      and the scores it is a number of nanoseconds.  The packages of logs and metrics are
      modelled; the calls of them inside the other components are dropped.  Error values keep the literal of their format.  The text of JSON and
      TOML, the file system, AES-GCM, scrypt and txscript are parameters.
    - A handler of a message and a tick of a timer are atomic steps of a node.  A ticker
      fires within its period and a slack, which is all that the claims on time assume.
    - The text of JSON is a parameter ([RequestText]), its values are not; a timer and a
      goroutine of the automatic lock are late by at most a slack; a float that int() does
      not fit becomes the least int64, as on amd64.
    - float64 operations round to nearest.  Case conversion and trimming follow the
      tables of Unicode; with [AsciiTables] they are those of ASCII.
    - Hypotheses on the state ([index_room]: a history shorter than 2^25 entries;
      [no_backup]: no backup at this height yet) bound what bbolt can store and exclude
      a height that is processed twice.  The wallet's claims assume what its design does:
      the disk keeps what was written ([ReliableDisk]), the password hash has no collision
      at hand, generated keys are new.

    ** Not modelled

    - What happens below the calls of the packages: sockets, the scheduler, the text of
      JSON, TOML and of log lines, what a command prints.
    - Goroutines as such: where two run together the steps between their critical sections
      are a relation (AutoLock.v, NetworkReach.v, LoadTest.v) or the handlers are atomic.
    - The buffer pools of namedb/bufpool.go and network/bufpool.go, which only save
      allocations; the examples; the test vectors of chain/testvector.go, used by tests;
      the registration of the networks with btcd, which is state of that package.
    - The rotation of log files, which is configured and has no code. *)

From Stdlib Require Export ZArith Lia.
From Stdlib Require Strings.Byte.
From stdpp Require Export prelude gmap list strings sorting.

#[global] Open Scope Z_scope.
#[global] Open Scope list_scope.

(** ** Bytes

    A Go [string] and a Go [[]byte] are both a sequence of bytes. *)

Abbreviation byte := Corelib.Init.Byte.byte.
Abbreviation bytes := (list Corelib.Init.Byte.byte).

Definition Z_of_byte (b : byte) : Z := Z.of_N (Byte.to_N b).

(** The conversion [byte(z)]: the low eight bits. *)
Definition byte_of_Z (z : Z) : byte :=
  match Byte.of_N (Z.to_N (z mod 256)) with
  | Some b => b
  | None => Byte.x00
  end.

#[export] Instance byte_eq_dec : EqDecision byte.
Proof. intros a b. destruct (Byte.byte_eq_dec a b); [left|right]; done. Defined.

#[export] Program Instance byte_countable : Countable byte :=
  inj_countable' (fun b => Byte.to_N b) (fun n => default Byte.x00 (Byte.of_N n)) _.
Next Obligation. intros b. simpl. by rewrite Byte.of_to_N. Qed.

(** The bytes of an ASCII literal. *)
Definition str (s : string) : bytes := String.list_byte_of_string s.

Lemma Z_of_byte_range b : 0 <= Z_of_byte b < 256.
Proof. unfold Z_of_byte. pose proof (Byte.to_N_bounded b). lia. Qed.

Lemma Z_of_byte_of_Z z : Z_of_byte (byte_of_Z z) = z mod 256.
Proof.
  unfold Z_of_byte, byte_of_Z.
  assert (0 <= z mod 256 < 256) by (apply Z.mod_pos_bound; lia).
  destruct (Byte.of_N (Z.to_N (z mod 256))) as [b|] eqn:E.
  - apply Byte.to_of_N in E. rewrite E. lia.
  - apply Byte.of_N_None_iff in E. lia.
Qed.

Lemma byte_of_Z_of_byte b : byte_of_Z (Z_of_byte b) = b.
Proof.
  unfold byte_of_Z. pose proof (Z_of_byte_range b).
  rewrite Z.mod_small by lia. unfold Z_of_byte. rewrite N2Z.id.
  by rewrite Byte.of_to_N.
Qed.

Lemma Z_of_byte_inj a b : Z_of_byte a = Z_of_byte b -> a = b.
Proof. intros E. rewrite <-(byte_of_Z_of_byte a), E. apply byte_of_Z_of_byte. Qed.

(** ** Machine integers

    A w-bit integer is a [Z]; a conversion wraps around. *)

Definition wrapU (w z : Z) : Z := z mod 2 ^ w.
Definition wrapS (w z : Z) : Z := (z + 2 ^ (w - 1)) mod 2 ^ w - 2 ^ (w - 1).

Definition uint16 := wrapU 16.
Definition uint32 := wrapU 32.
Definition uint64 := wrapU 64.
Definition int32 := wrapS 32.
Definition int64 := wrapS 64.

Definition MaxInt32 : Z := 2147483647.
Definition MaxInt64 : Z := 9223372036854775807.

Definition is_int32 (z : Z) : Prop := - 2147483648 <= z <= 2147483647.
Definition is_uint32 (z : Z) : Prop := 0 <= z < 4294967296.
Definition is_int64 (z : Z) : Prop :=
  - 9223372036854775808 <= z <= 9223372036854775807.

Ltac unfold_int :=
  unfold is_int32, is_uint32, is_int64, MaxInt32, MaxInt64, int32, int64,
    uint16, uint32, uint64, wrapU, wrapS in *;
  change (2 ^ 16) with 65536 in *;
  change (2 ^ (32 - 1)) with 2147483648 in *;
  change (2 ^ 32) with 4294967296 in *;
  change (2 ^ (64 - 1)) with 9223372036854775808 in *;
  change (2 ^ 64) with 18446744073709551616 in *.

Ltac int_lia := unfold_int; Z.div_mod_to_equations; lia.

Lemma int32_id z : is_int32 z -> int32 z = z.
Proof. intros. unfold_int. rewrite Z.mod_small; lia. Qed.
Lemma int64_id z : is_int64 z -> int64 z = z.
Proof. intros. unfold_int. rewrite Z.mod_small; lia. Qed.
Lemma uint32_id z : is_uint32 z -> uint32 z = z.
Proof. intros. unfold_int. rewrite Z.mod_small; lia. Qed.
Lemma int32_uint32 z : is_int32 z -> int32 (uint32 z) = z.
Proof. intros. int_lia. Qed.
Lemma int64_uint64 z : is_int64 z -> int64 (uint64 z) = z.
Proof. intros. int_lia. Qed.
Lemma int64_add_l a b : int64 (int64 a + b) = int64 (a + b).
Proof. int_lia. Qed.
Lemma uint32_range z : is_uint32 (uint32 z).
Proof. int_lia. Qed.
Lemma int32_range z : is_int32 (int32 z).
Proof. int_lia. Qed.
Lemma int64_range z : is_int64 (int64 z).
Proof. int_lia. Qed.

(** ** encoding/binary: fixed-width little- and big-endian integers *)

Fixpoint le_bytes (n : nat) (z : Z) : bytes :=
  match n with
  | O => []
  | S n => byte_of_Z z :: le_bytes n (z / 256)
  end.

Fixpoint of_le (l : bytes) : Z :=
  match l with
  | [] => 0
  | b :: l => Z_of_byte b + 256 * of_le l
  end.

Definition be_bytes (n : nat) (z : Z) : bytes := rev (le_bytes n z).
Definition of_be (l : bytes) : Z := of_le (rev l).

Lemma length_le_bytes n z : length (le_bytes n z) = n.
Proof. revert z; induction n; intros; simpl; auto. Qed.

Lemma length_be_bytes n z : length (be_bytes n z) = n.
Proof. unfold be_bytes. by rewrite length_rev, length_le_bytes. Qed.

Lemma of_le_bytes n z : of_le (le_bytes n z) = z mod 256 ^ Z.of_nat n.
Proof.
  revert z; induction n as [|n IH]; intros z; simpl.
  - by rewrite Z.mod_1_r.
  - rewrite IH, Z_of_byte_of_Z, Nat2Z.inj_succ, Z.pow_succ_r by lia.
    rewrite Z.rem_mul_r by (try lia; apply Z.pow_nonzero; lia). lia.
Qed.

Lemma of_le_range l : 0 <= of_le l < 256 ^ Z.of_nat (length l).
Proof.
  induction l as [|b l IH]; [simpl; lia|].
  cbn [length of_le]. rewrite Nat2Z.inj_succ, Z.pow_succ_r by lia.
  pose proof (Z_of_byte_range b). nia.
Qed.

Lemma of_le_inj l1 l2 : length l1 = length l2 -> of_le l1 = of_le l2 -> l1 = l2.
Proof.
  revert l2; induction l1 as [|a l1 IH]; intros [|b l2] Hl E; simpl in *; try lia; auto.
  pose proof (Z_of_byte_range a). pose proof (Z_of_byte_range b).
  assert (Z_of_byte a = Z_of_byte b /\ of_le l1 = of_le l2) as [Ha Ht] by lia.
  f_equal; [by apply Z_of_byte_inj|]. apply IH; [lia|done].
Qed.

Lemma of_be_bytes n z : of_be (be_bytes n z) = z mod 256 ^ Z.of_nat n.
Proof. unfold of_be, be_bytes. by rewrite rev_involutive, of_le_bytes. Qed.

Lemma of_be_inj l1 l2 : length l1 = length l2 -> of_be l1 = of_be l2 -> l1 = l2.
Proof.
  unfold of_be. intros Hl E. apply of_le_inj in E; [|by rewrite !length_rev].
  by rewrite <-(rev_involutive l1), E, rev_involutive.
Qed.

Lemma of_be_range l : 0 <= of_be l < 256 ^ Z.of_nat (length l).
Proof. unfold of_be. pose proof (of_le_range (rev l)). by rewrite length_rev in *. Qed.

Lemma of_le_app l1 l2 :
  of_le (l1 ++ l2) = of_le l1 + 256 ^ Z.of_nat (length l1) * of_le l2.
Proof.
  induction l1 as [|b l1 IH]; [cbn [app length of_le]; rewrite Z.pow_0_r; lia|].
  cbn [app length of_le]. rewrite IH, Nat2Z.inj_succ, Z.pow_succ_r by lia. lia.
Qed.

Lemma of_be_cons b l : of_be (b :: l) = 256 ^ Z.of_nat (length l) * Z_of_byte b + of_be l.
Proof. unfold of_be. simpl. rewrite of_le_app, length_rev. simpl. lia. Qed.

(** ** Byte strings: slices, prefixes and the order of [bytes.Compare] *)

(** [l[i:j]] for [i <= j <= len(l)]; the callers check the bound. *)
Definition slice (l : bytes) (i j : nat) : bytes := take (j - i) (drop i l).

Definition HasPrefix (l p : bytes) : bool := bool_decide (take (length p) l = p).
Definition HasSuffix (l p : bytes) : bool :=
  bool_decide (drop (length l - length p) l = p).

Lemma length_slice l i j : (i <= j <= length l)%nat -> length (slice l i j) = (j - i)%nat.
Proof. intros. unfold slice. rewrite length_take, length_drop. lia. Qed.

Lemma slice_app_l l1 l2 : slice (l1 ++ l2) 0 (length l1) = l1.
Proof. unfold slice. rewrite drop_0, Nat.sub_0_r. apply take_app_length. Qed.

Lemma slice_app_r l1 l2 i j :
  slice (l1 ++ l2) (length l1 + i) (length l1 + j) = slice l2 i j.
Proof. unfold slice. rewrite drop_app_add. f_equal. lia. Qed.

Lemma slice_mid l1 l2 l3 :
  slice (l1 ++ l2 ++ l3) (length l1) (length l1 + length l2) = l2.
Proof.
  replace (length l1) with (length l1 + 0)%nat at 1 by lia.
  rewrite slice_app_r. apply slice_app_l.
Qed.

Lemma HasPrefix_true l p : HasPrefix l p = true <-> exists l', l = p ++ l'.
Proof.
  unfold HasPrefix. rewrite bool_decide_eq_true. split.
  - intros E. exists (drop (length p) l). rewrite <-E at 1. by rewrite take_drop.
  - intros [l' ->]. apply take_app_length.
Qed.

Lemma HasPrefix_app p l : HasPrefix (p ++ l) p = true.
Proof. apply HasPrefix_true. eauto. Qed.

Fixpoint bytes_cmp (a b : bytes) : comparison :=
  match a, b with
  | [], [] => Eq
  | [], _ :: _ => Lt
  | _ :: _, [] => Gt
  | x :: a, y :: b =>
      match Z_of_byte x ?= Z_of_byte y with
      | Eq => bytes_cmp a b
      | c => c
      end
  end.

Definition bytes_lt (a b : bytes) : Prop := bytes_cmp a b = Lt.
Definition bytes_le (a b : bytes) : Prop := bytes_cmp a b <> Gt.

#[export] Instance bytes_lt_dec a b : Decision (bytes_lt a b).
Proof. unfold bytes_lt. destruct (bytes_cmp a b); [right|left|right]; done. Defined.
#[export] Instance bytes_le_dec : RelDecision bytes_le.
Proof. intros a b. unfold bytes_le, Decision. destruct (bytes_cmp a b); [left|left|right]; congruence. Defined.

Lemma bytes_cmp_refl a : bytes_cmp a a = Eq.
Proof. induction a; simpl; [done|]. by rewrite Z.compare_refl. Qed.

Lemma bytes_cmp_eq a b : bytes_cmp a b = Eq <-> a = b.
Proof.
  split; [|intros ->; apply bytes_cmp_refl].
  revert b; induction a as [|x a IH]; intros [|y b]; simpl; try done.
  destruct (Z.compare_spec (Z_of_byte x) (Z_of_byte y)) as [E| |]; try done.
  intros H. f_equal; [by apply Z_of_byte_inj|auto].
Qed.

Lemma bytes_cmp_antisym a b : bytes_cmp b a = CompOpp (bytes_cmp a b).
Proof.
  revert b; induction a as [|x a IH]; intros [|y b]; simpl; try done.
  rewrite (Z.compare_antisym (Z_of_byte x) (Z_of_byte y)).
  destruct (Z_of_byte x ?= Z_of_byte y); simpl; auto.
Qed.

Lemma bytes_lt_trans a b c : bytes_lt a b -> bytes_lt b c -> bytes_lt a c.
Proof.
  unfold bytes_lt. revert b c; induction a as [|x a IH]; intros [|y b] [|z c]; simpl; try done.
  destruct (Z.compare_spec (Z_of_byte x) (Z_of_byte y)) as [E1|E1|E1],
    (Z.compare_spec (Z_of_byte y) (Z_of_byte z)) as [E2|E2|E2],
    (Z.compare_spec (Z_of_byte x) (Z_of_byte z)) as [E3|E3|E3]; try done; try lia.
  apply IH.
Qed.

Lemma bytes_lt_irrefl a : ~ bytes_lt a a.
Proof. unfold bytes_lt. by rewrite bytes_cmp_refl. Qed.

Lemma bytes_le_lt_or_eq a b : bytes_le a b -> bytes_lt a b \/ a = b.
Proof.
  unfold bytes_le, bytes_lt. destruct (bytes_cmp a b) eqn:E; auto; [|done].
  intros _. right. by apply bytes_cmp_eq.
Qed.

#[export] Instance bytes_lt_transitive : Transitive bytes_lt.
Proof. intros a b c. apply bytes_lt_trans. Qed.

#[export] Instance bytes_le_total : Total bytes_le.
Proof.
  intros a b. unfold bytes_le. rewrite (bytes_cmp_antisym a b).
  destruct (bytes_cmp a b); simpl; [left|left|right]; done.
Qed.

#[export] Instance bytes_le_transitive : Transitive bytes_le.
Proof.
  intros a b c H1 H2.
  destruct (bytes_le_lt_or_eq _ _ H1) as [L1| ->]; [|done].
  destruct (bytes_le_lt_or_eq _ _ H2) as [L2| <-]; [|done].
  unfold bytes_le. pose proof (bytes_lt_trans _ _ _ L1 L2) as E.
  unfold bytes_lt in E. by rewrite E.
Qed.

(** Equal-length big-endian prefixes compare as the integers they encode. *)
Lemma bytes_cmp_be l1 l2 a b :
  length l1 = length l2 ->
  bytes_cmp (l1 ++ a) (l2 ++ b) =
  match of_be l1 ?= of_be l2 with Eq => bytes_cmp a b | c => c end.
Proof.
  revert l2; induction l1 as [|x l1 IH]; intros [|y l2] Hl; try (simpl in *; lia); [done|].
  rewrite !of_be_cons. cbn [app bytes_cmp]. injection Hl as Hl. rewrite IH by done.
  pose proof (of_be_range l1) as R1. pose proof (of_be_range l2) as R2. rewrite Hl in *.
  set (p := 256 ^ Z.of_nat (length l2)) in *.
  destruct (Z.compare_spec (Z_of_byte x) (Z_of_byte y)) as [E|L|L].
  - rewrite E. replace (p * Z_of_byte y + of_be l1 ?= p * Z_of_byte y + of_be l2)
      with (of_be l1 ?= of_be l2); [done|].
    by rewrite Z.add_compare_mono_l.
  - symmetry. replace (_ ?= _) with Lt; [done|]. symmetry. apply Z.compare_lt_iff. nia.
  - symmetry. replace (_ ?= _) with Gt; [done|]. symmetry. apply Z.compare_gt_iff. nia.
Qed.

(** ** Errors and results

    An error keeps the literal of its message; arguments of the format are
    dropped.  [EWrap] is [fmt.Errorf("...: %w", err)]: it keeps its cause, which
    [errors.Is] looks through, and so does [EJoin], [errors.Join].  [EPanic] is a
    run-time panic. *)

#[warnings="-register-all"]
Inductive error :=
  | ErrNameNotFound
  | EMsg (msg : string)
  | EWrap (msg : string) (cause : error)
  | EJoin (causes : list error)
  | EPanic (msg : string).

(** [errors.Is(err, namedb.ErrNameNotFound)] *)
Fixpoint is_not_found (e : error) : bool :=
  match e with
  | ErrNameNotFound => true
  | EWrap _ c => is_not_found c
  | EJoin cs => existsb is_not_found cs
  | _ => false
  end.

(** An error that stands for a panic. *)
Fixpoint panics (e : error) : bool :=
  match e with
  | EPanic _ => true
  | EWrap _ c => panics c
  | EJoin cs => existsb panics cs
  | _ => false
  end.

Inductive res (A : Type) := Ok (a : A) | Err (e : error).
Arguments Ok {A} a.
Arguments Err {A} e.

Lemma Ok_inj {A} (a b : A) : Ok a = Ok b -> a = b.
Proof. congruence. Qed.

#[export] Instance res_ret : MRet res := fun A a => Ok a.
#[export] Instance res_bind : MBind res :=
  fun A B f r => match r with Ok a => f a | Err e => Err e end.

Definition is_ok {A} (r : res A) : bool := match r with Ok _ => true | Err _ => false end.
Definition wrap_err {A} (msg : string) (r : res A) : res A :=
  match r with Ok a => Ok a | Err e => Err (EWrap msg e) end.
Definition option_res {A} (e : error) (o : option A) : res A :=
  match o with Some a => Ok a | None => Err e end.
(** [if !cond { return err }] *)
Definition check (b : bool) (e : error) : res unit := if b then Ok tt else Err e.

(** ** Go's [range] over a map

    [for k, v := range m]: the order is not specified. *)

Class MapRange := {
  range : forall {K V : Type} `{Countable K}, gmap K V -> list (K * V);
  range_perm : forall {K V : Type} `{Countable K} (m : gmap K V), range m ≡ₚ map_to_list m;
}.

#[export] Instance SomeRange : MapRange := {
  range K V _ _ m := map_to_list m;
  range_perm K V _ _ m := Permutation_refl _;
}.

(** ** Stateful operations: explicit state, early return on an error.

    The state is kept on an error, as a Go method keeps the writes it made
    before it returned. *)

Definition M (S A : Type) : Type := S -> res A * S.

#[export] Instance M_ret {S} : MRet (M S) := fun A a s => (Ok a, s).
#[export] Instance M_bind {S} : MBind (M S) :=
  fun A B f m s =>
    match m s with
    | (Ok a, s') => f a s'
    | (Err e, s') => (Err e, s')
    end.

Definition fail {S A} (e : error) : M S A := fun s => (Err e, s).
Definition get {S} : M S S := fun s => (Ok s, s).
Definition modify {S} (f : S -> S) : M S unit := fun s => (Ok tt, f s).
Definition lift {S A} (r : res A) : M S A := fun s => (r, s).
(** [x, err := m()]: the caller looks at the error itself. *)
Definition try {S A} (m : M S A) : M S (res A) :=
  fun s => let '(r, s') := m s in (Ok r, s').
Definition wrapM {S A} (msg : string) (m : M S A) : M S A :=
  fun s => let '(r, s') := m s in (wrap_err msg r, s').
(** [for _, x := range l { if err := f(x); err != nil { return err } }] *)
Fixpoint forM {S A} (l : list A) (f : A -> M S unit) : M S unit :=
  match l with
  | [] => mret tt
  | x :: l => f x ;; forM l f
  end.
(** An operation on a part of the state. *)
Definition zoom {S T A} (g : S -> T) (p : T -> S -> S) (m : M T A) : M S A :=
  fun s => let '(r, t) := m (g s) in (r, p t s).

(** Weakest precondition: [Q] of a normal return, [E] of an error. *)
Definition wp {S A} (m : M S A) (Q : A -> S -> Prop) (E : error -> S -> Prop) (s : S) : Prop :=
  match m s with
  | (Ok a, s') => Q a s'
  | (Err e, s') => E e s'
  end.

Lemma wp_ret {S A} (a : A) Q E (s : S) : wp (mret a) Q E s <-> Q a s.
Proof. done. Qed.

Lemma wp_bind {S A B} (m : M S A) (f : A -> M S B) Q E s :
  wp (m ≫= f) Q E s <-> wp m (fun a s' => wp (f a) Q E s') E s.
Proof. unfold wp, mbind, M_bind. destruct (m s) as [[]]; done. Qed.

Lemma wp_mono {S A} (m : M S A) (Q Q' : A -> S -> Prop) (E E' : error -> S -> Prop) s :
  wp m Q E s -> (forall a s', Q a s' -> Q' a s') -> (forall e s', E e s' -> E' e s') ->
  wp m Q' E' s.
Proof. unfold wp. destruct (m s) as [[]]; eauto. Qed.

Lemma wp_true {S A} (m : M S A) s : wp m (fun _ _ => True) (fun _ _ => True) s.
Proof. unfold wp. by destruct (m s) as [[]]. Qed.

Lemma wp_fail {S A} e (Q : A -> S -> Prop) E s : wp (fail e) Q E s <-> E e s.
Proof. done. Qed.
Lemma wp_get {S} (Q : S -> S -> Prop) E s : wp get Q E s <-> Q s s.
Proof. done. Qed.
Lemma wp_modify {S} f (Q : unit -> S -> Prop) E s : wp (modify f) Q E s <-> Q tt (f s).
Proof. done. Qed.
Lemma wp_lift {S A} (r : res A) Q E (s : S) :
  wp (lift r) Q E s <-> match r with Ok a => Q a s | Err e => E e s end.
Proof. unfold wp, lift. destruct r; done. Qed.
Lemma wp_try {S A} (m : M S A) Q E s :
  wp (try m) Q E s <-> wp m (fun a => Q (Ok a)) (fun e => Q (Err e)) s.
Proof. unfold wp, try. destruct (m s) as [[]]; done. Qed.
Lemma wp_wrapM {S A} msg (m : M S A) Q E s :
  wp (wrapM msg m) Q E s <-> wp m Q (fun e => E (EWrap msg e)) s.
Proof. unfold wp, wrapM. destruct (m s) as [[]]; done. Qed.
Lemma wp_zoom {S T A} (g : S -> T) (p : T -> S -> S) (m : M T A) Q E s :
  wp (zoom g p m) Q E s <-> wp m (fun a t => Q a (p t s)) (fun e t => E e (p t s)) (g s).
Proof. unfold wp, zoom. destruct (m (g s)) as [[]]; done. Qed.

(** The loop rule: an invariant indexed by what the loop has done. *)
Lemma wp_forM {S A} (I : list A -> S -> Prop) (f : A -> M S unit) (l : list A) E :
  (forall done x rest s, l = done ++ x :: rest -> I done s ->
     wp (f x) (fun _ => I (done ++ [x])) E s) ->
  forall s, I [] s -> wp (forM l f) (fun _ => I l) E s.
Proof.
  intros H. cut (forall rest done s, l = done ++ rest -> I done s ->
    wp (forM rest f) (fun _ => I l) E s).
  { intros C s Hs. by apply (C l []). }
  induction rest as [|x rest IH]; intros done s Hl Hs; simpl.
  - apply wp_ret. rewrite app_nil_r in Hl. by subst.
  - apply wp_bind. eapply wp_mono; [by eapply H| |done].
    intros [] s' Hs'. apply (IH (done ++ [x])); [|done].
    by rewrite <-app_assoc.
Qed.

Lemma forM_fmap {S A C} (g : C -> A) (l : list C) (f : A -> M S unit) :
  forM (g <$> l) f = forM l (fun x => f (g x)).
Proof. induction l as [|x l IH]; [done|]. cbn [fmap list_fmap forM]. by rewrite IH. Qed.

(** A computation that returns [a] and leaves [s']. *)
Lemma wp_ok_iff {S A} (m : M S A) (P : A -> S -> Prop) s :
  wp m P (fun _ _ => False) s <-> exists a s', m s = (Ok a, s') /\ P a s'.
Proof.
  unfold wp. destruct (m s) as [[a|e] s'] eqn:Em; split.
  - intros. eauto.
  - by intros (? & ? & [= -> ->] & ?).
  - done.
  - by intros (? & ? & ? & ?).
Qed.

Create Rewrite HintDb wp.
#[export] Hint Rewrite @wp_ret @wp_bind @wp_fail @wp_get @wp_modify @wp_lift @wp_try
  @wp_wrapM @wp_zoom : wp.

(** ** Parts of the state that a computation leaves alone *)

Definition keeps {S T A} (f : S -> T) (m : M S A) : Prop := forall s, f (m s).2 = f s.

Create HintDb keeps.

Section keeps.
Context {S T : Type} (f : S -> T).

Lemma keeps_ret {A} (a : A) : keeps f (mret a).
Proof. done. Qed.
Lemma keeps_fail {A} e : keeps f (@fail S A e).
Proof. done. Qed.
Lemma keeps_get : keeps f get.
Proof. done. Qed.
Lemma keeps_lift {A} (r : res A) : keeps f (lift r).
Proof. done. Qed.
Lemma keeps_modify g : (forall s, f (g s) = f s) -> keeps f (modify g).
Proof. intros H s. apply H. Qed.
Lemma keeps_bind {A C} (m : M S A) (k : A -> M S C) :
  keeps f m -> (forall a, keeps f (k a)) -> keeps f (m ≫= k).
Proof.
  intros Hm Hk s. specialize (Hm s). unfold mbind, M_bind. destruct (m s) as [[a|e] s']; [|done].
  simpl in Hm. by rewrite Hk.
Qed.
Lemma keeps_try {A} (m : M S A) : keeps f m -> keeps f (try m).
Proof. intros Hm s. specialize (Hm s). unfold try. by destruct (m s). Qed.
Lemma keeps_wrapM {A} msg (m : M S A) : keeps f m -> keeps f (wrapM msg m).
Proof. intros Hm s. specialize (Hm s). unfold wrapM. by destruct (m s). Qed.
Lemma keeps_zoom {U A} (g : S -> U) p (m : M U A) :
  (forall s, f (p (m (g s)).2 s) = f s) -> keeps f (zoom g p m).
Proof. intros H s. specialize (H s). unfold zoom. by destruct (m (g s)). Qed.
Lemma keeps_forM {A} (l : list A) k : (forall x, keeps f (k x)) -> keeps f (forM l k).
Proof. intros H. induction l as [|x l IH]; [apply keeps_ret|]. by apply keeps_bind. Qed.
Lemma wp_keeps {A} (m : M S A) Q E s : keeps f m ->
  (forall a s', f s' = f s -> Q a s') -> (forall e s', f s' = f s -> E e s') -> wp m Q E s.
Proof. intros Hm HQ HE. specialize (Hm s). unfold wp. destruct (m s) as [[a|e] s']; simpl in Hm; auto. Qed.
End keeps.

#[export] Hint Resolve keeps_ret keeps_fail keeps_get keeps_lift keeps_try keeps_wrapM keeps_forM : keeps.

(** Goes through the structure of a computation. *)
Ltac keeps_auto :=
  repeat (intros; cbv beta iota zeta; first
    [ solve [auto 3 with keeps nocore]
    | apply keeps_bind | apply keeps_try | apply keeps_wrapM | apply keeps_forM
    | match goal with |- keeps _ (match ?x with _ => _ end) => destruct x end ]).

(** ** Filters of lists *)

Lemma filter_fmap_strong {A C} (P : C -> Prop) `{forall x, Decision (P x)} (Q : A -> Prop)
    `{forall x, Decision (Q x)} (f : A -> C) (l : list A) :
  (forall x, x ∈ l -> P (f x) <-> Q x) -> filter P (f <$> l) = f <$> filter Q l.
Proof.
  induction l as [|x l IH]; intros HPQ; [done|]. cbn [fmap list_fmap]. rewrite !filter_cons.
  rewrite IH by set_solver. pose proof (HPQ x ltac:(set_solver)).
  destruct (decide (P (f x))), (decide (Q x)); try done; tauto.
Qed.

Lemma filter_strong {A} (P Q : A -> Prop) `{forall x, Decision (P x)} `{forall x, Decision (Q x)} (l : list A) :
  (forall x, x ∈ l -> P x <-> Q x) -> filter P l = filter Q l.
Proof.
  intros HPQ. pose proof (filter_fmap_strong P Q id l HPQ) as E. by rewrite !list_fmap_id in E.
Qed.

Lemma filter_all {A} (P : A -> Prop) `{forall x, Decision (P x)} (l : list A) :
  (forall x, x ∈ l -> P x) -> filter P l = l.
Proof.
  induction l as [|x l IH]; intros HP; [done|]. rewrite filter_cons_True by set_solver.
  by rewrite IH by set_solver.
Qed.

Lemma Forall_filter_2 {A} (P Q : A -> Prop) `{forall x, Decision (P x)} (l : list A) :
  Forall Q l -> Forall Q (filter P l).
Proof. rewrite !Forall_forall. intros HQ x Hx. apply list_elem_of_filter in Hx as [_ Hx]. auto. Qed.

(** Removing the last element of a list without repetitions. *)
Lemma filter_last {A} `{EqDecision A} (l : list A) x : NoDup l -> last l = Some x ->
  filter (fun y => y <> x) l = take (length l - 1) l.
Proof.
  intros Hn Hl. apply last_Some in Hl as [l' ->]. apply NoDup_app in Hn as (_ & Hd & _).
  rewrite filter_app, length_app. simpl. replace (length l' + 1 - 1)%nat with (length l') by lia.
  rewrite take_app_length. rewrite filter_cons_False by auto. rewrite filter_nil, app_nil_r.
  apply filter_all. set_solver.
Qed.

(** [for k, v := range m { if old(v) { delete(m, k) } }] keeps the entries that are not
    old, in any order of the map. *)
Lemma foldl_delete_range {R : MapRange} {K V : Type} `{Countable K} (old : V -> bool) (m : gmap K V) :
  foldl (fun m '(k, v) => if old v then delete k m else m) m (range m) =
  filter (fun p => old p.2 = false) m.
Proof.
  assert (forall (l : list (K * V)) (m : gmap K V) h,
    foldl (fun m '(k, v) => if old v then delete k m else m) m l !! h =
    (if bool_decide (Exists (fun p => p.1 = h /\ old p.2 = true) l) then None else m !! h)) as F.
  { induction l as [|[k e] l IH]; intros m' h; simpl; [done|]. rewrite IH. clear IH.
    destruct (decide (Exists (fun p : K * V => p.1 = h /\ old p.2 = true) l)) as [Ex|Nx].
    - rewrite !bool_decide_true; [done|by apply Exists_cons_tl|done].
    - rewrite (bool_decide_false (Exists _ l)) by done. destruct (old e) eqn:Eo.
      + destruct (decide (k = h)) as [->|]; [|rewrite lookup_delete_ne by done].
        * rewrite lookup_delete_eq, bool_decide_true; [done|]. by apply Exists_cons_hd.
        * rewrite bool_decide_false; [done|]. rewrite Exists_cons. simpl. naive_solver.
      + rewrite bool_decide_false; [done|]. rewrite Exists_cons. simpl. naive_solver congruence. }
  apply map_eq. intros h. rewrite F, map_lookup_filter.
  assert (Exists (fun p => p.1 = h /\ old p.2 = true) (range m) <->
    exists e, m !! h = Some e /\ old e = true) as Hex.
  { rewrite Exists_exists. split.
    - intros ([k e] & He & <- & Eo). rewrite range_perm in He. apply elem_of_map_to_list in He. eauto.
    - intros (e & He & Eo). exists (h, e). split; [|done]. rewrite range_perm. by apply elem_of_map_to_list. }
  case_bool_decide as Hb; rewrite Hex in Hb.
  - destruct Hb as (e & -> & Eo). simpl. rewrite option_guard_False; [done|]. simpl. by rewrite Eo.
  - destruct (m !! h) as [e|] eqn:E; [|done]. simpl. rewrite option_guard_True; [done|]. simpl.
    destruct (old e) eqn:Eo; [naive_solver|done].
Qed.
