(* ===== verification/Clock.v ===== *)
(** * Instants and durations

    Go's package time, as the network and the RPC server use it: an instant is its
    number of nanoseconds since some origin (the monotonic reading), a
    [time.Duration] is an int64 number of nanoseconds. *)

From S2P Require Import Prelude.

Definition Second : Z := 1000000000.
Definition Minute : Z := 60 * Second.
Definition Hour : Z := 60 * Minute.

Definition MinInt64 : Z := - 9223372036854775808.

(** [t.Sub(u)], which saturates at the ends of int64. *)
Definition Sub (t u : Z) : Z :=
  if MaxInt64 <? t - u then MaxInt64 else if t - u <? MinInt64 then MinInt64 else t - u.

(** [t.Before(u)] and [t.After(u)] *)
Definition Before (t u : Z) : bool := t <? u.
Definition After (t u : Z) : bool := u <? t.

Lemma Sub_small t u : is_int64 (t - u) -> Sub t u = t - u.
Proof. unfold Sub, MinInt64, is_int64, MaxInt64. intros. repeat case_match; lia. Qed.

Lemma Sub_int64 t u : is_int64 (Sub t u).
Proof. unfold Sub, MinInt64, is_int64, MaxInt64. repeat case_match; lia. Qed.

(** A duration below the largest is exceeded exactly when the instants are that far
    apart: saturation never hides it. *)
Lemma Sub_gt t u d : MinInt64 <= d < MaxInt64 -> (Sub t u >? d) = (t - u >? d).
Proof.
  unfold Sub, MinInt64, MaxInt64. intros. repeat case_match; lia.
Qed.

Lemma Sub_mono t t' u : t <= t' -> Sub t u <= Sub t' u.
Proof. unfold Sub, MinInt64, MaxInt64. intros. repeat case_match; lia. Qed.
