(* ===== verification/Float.v ===== *)
(** * float64

    Go's float64 as the Standard Library's IEEE 754 binary64 (SpecFloat: round to
    nearest, ties to even).  Operations are rounded one by one, as on amd64, where
    the compiler does not fuse a product with a sum.  The lemmas say when an
    operation cannot give a NaN, how large its exponent can grow, and that the
    comparisons order all other values as the integers [key] does. *)

From Stdlib Require Import Floats.SpecFloat.
From S2P Require Import Prelude Clock.

Abbreviation float64 := spec_float.

Definition fadd : float64 -> float64 -> float64 := SFadd 53 1024.
Definition fsub : float64 -> float64 -> float64 := SFsub 53 1024.
Definition fmul : float64 -> float64 -> float64 := SFmul 53 1024.
Definition fdiv : float64 -> float64 -> float64 := SFdiv 53 1024.
Definition feq : float64 -> float64 -> bool := SFeqb.
Definition flt : float64 -> float64 -> bool := SFltb.
Definition fle : float64 -> float64 -> bool := SFleb.

(** [float64(z)], and the decimal literal n/d: the nearest value. *)
Definition of_int (z : Z) : float64 := binary_normalize 53 1024 z 0 false.
Definition lit (n d : Z) : float64 := fdiv (of_int n) (of_int d).

(** [Duration.Seconds] and [Duration.Minutes] *)
Definition Seconds (d : Z) : float64 :=
  fadd (of_int (Z.quot d Second)) (fdiv (of_int (Z.rem d Second)) (of_int 1000000000)).
Definition Minutes (d : Z) : float64 :=
  fadd (of_int (Z.quot d Minute)) (fdiv (of_int (Z.rem d Minute)) (of_int (60 * 1000000000))).

#[global] Arguments fadd : simpl never.
#[global] Arguments fsub : simpl never.
#[global] Arguments fmul : simpl never.
#[global] Arguments fdiv : simpl never.
#[global] Arguments of_int : simpl never.
#[global] Arguments Minutes : simpl never.
#[global] Arguments Seconds : simpl never.

(** ** Well-formed values *)

(** A significand and exponent in canonical form: 53 bits, unless the exponent is
    the least. *)
Definition canonical (m e : Z) : Prop :=
  m < 2 ^ 53 /\ -1074 <= e <= 971 /\ (e = -1074 \/ 2 ^ 52 <= m).

(** A number: no NaN, in canonical form. *)
Definition number (x : float64) : Prop :=
  match x with
  | S754_nan => False
  | S754_finite _ m e => canonical (Zpos m) e
  | _ => True
  end.

(** A finite number with exponent at most [E]. *)
Definition finite_le (E : Z) (x : float64) : Prop :=
  number x /\ match x with
              | S754_finite _ _ e => e <= E
              | S754_zero _ => True
              | _ => False
              end.

Definition finite (x : float64) : Prop := finite_le 971 x.

(** ** Rounding *)

Lemma digits2_pos_spec p : 2 ^ (Zpos (digits2_pos p) - 1) <= Zpos p < 2 ^ Zpos (digits2_pos p).
Proof.
  induction p as [p IH|p IH|]; cbn [digits2_pos]; [| |done].
  all: rewrite Pos2Z.inj_succ; replace (Z.succ _ - 1) with (Z.succ (Zpos (digits2_pos p) - 1)) by lia;
    rewrite !Z.pow_succ_r by lia; lia.
Qed.

Lemma Zdigits2_upper m : 0 <= m -> m < 2 ^ Zdigits2 m.
Proof. destruct m as [|p|p]; [done| |lia]. intros _. apply digits2_pos_spec. Qed.

Lemma Zdigits2_le m k : 0 <= m -> m < 2 ^ k -> 0 <= k -> Zdigits2 m <= k.
Proof.
  destruct m as [|p|p]; simpl; [lia| |lia]. intros _ H Hk.
  pose proof (proj1 (digits2_pos_spec p)) as L.
  destruct (Z.le_gt_cases (Zpos (digits2_pos p)) k); [done|].
  assert (2 ^ k <= 2 ^ (Zpos (digits2_pos p) - 1)) by (apply Z.pow_le_mono_r; lia). lia.
Qed.

Lemma shr_1_m r : 0 <= shr_m r -> shr_m (shr_1 r) = shr_m r / 2.
Proof.
  destruct r as [m r s]. destruct m as [|p|p]; simpl; [done| |lia].
  intros _. destruct p as [p|p|]; simpl; [|f_equal|done].
  - rewrite (Pos2Z.inj_xI p). Z.div_mod_to_equations. lia.
  - rewrite (Pos2Z.inj_xO p). Z.div_mod_to_equations. lia.
Qed.

Lemma iter_shr_m p r : 0 <= shr_m r -> shr_m (SpecFloat.iter_pos shr_1 p r) = shr_m r / 2 ^ Zpos p.
Proof.
  assert (forall r n, 0 <= shr_m r -> 0 <= shr_m r / 2 ^ Zpos n) as P.
  { intros r' n H. apply Z.div_pos; [done|]. apply Z.pow_pos_nonneg; lia. }
  revert r. induction p as [p IH|p IH|]; intros r H; cbn [SpecFloat.iter_pos].
  - assert (0 <= shr_m (shr_1 r)) as H1.
    { rewrite shr_1_m by done. apply Z.div_pos; lia. }
    rewrite IH by (rewrite IH by done; by apply P). rewrite IH, shr_1_m by done.
    rewrite !Z.div_div by (try lia; apply Z.pow_pos_nonneg; lia). f_equal.
    rewrite <-!Z.pow_add_r by lia. rewrite <-(Z.pow_1_r 2) at 1. rewrite <-!Z.pow_add_r by lia. f_equal. lia.
  - rewrite IH by (rewrite IH by done; by apply P). rewrite IH by done.
    rewrite Z.div_div by (try lia; apply Z.pow_pos_nonneg; lia). f_equal.
    rewrite <-Z.pow_add_r by lia. f_equal. lia.
  - by rewrite shr_1_m.
Qed.

(** The normalization: the exponent it picks, and what fits below it. *)
Lemma shr_fexp_spec m e l r e' : 0 <= m -> shr_fexp 53 1024 m e l = (r, e') ->
  0 <= shr_m r < 2 ^ 53 /\ shr_m r <= m /\ e' = Z.max e (Z.max (Zdigits2 m + e - 53) (-1074)) /\
  shr_m r = m / 2 ^ (e' - e).
Proof.
  intros Hm. unfold shr_fexp, fexp, emin. change (3 - 1024 - 53) with (-1074).
  pose proof (Zdigits2_upper m Hm) as Hu.
  assert (shr_m (shr_record_of_loc m l) = m) as El by (by destruct l as [|[]]).
  set (k := Z.max (Zdigits2 m + e - 53) (-1074)) in *.
  destruct (k - e) as [|p|p] eqn:Ek; cbn [shr]; intros [= <- <-]; rewrite ?El.
  - replace (e - e) with 0 by lia. rewrite Z.div_1_r. split_and!; try lia.
    eapply Z.lt_le_trans; [exact Hu|]. apply Z.pow_le_mono_r; lia.
  - rewrite iter_shr_m by (by rewrite El). rewrite El. replace (e + Zpos p - e) with (Zpos p) by lia.
    assert (0 < 2 ^ Zpos p) by (apply Z.pow_pos_nonneg; lia).
    split_and!; try lia.
    + by apply Z.div_pos.
    + apply Z.div_lt_upper_bound; [done|]. rewrite <-Z.pow_add_r by lia.
      eapply Z.lt_le_trans; [exact Hu|]. apply Z.pow_le_mono_r; lia.
    + by apply Z.div_le_upper_bound; nia.
  - replace (e - e) with 0 by lia. rewrite Z.div_1_r. split_and!; try lia.
    eapply Z.lt_le_trans; [exact Hu|]. apply Z.pow_le_mono_r; lia.
Qed.

Lemma round_nearest_even_range m l : 0 <= m -> m <= round_nearest_even m l <= m + 1.
Proof. intros. destruct l as [|[]]; simpl; try case_match; lia. Qed.

(** The rounded value: a number of the given sign, whose exponent is bounded by the
    size of what is rounded. *)
Definition rounded (neg : bool) (bound : Z) (x : float64) : Prop :=
  match x with
  | S754_zero s => s = neg
  | S754_finite s m e => s = neg /\ canonical (Zpos m) e /\ e <= bound
  | S754_infinity s => s = neg /\ 971 < bound
  | S754_nan => False
  end.

Lemma rounded_mono neg b b' x : b <= b' -> rounded neg b x -> rounded neg b' x.
Proof. intros H. destruct x; simpl; try done; intros; destruct_and?; split_and?; try done; lia. Qed.

Lemma rounded_number neg b x : rounded neg b x -> number x.
Proof. destruct x; simpl; tauto. Qed.

Lemma rounded_finite neg b x : b <= 971 -> rounded neg b x -> finite_le b x.
Proof. intros H. unfold finite_le. destruct x; simpl; try tauto; try lia. Qed.

Lemma round_aux_spec s m e l k : 0 <= m < 2 ^ k -> 0 <= k -> (e <= -1074 \/ 2 ^ 52 <= m) ->
  rounded s (Z.max e (Z.max (k + e - 53) (-1074)) + 1) (binary_round_aux 53 1024 s m e l).
Proof.
  intros [Hm Hk] Hk0 Hlow. unfold binary_round_aux.
  destruct (shr_fexp 53 1024 m e l) as [r e1] eqn:E1.
  apply shr_fexp_spec in E1 as (B1 & _ & D1 & Q1); [|done].
  pose proof (round_nearest_even_range (shr_m r) (loc_of_shr_record r) ltac:(lia)) as Hr.
  set (m1 := round_nearest_even (shr_m r) (loc_of_shr_record r)) in *. clearbody m1.
  destruct (shr_fexp 53 1024 m1 e1 loc_Exact) as [r2 e2] eqn:E2.
  apply shr_fexp_spec in E2 as (B2 & _ & D2 & Q2); [|lia].
  pose proof (Zdigits2_le m k Hm Hk Hk0). pose proof (Zdigits2_le m1 54 ltac:(lia) ltac:(lia) ltac:(lia)).
  assert (e2 = -1074 \/ 2 ^ 52 <= shr_m r2) as Hc.
  { destruct (decide (m1 = 2 ^ 53)) as [->|].
    { change (Zdigits2 (2 ^ 53)) with 54 in *. right. rewrite Q2. replace (e2 - e1) with 1 by lia. done. }
    pose proof (Zdigits2_le m1 53 ltac:(lia) ltac:(lia) ltac:(lia)).
    replace (e2 - e1) with 0 in Q2 by lia. rewrite Z.div_1_r in Q2.
    destruct (decide (e1 = -1074)); [left; lia|right].
    rewrite Q2. etransitivity; [|apply Hr]. rewrite Q1.
    destruct m as [|p|p]; [exfalso; simpl in D1; lia| |lia]. pose proof (proj1 (digits2_pos_spec p)) as L.
    change (Zdigits2 (Zpos p)) with (Zpos (digits2_pos p)) in *.
    pose proof (proj2 (digits2_pos_spec p)) as U.
    assert (53 <= Zpos (digits2_pos p)).
    { destruct (Z.le_gt_cases 53 (Zpos (digits2_pos p))); [done|]. destruct Hlow as [Hlow|Hlow]; [lia|].
      assert (2 ^ Zpos (digits2_pos p) <= 2 ^ 52) by (apply Z.pow_le_mono_r; lia). lia. }
    apply Z.div_le_lower_bound; [apply Z.pow_pos_nonneg; lia|]. rewrite <-Z.pow_add_r by lia.
    etransitivity; [|exact L]. apply Z.pow_le_mono_r; lia. }
  destruct (shr_m r2) as [|p|p]; [done| |lia].
  change (1024 - 53) with 971. destruct (Z.leb_spec e2 971); unfold rounded, canonical; split_and!; try done; lia.
Qed.

Lemma shl_align_value m e e' : shl_align m e e' = (m, e) \/
  e' < e /\ Zpos (fst (shl_align m e e')) = Zpos m * 2 ^ (e - e') /\ snd (shl_align m e e') = e'.
Proof.
  unfold shl_align. destruct (e' - e) as [|p|p] eqn:E; [by left..|right]. split; [lia|]. simpl. split; [|done].
  replace (e - e') with (Zpos p) by lia. clear E. revert m. induction p using Pos.peano_ind; intros m.
  - simpl. change (2 ^ 1) with 2. lia.
  - rewrite Pos.iter_succ, Pos2Z.inj_succ, Z.pow_succ_r by lia. rewrite (Pos2Z.inj_xO (Pos.iter _ _ _)). rewrite IHp. lia.
Qed.

Lemma round_spec s p e k : Zpos p < 2 ^ k -> 0 <= k ->
  rounded s (Z.max e (Z.max (k + e - 53) (-1074)) + 1) (binary_round 53 1024 s p e).
Proof.
  intros Hp Hk. unfold binary_round.
  set (x := fexp 53 1024 (Zpos (digits2_pos p) + e)).
  pose proof (Zdigits2_le (Zpos p) k ltac:(lia) Hp Hk) as Hd. simpl in Hd.
  pose proof (digits2_pos_spec p) as [L U].
  assert (x = Z.max (Zpos (digits2_pos p) + e - 53) (-1074)) as Ex by done.
  assert (e <= x /\ (e <= -1074 \/ 2 ^ 52 <= Zpos p) \/ x < e) as [[? Hc]|Hx].
  { destruct (Z.le_gt_cases e x); [left|by right]. split; [done|].
    destruct (Z.le_gt_cases e (-1074)); [by left|right]. etransitivity; [|exact L]. apply Z.pow_le_mono_r; lia. }
  - destruct (shl_align_value p e x) as [-> |(? & _)]; [by apply round_aux_spec|lia].
  - destruct (shl_align_value p e x) as [E|(_ & Ev & Es)].
    { exfalso. unfold shl_align in E. destruct (x - e) eqn:D; [lia..|]. injection E as _ E. lia. }
    destruct (shl_align p e x) as [mz ez]. simpl in *. subst ez.
    apply (rounded_mono _ (Z.max x (Z.max (k + (e - x) + x - 53) (-1074)) + 1)); [lia|].
    apply round_aux_spec; [| lia|].
    + split; [lia|]. rewrite Z.pow_add_r, Ev by lia. apply Z.mul_lt_mono_pos_r; [apply Z.pow_pos_nonneg; lia|done].
    + destruct (Z.le_gt_cases x (-1074)); [by left|right]. rewrite Ev.
      transitivity (2 ^ (Zpos (digits2_pos p) - 1) * 2 ^ (e - x)).
      * rewrite <-Z.pow_add_r by lia. apply Z.pow_le_mono_r; lia.
      * apply Z.mul_le_mono_nonneg_r; [|done]. apply Z.pow_nonneg. lia.
Qed.

Lemma normalize_spec v e k z : Z.abs v < 2 ^ k -> 0 <= k -> v <> 0 ->
  rounded (v <? 0) (Z.max e (Z.max (k + e - 53) (-1074)) + 1) (binary_normalize 53 1024 v e z).
Proof. intros Hv Hk H0. destruct v as [|p|p]; [done|by apply round_spec..]. Qed.

(** ** Operations on numbers *)

Lemma finite_number E x : finite_le E x -> number x.
Proof. by intros []. Qed.

Lemma finite_le_weaken E E' x : E <= E' -> finite_le E x -> finite_le E' x.
Proof. intros H [Hn Hf]. split; [done|]. destruct x; try done. lia. Qed.

Lemma finite_le_finite E x : finite_le E x -> finite x.
Proof. intros [Hn Hf]. split; [done|]. destruct x; try done. unfold number, canonical in Hn. lia. Qed.

Lemma normalize_finite v e k E z : Z.abs v < 2 ^ k -> 0 <= k -> e <= E -> k + e <= E + 54 -> -1074 <= E ->
  number (binary_normalize 53 1024 v e z) /\
  (E + 2 <= 971 -> finite_le (E + 2) (binary_normalize 53 1024 v e z)).
Proof.
  intros Hv Hk H1 H2 H3. destruct (decide (v = 0)) as [->|H0]; [done|].
  pose proof (normalize_spec v e k z Hv Hk H0) as S. apply (rounded_mono _ _ (E + 2)) in S; [|lia].
  split; [by eapply rounded_number|]. intros. by eapply rounded_finite.
Qed.

(** The significands on the smaller of the two exponents. *)
Lemma aligned_value m e ez : ez <= e -> Zpos (fst (shl_align m e ez)) = Zpos m * 2 ^ (e - ez).
Proof.
  intros H. destruct (shl_align_value m e ez) as [E|(_ & E & _)]; [|done].
  rewrite E. simpl. destruct (decide (e = ez)) as [->|].
  - replace (ez - ez) with 0 by lia. lia.
  - exfalso. unfold shl_align in E. destruct (ez - e) eqn:D; [lia..|]. injection E as _ E. lia.
Qed.

Lemma aligned_bound s m e ez E : Zpos m < 2 ^ 53 -> ez <= e <= E ->
  Z.abs (cond_Zopp s (Zpos (fst (shl_align m e ez)))) < 2 ^ (53 + (E - ez)).
Proof.
  intros Hm He. replace (Z.abs _) with (Zpos (fst (shl_align m e ez))) by (destruct s; simpl; lia).
  rewrite aligned_value by lia. rewrite Z.pow_add_r by lia.
  apply Z.le_lt_trans with (Zpos m * 2 ^ (E - ez)).
  - apply Z.mul_le_mono_nonneg_l; [lia|]. apply Z.pow_le_mono_r; lia.
  - apply Z.mul_lt_mono_pos_r; [|done]. apply Z.pow_pos_nonneg; lia.
Qed.

(** The sum of two aligned significands, rounded. *)
Lemma aligned_sum_finite s1 m1 e1 s2 m2 e2 E v : Zpos m1 < 2 ^ 53 -> Zpos m2 < 2 ^ 53 ->
  -1074 <= e1 <= E -> -1074 <= e2 <= E ->
  let ez := Z.min e1 e2 in
  v = cond_Zopp s1 (Zpos (fst (shl_align m1 e1 ez))) + cond_Zopp s2 (Zpos (fst (shl_align m2 e2 ez))) ->
  number (binary_normalize 53 1024 v ez false) /\
  (E + 2 <= 971 -> finite_le (E + 2) (binary_normalize 53 1024 v ez false)).
Proof.
  intros B1 B2 H1 H2 ez Ev. apply (normalize_finite _ _ (54 + (E - ez))); try lia.
  pose proof (aligned_bound s1 m1 e1 ez E B1 ltac:(lia)).
  pose proof (aligned_bound s2 m2 e2 ez E B2 ltac:(lia)).
  replace (54 + (E - ez)) with (Z.succ (53 + (E - ez))) by lia. rewrite Z.pow_succ_r by lia. lia.
Qed.

Lemma fadd_finite E x y : finite_le E x -> finite_le E y ->
  number (fadd x y) /\ (E + 2 <= 971 -> finite_le (E + 2) (fadd x y)).
Proof.
  intros [Nx Fx] [Ny Fy]. destruct x as [sx|sx| |sx mx ex], y as [sy|sy| |sy my ey]; try done.
  - split; [by destruct sx, sy|]. intros. by destruct sx, sy.
  - split; [done|]. intros. split; [done|]. simpl in *. lia.
  - split; [done|]. intros. split; [done|]. simpl in *. lia.
  - unfold number, canonical in Nx, Ny. unfold fadd. cbn [SFadd].
    apply (aligned_sum_finite sx mx ex sy my ey); try done; lia.
Qed.

Lemma cond_Zopp_negb s v : cond_Zopp (negb s) v = - cond_Zopp s v.
Proof. destruct s; simpl; lia. Qed.

Lemma fsub_finite E x y : finite_le E x -> finite_le E y ->
  number (fsub x y) /\ (E + 2 <= 971 -> finite_le (E + 2) (fsub x y)).
Proof.
  intros [Nx Fx] [Ny Fy]. destruct x as [sx|sx| |sx mx ex], y as [sy|sy| |sy my ey]; try done.
  - split; [by destruct sx, sy|]. intros. by destruct sx, sy.
  - split; [done|]. intros. split; [done|]. simpl in *. lia.
  - split; [done|]. intros. split; [done|]. simpl in *. lia.
  - unfold number, canonical in Nx, Ny. unfold fsub. cbn [SFsub].
    apply (aligned_sum_finite sx mx ex (negb sy) my ey); try done; try lia.
    rewrite cond_Zopp_negb. lia.
Qed.

Lemma fadd_number x y : number x -> number y -> finite x \/ finite y -> number (fadd x y).
Proof.
  intros Nx Ny F. assert (finite x /\ finite y \/ number (fadd x y)) as [[Fx Fy]|];
    [|exact (proj1 (fadd_finite 971 x y Fx Fy))|done].
  unfold finite, finite_le in *.
  destruct x as [sx|sx| |sx mx ex], y as [sy|sy| |sy my ey]; unfold number, canonical in *;
    first [by right|left; lia|by destruct F as [[_ []]|[_ []]]].
Qed.

Lemma fsub_number x y : number x -> number y -> finite x \/ finite y -> number (fsub x y).
Proof.
  intros Nx Ny F. assert (finite x /\ finite y \/ number (fsub x y)) as [[Fx Fy]|];
    [|exact (proj1 (fsub_finite 971 x y Fx Fy))|done].
  unfold finite, finite_le in *.
  destruct x as [sx|sx| |sx mx ex], y as [sy|sy| |sy my ey]; unfold number, canonical in *;
    first [by right|left; lia|by destruct F as [[_ []]|[_ []]]].
Qed.

(** A finite number that is not zero. *)
Definition nonzero (x : float64) : Prop :=
  match x with S754_finite _ m e => canonical (Zpos m) e | _ => False end.

(** The product of significands, rounded. *)
Lemma product_rounded s mx ex my ey : canonical (Zpos mx) ex -> canonical (Zpos my) ey ->
  rounded s (Z.max (ex + ey + 53) (-1074) + 1)
    (binary_round_aux 53 1024 s (Zpos (mx * my)) (ex + ey) loc_Exact).
Proof.
  unfold canonical. intros Hx Hy.
  assert (Zpos (mx * my) < 2 ^ 106).
  { rewrite Pos2Z.inj_mul. change (2 ^ 106) with (2 ^ 53 * 2 ^ 53). nia. }
  eapply rounded_mono; [|apply (round_aux_spec _ _ _ _ 106); [lia..|]]; [lia|].
  destruct (decide (ex = -1074)) as [->|]; [|right; rewrite Pos2Z.inj_mul; nia].
  destruct (decide (ey = -1074)) as [->|]; [left; lia|right; rewrite Pos2Z.inj_mul; nia].
Qed.

Lemma fmul_number_both x y : number x -> nonzero y -> number (fmul x y) /\ number (fmul y x).
Proof.
  intros Nx Ny. destruct y as [sy|sy| |sy my ey]; try done.
  destruct x as [sx|sx| |sx mx ex]; try done. unfold fmul. cbn [SFmul].
  rewrite (Pos.mul_comm my mx), (Z.add_comm ey ex), (xorb_comm sy sx).
  split; (eapply rounded_number, product_rounded; done).
Qed.

Lemma fmul_number x y : number x -> nonzero y -> number (fmul x y).
Proof. intros Nx Ny. exact (proj1 (fmul_number_both x y Nx Ny)). Qed.

Lemma fmul_number_l x y : nonzero x -> number y -> number (fmul x y).
Proof. intros Nx Ny. exact (proj2 (fmul_number_both y x Ny Nx)). Qed.

Lemma fmul_finite E E' x y : finite_le E x -> finite_le E' y -> -1074 <= E + E' + 53 ->
  E + E' + 54 <= 971 -> finite_le (E + E' + 54) (fmul x y).
Proof.
  intros [Nx Fx] [Ny Fy] H1 H2. destruct x as [sx|sx| |sx mx ex], y as [sy|sy| |sy my ey]; try done.
  unfold fmul. cbn [SFmul]. apply (rounded_finite (xorb sx sy)); [done|].
  eapply rounded_mono; [|by apply product_rounded]. lia.
Qed.

Lemma of_int_finite z : is_int64 z -> finite_le 12 (of_int z).
Proof.
  intros Hz. unfold of_int. destruct (decide (z = 0)) as [->|H0]; [done|].
  apply (rounded_finite (z <? 0)); [done|].
  apply (normalize_spec z 0 64 false); [unfold is_int64 in Hz; lia|done..].
Qed.

(** The quotient of the shifted significands, and how large it is. *)
Lemma div_core_spec m1 e1 m2 e2 q e l : Zpos m1 < 2 ^ 53 ->
  SFdiv_core_binary 53 1024 (Zpos m1) e1 (Zpos m2) e2 = (q, e, l) ->
  0 <= q < 2 ^ (53 + (e1 - e2 - e)) /\ e <= e1 - e2 /\ (e <= -1074 \/ 2 ^ 52 <= q).
Proof.
  intros Hm E. unfold SFdiv_core_binary in E. cbv zeta in E. cbn [Zdigits2] in E.
  pose proof (digits2_pos_spec m1) as [L1 _]. pose proof (digits2_pos_spec m2) as [_ U2].
  set (d1 := Zpos (digits2_pos m1)) in *. set (d2 := Zpos (digits2_pos m2)) in *.
  assert (d1 <= 53) as H1 by (apply (Zdigits2_le (Zpos m1) 53); lia).
  set (e' := Z.min _ (e1 - e2)) in E.
  assert (e' <= e1 - e2 /\ (e' <= -1074 \/ e' = d1 + e1 - (d2 + e2) - 53)) as [He Hc].
  { unfold e', fexp, emin. lia. }
  clearbody e'. match type of E with context [Z.div_eucl ?a ?b] =>
    assert (a = Zpos m1 * 2 ^ (e1 - e2 - e')) as Ea; [|rewrite Ea in E] end.
  { destruct (e1 - e2 - e') as [|p|p] eqn:Es; [lia| |lia]. rewrite Z.shiftl_mul_pow2 by lia. done. }
  set (a := Zpos m1 * 2 ^ (e1 - e2 - e')) in *.
  assert (0 < 2 ^ (e1 - e2 - e')) by (apply Z.pow_pos_nonneg; lia).
  assert (q = a / Zpos m2 /\ e = e') as [-> ->].
  { unfold Z.div. destruct (Z.div_eucl a (Zpos m2)). by injection E as -> <- _. }
  split_and!; [apply Z.div_pos; unfold a; lia| |done|].
  - apply Z.div_lt_upper_bound; [done|]. rewrite Z.pow_add_r by lia. unfold a. nia.
  - destruct Hc as [Hc|Hc]; [by left|right]. apply Z.div_le_lower_bound; [done|].
    transitivity (2 ^ d2 * 2 ^ 52); [nia|]. unfold a.
    transitivity (2 ^ (d1 - 1) * 2 ^ (e1 - e2 - e')); [|nia].
    rewrite <-!Z.pow_add_r by lia. apply Z.pow_le_mono_r; lia.
Qed.

Lemma fdiv_finite E E' x y : finite_le E x -> nonzero y ->
  (forall s m e, y = S754_finite s m e -> E' <= e) -> -1074 <= E - E' -> E - E' + 1 <= 971 ->
  finite_le (E - E' + 1) (fdiv x y).
Proof.
  intros [Nx Fx] Ny Hy H1 H2. destruct y as [sy|sy| |sy my ey]; try done.
  specialize (Hy _ _ _ eq_refl). destruct x as [sx|sx| |sx mx ex]; try done. unfold fdiv. cbn [SFdiv].
  destruct (SFdiv_core_binary 53 1024 (Zpos mx) ex (Zpos my) ey) as [[q e] l] eqn:Eq.
  apply div_core_spec in Eq as (Hq & He & Hl); [|apply Nx].
  apply (rounded_finite (xorb sx sy)); [done|].
  eapply rounded_mono; [|apply (round_aux_spec _ q e l _ Hq); [lia|done]]. lia.
Qed.

Lemma rem_int64 d k : 0 < k -> is_int64 d -> is_int64 (Z.rem d k) /\ is_int64 (Z.quot d k).
Proof.
  unfold is_int64. intros Hk H. pose proof (Z.quot_rem' d k) as E.
  rewrite (Z.quot_div d k), (Z.rem_mod d k) in * by lia.
  rewrite (Z.sgn_pos k), (Z.abs_eq k), Z.mul_1_r in * by lia.
  pose proof (Z.div_pos (Z.abs d) k). pose proof (Z.div_le_upper_bound (Z.abs d) k (Z.abs d) Hk).
  pose proof (Z.mod_pos_bound (Z.abs d) k Hk). pose proof (Z.mod_le (Z.abs d) k).
  destruct (Z.sgn_spec d) as [[? ->]|[[? ->]|[? ->]]]; nia.
Qed.

(** ** The order

    On numbers the comparisons are those of integers. *)

Definition key (x : float64) : Z :=
  match x with
  | S754_zero _ | S754_nan => 0
  | S754_infinity s => (if s then -1 else 1) * (3000 * 2 ^ 53)
  | S754_finite s m e => (if s then -1 else 1) * ((e + 1074) * 2 ^ 53 + Zpos m)
  end.

Lemma key_compare x y : number x -> number y -> SFcompare x y = Some (key x ?= key y).
Proof.
  assert (forall a b, (a < b -> (a ?= b) = Lt) /\ (b < a -> (a ?= b) = Gt)) as C.
  { intros a b. split; [apply Z.compare_lt_iff|apply Z.compare_gt_iff]. }
  intros Nx Ny. destruct x as [sx|sx| |sx mx ex], y as [sy|sy| |sy my ey]; try done; unfold number, canonical in Nx, Ny;
    cbn [SFcompare key].
  all: try (destruct sx; try destruct sy; try done; f_equal; symmetry; apply C; lia).
  all: try (destruct sy; try done; f_equal; symmetry; apply C; lia).
  change (Pos.compare_cont Eq mx my) with (mx ?= my)%positive.
  destruct sx, sy; f_equal; symmetry.
  - destruct (Z.compare_spec ex ey) as [->|?|?]; [|apply C; nia..].
    rewrite Pos.compare_antisym, CompOpp_involutive.
    change (my ?= mx)%positive with (Zpos my ?= Zpos mx).
    destruct (Z.compare_spec (Zpos my) (Zpos mx)) as [E|?|?]; [rewrite E; apply Z.compare_refl|apply C; lia..].
  - apply C. lia.
  - apply C. lia.
  - destruct (Z.compare_spec ex ey) as [->|?|?]; [|apply C; nia..].
    change (mx ?= my)%positive with (Zpos mx ?= Zpos my).
    destruct (Z.compare_spec (Zpos mx) (Zpos my)) as [E|?|?]; [rewrite E; apply Z.compare_refl|apply C; lia..].
Qed.

Lemma flt_key x y : number x -> number y -> flt x y = (key x <? key y).
Proof. intros. unfold flt, SFltb, Z.ltb. rewrite key_compare by done. by destruct (key x ?= key y). Qed.

Lemma fle_key x y : number x -> number y -> fle x y = (key x <=? key y).
Proof. intros. unfold fle, SFleb, Z.leb. rewrite key_compare by done. by destruct (key x ?= key y). Qed.

(** A number between finite bounds is finite, with their exponents. *)
Lemma finite_between E lo hi x : finite_le E lo -> finite_le E hi -> -1074 <= E -> number x ->
  key lo <= key x <= key hi -> finite_le E x.
Proof.
  intros [Nl Fl] [Nh Fh] HE Nx H. split; [done|].
  destruct x as [s|s| |s m e]; try done; unfold number, canonical in *.
  - destruct s; [destruct lo as [|[]| |[] ? ?]|destruct hi as [|[]| |[] ? ?]]; simpl in *; try done; lia.
  - destruct s; [destruct lo as [|[]| |[] ? ?]|destruct hi as [|[]| |[] ? ?]]; simpl in *; try done; nia.
Qed.

Lemma rounded_nonneg b x : rounded false b x -> 0 <= key x.
Proof.
  destruct x as [s|s| |s m e]; simpl; unfold canonical; try done.
  - by intros [-> _].
  - intros (-> & ? & ?). lia.
Qed.

Lemma normalize_nonneg v e k : 0 <= v < 2 ^ k -> 0 <= k ->
  0 <= key (binary_normalize 53 1024 v e false).
Proof.
  intros Hv Hk. destruct (decide (v = 0)) as [->|H0]; [done|].
  eapply rounded_nonneg. rewrite <-(proj2 (Z.ltb_ge v 0)) by lia. by apply (normalize_spec v e k); [lia|..].
Qed.

Lemma of_int_nonneg z : 0 <= z -> is_int64 z -> 0 <= key (of_int z).
Proof. intros H1 H2. apply (normalize_nonneg z 0 64); unfold is_int64 in *; lia. Qed.

Lemma key_nonneg_sign s m e : number (S754_finite s m e) -> 0 <= key (S754_finite s m e) -> s = false.
Proof. unfold number, canonical. intros [? ?]. simpl. destruct s; [lia|done]. Qed.

Lemma fmul_nonneg x y : number x -> number y -> 0 <= key x -> 0 <= key y -> 0 <= key (fmul x y).
Proof.
  intros Nx Ny Hx Hy. destruct x as [sx|sx| |sx mx ex], y as [sy|sy| |sy my ey]; try done; unfold fmul; cbn [SFmul].
  all: try (apply key_nonneg_sign in Hx; [|done]); try (apply key_nonneg_sign in Hy; [|done]); subst.
  all: try (destruct sx; [simpl in Hx; lia|]); try (destruct sy; [simpl in Hy; lia|]); try (simpl; lia).
  by eapply rounded_nonneg, product_rounded.
Qed.

Lemma fadd_nonneg x y : number x -> number y -> 0 <= key x -> 0 <= key y -> 0 <= key (fadd x y).
Proof.
  intros Nx Ny Hx Hy. destruct x as [sx|sx| |sx mx ex], y as [sy|sy| |sy my ey]; try done; unfold fadd; cbn [SFadd].
  all: try (by destruct sx, sy).
  apply key_nonneg_sign in Hx, Hy; [|done..]. subst. cbn [cond_Zopp]. unfold number, canonical in Nx, Ny.
  apply (normalize_nonneg _ _ (54 + (971 - Z.min ex ey))); [|lia].
  pose proof (aligned_bound false mx ex (Z.min ex ey) 971 ltac:(lia) ltac:(lia)) as A1.
  pose proof (aligned_bound false my ey (Z.min ex ey) 971 ltac:(lia) ltac:(lia)) as A2.
  simpl in A1, A2. replace (54 + (971 - Z.min ex ey)) with (Z.succ (53 + (971 - Z.min ex ey))) by lia.
  rewrite Z.pow_succ_r by lia. lia.
Qed.

(** Facts on literals, by evaluation. *)
Ltac float_const := vm_compute; repeat match goal with |- _ /\ _ => split end;
  first [done|by left|by right].

Lemma Seconds_finite d : is_int64 d -> finite_le 38 (Seconds d).
Proof.
  intros Hd. destruct (rem_int64 d Second ltac:(done) Hd) as [H1 H2].
  apply (fadd_finite 36); [|apply (fdiv_finite 12 (-23))|done].
  - apply (finite_le_weaken 12); [done|]. by apply of_int_finite.
  - by apply of_int_finite.
  - float_const.
  - intros s m e. vm_compute. by intros [= _ _ <-].
  - done.
  - done.
Qed.

Lemma Minutes_finite d : is_int64 d -> finite_le 38 (Minutes d).
Proof.
  intros Hd. destruct (rem_int64 d Minute ltac:(done) Hd) as [H1 H2].
  apply (fadd_finite 36); [|apply (finite_le_weaken 30); [done|apply (fdiv_finite 12 (-17))]|done].
  - apply (finite_le_weaken 12); [done|]. by apply of_int_finite.
  - by apply of_int_finite.
  - float_const.
  - intros s m e. vm_compute. by intros [= _ _ <-].
  - done.
  - done.
Qed.

(** ** Differences, and integers without rounding *)

Lemma digits_unique p d : 2 ^ (d - 1) <= Zpos p < 2 ^ d -> Zpos (digits2_pos p) = d.
Proof.
  intros [L U]. pose proof (digits2_pos_spec p) as [L' U'].
  destruct (Z.lt_trichotomy (Zpos (digits2_pos p)) d) as [H|[H|H]]; [|done|].
  - assert (2 ^ Zpos (digits2_pos p) <= 2 ^ (d - 1)) by (apply Z.pow_le_mono_r; lia). lia.
  - destruct (Z.lt_ge_cases d 0); [by rewrite Z.pow_neg_r in U by lia|].
    assert (2 ^ d <= 2 ^ (Zpos (digits2_pos p) - 1)) by (apply Z.pow_le_mono_r; lia). lia.
Qed.

Lemma digits_shift p q k : 0 <= k -> Zpos q = Zpos p * 2 ^ k ->
  Zpos (digits2_pos q) = Zpos (digits2_pos p) + k.
Proof.
  intros Hk E. apply digits_unique. pose proof (digits2_pos_spec p) as [L U].
  replace (Zpos (digits2_pos p) + k - 1) with (Zpos (digits2_pos p) - 1 + k) by lia.
  rewrite !Z.pow_add_r by lia. assert (0 < 2 ^ k) by (apply Z.pow_pos_nonneg; lia). nia.
Qed.

(** Shifting out zeros loses nothing. *)
Lemma shr_exact p q : 0 <= q ->
  SpecFloat.iter_pos shr_1 p (Build_shr_record (q * 2 ^ Zpos p) false false) = Build_shr_record q false false.
Proof.
  assert (forall n, 0 <= n -> shr_1 (Build_shr_record (2 * n) false false) = Build_shr_record n false false) as S.
  { intros n Hn. by destruct n. }
  revert q. induction p as [p IH|p IH|]; intros q Hq; cbn [SpecFloat.iter_pos].
  - assert (0 < 2 ^ Zpos p) by (apply Z.pow_pos_nonneg; lia).
    replace (q * 2 ^ Zpos p~1) with (2 * (q * 2 ^ Zpos p * 2 ^ Zpos p)).
    + rewrite S by nia. rewrite !IH by nia. done.
    + rewrite (Pos2Z.inj_xI p). replace (2 * Zpos p + 1) with (Z.succ (Zpos p + Zpos p)) by lia.
      rewrite Z.pow_succ_r, Z.pow_add_r by lia. lia.
  - assert (0 < 2 ^ Zpos p) by (apply Z.pow_pos_nonneg; lia).
    replace (q * 2 ^ Zpos p~0) with (q * 2 ^ Zpos p * 2 ^ Zpos p).
    + by rewrite !IH by nia.
    + rewrite (Pos2Z.inj_xO p). replace (2 * Zpos p) with (Zpos p + Zpos p) by lia. rewrite Z.pow_add_r by lia. lia.
  - rewrite Z.pow_1_r, Z.mul_comm. by apply S.
Qed.

Lemma shr_fexp_exact q e k : 0 <= q -> 0 <= k ->
  fexp 53 1024 (Zdigits2 (q * 2 ^ k) + e) <= e + k ->
  (k <> 0 -> fexp 53 1024 (Zdigits2 (q * 2 ^ k) + e) = e + k) ->
  shr_fexp 53 1024 (q * 2 ^ k) e loc_Exact = (Build_shr_record q false false, e + k).
Proof.
  intros Hq Hk Hle Heq. unfold shr_fexp, shr. cbn [shr_record_of_loc].
  destruct (decide (k = 0)) as [->|Hk0].
  - rewrite Z.pow_0_r, Z.mul_1_r in *. rewrite Z.add_0_r in *.
    destruct (fexp 53 1024 (Zdigits2 q + e) - e) eqn:E; [done|lia|done].
  - rewrite Heq by done. destruct k as [|p|p]; [done| |lia].
    replace (e + Zpos p - e) with (Zpos p) by lia. by rewrite shr_exact.
Qed.

(** An exact value: the significand is shifted to the canonical exponent. *)
Lemma round_aux_exact s q e k : 0 <= k -> canonical (Zpos q) (e + k) ->
  fexp 53 1024 (Zdigits2 (Zpos q * 2 ^ k) + e) = e + k ->
  binary_round_aux 53 1024 s (Zpos q * 2 ^ k) e loc_Exact = S754_finite s q (e + k).
Proof.
  intros Hk (Hq & He & _) Hf. unfold binary_round_aux.
  rewrite (shr_fexp_exact (Zpos q) e k) by (lia || auto with lia). cbn [shr_m loc_of_shr_record round_nearest_even].
  pose proof (Zdigits2_le (Zpos q) 53 ltac:(lia) Hq ltac:(lia)).
  pose proof (shr_fexp_exact (Zpos q) (e + k) 0 ltac:(lia) ltac:(lia)) as E2.
  rewrite !Z.pow_0_r, !Z.mul_1_r, !Z.add_0_r in E2. rewrite E2 by (unfold fexp, emin; lia).
  cbn [shr_m]. change (1024 - 53) with 971. by rewrite (proj2 (Z.leb_le _ _)) by lia.
Qed.

(** Rounding down to a bound: nothing below a number rounds above it. *)
Lemma round_aux_le m e m1 e1 : 0 <= m -> canonical (Zpos m1) e1 -> e <= e1 ->
  m <= Zpos m1 * 2 ^ (e1 - e) -> e <= fexp 53 1024 (Zdigits2 m + e) ->
  key (binary_round_aux 53 1024 false m e loc_Exact) <= key (S754_finite false m1 e1).
Proof.
  intros Hm Hc He Hle Hx. pose proof Hc as (Hm1 & He1 & Hn1).
  assert (0 < 2 ^ (e1 - e)) as Hp by (apply Z.pow_pos_nonneg; lia).
  pose proof (digits2_pos_spec m1) as [L1 U1]. set (d1 := Zpos (digits2_pos m1)) in *.
  assert (d1 <= 53) as Hd1 by (apply (Zdigits2_le (Zpos m1) 53); lia).
  assert (Zdigits2 m <= d1 + (e1 - e)) as Hd.
  { apply Zdigits2_le; [done| |lia]. rewrite Z.pow_add_r by lia. nia. }
  assert (e1 = -1074 \/ d1 = 53) as Hd53.
  { destruct Hn1 as [|Hn1]; [by left|right]. apply digits_unique. lia. }
  unfold binary_round_aux. destruct (shr_fexp 53 1024 m e loc_Exact) as [r x] eqn:E1.
  assert (r = Build_shr_record (m / 2 ^ (x - e)) false false \/ (m / 2 ^ (x - e)) * 2 ^ (x - e) < m) as Hex.
  { pose proof (shr_fexp_spec _ _ _ _ _ Hm E1) as (_ & _ & Dx & _).
    assert (0 < 2 ^ (x - e)) by (apply Z.pow_pos_nonneg; lia).
    pose proof (Z.mul_div_le m (2 ^ (x - e)) ltac:(lia)).
    destruct (decide (m / 2 ^ (x - e) * 2 ^ (x - e) = m)) as [Em|]; [left|right; lia].
    unfold fexp, emin in Hx.
    assert (fexp 53 1024 (Zdigits2 m + e) = x) as Fx by (unfold fexp, emin; lia).
    pose proof (shr_fexp_exact (m / 2 ^ (x - e)) e (x - e) ltac:(apply Z.div_pos; lia) ltac:(lia)) as S.
    rewrite Em in S. rewrite S in E1 by (intros; lia). by injection E1 as <- _. }
  apply shr_fexp_spec in E1 as (B1 & _ & Dx & Q1); [|done].
  pose proof (round_nearest_even_range (shr_m r) (loc_of_shr_record r) ltac:(lia)) as Hr.
  assert (x <= e1) as Hxe by lia.
  assert (0 < 2 ^ (x - e)) as Hp' by (apply Z.pow_pos_nonneg; lia).
  assert (x = e1 -> round_nearest_even (shr_m r) (loc_of_shr_record r) <= Zpos m1) as Htop.
  { intros ->. destruct Hex as [Er|Hlt].
    - rewrite Er. cbn [shr_m loc_of_shr_record round_nearest_even]. apply Z.div_le_upper_bound; lia.
    - assert (m / 2 ^ (e1 - e) < Zpos m1) by nia. lia. }
  set (m2 := round_nearest_even (shr_m r) (loc_of_shr_record r)) in *. clearbody m2.
  destruct (shr_fexp 53 1024 m2 x loc_Exact) as [r2 x2] eqn:E2.
  apply shr_fexp_spec in E2 as (B2 & L2 & D2 & Q2); [|lia].
  pose proof (Zdigits2_le m2 54 ltac:(lia) ltac:(lia) ltac:(lia)).
  assert (x2 = x /\ shr_m r2 = m2 \/ m2 = 2 ^ 53 /\ x2 = x + 1 /\ shr_m r2 = 2 ^ 52) as Hx2.
  { destruct (decide (m2 = 2 ^ 53)) as [->|].
    - right. change (Zdigits2 (2 ^ 53)) with 54 in D2. assert (x2 = x + 1) as -> by lia.
      split_and!; [done..|]. rewrite Q2. replace (x + 1 - x) with 1 by lia. done.
    - pose proof (Zdigits2_le m2 53 ltac:(lia) ltac:(lia) ltac:(lia)). left.
      assert (x2 = x) as -> by lia. split; [done|]. rewrite Q2, Z.sub_diag. apply Z.div_1_r. }
  destruct (shr_m r2) as [|q|q] eqn:Er2; [simpl; lia| |lia].
  change (1024 - 53) with 971. rewrite (proj2 (Z.leb_le _ _)) by lia. cbn [key].
  assert (Zpos q < 2 ^ 53 /\ -1074 <= x) as [Hq Hx0] by lia. clear Hd Dx D2 Q1 Q2 Hx Hle Hex Hr B1 L2 L1 U1 Hd53.
  destruct (decide (x = e1)) as [->|].
  - specialize (Htop eq_refl). destruct Hx2 as [[-> E]|(-> & _)]; [rewrite E; lia|lia].
  - destruct Hx2 as [[-> _]|(_ & -> & E)]; [nia|].
    destruct (decide (x + 1 = e1)) as [<-|]; [rewrite E|]; nia.
Qed.

Lemma canonical_fexp m e : canonical (Zpos m) e -> fexp 53 1024 (Zpos (digits2_pos m) + e) = e.
Proof.
  intros (Hm & He & Hc). pose proof (digits2_pos_spec m) as [L U].
  pose proof (Zdigits2_le (Zpos m) 53 ltac:(lia) Hm ltac:(lia)) as Hd. simpl in Hd. unfold fexp, emin.
  destruct Hc as [->|Hc]; [lia|]. assert (Zpos (digits2_pos m) = 53) by (apply digits_unique; lia). lia.
Qed.

(** What [binary_round] hands to the rounding. *)
Lemma shl_align_cases p e x : x < e /\ (exists mz, shl_align p e x = (mz, x) /\
    Zpos mz = Zpos p * 2 ^ (e - x) /\ Zpos (digits2_pos mz) + x = Zpos (digits2_pos p) + e) \/
  e <= x /\ shl_align p e x = (p, e).
Proof.
  destruct (Z.lt_ge_cases x e) as [H|H].
  - left. split; [done|]. destruct (shl_align_value p e x) as [E|(_ & Ev & Es)].
    { exfalso. unfold shl_align in E. destruct (x - e) eqn:D; [lia..|]. injection E as _ E. lia. }
    destruct (shl_align p e x) as [mz ez]. simpl in *. subst ez. exists mz. split_and!; [done..|].
    rewrite (digits_shift p mz (e - x)); lia || done.
  - right. split; [done|]. unfold shl_align. destruct (x - e) eqn:D; [done..|lia].
Qed.

Lemma round_le p e m1 e1 : canonical (Zpos m1) e1 -> e <= e1 -> Zpos p <= Zpos m1 * 2 ^ (e1 - e) ->
  key (binary_round 53 1024 false p e) <= key (S754_finite false m1 e1).
Proof.
  intros Hc He Hp. pose proof (canonical_fexp _ _ Hc) as Hf.
  pose proof (digits2_pos_spec m1) as [_ U1].
  assert (Zpos (digits2_pos p) <= Zpos (digits2_pos m1) + (e1 - e)) as Hd.
  { apply (Zdigits2_le (Zpos p)); [lia| |lia]. rewrite Z.pow_add_r by lia.
    assert (0 < 2 ^ (e1 - e)) by (apply Z.pow_pos_nonneg; lia). nia. }
  unfold binary_round. set (x := fexp 53 1024 (Zpos (digits2_pos p) + e)).
  assert (x <= e1) as Hx by (unfold x; rewrite <-Hf; unfold fexp; lia).
  destruct (shl_align_cases p e x) as [[H (mz & -> & Ev & Ed)]|[H ->]]; apply round_aux_le; try done.
  - rewrite Ev. replace (e1 - x) with (e1 - e + (e - x)) by lia. rewrite Z.pow_add_r by lia.
    assert (0 < 2 ^ (e - x)) by (apply Z.pow_pos_nonneg; lia). nia.
  - cbn [Zdigits2]. by rewrite Ed.
Qed.

Lemma round_exact s p e q x : fexp 53 1024 (Zpos (digits2_pos p) + e) = x -> canonical (Zpos q) x ->
  (x <= e -> Zpos q = Zpos p * 2 ^ (e - x)) -> (e <= x -> Zpos p = Zpos q * 2 ^ (x - e)) ->
  binary_round 53 1024 s p e = S754_finite s q x.
Proof.
  intros Hf Hc H1 H2. unfold binary_round. rewrite Hf.
  destruct (shl_align_cases p e x) as [[H (mz & -> & Ev & Ed)]|[H ->]].
  - assert (Zpos mz = Zpos q * 2 ^ 0) as Eq by (rewrite H1, Ev by lia; lia).
    rewrite Eq. replace x with (x + 0) at 2 by lia. apply round_aux_exact; [lia|by rewrite Z.add_0_r|].
    rewrite Z.add_0_r, <-Eq. cbn [Zdigits2]. by rewrite Ed.
  - rewrite H2 by lia. replace x with (e + (x - e)) at 2 by lia.
    apply round_aux_exact; [lia|by replace (e + (x - e)) with x by lia|].
    rewrite <-H2 by lia. cbn [Zdigits2]. lia.
Qed.

(** Taking a smaller number away leaves a number between zero and the first. *)
Lemma fsub_between x y : number x -> number y -> finite x -> 0 <= key y <= key x ->
  number (fsub x y) /\ 0 <= key (fsub x y) <= key x.
Proof.
  intros Nx Ny Fx Hk. split; [by apply fsub_number; auto|].
  destruct x as [sx|sx| |sx mx ex], y as [sy|sy| |sy my ey]; try done; unfold fsub; cbn [SFsub];
    try (by destruct Fx); try (by destruct sx, sy); try (simpl in *; lia).
  { exfalso. destruct sy; simpl in Hk; lia. }
  { exfalso. unfold number, canonical in Ny. destruct sy; simpl in Hk; lia. }
  { exfalso. unfold number, canonical in Nx. destruct sx, sy; simpl in Hk; lia. }
  assert (sx = false /\ sy = false) as [-> ->].
  { split; [apply (key_nonneg_sign _ mx ex Nx)|exact (key_nonneg_sign _ my ey Ny (proj1 Hk))].
    exact (Z.le_trans _ _ _ (proj1 Hk) (proj2 Hk)). }
  cbn [cond_Zopp]. set (ez := Z.min ex ey). assert (ez <= ex /\ ez <= ey) as [Hx Hy] by lia.
  rewrite !aligned_value by lia. set (A := Zpos mx * 2 ^ (ex - ez)). set (B := Zpos my * 2 ^ (ey - ez)).
  assert (0 < 2 ^ (ex - ez) /\ 0 < 2 ^ (ey - ez)) as [P1 P2] by (split; apply Z.pow_pos_nonneg; lia).
  assert (0 < B <= A) as HAB.
  { split; [unfold B; lia|]. unfold number, canonical in Nx, Ny. simpl in Hk. unfold A, B, ez.
    destruct (Z.lt_trichotomy ex ey) as [H|[->|H]]; [nia| |].
    - rewrite Z.min_id. nia.
    - rewrite Z.min_r by lia. rewrite Z.sub_diag, Z.pow_0_r, Z.mul_1_r.
      replace (ex - ey) with (Z.succ (ex - ey - 1)) by lia. rewrite Z.pow_succ_r by lia.
      assert (0 < 2 ^ (ex - ey - 1)) by (apply Z.pow_pos_nonneg; lia). nia. }
  destruct (A - B) as [|p|p] eqn:E; [simpl; unfold number, canonical in Nx; lia| |lia].
  split.
  - apply (normalize_nonneg (Zpos p) ez (53 + (ex - ez))); [|lia]. split; [lia|].
    unfold number, canonical in Nx. rewrite Z.pow_add_r by lia. unfold A in *. nia.
  - apply round_le; [apply Nx|lia|unfold A in *; lia].
Qed.

(** Integers below 2^53 are exact. *)
Lemma of_int_exact z : 0 < z < 2 ^ 53 -> exists q, let d := Zdigits2 z in
  of_int z = S754_finite false q (d - 53) /\ Zpos q = z * 2 ^ (53 - d) /\ canonical (Zpos q) (d - 53) /\ 1 <= d <= 53.
Proof.
  intros Hz. destruct z as [|p|p]; [lia| |lia]. cbv zeta. cbn [Zdigits2]. set (d := Zpos (digits2_pos p)).
  pose proof (digits2_pos_spec p) as [L U]. fold d in L, U.
  assert (1 <= d <= 53) as Hd.
  { split; [lia|]. apply (Zdigits2_le (Zpos p)); lia. }
  assert (0 < 2 ^ (53 - d)) as Hp by (apply Z.pow_pos_nonneg; lia).
  exists (Z.to_pos (Zpos p * 2 ^ (53 - d))). rewrite Z2Pos.id by lia.
  assert (canonical (Zpos p * 2 ^ (53 - d)) (d - 53)) as Hc.
  { split_and!; [|lia|lia|right].
    - replace 53 with (d + (53 - d)) at 2 by lia. rewrite Z.pow_add_r by lia. nia.
    - transitivity (2 ^ (d - 1) * 2 ^ (53 - d)); [|nia]. rewrite <-Z.pow_add_r by lia. apply Z.pow_le_mono_r; lia. }
  split_and!; try done; try lia. unfold of_int, binary_normalize.
  apply round_exact.
  - unfold fexp, emin. fold d. lia.
  - by rewrite Z2Pos.id by lia.
  - intros _. rewrite Z2Pos.id by lia. f_equal. f_equal. lia.
  - intros Hle. assert (d = 53) as Ed by lia. rewrite Z2Pos.id by lia. rewrite Ed. simpl. lia.
Qed.

Lemma of_int_pred z : 0 < z < 2 ^ 53 -> fsub (of_int z) (of_int 1) = of_int (z - 1).
Proof.
  intros Hz. destruct (of_int_exact z Hz) as (q & E & Eq & Hc & Hd). cbv zeta in *. rewrite E.
  change (of_int 1) with (S754_finite false 4503599627370496 (-52)). unfold fsub. cbn [SFsub cond_Zopp].
  set (d := Zdigits2 z) in *. replace (Z.min (d - 53) (-52)) with (-52) by lia.
  rewrite !aligned_value by lia. rewrite Eq. replace (-52 - -52) with 0 by lia. rewrite Z.pow_0_r.
  rewrite <-Z.mul_assoc, <-Z.pow_add_r by lia. replace (53 - d + (d - 53 - -52)) with 52 by lia.
  replace (z * 2 ^ 52 - 4503599627370496 * 1) with ((z - 1) * 2 ^ 52) by lia.
  destruct (decide (z = 1)) as [->|Hz1]; [done|].
  destruct (of_int_exact (z - 1) ltac:(lia)) as (q' & E' & Eq' & Hc' & Hd'). cbv zeta in *. rewrite E'.
  destruct (z - 1) as [|p|p] eqn:Ez; [lia| |lia]. set (d' := Zdigits2 (Zpos p)) in *.
  destruct (Zpos p * 2 ^ 52) as [|r|r] eqn:Er; [lia| |lia]. unfold binary_normalize. apply round_exact; [| done| |].
  - rewrite (digits_shift p r 52) by lia. change (Zpos (digits2_pos p)) with d'. unfold fexp, emin. lia.
  - intros Hle. assert (d' = 1) as Ed by lia. rewrite Eq', <-Er, Ed. simpl. lia.
  - intros Hle. rewrite <-Er, Eq', <-Z.mul_assoc, <-Z.pow_add_r by lia. f_equal. f_equal. lia.
Qed.
