(* ===== verification/Strings.v ===== *)
(** * Functions of Go's packages strings, net, path/filepath and unicode

    The functions on byte strings that the program uses, as the Standard Library of Go
    defines them; those that look at Unicode letters are at the end, over the tables of the
    language. *)

From S2P Require Import Prelude.

(** [strings.IndexByte] and [strings.LastIndexByte]; [None] is -1. *)
Fixpoint IndexByte (s : bytes) (c : byte) : option nat :=
  match s with
  | [] => None
  | b :: s => if decide (b = c) then Some 0%nat else S <$> IndexByte s c
  end.

Fixpoint LastIndexByte (s : bytes) (c : byte) : option nat :=
  match s with
  | [] => None
  | b :: s =>
      match LastIndexByte s c with
      | Some i => Some (S i)
      | None => if decide (b = c) then Some 0%nat else None
      end
  end.

(** [strings.Index]: the first occurrence of a substring. *)
Fixpoint Index (s sub : bytes) : option nat :=
  if HasPrefix s sub then Some 0%nat
  else match s with
       | [] => None
       | _ :: s => S <$> Index s sub
       end.

Definition Contains (s sub : bytes) : bool :=
  match Index s sub with Some _ => true | None => false end.

(** [strings.TrimPrefix] and [strings.TrimSuffix] *)
Definition TrimPrefix (s p : bytes) : bytes := if HasPrefix s p then drop (length p) s else s.
Definition TrimSuffix (s p : bytes) : bytes := if HasSuffix s p then take (length s - length p) s else s.

(** [strings.Split] with a separator of one byte. *)
Fixpoint Split (s : bytes) (sep : byte) : list bytes :=
  match s with
  | [] => [[]]
  | b :: s =>
      if decide (b = sep) then [] :: Split s sep
      else match Split s sep with p :: ps => (b :: p) :: ps | [] => [[b]] end
  end.

(** ASCII case. *)
Definition lower (b : byte) : byte :=
  let z := Z_of_byte b in if (65 <=? z) && (z <=? 90) then byte_of_Z (z + 32) else b.
Definition upper (b : byte) : byte :=
  let z := Z_of_byte b in if (97 <=? z) && (z <=? 122) then byte_of_Z (z - 32) else b.
Definition ascii_ToLower (s : bytes) : bytes := lower <$> s.
Definition ascii_ToUpper (s : bytes) : bytes := upper <$> s.

(** [filepath.Clean] and [filepath.Join] of Unix. *)
Definition clean_step (rooted : bool) (out : list bytes) (elem : bytes) : list bytes :=
  if bool_decide (elem = [] \/ elem = str ".") then out
  else if bool_decide (elem = str "..") then
    match out with
    | [] => if rooted then [] else [elem]
    | last :: out' => if bool_decide (last = str "..") then elem :: out else out'
    end
  else elem :: out.

Fixpoint join_with (sep : bytes) (l : list bytes) : bytes :=
  match l with
  | [] => []
  | [x] => x
  | x :: l => x ++ sep ++ join_with sep l
  end.

Definition filepath_Clean (path : bytes) : bytes :=
  let rooted := HasPrefix path (str "/") in
  let out := join_with (str "/") (rev (foldl (clean_step rooted) [] (Split path Byte.x2f))) in
  if rooted then str "/" ++ out else if bool_decide (out = []) then str "." else out.

Definition filepath_Join (elems : list bytes) : bytes :=
  let elems := filter (fun e => e <> []) elems in
  if bool_decide (elems = []) then [] else filepath_Clean (join_with (str "/") elems).

(** The path up to its last slash, cleaned. *)
Fixpoint drop_to_slash (s : bytes) : bytes :=
  match s with [] => [] | c :: s' => if decide (c = Byte.x2f) then s else drop_to_slash s' end.

Definition filepath_Dir (path : bytes) : bytes := filepath_Clean (rev (drop_to_slash (rev path))).

(** [strconv.ParseInt(s, 0, 64)]: an optional sign, the base by its prefix, underscores
    between digits.  [None] is any error. *)
Definition digit_of (c : byte) : option Z :=
  let z := Z_of_byte (lower c) in
  if (48 <=? z) && (z <=? 57) then Some (z - 48)
  else if (97 <=? z) && (z <=? 122) then Some (z - 87)
  else None.

Fixpoint parse_digits (base n : Z) (s : bytes) : option Z :=
  match s with
  | [] => Some n
  | c :: s =>
      if decide (c = Byte.x5f) then parse_digits base n s
      else match digit_of c with
           | Some d => if d <? base then parse_digits base (n * base + d) s else None
           | None => None
           end
  end.

Definition strip_sign (s : bytes) : bool * bytes :=
  match s with
  | Byte.x2b :: s => (false, s)
  | Byte.x2d :: s => (true, s)
  | _ => (false, s)
  end.

(** [underscoreOK]: [saw] is the kind of the character before. *)
Inductive saw := SawStart | SawDigit | SawUnderscore | SawOther.

Fixpoint underscores_between (hex : bool) (w : saw) (s : bytes) : bool :=
  match s with
  | [] => match w with SawUnderscore => false | _ => true end
  | c :: s =>
      if match digit_of c with Some d => (d <? 10) || (hex && (d <? 16)) | None => false end
      then underscores_between hex SawDigit s
      else if decide (c = Byte.x5f) then
        match w with SawDigit => underscores_between hex SawUnderscore s | _ => false end
      else match w with SawUnderscore => false | _ => underscores_between hex SawOther s end
  end.

Definition underscoreOK (s : bytes) : bool :=
  let s := (strip_sign s).2 in
  match s with
  | Byte.x30 :: c :: rest =>
      if bool_decide (lower c ∈ str "box") then underscores_between (bool_decide (lower c = Byte.x78)) SawDigit rest
      else underscores_between false SawStart s
  | _ => underscores_between false SawStart s
  end.

Definition base_prefix (s : bytes) : Z * bytes :=
  match s with
  | Byte.x30 :: (c :: _ :: _) as s1 =>
      let rest := drop 2 s in
      if decide (lower c = Byte.x62) then (2, rest)
      else if decide (lower c = Byte.x6f) then (8, rest)
      else if decide (lower c = Byte.x78) then (16, rest)
      else (8, tail s)
  | Byte.x30 :: s1 => (8, s1)
  | _ => (10, s)
  end.

Definition ParseInt0 (s0 : bytes) : option Z :=
  let '(neg, s) := strip_sign s0 in
  if bool_decide (s = []) then None
  else
    let '(base, digits) := base_prefix s in
    un ← parse_digits base 0 digits;
    if bool_decide (Byte.x5f ∈ digits) && negb (underscoreOK s) then None
    else if neg then (if un <=? MaxInt64 + 1 then Some (- un) else None)
    else (if un <=? MaxInt64 then Some un else None).

(** [net.SplitHostPort]: the host and the port, or an error. *)
Definition SplitHostPort (hostport : bytes) : res (bytes * bytes) :=
  let colon := Byte.x3a in let lbr := Byte.x5b in let rbr := Byte.x5d in
  match LastIndexByte hostport colon with
  | None => Err (EMsg "missing port in address")
  | Some i =>
      '(host, j, k) ←
        (if bool_decide (head hostport = Some lbr) then
           match IndexByte hostport rbr with
           | None => Err (EMsg "missing ']' in address")
           | Some e =>
               if bool_decide (S e = length hostport) then Err (EMsg "missing port in address")
               else if bool_decide (S e = i) then Ok (slice hostport 1 e, 1%nat, S e)
               else if bool_decide (hostport !! S e = Some colon) then Err (EMsg "too many colons in address")
               else Err (EMsg "missing port in address")
           end
         else
           let host := take i hostport in
           if bool_decide (is_Some (IndexByte host colon)) then Err (EMsg "too many colons in address")
           else Ok (host, 0%nat, 0%nat));
      if bool_decide (is_Some (IndexByte (drop j hostport) lbr)) then Err (EMsg "unexpected '[' in address")
      else if bool_decide (is_Some (IndexByte (drop k hostport) rbr)) then Err (EMsg "unexpected ']' in address")
      else Ok (host, drop (S i) hostport)
  end.

(** [net.JoinHostPort] *)
Definition JoinHostPort (host port : bytes) : bytes :=
  if bool_decide (Byte.x3a ∈ host) then Byte.x5b :: host ++ Byte.x5d :: Byte.x3a :: port
  else host ++ Byte.x3a :: port.

(** ** Facts *)

Lemma IndexByte_Some s c i : IndexByte s c = Some i -> s !! i = Some c /\ c ∉ take i s.
Proof.
  revert i; induction s as [|b s IH]; intros i; simpl; [done|].
  destruct (decide (b = c)) as [->|]; [intros [= <-]; split; [done|set_solver]|].
  destruct (IndexByte s c) as [j|]; [|done]. simpl. intros [= <-].
  destruct (IH j eq_refl). split; [done|]. simpl. set_solver.
Qed.

Lemma IndexByte_None s c : IndexByte s c = None <-> c ∉ s.
Proof.
  induction s as [|b s IH]; simpl; [set_solver|].
  destruct (decide (b = c)) as [->|]; [set_solver|]. destruct (IndexByte s c); simpl; set_solver.
Qed.

Lemma LastIndexByte_None s c : LastIndexByte s c = None <-> c ∉ s.
Proof.
  induction s as [|b s IH]; simpl; [set_solver|].
  destruct (LastIndexByte s c); [set_solver|]. destruct (decide (b = c)) as [->|]; set_solver.
Qed.

Lemma LastIndexByte_app s c t : c ∉ t -> LastIndexByte (s ++ c :: t) c = Some (length s).
Proof.
  intros Ht. induction s as [|b s IH]; simpl.
  - apply LastIndexByte_None in Ht. rewrite Ht. by rewrite decide_True.
  - by rewrite IH.
Qed.

Lemma IndexByte_app s c t : c ∉ s -> IndexByte (s ++ c :: t) c = Some (length s).
Proof.
  induction s as [|b s IH]; intros H; simpl; [by rewrite decide_True|].
  rewrite decide_False by set_solver. by rewrite IH by set_solver.
Qed.

(** A host and a port without colons and brackets, joined, split again. *)
Lemma SplitHostPort_join host port :
  Byte.x3a ∉ host -> Byte.x3a ∉ port -> Byte.x5b ∉ host ++ port -> Byte.x5d ∉ host ++ port ->
  SplitHostPort (host ++ Byte.x3a :: port) = Ok (host, port).
Proof.
  intros H1 H2 H3 H4. unfold SplitHostPort. rewrite LastIndexByte_app by done.
  rewrite bool_decide_false.
  2:{ destruct host as [|b host]; simpl; [done|]. intros [= ->]. set_solver. }
  rewrite take_app_length. unfold mbind, res_bind.
  rewrite (bool_decide_false (is_Some (IndexByte host _))).
  2:{ intros [? E]. apply IndexByte_None in H1. congruence. }
  rewrite !drop_0.
  rewrite !bool_decide_false; [|intros [i E]..].
  - f_equal. f_equal. by rewrite <-Nat.add_1_r, drop_app_add.
  - assert (Byte.x5d ∉ host ++ Byte.x3a :: port) as N by set_solver. apply IndexByte_None in N. congruence.
  - assert (Byte.x5b ∉ host ++ Byte.x3a :: port) as N by set_solver. apply IndexByte_None in N. congruence.
Qed.

Lemma Split_none s sep : sep ∉ s -> Split s sep = [s].
Proof.
  induction s as [|b s IH]; intros H; simpl; [done|].
  rewrite decide_False by set_solver. by rewrite IH by set_solver.
Qed.

Lemma Split_app s sep t : sep ∉ s -> Split (s ++ sep :: t) sep = s :: Split t sep.
Proof.
  induction s as [|b s IH]; intros H; simpl; [by rewrite decide_True|].
  rewrite decide_False by set_solver. by rewrite IH by set_solver.
Qed.

Lemma Split_nil s sep : Split s sep <> [].
Proof. destruct s as [|b s]; simpl; [done|]. case_decide; [done|]. by destruct (Split s sep). Qed.

Lemma Split_one s sep p : Split s sep = [p] -> p = s /\ sep ∉ s.
Proof.
  revert p. induction s as [|b s IH]; intros p; simpl.
  - intros [= <-]. split; [done|]. by apply not_elem_of_nil.
  - case_decide as E.
    + intros [= <- Es]. by apply Split_nil in Es.
    + destruct (Split s sep) as [|q qs] eqn:Es; [by apply Split_nil in Es|]. intros [= <- ->].
      destruct (IH q eq_refl) as [-> Hs]. split; [done|]. by rewrite not_elem_of_cons.
Qed.

Lemma Split_more s sep p q ps : Split s sep = p :: q :: ps ->
  exists t, s = p ++ sep :: t /\ (sep ∉ p) /\ Split t sep = q :: ps.
Proof.
  revert p q ps. induction s as [|b s IH]; intros p q ps; simpl; [done|]. case_decide as E.
  - intros [= <- Es]. subst b. exists s. split_and!; [done|by apply not_elem_of_nil|done].
  - destruct (Split s sep) as [|p' qs] eqn:Es; [done|]. intros [= <- ->].
    destruct (IH p' q ps eq_refl) as (t & -> & Hn & Ht). exists t. split_and!; [done| |done]. by rewrite not_elem_of_cons.
Qed.

Lemma HasSuffix_true l p : HasSuffix l p = true <-> exists l', l = l' ++ p.
Proof.
  unfold HasSuffix. rewrite bool_decide_eq_true. split.
  - intros E. exists (take (length l - length p) l). rewrite <-E at 2. by rewrite take_drop.
  - intros [l' ->]. rewrite length_app. replace (length l' + length p - length p)%nat with (length l') by lia. apply drop_app_length.
Qed.

Lemma TrimSuffix_app l p : TrimSuffix (l ++ p) p = l.
Proof.
  unfold TrimSuffix. rewrite (proj2 (HasSuffix_true (l ++ p) p)) by eauto. rewrite length_app.
  replace (length l + length p - length p)%nat with (length l) by lia. apply take_app_length.
Qed.

Lemma LastIndexByte_Some s c i : LastIndexByte s c = Some i -> s !! i = Some c /\ c ∉ drop (S i) s.
Proof.
  revert i. induction s as [|b s IH]; intros i; simpl; [done|].
  destruct (LastIndexByte s c) as [j|] eqn:E.
  - intros [= <-]. destruct (IH j eq_refl) as [H1 H2]. done.
  - case_decide; [|done]. intros [= <-]. subst. split; [done|]. rewrite drop_0. by apply LastIndexByte_None.
Qed.

(** ** UTF-8 and the functions of package strings that look at letters

    Package unicode/utf8 as it is defined; of package unicode the case tables are the
    class [UnicodeTables], with their values on ASCII as laws, and [IsSpace] is written
    out. *)

Class UnicodeTables := {
  unicode_ToUpper : Z -> Z;
  unicode_ToLower : Z -> Z;
}.

Class UnicodeLaws (U : UnicodeTables) := {
  ToUpper_small r : 0 <= r < 128 -> unicode_ToUpper r = if (97 <=? r) && (r <=? 122) then r - 32 else r;
  ToLower_small r : 0 <= r < 128 -> unicode_ToLower r = if (65 <=? r) && (r <=? 90) then r + 32 else r;
}.

(** ** UTF-8 *)

Definition RuneError : Z := 0xFFFD.

Definition is_cont (b : byte) : bool := (0x80 <=? Z_of_byte b) && (Z_of_byte b <=? 0xBF).

(** The range of the second byte, and the number of bytes, by the first byte. *)
Definition accept_range (b0 : Z) : option (Z * Z * nat) :=
  if (0xC2 <=? b0) && (b0 <=? 0xDF) then Some (0x80, 0xBF, 2%nat)
  else if b0 =? 0xE0 then Some (0xA0, 0xBF, 3%nat)
  else if b0 =? 0xED then Some (0x80, 0x9F, 3%nat)
  else if (0xE1 <=? b0) && (b0 <=? 0xEF) then Some (0x80, 0xBF, 3%nat)
  else if b0 =? 0xF0 then Some (0x90, 0xBF, 4%nat)
  else if (0xF1 <=? b0) && (b0 <=? 0xF3) then Some (0x80, 0xBF, 4%nat)
  else if b0 =? 0xF4 then Some (0x80, 0x8F, 4%nat)
  else None.

(** [utf8.DecodeRuneInString]: the rune and its width; an invalid byte is [RuneError] of
    width 1. *)
Definition DecodeRune (s : bytes) : Z * nat :=
  match s with
  | [] => (RuneError, 0%nat)
  | b :: s =>
      let b0 := Z_of_byte b in
      if b0 <? 0x80 then (b0, 1%nat)
      else match accept_range b0, s with
           | Some (lo, hi, n), b1 :: s =>
               let z1 := Z_of_byte b1 in
               if negb ((lo <=? z1) && (z1 <=? hi)) then (RuneError, 1%nat)
               else match n, s with
                    | 2%nat, _ => (Z.land b0 0x1F * 64 + Z.land z1 0x3F, 2%nat)
                    | 3%nat, b2 :: _ =>
                        if is_cont b2
                        then (Z.land b0 0x0F * 4096 + Z.land z1 0x3F * 64 + Z.land (Z_of_byte b2) 0x3F, 3%nat)
                        else (RuneError, 1%nat)
                    | 4%nat, b2 :: b3 :: _ =>
                        if is_cont b2 && is_cont b3
                        then (Z.land b0 0x07 * 262144 + Z.land z1 0x3F * 4096 + Z.land (Z_of_byte b2) 0x3F * 64
                              + Z.land (Z_of_byte b3) 0x3F, 4%nat)
                        else (RuneError, 1%nat)
                    | _, _ => (RuneError, 1%nat)
                    end
           | _, _ => (RuneError, 1%nat)
           end
  end.

(** The last rune that ends exactly at the end of the string: the search goes back over
    at most three continuation bytes. *)
Fixpoint rune_start (s : bytes) (i n : nat) : nat :=
  match n, i with
  | S n, S i => if from_option is_cont false (s !! S i) then rune_start s i n else S i
  | _, _ => i
  end.

Definition DecodeLastRune (s : bytes) : Z * nat :=
  match length s with
  | O => (RuneError, 0%nat)
  | S last =>
      let r := from_option Z_of_byte 0 (s !! last) in
      if r <? 0x80 then (r, 1%nat)
      else
        let start := match last with O => O | S i => rune_start s i 2 end in
        let '(r, w) := DecodeRune (drop start s) in
        if bool_decide ((start + w)%nat = length s) then (r, w) else (RuneError, 1%nat)
  end.

(** [utf8.AppendRune] *)
Definition EncodeRune (r : Z) : bytes :=
  let r := if ((0 <=? r) && (r <? 0xD800)) || ((0xE000 <=? r) && (r <=? 0x10FFFF)) then r else RuneError in
  if r <? 0x80 then [byte_of_Z r]
  else if r <? 0x800 then [byte_of_Z (0xC0 + r / 64); byte_of_Z (0x80 + r mod 64)]
  else if r <? 0x10000 then
    [byte_of_Z (0xE0 + r / 4096); byte_of_Z (0x80 + r / 64 mod 64); byte_of_Z (0x80 + r mod 64)]
  else [byte_of_Z (0xF0 + r / 262144); byte_of_Z (0x80 + r / 4096 mod 64); byte_of_Z (0x80 + r / 64 mod 64);
        byte_of_Z (0x80 + r mod 64)].

(** [range s] *)
Fixpoint runes_of (n : nat) (s : bytes) : list Z :=
  match n, s with
  | O, _ | _, [] => []
  | S n, _ => let '(r, w) := DecodeRune s in r :: runes_of n (drop w s)
  end.
Definition runes (s : bytes) : list Z := runes_of (length s) s.

(** [strings.Map]: negative runes are dropped. *)
Definition Map (f : Z -> Z) (s : bytes) : bytes :=
  concat (EncodeRune <$> filter (fun r => 0 <= r) (f <$> runes s)).

Section tables.
Context {U : UnicodeTables}.

Definition is_ascii (s : bytes) : bool := forallb (fun b => Z_of_byte b <? 0x80) s.

Definition ToUpper (s : bytes) : bytes := if is_ascii s then ascii_ToUpper s else Map unicode_ToUpper s.
Definition ToLower (s : bytes) : bytes := if is_ascii s then ascii_ToLower s else Map unicode_ToLower s.

End tables.

(** [unicode.IsSpace] *)
Definition IsSpace (r : Z) : bool :=
  ((9 <=? r) && (r <=? 13)) || (r =? 0x20) || (r =? 0x85) || (r =? 0xA0) || (r =? 0x1680) ||
  ((0x2000 <=? r) && (r <=? 0x200A)) || (r =? 0x2028) || (r =? 0x2029) || (r =? 0x202F) || (r =? 0x205F) || (r =? 0x3000).

Fixpoint trim_left (n : nat) (s : bytes) : bytes :=
  match n, s with
  | O, _ | _, [] => s
  | S n, _ => let '(r, w) := DecodeRune s in if IsSpace r then trim_left n (drop w s) else s
  end.

Fixpoint trim_right (n : nat) (s : bytes) : bytes :=
  match n, s with
  | O, _ | _, [] => s
  | S n, _ =>
      let '(r, w) := DecodeLastRune s in
      if IsSpace r then trim_right n (take (length s - w) s) else s
  end.

(** [strings.TrimSpace]; its tables for ASCII say the same. *)
Definition TrimSpace (s : bytes) : bytes := let s := trim_left (length s) s in trim_right (length s) s.

(** [strings.EqualFold] with an ASCII string that has no K and no S: these two letters
    are the only ones with variants outside ASCII. *)
Definition EqualFold_ascii (s t : bytes) : bool := bool_decide (ascii_ToLower s = ascii_ToLower t).

(** [strings.LastIndex] of one byte is [LastIndexByte]; [strings.ContainsAny] of ASCII
    characters. *)
Definition ContainsAny (s chars : bytes) : bool := existsb (fun b => bool_decide (b ∈ chars)) s.

(** ** Upper case does not make a word longer *)

Lemma length_runes_of n s : (length (runes_of n s) <= n)%nat.
Proof. revert s. induction n as [|n IH]; intros [|b s]; cbn [runes_of length]; [lia..|]. destruct (DecodeRune _). simpl. specialize (IH (drop n0 (b :: s))). lia. Qed.

(** The first byte of the encoding of a rune is an ASCII byte only when it is alone. *)
Lemma EncodeRune_ascii r b l : EncodeRune r = b :: l -> Z_of_byte b < 0x80 -> l = [].
Proof.
  unfold EncodeRune. set (r' := if _ || _ then r else RuneError).
  assert (0 <= r' <= 0x10FFFF) as Hr.
  { unfold r', RuneError. destruct (Z.leb_spec 0 r), (Z.ltb_spec r 0xD800), (Z.leb_spec 0xE000 r), (Z.leb_spec r 0x10FFFF); simpl; lia. }
  generalize dependent r'. clear r. intros r Hr.
  destruct (Z.ltb_spec r 0x80); [by intros [= _ <-]|].
  assert (forall z l0, 0x80 <= z < 256 -> byte_of_Z z :: l0 = b :: l -> Z_of_byte b < 0x80 -> l = []) as Hz.
  { intros z l0 Hz [= <- _]. rewrite Z_of_byte_of_Z, Z.mod_small by lia. lia. }
  pose proof (Z.div_pos r 64) as P1. pose proof (Z.div_pos r 4096) as P2. pose proof (Z.div_pos r 262144) as P3.
  destruct (Z.ltb_spec r 0x800) as [H1|H1]; [apply Hz; assert (r / 64 < 32) by (apply Z.div_lt_upper_bound; lia); lia|].
  destruct (Z.ltb_spec r 0x10000) as [H2|H2]; apply Hz.
  - assert (r / 4096 < 16) by (apply Z.div_lt_upper_bound; lia). lia.
  - assert (r / 262144 < 5) by (apply Z.div_lt_upper_bound; lia). lia.
Qed.

Lemma ascii_prefix_runes rs : forall p l, is_ascii p = true -> concat (EncodeRune <$> rs) = p ++ l -> (length p <= length rs)%nat.
Proof.
  induction rs as [|r rs IH]; intros [|b p] l Ha E; simpl in *; [lia|done|lia|].
  apply andb_true_iff in Ha as [Hb Ha]. apply Z.ltb_lt in Hb.
  destruct (EncodeRune r) as [|b' l'] eqn:Er.
  - simpl in E. specialize (IH (b :: p) l). simpl in IH. rewrite Ha, (proj2 (Z.ltb_lt _ _) Hb) in IH. specialize (IH eq_refl E). lia.
  - injection E as -> E. rewrite (EncodeRune_ascii _ _ _ Er Hb) in E. simpl in E. specialize (IH p l Ha E). lia.
Qed.

(** A string whose upper case starts with an ASCII prefix is as long as the prefix. *)
Lemma ToUpper_prefix {U : UnicodeTables} s p : is_ascii p = true -> HasPrefix (ToUpper s) p = true -> (length p <= length s)%nat.
Proof.
  intros Ha [l E]%HasPrefix_true. unfold ToUpper in E. destruct (is_ascii s).
  - apply (f_equal length) in E. unfold ascii_ToUpper in E. rewrite length_fmap, length_app in E. lia.
  - apply ascii_prefix_runes in E; [|done]. pose proof (length_filter (fun r => 0 <= r) (unicode_ToUpper <$> runes s)) as Hf.
    rewrite length_fmap in Hf. pose proof (length_runes_of (length s) s). unfold runes in *. lia.
Qed.
