(* ===== verification/Json.v ===== *)
(** * JSON values

    What encoding/json makes of the parameters of a request, and the values that a
    response holds.  The text itself is not modelled: a raw message is the value that it
    denotes, [None] when the member is absent.  A number is the float64 nearest to its
    literal, [None] when it is out of range, which the decoder reports. *)

From Stdlib Require Import Floats.SpecFloat.
From S2P Require Import Prelude Float Strings.

#[warnings="-register-all"]
Inductive json :=
  | JNull
  | JBool (b : bool)
  | JNum (x : option float64)
  | JStr (s : bytes)
  | JArr (l : list json)
  | JObj (l : list (bytes * json)).

Fixpoint in_range (j : json) : bool :=
  match j with
  | JNum None => false
  | JArr l => forallb in_range l
  | JObj l => forallb (fun kv => in_range kv.2) l
  | _ => true
  end.

Definition UnmarshalTypeError : error := EMsg "json: cannot unmarshal %s into Go value of type %s".

(** [json.Unmarshal] into a [[]interface{}]: null leaves the slice nil. *)
Definition Unmarshal_slice (raw : option json) : res (list json) :=
  match raw with
  | None => Err (EMsg "unexpected end of JSON input")
  | Some JNull => Ok []
  | Some (JArr l) => if forallb in_range l then Ok l else Err UnmarshalTypeError
  | Some _ => Err UnmarshalTypeError
  end.

(** Into a [[]string]: an element that is null leaves the empty string. *)
Definition Unmarshal_string (j : json) : option bytes :=
  match j with JStr s => Some s | JNull => Some [] | _ => None end.

Definition Unmarshal_strings (raw : option json) : res (list bytes) :=
  match raw with
  | None => Err (EMsg "unexpected end of JSON input")
  | Some JNull => Ok []
  | Some (JArr l) => option_res UnmarshalTypeError (mapM Unmarshal_string l)
  | Some _ => Err UnmarshalTypeError
  end.

(** The type assertions [x.(string)], [x.(float64)], [x.(bool)], [x.([]interface{})]. *)
Definition as_string (j : json) : option bytes := match j with JStr s => Some s | _ => None end.
Definition as_float (j : json) : option float64 := match j with JNum x => x | _ => None end.
Definition as_bool (j : json) : option bool := match j with JBool b => Some b | _ => None end.
Definition as_slice (j : json) : option (list json) := match j with JArr l => Some l | _ => None end.

(** ** float64 to integers *)

(** The integer part; [None] for an infinity or a NaN. *)
Definition integer_part (x : float64) : option Z :=
  match x with
  | S754_zero _ => Some 0
  | S754_finite s m e =>
      let a := if 0 <=? e then Zpos m * 2 ^ e else Zpos m / 2 ^ (- e) in
      Some (if s : bool then - a else a)
  | _ => None
  end.

(** [int(x)]: what amd64 gives when the value does not fit. *)
Definition int_of_float (x : float64) : Z :=
  match integer_part x with
  | Some z => if (-9223372036854775808 <=? z) && (z <=? MaxInt64) then z else -9223372036854775808
  | None => -9223372036854775808
  end.

(** [math.Trunc], up to the sign of a zero. *)
Definition Trunc (x : float64) : float64 :=
  match integer_part x with Some z => of_int z | None => x end.

(** The float64 nearest to the quotient of two integers. *)
Definition of_ratio (n d : Z) : float64 :=
  match n, d with
  | Z0, _ => S754_zero false
  | Zpos a, Zpos b => SFdiv 53 1024 (S754_finite false a 0) (S754_finite false b 0)
  | Zneg a, Zpos b => SFdiv 53 1024 (S754_finite true a 0) (S754_finite false b 0)
  | _, _ => S754_nan
  end.

(** ** The values of a response *)

#[warnings="-register-all"]
Inductive value :=
  | VNil
  | VBool (b : bool)
  | VInt (z : Z)
  | VFloat (x : float64)
  | VStr (s : bytes)
  | VList (l : list value)
  | VMap (l : list (string * value)).

(** The member of a map. *)
Definition field (k : string) (v : value) : option value :=
  match v with
  | VMap l => (fun p => p.2.2) <$> list_find (fun kv => kv.1 = k) l
  | _ => None
  end.

(** ** JSON text and its decoding into structs

    What encoding/json does between a value and the members of a Go struct.  The text is
    the class [JsonText]; of what is read, an integer literal is [VInt] and any other
    number [VFloat].  A struct's decoder is written with the functions [member_...], one
    per type of a member. *)

#[export] Instance float64_eq_dec : EqDecision float64.
Proof. solve_decision. Defined.

(** [json.Marshal] of a value, and [Decode] of a decoder over a reader that yields the
    bytes and then ends ([None]) or fails: the first value of the text, or the text of
    the error; [json.Unmarshal] up to the decoding of the value. *)
Class JsonText := {
  json_Marshal : value -> bytes;
  json_Decode : bytes -> option bytes -> value + bytes;
  json_Unmarshal : bytes -> value + bytes;               (* the whole text is one value *)
}.

(** ** What comes back *)

(** Go replaces each byte that is not UTF-8 by U+FFFD. *)
Definition valid_string (s : bytes) : bytes := Map id s.

(** A float that is an integer of less than 22 digits is written without a fraction. *)
Definition reread_float (x : float64) : value :=
  match integer_part x with
  | Some z => if SFeqb (of_int z) x && (Z.abs z <? 10 ^ 21) then VInt z else VFloat x
  | None => VFloat x
  end.

Fixpoint reread (v : value) : value :=
  match v with
  | VStr s => VStr (valid_string s)
  | VFloat x => reread_float x
  | VList l => VList (reread <$> l)
  | VMap l => VMap ((fun kv => (kv.1, reread kv.2)) <$> l)
  | _ => v
  end.

Definition ascii_key (k : string) : bool := is_ascii (str k).

Definition finite_float (x : float64) : bool :=
  match x with S754_zero _ | S754_finite _ _ _ => true | _ => false end.

(** A value of at most [n] levels that can be written: every number is a finite float64
    and not the negative zero. *)
Fixpoint writable (n : nat) (v : value) : bool :=
  match n with
  | O => false
  | S n =>
      match v with
      | VFloat x => finite_float x && valid_binary 53 1024 x && negb (bool_decide (x = S754_zero true))
      | VList l => forallb (writable n) l
      | VMap l => forallb (fun kv => ascii_key kv.1 && writable n kv.2) l
      | _ => true
      end
  end.

#[global] Arguments writable : simpl never.

Lemma writable_map n l : writable (S n) (VMap l) = forallb (fun kv => ascii_key kv.1 && writable n kv.2) l.
Proof. done. Qed.
Lemma writable_list n l : writable (S n) (VList l) = forallb (writable n) l.
Proof. done. Qed.

(** The decoder takes 10000 levels; the values of the program have fewer than 10. *)
Definition marshalable : value -> bool := writable 10.

Class JsonTextLaws (T : JsonText) := {
  Decode_Marshal v rest : marshalable v = true -> json_Decode (json_Marshal v ++ [Byte.x0a] ++ rest) None = inl (reread v);
  Unmarshal_Marshal v : marshalable v = true -> json_Unmarshal (json_Marshal v) = inl (reread v);
}.

(** The members of a Go map are written in the order of their keys. *)
Fixpoint insert_key (k : string) (v : value) (l : list (string * value)) : list (string * value) :=
  match l with
  | [] => [(k, v)]
  | (k', v') :: l' => if String.leb k k' then (k, v) :: l else (k', v') :: insert_key k v l'
  end.
Definition sort_keys (l : list (string * value)) : list (string * value) :=
  foldr (fun kv => insert_key kv.1 kv.2) [] l.

Fixpoint go_maps (v : value) : value :=
  match v with
  | VList l => VList (go_maps <$> l)
  | VMap l => VMap (sort_keys ((fun kv => (kv.1, go_maps kv.2)) <$> l))
  | _ => v
  end.

(** ** Structs *)

(** Names of members are compared without case, and two letters outside ASCII fold to
    ASCII ones. *)
Definition fold_rune (r : Z) : Z :=
  if (97 <=? r) && (r <=? 122) then r - 32
  else if r =? 0x17F then 83
  else if r =? 0x212A then 75
  else r.
Definition fold_name (k : string) : list Z := fold_rune <$> runes (str k).

(** The members of an object that go to the field [name], in order. *)
Definition members (name : string) (l : list (string * value)) : list value :=
  snd <$> filter (fun kv => fold_name kv.1 = fold_name name) l.

(** The object to decode; null leaves the struct as it is. *)
Definition as_struct (v : value) : option (list (string * value)) :=
  match v with VNil => Some [] | VMap l => Some l | _ => None end.

Section members.
Context {A : Type} (zero : A) (read : value -> option A).

(** A field that starts as [zero]; null leaves it. *)
Definition member (name : string) (l : list (string * value)) : option A :=
  foldl (fun acc v => a ← acc; match v with VNil => Some a | _ => read v end) (Some zero) (members name l).
End members.

Definition read_string (v : value) : option bytes := match v with VStr s => Some s | _ => None end.
Definition read_bool (v : value) : option bool := match v with VBool b => Some b | _ => None end.
Definition read_int (bits : Z) (v : value) : option Z :=
  match v with
  | VInt z => if (- 2 ^ (bits - 1) <=? z) && (z <? 2 ^ (bits - 1)) then Some z else None
  | _ => None
  end.

#[global] Arguments read_int : simpl never.
#[global] Arguments members : simpl never.

Lemma read_int_ok bits z : - 2 ^ (bits - 1) <= z < 2 ^ (bits - 1) -> read_int bits (VInt z) = Some z.
Proof.
  intros H. unfold read_int. destruct (Z.leb_spec (- 2 ^ (bits - 1)) z), (Z.ltb_spec z (2 ^ (bits - 1))); simpl; try done; lia.
Qed.

Definition member_string : string -> list (string * value) -> option bytes := member [] read_string.
Definition member_bool : string -> list (string * value) -> option bool := member false read_bool.
Definition member_int (bits : Z) : string -> list (string * value) -> option Z := member 0 (read_int bits).

(** A field of type [interface{}]: every number in it must be a float64. *)
Fixpoint readable (v : value) : bool :=
  match v with
  | VInt z => finite_float (of_int z)
  | VFloat x => finite_float x
  | VList l => forallb readable l
  | VMap l => forallb (fun kv => readable kv.2) l
  | _ => true
  end.
Definition member_any (name : string) (l : list (string * value)) : option unit :=
  if forallb readable (members name l) then Some tt else None.

(** A slice of structs, or null. *)
Definition as_slice_of {A} (f : value -> option A) (v : value) : option (list A) :=
  match v with VNil => Some [] | VList l => mapM f l | _ => None end.

(** The value that [interface{}] takes. *)
Fixpoint json_of (v : value) : json :=
  match v with
  | VNil => JNull
  | VBool b => JBool b
  | VInt z => JNum (if finite_float (of_int z) then Some (of_int z) else None)
  | VFloat x => JNum (if finite_float x then Some x else None)
  | VStr s => JStr s
  | VList l => JArr (json_of <$> l)
  | VMap l => JObj ((fun kv => (str kv.1, json_of kv.2)) <$> l)
  end.

(** ** Evaluating decoders *)

Lemma members_cons name k v l :
  members name ((k, v) :: l) = if decide (fold_name k = fold_name name) then v :: members name l else members name l.
Proof. unfold members. rewrite filter_cons. simpl. by case_decide. Qed.
Lemma members_nil name : members name [] = [].
Proof. done. Qed.

(** Members of objects whose keys are given. *)
Ltac eval_members :=
  repeat (rewrite members_cons;
          match goal with
          | |- context [decide (fold_name ?k = fold_name ?n)] =>
              first [rewrite (decide_True (P := fold_name k = fold_name n)) by (vm_compute; reflexivity)
                    |rewrite (decide_False (P := fold_name k = fold_name n)) by (vm_compute; discriminate)]
          end);
  rewrite ?members_nil.

(** Text that Go leaves as it is. *)
Lemma runes_ascii n s : (length s <= n)%nat -> is_ascii s = true -> runes_of n s = Z_of_byte <$> s.
Proof.
  revert s. induction n as [|n IH]; intros [|b s] Hn Ha; try done; [simpl in Hn; lia|].
  simpl in Ha. apply andb_true_iff in Ha as [Hb Ha]. simpl. rewrite Hb. simpl. f_equal. apply IH; [simpl in Hn; lia|done].
Qed.

Lemma valid_ascii s : is_ascii s = true -> valid_string s = s.
Proof.
  intros Ha. unfold valid_string, Map, runes. rewrite runes_ascii by done. rewrite list_fmap_id.
  induction s as [|b s IH]; [done|]. simpl in Ha. apply andb_true_iff in Ha as [Hb Ha]. cbn [fmap list_fmap].
  pose proof (Z_of_byte_range b). rewrite filter_cons_True by lia. cbn [fmap list_fmap concat]. rewrite IH by done.
  unfold EncodeRune. assert (Z_of_byte b < 128) by (by apply Z.ltb_lt).
  destruct (Z.leb_spec 0 (Z_of_byte b)), (Z.ltb_spec (Z_of_byte b) 0xD800); try lia. simpl.
  rewrite (proj2 (Z.ltb_lt _ 0x80)) by done. by rewrite byte_of_Z_of_byte.
Qed.
