(* ===== verification/Base64.v ===== *)
(** * encoding/base64

    [StdEncoding.EncodeToString] and [DecodeString] of Go's Standard Library: three bytes
    are four digits, the last group is padded; the decoder skips line ends, refuses
    anything after the padding and ignores the unused bits of the last digit. *)

From S2P Require Import Prelude.

Definition b64_alphabet : bytes :=
  str "ABCDEFGHIJKLMNOPQRSTUVWXYZabcdefghijklmnopqrstuvwxyz0123456789+/".
Definition b64_pad : byte := Byte.x3d.

(** The digit of the low six bits. *)
Definition b64_digit (v : Z) : byte := nth (Z.to_nat (v mod 64)) b64_alphabet Byte.x00.

Fixpoint b64_EncodeToString (src : bytes) : bytes :=
  match src with
  | [] => []
  | [a] =>
      let v := Z_of_byte a * 65536 in
      [b64_digit (v / 262144); b64_digit (v / 4096); b64_pad; b64_pad]
  | [a; b] =>
      let v := Z_of_byte a * 65536 + Z_of_byte b * 256 in
      [b64_digit (v / 262144); b64_digit (v / 4096); b64_digit (v / 64); b64_pad]
  | a :: b :: c :: src =>
      let v := Z_of_byte a * 65536 + Z_of_byte b * 256 + Z_of_byte c in
      [b64_digit (v / 262144); b64_digit (v / 4096); b64_digit (v / 64); b64_digit v] ++ b64_EncodeToString src
  end.

Fixpoint b64_index (l : bytes) (c : byte) : option Z :=
  match l with
  | [] => None
  | b :: l => if decide (b = c) then Some 0 else Z.succ <$> b64_index l c
  end.
Definition b64_value (c : byte) : option Z := b64_index b64_alphabet c.

Definition CorruptInputError : error := EMsg "illegal base64 data at input byte %d".

Fixpoint b64_quanta (s : bytes) : res bytes :=
  match s with
  | [] => Ok []
  | c0 :: c1 :: c2 :: c3 :: rest =>
      match b64_value c0, b64_value c1, b64_value c2, b64_value c3 with
      | Some d0, Some d1, Some d2, Some d3 =>
          let v := d0 * 262144 + d1 * 4096 + d2 * 64 + d3 in
          r ← b64_quanta rest;
          mret (byte_of_Z (v / 65536) :: byte_of_Z (v / 256) :: byte_of_Z v :: r)
      | Some d0, Some d1, Some d2, None =>
          let v := d0 * 262144 + d1 * 4096 + d2 * 64 in
          if bool_decide (c3 = b64_pad /\ rest = []) then Ok [byte_of_Z (v / 65536); byte_of_Z (v / 256)]
          else Err CorruptInputError
      | Some d0, Some d1, None, _ =>
          let v := d0 * 262144 + d1 * 4096 in
          if bool_decide (c2 = b64_pad /\ c3 = b64_pad /\ rest = []) then Ok [byte_of_Z (v / 65536)]
          else Err CorruptInputError
      | _, _, _, _ => Err CorruptInputError
      end
  | _ => Err CorruptInputError
  end.

Definition b64_DecodeString (s : bytes) : res bytes :=
  b64_quanta (filter (fun c => c <> Byte.x0a /\ c <> Byte.x0d) s).

(** ** The round trip *)

(** A digit has its value, and is neither padding, nor a line end, nor a colon, nor
    outside ASCII. *)
Lemma b64_digit_spec v :
  b64_value (b64_digit v) = Some (v mod 64) /\
  (b64_digit v ∉ [b64_pad; Byte.x0a; Byte.x0d; Byte.x3a]) /\ Z_of_byte (b64_digit v) < 128.
Proof.
  unfold b64_digit. assert (0 <= v mod 64 < 64) as Hr by (apply Z.mod_pos_bound; lia).
  set (n := v mod 64) in *. clearbody n. assert (n ∈ Z.of_nat <$> seq 0 64) as Hin.
  { apply list_elem_of_fmap. exists (Z.to_nat n). split; [lia|]. apply elem_of_seq. lia. }
  revert n Hin Hr.
  apply (Forall_forall (fun n => 0 <= n < 64 -> b64_value (nth (Z.to_nat (n)) b64_alphabet Byte.x00) = Some n /\
    (nth (Z.to_nat n) b64_alphabet Byte.x00 ∉ [b64_pad; Byte.x0a; Byte.x0d; Byte.x3a]) /\
    Z_of_byte (nth (Z.to_nat n) b64_alphabet Byte.x00) < 128)).
  apply Forall_fmap. apply (bool_decide_unpack _). vm_compute. exact I.
Qed.

(** Four digits of a number of 24 bits. *)
Lemma b64_join v : 0 <= v < 16777216 ->
  (v / 262144) mod 64 * 262144 + (v / 4096) mod 64 * 4096 + (v / 64) mod 64 * 64 + v mod 64 = v.
Proof. intros. Z.div_mod_to_equations; lia. Qed.

Lemma b64_join2 a (v := a * 65536) : 0 <= a < 256 ->
  (v / 262144) mod 64 * 262144 + (v / 4096) mod 64 * 4096 = v.
Proof. unfold v. intros. Z.div_mod_to_equations; lia. Qed.

Lemma b64_join3 a b (v := a * 65536 + b * 256) : 0 <= a < 256 -> 0 <= b < 256 ->
  (v / 262144) mod 64 * 262144 + (v / 4096) mod 64 * 4096 + (v / 64) mod 64 * 64 = v.
Proof. unfold v. intros. Z.div_mod_to_equations; lia. Qed.

Lemma b64_bytes a b c :
  let v := Z_of_byte a * 65536 + Z_of_byte b * 256 + Z_of_byte c in
  0 <= v < 16777216 /\ byte_of_Z (v / 65536) = a /\ byte_of_Z (v / 256) = b /\ byte_of_Z v = c.
Proof.
  pose proof (Z_of_byte_range a). pose proof (Z_of_byte_range b). pose proof (Z_of_byte_range c). cbv zeta.
  split; [lia|]. split_and!; apply Z_of_byte_inj; rewrite Z_of_byte_of_Z; Z.div_mod_to_equations; lia.
Qed.

Lemma list_ind3 {A} (P : list A -> Prop) :
  P [] -> (forall a, P [a]) -> (forall a b, P [a; b]) -> (forall a b c l, P l -> P (a :: b :: c :: l)) -> forall l, P l.
Proof.
  intros H0 H1 H2 H3 l. cut (P l /\ (forall a, P (a :: l)) /\ (forall a b, P (a :: b :: l))); [tauto|].
  induction l as [|c l (I0 & I1 & I2)]; split_and!; auto.
Qed.

Lemma b64_quanta_encode src : b64_quanta (b64_EncodeToString src) = Ok src.
Proof.
  induction src as [|a|a b|a b c src IH] using list_ind3; [done|..]; cbn [b64_EncodeToString app b64_quanta];
    rewrite ?(proj1 (b64_digit_spec _)).
  - assert (b64_value b64_pad = None) as -> by done.
    rewrite bool_decide_true by done. pose proof (b64_bytes a Byte.x00 Byte.x00) as (_ & Ha & _).
    change (Z_of_byte Byte.x00) with 0 in Ha. rewrite !Z.add_0_r in Ha.
    rewrite b64_join2 by apply Z_of_byte_range. by rewrite Ha.
  - assert (b64_value b64_pad = None) as -> by done.
    rewrite bool_decide_true by done. pose proof (b64_bytes a b Byte.x00) as (_ & Ha & Hb & _).
    change (Z_of_byte Byte.x00) with 0 in Ha, Hb. rewrite !Z.add_0_r in Ha, Hb.
    rewrite b64_join3 by apply Z_of_byte_range. by rewrite Ha, Hb.
  - destruct (b64_bytes a b c) as (Hv & Ha & Hb & Hc). rewrite b64_join by done. rewrite IH.
    cbv [mbind res_bind mret res_ret]. by rewrite Ha, Hb, Hc.
Qed.

(** An encoding is ASCII, without line ends and colons. *)
Lemma b64_encode_plain src :
  Forall (fun c => (c ∉ [Byte.x0a; Byte.x0d; Byte.x3a]) /\ Z_of_byte c < 128) (b64_EncodeToString src).
Proof.
  assert (forall v, (b64_digit v ∉ [Byte.x0a; Byte.x0d; Byte.x3a]) /\ Z_of_byte (b64_digit v) < 128) as Hd.
  { intros v. destruct (b64_digit_spec v) as (_ & H & ?). split; [set_solver|done]. }
  assert ((b64_pad ∉ [Byte.x0a; Byte.x0d; Byte.x3a]) /\ Z_of_byte b64_pad < 128) as Hp by (split; [set_solver|done]).
  induction src as [|a|a b|a b c src IH] using list_ind3; cbn [b64_EncodeToString app];
    repeat (apply Forall_nil_2 || apply Forall_cons_2); auto.
Qed.

Lemma b64_roundtrip src : b64_DecodeString (b64_EncodeToString src) = Ok src.
Proof.
  unfold b64_DecodeString. rewrite filter_all; [apply b64_quanta_encode|].
  intros c Hin. pose proof (b64_encode_plain src) as F. rewrite Forall_forall in F.
  destruct (F c Hin) as [Hc _]. split; intros ->; set_solver.
Qed.
