(* ===== verification/Bolt.v ===== *)
(** * The key-value store under the name database

    [go.etcd.io/bbolt] is not part of the repository: it is the class [Bolt], and
    what its documentation promises is the class [BoltLaws].  A bucket maps byte
    keys to byte values and a cursor visits its keys in byte order.  [RefBolt] is
    a store that satisfies the laws; the witnesses run on it.

    A [Tx] is a read-write transaction: its buckets by name.  [Update] and [View]
    (the way the code uses [DB.Update] and [DB.View]) are in NameDB.v. *)

From S2P Require Import Prelude.

(** The bucket names of namedb.go. *)
Inductive bucket :=
  | namesBucket | historyBucket | historyIndexBucket | expirationBucket
  | nameNewBucket | utxoBucket | utxoAddrBucket | spentUtxoBucket
  | spentUtxoIdxBucket | expiredNamesBucket | expiredNamesIdxBucket
  | expiredHistBucket | expiredHistIdxBucket.

Definition all_buckets : list bucket :=
  [namesBucket; historyBucket; historyIndexBucket; expirationBucket; nameNewBucket;
   utxoBucket; utxoAddrBucket; spentUtxoBucket; spentUtxoIdxBucket;
   expiredNamesBucket; expiredNamesIdxBucket; expiredHistBucket; expiredHistIdxBucket].

#[export] Instance bucket_eq_dec : EqDecision bucket.
Proof. solve_decision. Defined.

Definition bucket_index (b : bucket) : nat :=
  match b with
  | namesBucket => 0 | historyBucket => 1 | historyIndexBucket => 2
  | expirationBucket => 3 | nameNewBucket => 4 | utxoBucket => 5
  | utxoAddrBucket => 6 | spentUtxoBucket => 7 | spentUtxoIdxBucket => 8
  | expiredNamesBucket => 9 | expiredNamesIdxBucket => 10
  | expiredHistBucket => 11 | expiredHistIdxBucket => 12
  end.

#[export] Program Instance bucket_countable : Countable bucket :=
  inj_countable' bucket_index (fun n => default namesBucket (all_buckets !! n)) _.
Next Obligation. by intros []. Qed.

(** Key and value sizes [Bucket.Put] accepts (bbolt's MaxKeySize, MaxValueSize). *)
Definition MaxKeySize : Z := 32768.
Definition MaxValueSize : Z := 2147483646.
Definition key_ok (k : bytes) : Prop := 0 < Z.of_nat (length k) <= MaxKeySize.
Definition val_ok (v : bytes) : Prop := Z.of_nat (length v) <= MaxValueSize.

Class Bolt := {
  bkt : Type;
  bkt_empty : bkt;                               (* CreateBucketIfNotExists, new *)
  bkt_get : bkt -> bytes -> option bytes;         (* Bucket.Get, None for nil *)
  bkt_put : bytes -> bytes -> bkt -> res bkt;     (* Bucket.Put *)
  bkt_delete : bytes -> bkt -> res bkt;           (* Bucket.Delete *)
  bkt_items : bkt -> list (bytes * bytes);        (* Cursor.First, Cursor.Next ... *)
  bolt_commit : gmap bucket bkt -> res unit;      (* the commit that ends DB.Update *)
}.

Class BoltLaws (B : Bolt) := {
  bkt_map : bkt -> gmap bytes bytes;
  bkt_empty_map : bkt_map bkt_empty = ∅;
  bkt_get_map b k : bkt_get b k = bkt_map b !! k;
  bkt_put_ok k v b :
    key_ok k -> val_ok v -> exists b', bkt_put k v b = Ok b' /\ bkt_map b' = <[k:=v]> (bkt_map b);
  bkt_put_bad k v b : ~ (key_ok k /\ val_ok v) -> exists e, bkt_put k v b = Err e;
  bkt_delete_ok k b : exists b', bkt_delete k b = Ok b' /\ bkt_map b' = delete k (bkt_map b);
  bkt_items_perm b : bkt_items b ≡ₚ map_to_list (bkt_map b);
  bkt_items_sorted b : StronglySorted bytes_lt (bkt_items b).*1;
}.

(** A store whose commits succeed (no I/O error). *)
Class BoltCommits (B : Bolt) : Prop := bolt_commit_ok t : bolt_commit t = Ok tt.

Abbreviation Tx := (gmap bucket bkt).

Section tx.
Context {B : Bolt}.

Definition bucket_missing : error :=
  EMsg "required bucket %q not found: database may be corrupted or requires migration".
Definition nil_bucket : error := EPanic "nil bucket".

(** [tx.Bucket(name) != nil] *)
Definition has_bucket (t : Tx) (b : bucket) : bool := bool_decide (is_Some (t !! b)).

(** namedb.go [requireBucket], [requireBuckets], [withBucket], [withBuckets]: a
    bucket handle is the bucket's name; the handle is valid once it was required. *)
Definition requireBucket (b : bucket) : M Tx bucket :=
  t ← get;
  if has_bucket t b then mret b else fail bucket_missing.

Fixpoint requireBuckets (names : list bucket) : M Tx (list bucket) :=
  match names with
  | [] => mret []
  | name :: names =>
      b ← requireBucket name;
      bs ← requireBuckets names;
      mret (b :: bs)
  end.

Definition withBucket {A} (b : bucket) (fn : bucket -> M Tx A) : M Tx A :=
  b ← requireBucket b; fn b.

Definition withBuckets {A} (names : list bucket) (fn : list bucket -> M Tx A) : M Tx A :=
  bs ← requireBuckets names; fn bs.

(** Bucket operations through a handle. *)
Definition b_get (b : bucket) (k : bytes) : M Tx (option bytes) :=
  t ← get;
  match t !! b with
  | Some x => mret (bkt_get x k)
  | None => fail nil_bucket
  end.

Definition b_put (b : bucket) (k v : bytes) : M Tx unit := fun t =>
  match t !! b with
  | Some x => match bkt_put k v x with
              | Ok x' => (Ok tt, <[b:=x']> t)
              | Err e => (Err e, t)
              end
  | None => (Err nil_bucket, t)
  end.

Definition b_delete (b : bucket) (k : bytes) : M Tx unit := fun t =>
  match t !! b with
  | Some x => match bkt_delete k x with
              | Ok x' => (Ok tt, <[b:=x']> t)
              | Err e => (Err e, t)
              end
  | None => (Err nil_bucket, t)
  end.

(** The entries in cursor order; [b_seek p] those from the first key [>= p] on. *)
Definition b_items (b : bucket) : M Tx (list (bytes * bytes)) :=
  t ← get;
  match t !! b with
  | Some x => mret (bkt_items x)
  | None => fail nil_bucket
  end.

Fixpoint seek (p : bytes) (l : list (bytes * bytes)) : list (bytes * bytes) :=
  match l with
  | [] => []
  | (k, v) :: l' => if bool_decide (bytes_lt k p) then seek p l' else l
  end.

(** The keys a prefix scan visits: [for k != nil && bytes.HasPrefix(k, p)]. *)
Fixpoint prefixed (p : bytes) (l : list (bytes * bytes)) : list (bytes * bytes) :=
  match l with
  | [] => []
  | kv :: l => if HasPrefix kv.1 p then kv :: prefixed p l else []
  end.

Definition b_seek (b : bucket) (p : bytes) : M Tx (list (bytes * bytes)) :=
  l ← b_items b; mret (seek p l).

End tx.


(** ** What a transaction holds: the buckets as finite maps *)

Abbreviation content := (gmap bucket (gmap bytes bytes)).

Section view.
Context {B : Bolt} {L : BoltLaws B}.

Definition view (t : Tx) : content := bkt_map <$> t.

(** Every bucket of namedb.go exists. *)
Definition tx_full (t : Tx) : Prop := forall b, is_Some (t !! b).

Lemma view_lookup t b x : t !! b = Some x -> view t !!! b = bkt_map x.
Proof. intros E. unfold view. by rewrite lookup_total_alt, lookup_fmap, E. Qed.

Lemma view_insert t b x : view (<[b:=x]> t) = <[b:=bkt_map x]> (view t).
Proof. apply fmap_insert. Qed.

Lemma tx_full_insert t b x : tx_full t -> tx_full (<[b:=x]> t).
Proof. intros F b'. rewrite lookup_insert. case_decide; eauto. Qed.

Lemma wp_requireBucket b Q E t : tx_full t -> Q b t -> wp (requireBucket b) Q E t.
Proof.
  intros F HQ. unfold requireBucket. rewrite wp_bind, wp_get. unfold has_bucket.
  rewrite bool_decide_true by apply F. done.
Qed.

Lemma wp_requireBuckets bs Q E t : tx_full t -> Q bs t -> wp (requireBuckets bs) Q E t.
Proof.
  intros F. revert Q; induction bs as [|b bs IH]; intros Q HQ; [done|].
  cbn [requireBuckets]. rewrite wp_bind. apply wp_requireBucket; [done|].
  rewrite wp_bind. by apply IH.
Qed.

(** The content of bucket [b], and what a transaction is after bucket [b] was set
    to [m] and nothing else changed. *)
Definition bk (t : Tx) (b : bucket) : gmap bytes bytes := view t !!! b.

Definition updated (t : Tx) (b : bucket) (m : gmap bytes bytes) (t' : Tx) : Prop :=
  tx_full t' /\ forall b', bk t' b' = if decide (b' = b) then m else bk t b'.

Lemma updated_insert t b x : tx_full t -> updated t b (bkt_map x) (<[b:=x]> t).
Proof.
  intros F. split; [by apply tx_full_insert|]. intros b'. unfold bk.
  rewrite view_insert, !lookup_total_alt, lookup_insert.
  case_decide; case_decide; subst; done.
Qed.

Lemma updated_full t b m t' : updated t b m t' -> tx_full t'.
Proof. by intros []. Qed.

Lemma updated_same t b m t' : updated t b m t' -> bk t' b = m.
Proof. intros [_ H]. by rewrite H, decide_True. Qed.

Lemma updated_other t b m t' b' : updated t b m t' -> b' <> b -> bk t' b' = bk t b'.
Proof. intros [_ H] N. by rewrite H, decide_False. Qed.

Lemma updated_refl t b : tx_full t -> updated t b (bk t b) t.
Proof. split; [done|]. intros b'. by case_decide; subst. Qed.

Lemma updated_trans t b m t1 m' t2 : updated t b m t1 -> updated t1 b m' t2 -> updated t b m' t2.
Proof.
  intros [_ H1] [F2 H2]. split; [done|]. intros b'. rewrite H2, H1. by case_decide.
Qed.

Lemma wp_b_get b k Q E t : tx_full t -> Q (bk t b !! k) t -> wp (b_get b k) Q E t.
Proof.
  intros F HQ. unfold b_get. rewrite wp_bind, wp_get. destruct (F b) as [x Ex].
  rewrite Ex, wp_ret, bkt_get_map, <-(view_lookup t b) by done. done.
Qed.

Lemma wp_b_put b k v Q E t :
  tx_full t -> key_ok k -> val_ok v ->
  (forall t', updated t b (<[k:=v]> (bk t b)) t' -> Q tt t') ->
  wp (b_put b k v) Q E t.
Proof.
  intros F Hk Hv HQ. unfold b_put, wp. destruct (F b) as [x Ex]. rewrite Ex.
  destruct (bkt_put_ok k v x Hk Hv) as (x' & -> & Ex').
  apply HQ. unfold bk. rewrite (view_lookup t b x), <-Ex' by done. by apply updated_insert.
Qed.

(** A [Put] that bbolt refuses is an error and changes nothing. *)
Lemma wp_b_put_bad b k v Q (E : error -> Tx -> Prop) t :
  tx_full t -> ~ (key_ok k /\ val_ok v) -> (forall e, E e t) -> wp (b_put b k v) Q E t.
Proof.
  intros F Hkv HE. unfold b_put, wp. destruct (F b) as [x Ex]. rewrite Ex.
  by destruct (bkt_put_bad k v x Hkv) as (e & ->).
Qed.

(** Whatever the key and the value: the put or an error. *)
Lemma wp_b_put_any b k v Q (E : error -> Tx -> Prop) t :
  tx_full t -> (forall t', updated t b (<[k:=v]> (bk t b)) t' -> Q tt t') -> (forall e, E e t) ->
  wp (b_put b k v) Q E t.
Proof.
  intros F HQ HE. destruct (decide (0 < Z.of_nat (length k) <= MaxKeySize)) as [Hk|Hk];
    [destruct (decide (Z.of_nat (length v) <= MaxValueSize)) as [Hv|Hv]|].
  - by apply wp_b_put.
  - apply wp_b_put_bad; [done|intros [_ ?]; done|done].
  - apply wp_b_put_bad; [done|intros [? _]; done|done].
Qed.

Lemma wp_b_delete b k Q E t :
  tx_full t ->
  (forall t', updated t b (delete k (bk t b)) t' -> Q tt t') ->
  wp (b_delete b k) Q E t.
Proof.
  intros F HQ. unfold b_delete, wp. destruct (F b) as [x Ex]. rewrite Ex.
  destruct (bkt_delete_ok k x) as (x' & -> & Ex').
  apply HQ. unfold bk. rewrite (view_lookup t b x), <-Ex' by done. by apply updated_insert.
Qed.

(** The cursor's list of a bucket with content [m]. *)
Definition cursor_of (m : gmap bytes bytes) (l : list (bytes * bytes)) : Prop :=
  l ≡ₚ map_to_list m /\ StronglySorted bytes_lt l.*1.

Lemma wp_b_items b Q E t :
  tx_full t -> (forall l, cursor_of (bk t b) l -> Q l t) -> wp (b_items b) Q E t.
Proof.
  intros F HQ. unfold b_items. rewrite wp_bind, wp_get. destruct (F b) as [x Ex].
  rewrite Ex, wp_ret. apply HQ. unfold bk. rewrite (view_lookup t b x) by done.
  split; [apply bkt_items_perm|apply bkt_items_sorted].
Qed.

Lemma cursor_elem m l k v : cursor_of m l -> (k, v) ∈ l <-> m !! k = Some v.
Proof. intros [P _]. by rewrite P, elem_of_map_to_list. Qed.

Lemma cursor_NoDup m l : cursor_of m l -> NoDup l.*1.
Proof.
  intros [P _]. rewrite P. apply NoDup_fst_map_to_list.
Qed.

End view.

(** ** A prefix scan visits every key with the prefix

    Keys with a common prefix are next to each other in the byte order, so the
    scan that starts at the prefix and stops at the first other key misses none. *)

Lemma bytes_cmp_app p a b : bytes_cmp (p ++ a) (p ++ b) = bytes_cmp a b.
Proof. induction p as [|x p IH]; simpl; [done|]. by rewrite Z.compare_refl. Qed.

Lemma prefix_not_lt p a : bytes_cmp (p ++ a) p <> Lt.
Proof. rewrite <-(app_nil_r p) at 2. rewrite bytes_cmp_app. by destruct a. Qed.

(** A key at or after [p] and before one that starts with [p] starts with [p]. *)
Lemma prefix_between p k a : ~ bytes_lt k p -> bytes_lt k (p ++ a) -> HasPrefix k p = true.
Proof.
  unfold bytes_lt. revert k; induction p as [|x p IH]; intros k H1 H2.
  { apply HasPrefix_true. by exists k. }
  destruct k as [|y k]; [done|]. simpl in *.
  destruct (Z.compare_spec (Z_of_byte y) (Z_of_byte x)) as [E| |]; [|done..].
  apply Z_of_byte_inj in E as ->.
  destruct (proj1 (HasPrefix_true k p) (IH k H1 H2)) as [l ->].
  apply HasPrefix_true. by exists l.
Qed.

Lemma prefixed_seek p (l : list (bytes * bytes)) :
  StronglySorted bytes_lt l.*1 ->
  prefixed p (seek p l) = filter (fun kv => HasPrefix kv.1 p = true) l.
Proof.
  intros S. induction l as [|[k v] l IH]; [done|].
  cbn [fmap list_fmap fst] in S. apply StronglySorted_inv in S as [S F].
  cbn [seek]. case_bool_decide as K.
  - rewrite filter_cons_False; [by apply IH|]. simpl.
    intros (a & ->)%HasPrefix_true. by apply (prefix_not_lt p a).
  - clear IH. revert k v K F; induction l as [|[k' v'] l IH]; intros k v K F.
    + cbn [prefixed fst]. destruct (HasPrefix k p) eqn:E.
      * by rewrite filter_cons_True.
      * rewrite filter_cons_False; [done|]. simpl. congruence.
    + cbn [prefixed fst]. cbn [fmap list_fmap fst] in S, F.
      apply StronglySorted_inv in S as [S F']. apply Forall_cons in F as [L' F].
      destruct (HasPrefix k p) eqn:E.
      * rewrite filter_cons_True by done. f_equal. apply (IH S k' v'); [|done].
        intros L1. apply K. by eapply bytes_lt_trans.
      * rewrite filter_cons_False by (simpl; congruence). symmetry.
        assert (forall q, q ∈ ((k', v') :: l) -> HasPrefix q.1 p <> true) as N.
        { intros q Hq P. apply HasPrefix_true in P as [a Ea].
          enough (HasPrefix k p = true) by congruence. apply (prefix_between p k a); [done|].
          rewrite <-Ea. apply elem_of_cons in Hq as [->|Hq]; [done|].
          rewrite Forall_forall in F. apply F. by apply list_elem_of_fmap_2. }
        induction ((k', v') :: l) as [|q m IHm]; [done|].
        rewrite filter_cons_False; [|apply N; by left]. apply IHm. intros. apply N. by right.
Qed.

(** A bucket is not in a given group of buckets. *)
Ltac bucket_notin := repeat (apply not_elem_of_cons; split; [done|]); apply not_elem_of_nil.

(** Facts about a bucket of an updated transaction. *)
Ltac bk_simpl :=
  repeat match goal with
  | H : updated ?t ?b ?m ?t' |- context [bk ?t' ?b'] =>
      first [rewrite (updated_same t b m t' H)
            |rewrite (updated_other t b m t' b' H) by done]
  end.

(** Keys and values the store accepts. *)
Create HintDb kv.

Lemma val_ok_one : val_ok [Byte.x01].
Proof. unfold val_ok, MaxValueSize. simpl. lia. Qed.
#[export] Hint Resolve val_ok_one : kv.

(** One step of a computation on a transaction whose buckets all exist. *)
Ltac wp_step :=
  lazymatch goal with
  | |- wp (mbind _ _) _ _ _ => rewrite wp_bind
  | |- wp (mret _) _ _ _ => rewrite wp_ret
  | |- wp (fail _) _ _ _ => rewrite wp_fail
  | |- wp get _ _ _ => rewrite wp_get
  | |- wp (modify _) _ _ _ => rewrite wp_modify
  | |- wp (lift _) _ _ _ => rewrite wp_lift
  | |- wp (wrapM _ _) _ _ _ => rewrite wp_wrapM
  | |- wp (withBucket _ _) _ _ _ => unfold withBucket
  | |- wp (withBuckets _ _) _ _ _ => unfold withBuckets
  | |- wp (requireBucket _) _ _ _ => apply wp_requireBucket; [by eauto using updated_full|]
  | |- wp (requireBuckets _) _ _ _ => apply wp_requireBuckets; [by eauto using updated_full|]
  | |- wp (b_get _ _) _ _ _ => apply wp_b_get; [by eauto using updated_full|bk_simpl]
  | |- wp (b_delete _ _) _ _ _ => apply wp_b_delete; [by eauto using updated_full|];
      let t := fresh "t" in let U := fresh "U" in intros t U
  | |- wp (b_put _ _ _) _ _ _ =>
      apply wp_b_put; [by eauto using updated_full|by eauto with kv|by eauto with kv|];
      let t := fresh "t" in let U := fresh "U" in intros t U
  | |- wp (b_items _) _ _ _ => apply wp_b_items; [by eauto using updated_full|];
      let l := fresh "items" in let H := fresh "Hitems" in intros l H
  end.
Ltac wp_steps := repeat wp_step.

(** ** A store that satisfies the laws *)

Definition ref_put (k v : bytes) (m : gmap bytes bytes) : res (gmap bytes bytes) :=
  if bool_decide (key_ok k /\ val_ok v) then Ok (<[k:=v]> m) else Err (EMsg "put").

Definition kv_le (x y : bytes * bytes) : Prop := bytes_le x.1 y.1.
#[export] Instance kv_le_dec : RelDecision kv_le.
Proof. intros x y. unfold kv_le. apply _. Defined.
#[export] Instance kv_le_total : Total kv_le.
Proof. intros x y. apply bytes_le_total. Qed.
#[export] Instance kv_le_trans : Transitive kv_le.
Proof. intros x y z. apply bytes_le_transitive. Qed.

#[export] Instance key_ok_dec k : Decision (key_ok k).
Proof. unfold key_ok. apply _. Defined.
#[export] Instance val_ok_dec v : Decision (val_ok v).
Proof. unfold val_ok. apply _. Defined.

#[export] Instance RefBolt : Bolt := {
  bkt := gmap bytes bytes;
  bkt_empty := ∅;
  bkt_get m k := m !! k;
  bkt_put := ref_put;
  bkt_delete k m := Ok (delete k m);
  bkt_items m := merge_sort kv_le (map_to_list m);
  bolt_commit _ := Ok tt;
}.

Lemma StronglySorted_strict (l : list bytes) :
  StronglySorted bytes_le l -> NoDup l -> StronglySorted bytes_lt l.
Proof.
  induction 1 as [|a l S IH F]; intros N; [constructor|].
  apply NoDup_cons in N as [Na N]. constructor; [auto|].
  apply Forall_forall. intros b Hb. rewrite Forall_forall in F.
  destruct (bytes_le_lt_or_eq a b) as [?| ->]; [by apply F|done|done].
Qed.

Lemma StronglySorted_fst (l : list (bytes * bytes)) :
  StronglySorted kv_le l -> StronglySorted bytes_le l.*1.
Proof.
  induction 1 as [|a l S IH F]; simpl; constructor; [done|].
  by apply Forall_fmap.
Qed.

#[export] Program Instance RefBoltLaws : BoltLaws RefBolt := {
  bkt_map m := m;
}.
Next Obligation. done. Qed.
Next Obligation. done. Qed.
Next Obligation. intros k v b Hk Hv. exists (<[k:=v]> b). simpl. unfold ref_put. by rewrite bool_decide_true. Qed.
Next Obligation. intros k v b Hn. exists (EMsg "put"). simpl. unfold ref_put. by rewrite bool_decide_false. Qed.
Next Obligation. intros k b. by exists (delete k b). Qed.
Next Obligation. intros b. simpl. apply merge_sort_Permutation. Qed.
Next Obligation.
  intros b. simpl. apply StronglySorted_strict.
  - apply StronglySorted_fst, (StronglySorted_merge_sort kv_le).
  - rewrite merge_sort_Permutation. apply NoDup_fst_map_to_list.
Qed.

#[export] Instance RefBoltCommits : BoltCommits RefBolt.
Proof. by intros t. Qed.

(** A freshly created database: the thirteen buckets, empty. *)
Definition fresh_tx {B : Bolt} : Tx := list_to_map ((fun b => (b, bkt_empty)) <$> all_buckets).

Lemma fresh_tx_lookup {B : Bolt} b : fresh_tx !! b = Some bkt_empty.
Proof. by destruct b. Qed.
