(* ===== verification/Lru.v ===== *)
(** * LRU caches

    The cache of namedb/cache.go (and its copy in chain/auxpow_cache.go): a map
    from keys to elements of a [container/list] and the list itself, most recently
    used first.  An element is a pointer into a heap of entries, as in Go, so an
    update of an entry is a write through the pointer.  [lru_abs] reads the cache as
    an association list; the theorems show that the pointer structure implements
    the list specification [spec_get], [spec_put], [spec_delete]. *)

From S2P Require Import Prelude.

Section lru.
Context {K : Type} `{Countable K} {V : Type}.

Abbreviation ptr := nat.

Record lruCache := LruCache {
  capacity : Z;
  items : gmap K ptr;            (* key -> list element *)
  lst : list ptr;                (* the doubly linked list, front first *)
  heap : gmap ptr (K * V);       (* *cacheEntry of each element *)
  next : ptr;                    (* the next fresh element *)
}.

(** [newLRUCache], with the default capacity of the cache. *)
Definition newLRUCache (dflt cap : Z) : lruCache :=
  let cap := if cap <=? 0 then dflt else cap in
  {| capacity := cap; items := ∅; lst := []; heap := ∅; next := 0%nat |}.

(** container/list: [MoveToFront], [Remove], [PushFront], [Back]. *)
Definition list_remove (p : ptr) (l : list ptr) : list ptr := filter (fun q => q <> p) l.
Definition move_to_front (p : ptr) (l : list ptr) : list ptr :=
  if bool_decide (p ∈ l) then p :: list_remove p l else l.
Definition list_back (l : list ptr) : option ptr := last l.

(** [Get] *)
Definition lru_Get (key : K) (c : lruCache) : option V * lruCache :=
  match items c !! key with
  | Some elem =>
      (snd <$> heap c !! elem,
       {| capacity := capacity c; items := items c; lst := move_to_front elem (lst c);
          heap := heap c; next := next c |})
  | None => (None, c)
  end.

(** [removeElement] *)
Definition removeElement (elem : ptr) (c : lruCache) : lruCache :=
  {| capacity := capacity c;
     items := match heap c !! elem with
              | Some (k, _) => delete k (items c)
              | None => items c
              end;
     lst := list_remove elem (lst c); heap := heap c; next := next c |}.

(** [evictOldest] *)
Definition evictOldest (c : lruCache) : lruCache :=
  match list_back (lst c) with
  | Some elem => removeElement elem c
  | None => c
  end.

(** [Put] *)
Definition lru_Put (key : K) (value : V) (c : lruCache) : bool * lruCache :=
  match items c !! key with
  | Some elem =>
      (false,
       {| capacity := capacity c; items := items c; lst := move_to_front elem (lst c);
          heap := alter (fun e => (e.1, value)) elem (heap c); next := next c |})
  | None =>
      let elem := next c in
      let c' := {| capacity := capacity c; items := <[key:=elem]> (items c);
                   lst := elem :: lst c; heap := <[elem:=(key, value)]> (heap c);
                   next := S (next c) |} in
      if Z.of_nat (length (lst c')) >? capacity c' then (true, evictOldest c') else (false, c')
  end.

(** [Delete] *)
Definition lru_Delete (key : K) (c : lruCache) : bool * lruCache :=
  match items c !! key with
  | Some elem => (true, removeElement elem c)
  | None => (false, c)
  end.

(** [Clear] *)
Definition lru_Clear (c : lruCache) : lruCache :=
  {| capacity := capacity c; items := ∅; lst := []; heap := heap c; next := next c |}.

(** [Len] *)
Definition lru_Len (c : lruCache) : Z := Z.of_nat (length (lst c)).

(** ** Specification: an association list, most recently used first *)

Definition lru_abs (c : lruCache) : list (K * V) := omap (fun p => heap c !! p) (lst c).

Definition without (k : K) (l : list (K * V)) : list (K * V) := filter (fun e => e.1 <> k) l.

Fixpoint assoc (k : K) (l : list (K * V)) : option V :=
  match l with
  | [] => None
  | (k', v) :: l => if decide (k' = k) then Some v else assoc k l
  end.

Definition spec_get (k : K) (l : list (K * V)) : option V * list (K * V) :=
  match assoc k l with
  | Some v => (Some v, (k, v) :: without k l)
  | None => (None, l)
  end.

Definition spec_put (cap : Z) (k : K) (v : V) (l : list (K * V)) : bool * list (K * V) :=
  let l' := (k, v) :: without k l in
  if Z.of_nat (length l') >? cap then (true, removelast l') else (false, l').

Definition spec_delete (k : K) (l : list (K * V)) : bool * list (K * V) :=
  (bool_decide (is_Some (assoc k l)), without k l).

(** ** Invariant *)

Record lru_inv (c : lruCache) : Prop := {
  inv_cap : 0 < capacity c;
  inv_len : Z.of_nat (length (lst c)) <= capacity c;
  inv_nodup : NoDup (lst c);
  inv_fresh : forall p, p ∈ lst c -> (p < next c)%nat;
  inv_elem : forall p, p ∈ lst c -> exists k v, heap c !! p = Some (k, v) /\ items c !! k = Some p;
  inv_items : forall k p, items c !! k = Some p -> p ∈ lst c /\ exists v, heap c !! p = Some (k, v);
}.

Lemma elem_of_list_remove q p l : q ∈ list_remove p l <-> q <> p /\ q ∈ l.
Proof. unfold list_remove. by rewrite list_elem_of_filter. Qed.

Lemma elem_of_move_to_front q p l : q ∈ move_to_front p l <-> q ∈ l.
Proof.
  unfold move_to_front. case_bool_decide; [|done].
  rewrite elem_of_cons, elem_of_list_remove. destruct (decide (q = p)) as [->|]; tauto.
Qed.

Lemma list_remove_not_in p l : p ∉ l -> list_remove p l = l.
Proof.
  unfold list_remove. induction l as [|a l IH]; intros Hp; [done|].
  apply not_elem_of_cons in Hp as [? ?]. rewrite filter_cons_True by done.
  f_equal; auto.
Qed.

Lemma length_list_remove p l : NoDup l -> p ∈ l -> S (length (list_remove p l)) = length l.
Proof.
  unfold list_remove. induction l as [|a l IH]; intros N Hp; [by apply not_elem_of_nil in Hp|].
  apply NoDup_cons in N as [Na N]. destruct (decide (a = p)) as [->|].
  - rewrite filter_cons_False by tauto. simpl.
    f_equal. f_equal. by apply (list_remove_not_in p).
  - rewrite filter_cons_True by done. simpl. f_equal. apply IH; [done|].
    apply elem_of_cons in Hp as [?|?]; [congruence|done].
Qed.

Lemma NoDup_list_remove p l : NoDup l -> NoDup (list_remove p l).
Proof. apply NoDup_filter. Qed.

Lemma NoDup_move_to_front p l : NoDup l -> NoDup (move_to_front p l).
Proof.
  intros N. unfold move_to_front. case_bool_decide; [|done]. constructor.
  - by rewrite elem_of_list_remove; intros [].
  - by apply NoDup_list_remove.
Qed.

Lemma length_move_to_front p l : NoDup l -> length (move_to_front p l) = length l.
Proof.
  intros N. unfold move_to_front. case_bool_decide; [|done].
  simpl. by apply length_list_remove.
Qed.

Lemma list_remove_last p l : NoDup l -> last l = Some p -> list_remove p l = removelast l.
Proof.
  unfold list_remove. induction l as [|a l IH]; intros N E; [done|].
  apply NoDup_cons in N as [Na N]. destruct l as [|b l].
  - injection E as ->. by rewrite filter_cons_False by tauto.
  - assert (p ∈ b :: l) as Hp.
    { apply last_Some in E as [l' E']. destruct l' as [|x l']; [done|].
      injection E' as ? ->. set_solver. }
    rewrite filter_cons_True by (intros ->; done).
    change (removelast (a :: b :: l)) with (a :: removelast (b :: l)).
    f_equal. apply IH; [done|]. by rewrite last_cons_cons in E.
Qed.

Lemma inv_new dflt cap : 0 < dflt -> lru_inv (newLRUCache dflt cap).
Proof.
  intros. unfold newLRUCache.
  split; simpl; try (destruct (Z.leb_spec cap 0); lia).
  - constructor.
  - intros p Hp. by apply not_elem_of_nil in Hp.
  - intros p Hp. by apply not_elem_of_nil in Hp.
  - intros k p E. by rewrite lookup_empty in E.
Qed.

(** Reading the abstract list. *)
Lemma omap_ext_in {A C} (f g : A -> option C) (l : list A) :
  (forall x, x ∈ l -> f x = g x) -> omap f l = omap g l.
Proof.
  induction l as [|a l IH]; intros E; simpl; [done|].
  rewrite E by set_solver.
  destruct (g a); [f_equal|]; apply IH; set_solver.
Qed.

Lemma length_abs c : lru_inv c -> length (lru_abs c) = length (lst c).
Proof.
  intros I. unfold lru_abs. assert (forall p, p ∈ lst c -> is_Some (heap c !! p)) as Hs.
  { intros p Hp. destruct (inv_elem c I p Hp) as (k & v & -> & _). eauto. }
  induction (lst c) as [|p l IH]; [done|]. simpl.
  destruct (Hs p) as [e ->]; [set_solver|]. simpl. f_equal. apply IH. set_solver.
Qed.

Lemma assoc_omap c k :
  lru_inv c -> assoc k (lru_abs c) = (p ← items c !! k; snd <$> heap c !! p).
Proof.
  intros I. destruct (items c !! k) as [p|] eqn:Ep; simpl.
  - destruct (inv_items c I k p Ep) as (Hp & v & Ev). rewrite Ev. simpl.
    unfold lru_abs. assert (forall q, q ∈ lst c -> forall w, heap c !! q = Some (k, w) -> q = p) as U.
    { intros q Hq w Eq. destruct (inv_elem c I q Hq) as (k' & v' & E1 & E2). congruence. }
    clear I Ep. induction (lst c) as [|q l IH]; [by apply not_elem_of_nil in Hp|]. simpl.
    destruct (decide (q = p)) as [->|Hne].
    + rewrite Ev. simpl. by rewrite decide_True.
    + apply elem_of_cons in Hp as [?|Hp]; [congruence|].
      destruct (heap c !! q) as [[k' w]|] eqn:Eq; simpl; [|apply IH; set_solver].
      rewrite decide_False; [apply IH; set_solver|].
      intros ->. apply Hne. eapply U; [set_solver|done].
  - unfold lru_abs. assert (forall q, q ∈ lst c -> forall w, heap c !! q <> Some (k, w)) as U.
    { intros q Hq w Eq. destruct (inv_elem c I q Hq) as (k' & v' & E1 & E2). congruence. }
    clear I. induction (lst c) as [|q l IH]; [done|]. simpl.
    destruct (heap c !! q) as [[k' w]|] eqn:Eq; simpl; [|apply IH; set_solver].
    rewrite decide_False; [apply IH; set_solver|].
    intros ->. eapply U; [|done]. set_solver.
Qed.

Lemma without_abs c k p :
  lru_inv c -> items c !! k = Some p ->
  without k (lru_abs c) = omap (fun q => heap c !! q) (list_remove p (lst c)).
Proof.
  intros I Ep. unfold lru_abs, without, list_remove.
  assert (forall q, q ∈ lst c -> exists k' v, heap c !! q = Some (k', v) /\ (k' <> k <-> q <> p)) as U.
  { intros q Hq. destruct (inv_elem c I q Hq) as (k' & v & E1 & E2).
    exists k', v. split; [done|]. destruct (inv_items c I k p Ep) as (_ & w & Ew).
    split; intros; congruence. }
  clear I. induction (lst c) as [|q l IH]; [done|]. simpl.
  destruct (U q) as (k' & v & Eq & Hkp); [set_solver|]. rewrite Eq.
  destruct (decide (q = p)) as [->|Hne].
  - rewrite (filter_cons_False (fun x => x <> p) p) by tauto.
    rewrite filter_cons_False by (simpl; tauto).
    apply IH. intros x Hx. apply U. by right.
  - rewrite (filter_cons_True (fun x => x <> p) q) by done. simpl. rewrite Eq.
    rewrite filter_cons_True by (simpl; tauto).
    f_equal. apply IH. intros x Hx. apply U. by right.
Qed.

Lemma without_fresh c k : lru_inv c -> items c !! k = None -> without k (lru_abs c) = lru_abs c.
Proof.
  intros I E. pose proof (assoc_omap c k I) as A. rewrite E in A. simpl in A.
  unfold without. induction (lru_abs c) as [|[k' v] l IH]; [done|]. simpl in A.
  case_decide; [done|]. rewrite filter_cons_True by done. f_equal. auto.
Qed.

(** ** Each operation keeps the invariant and implements its specification *)

Lemma list_remove_length_le p l : (length (list_remove p l) <= length l)%nat.
Proof. apply length_filter. Qed.

Lemma inv_touch c p : lru_inv c ->
  lru_inv {| capacity := capacity c; items := items c; lst := move_to_front p (lst c);
             heap := heap c; next := next c |}.
Proof.
  intros [Ic Il In If Ie Ii]. split; simpl; auto.
  - by rewrite length_move_to_front.
  - by apply NoDup_move_to_front.
  - intros q. rewrite elem_of_move_to_front. auto.
  - intros q. rewrite elem_of_move_to_front. auto.
  - intros k q E. rewrite elem_of_move_to_front. auto.
Qed.

Lemma inv_remove c p : lru_inv c -> p ∈ lst c -> lru_inv (removeElement p c).
Proof.
  intros [Ic Il In If Ie Ii] Hp. unfold removeElement.
  destruct (Ie p Hp) as (k & v & E1 & E2). rewrite E1. split; simpl; auto.
  - pose proof (list_remove_length_le p (lst c)). lia.
  - by apply NoDup_list_remove.
  - intros q [_ Hq]%elem_of_list_remove. auto.
  - intros q [Hne Hq]%elem_of_list_remove. destruct (Ie q Hq) as (k' & v' & E3 & E4).
    exists k', v'. split; [done|]. rewrite lookup_delete_ne; [done|congruence].
  - intros k' q Eq. apply lookup_delete_Some in Eq as [Hk Eq].
    destruct (Ii k' q Eq) as (Hq & v' & E3). split; [|eauto].
    rewrite elem_of_list_remove. split; [|done]. congruence.
Qed.

Lemma abs_remove c k p : lru_inv c -> items c !! k = Some p ->
  lru_abs (removeElement p c) = without k (lru_abs c).
Proof.
  intros I E. rewrite (without_abs c k p) by done.
  unfold lru_abs, removeElement. done.
Qed.

Lemma items_heap c k p : lru_inv c -> items c !! k = Some p ->
  exists v, heap c !! p = Some (k, v) /\ assoc k (lru_abs c) = Some v.
Proof.
  intros I E. destruct (inv_items c I k p E) as (_ & v & Ev). exists v.
  rewrite (assoc_omap c k I), E. simpl. by rewrite Ev.
Qed.

Lemma abs_front c k p v : lru_inv c -> items c !! k = Some p -> heap c !! p = Some (k, v) ->
  omap (fun q => heap c !! q) (move_to_front p (lst c)) = (k, v) :: without k (lru_abs c).
Proof.
  intros I E Ev. destruct (inv_items c I k p E) as (Hp & _).
  unfold move_to_front. rewrite bool_decide_true by done. simpl. rewrite Ev. simpl.
  by rewrite (without_abs c k p).
Qed.

Theorem lru_Get_refines k c : lru_inv c ->
  lru_inv (lru_Get k c).2 /\
  ((lru_Get k c).1, lru_abs (lru_Get k c).2) = spec_get k (lru_abs c).
Proof.
  intros I. unfold lru_Get, spec_get. destruct (items c !! k) as [p|] eqn:E; simpl.
  - destruct (items_heap c k p I E) as (v & Ev & ->). split; [by apply inv_touch|].
    unfold lru_abs at 1. simpl. rewrite Ev, (abs_front c k p v) by done. done.
  - split; [done|]. by rewrite (assoc_omap c k I), E.
Qed.

Theorem lru_Delete_refines k c : lru_inv c ->
  lru_inv (lru_Delete k c).2 /\
  ((lru_Delete k c).1, lru_abs (lru_Delete k c).2) = spec_delete k (lru_abs c).
Proof.
  intros I. unfold lru_Delete, spec_delete. destruct (items c !! k) as [p|] eqn:E; simpl.
  - destruct (items_heap c k p I E) as (v & Ev & ->).
    rewrite (abs_remove c k p) by done. rewrite bool_decide_true by eauto.
    split; [|done]. apply inv_remove; [done|]. by destruct (inv_items c I k p E).
  - rewrite (assoc_omap c k I), E. rewrite bool_decide_false by (by intros []).
    by rewrite without_fresh.
Qed.

(** The cache [Put] builds for a new key, before it evicts. *)
Definition pushed (k : K) (v : V) (c : lruCache) : lruCache :=
  {| capacity := capacity c; items := <[k:=next c]> (items c); lst := next c :: lst c;
     heap := <[next c:=(k, v)]> (heap c); next := S (next c) |}.

(** The invariant but for the length, which [Put] may exceed by one. *)
Definition with_room (c : lruCache) : lruCache :=
  {| capacity := capacity c + 1; items := items c; lst := lst c; heap := heap c; next := next c |}.

Lemma inv_pushed k v c : lru_inv c -> items c !! k = None -> lru_inv (with_room (pushed k v c)).
Proof.
  intros [Ic Il In If Ie Ii] E.
  assert (next c ∉ lst c) as Hn by (intros H1%If; lia).
  split; simpl; try lia.
  - by constructor.
  - intros p [->|Hp]%elem_of_cons; [lia|]. specialize (If p Hp). lia.
  - intros p [->|Hp]%elem_of_cons.
    + exists k, v. by rewrite !lookup_insert_eq.
    + destruct (Ie p Hp) as (k' & v' & E1 & E2). exists k', v'.
      specialize (If p Hp). by rewrite !lookup_insert_ne by (lia || congruence).
  - intros k' p. rewrite lookup_insert. case_decide as Hk.
    + intros [= Ep]. subst k' p. split; [left|]. exists v. apply lookup_insert_eq.
    + intros Ep. destruct (Ii k' p Ep) as (Hp & v' & E1). split; [by right|].
      exists v'. specialize (If p Hp). by rewrite lookup_insert_ne by lia.
Qed.

Lemma abs_pushed k v c : lru_inv c -> lru_abs (pushed k v c) = (k, v) :: lru_abs c.
Proof.
  intros I. unfold lru_abs, pushed. simpl. rewrite lookup_insert_eq. simpl. f_equal.
  apply omap_ext_in. intros p Hp. apply (inv_fresh c I) in Hp.
  by rewrite lookup_insert_ne by lia.
Qed.

Lemma removelast_omap (f : ptr -> option (K * V)) (l : list ptr) :
  (forall x, x ∈ l -> is_Some (f x)) -> omap f (removelast l) = removelast (omap f l).
Proof.
  induction l as [|a l IH]; intros Hs; [done|].
  destruct (Hs a) as [e Ea]; [set_solver|].
  destruct l as [|b l]; [simpl; by rewrite Ea|].
  destruct (Hs b) as [e' Eb]; [set_solver|].
  change (removelast (a :: b :: l)) with (a :: removelast (b :: l)).
  change (omap f (a :: removelast (b :: l))) with
    (match f a with Some y => y :: omap f (removelast (b :: l)) | None => omap f (removelast (b :: l)) end).
  rewrite Ea, IH by (intros q Hq; apply Hs; by right). simpl. by rewrite Ea, Eb.
Qed.

Lemma inv_evicted c : lru_inv (with_room c) -> 0 < capacity c ->
  Z.of_nat (length (lst c)) > capacity c ->
  lru_inv (evictOldest c) /\ lru_abs (evictOldest c) = removelast (lru_abs c).
Proof.
  intros I Hc Hl. unfold evictOldest, list_back.
  destruct (last (lst c)) as [p|] eqn:Ep; [|apply last_None in Ep; rewrite Ep in Hl; simpl in Hl; lia].
  assert (p ∈ lst c) as Hp by (apply last_Some in Ep as [l' ->]; set_solver).
  pose proof (inv_nodup _ I) as N. simpl in N. split.
  - destruct (inv_remove _ p I Hp) as [Jc Jl Jn Jf Je Ji].
    split; auto. simpl in *. pose proof (length_list_remove p (lst c) N Hp).
    pose proof (inv_len _ I) as Hr. simpl in Hr. lia.
  - unfold lru_abs, removeElement. simpl. rewrite (list_remove_last p) by done.
    apply removelast_omap. intros q Hq.
    destruct (inv_elem _ I q Hq) as (k & v & Ev & _). simpl in Ev. eauto.
Qed.

(** Overwriting the entry of a cached key. *)
Definition overwritten (p : ptr) (v : V) (c : lruCache) : lruCache :=
  {| capacity := capacity c; items := items c; lst := lst c;
     heap := alter (fun e => (e.1, v)) p (heap c); next := next c |}.

Lemma inv_overwritten c p v : lru_inv c -> lru_inv (overwritten p v c).
Proof.
  intros [Ic Il In If Ie Ii]. split; simpl; auto.
  - intros q Hq. destruct (Ie q Hq) as (k' & v' & E1 & E2). rewrite lookup_alter.
    case_decide; [subst; rewrite E1|]; simpl; eauto.
  - intros k' q Eq. destruct (Ii k' q Eq) as (Hq & v' & E1). split; [done|].
    rewrite lookup_alter. case_decide; [subst; rewrite E1|]; simpl; eauto.
Qed.

Lemma without_overwritten c k p v : lru_inv c -> items c !! k = Some p ->
  without k (lru_abs (overwritten p v c)) = without k (lru_abs c).
Proof.
  intros I E. pose proof (inv_overwritten c p v I) as I1.
  rewrite (without_abs (overwritten p v c) k p), (without_abs c k p) by done.
  simpl. apply omap_ext_in. intros q [Hq _]%elem_of_list_remove.
  by rewrite lookup_alter_ne.
Qed.

Lemma lru_Put_hit_refines k v c p : lru_inv c -> items c !! k = Some p ->
  lru_inv (lru_Put k v c).2 /\
  ((lru_Put k v c).1, lru_abs (lru_Put k v c).2) = spec_put (capacity c) k v (lru_abs c).
Proof.
  intros I E. unfold lru_Put, spec_put. rewrite E. simpl fst; simpl snd.
  destruct (items_heap c k p I E) as (w & Ew & _).
  pose proof (inv_overwritten c p v I) as I1.
  pose proof (without_overwritten c k p v I E) as W1.
  assert (heap (overwritten p v c) !! p = Some (k, v)) as Ev1
    by (simpl; rewrite lookup_alter_eq, Ew; done).
  pose proof (abs_front (overwritten p v c) k p v I1 E Ev1) as A.
  pose proof (inv_touch (overwritten p v c) p I1) as I2.
  assert (length ((k, v) :: without k (lru_abs c)) = length (lst c)) as Hlen.
  { rewrite <-W1, <-A. pose proof (length_abs _ I2) as Hl.
    unfold lru_abs in Hl. simpl in Hl |- *. rewrite Hl.
    apply length_move_to_front, (inv_nodup c I). }
  pose proof (inv_len c I). rewrite Hlen.
  destruct (Z.gtb_spec (Z.of_nat (length (lst c))) (capacity c)); [lia|].
  split; [done|]. f_equal. rewrite <-W1. apply A.
Qed.

Theorem lru_Put_refines k v c : lru_inv c ->
  lru_inv (lru_Put k v c).2 /\
  ((lru_Put k v c).1, lru_abs (lru_Put k v c).2) = spec_put (capacity c) k v (lru_abs c).
Proof.
  intros I. destruct (items c !! k) as [p|] eqn:E; [by eapply lru_Put_hit_refines|].
  unfold lru_Put, spec_put. rewrite E, (without_fresh c k) by done.
  change (LruCache _ _ _ _ _) with (pushed k v c).
  pose proof (inv_pushed k v c I E) as I1. pose proof (inv_cap c I).
  replace (length ((k, v) :: lru_abs c)) with (length (lst (pushed k v c)))
    by (simpl; by rewrite length_abs).
  change (capacity (pushed k v c)) with (capacity c).
  destruct (Z.gtb_spec (Z.of_nat (length (lst (pushed k v c)))) (capacity c)) as [L|L];
    simpl fst; simpl snd.
  - destruct (inv_evicted (pushed k v c) I1) as [I2 A2]; [done|simpl in *; lia|].
    split; [done|]. by rewrite A2, abs_pushed.
  - rewrite abs_pushed by done. split; [|done].
    destruct I1 as [Jc Jl Jn Jf Je Ji]. by split.
Qed.

Lemma lru_Clear_refines c : lru_inv c -> lru_inv (lru_Clear c) /\ lru_abs (lru_Clear c) = [].
Proof.
  intros I. split; [|done]. split; simpl.
  - apply (inv_cap c I).
  - pose proof (inv_cap c I). lia.
  - constructor.
  - intros p Hp. by apply not_elem_of_nil in Hp.
  - intros p Hp. by apply not_elem_of_nil in Hp.
  - intros k p E. by rewrite lookup_empty in E.
Qed.

(** ** What a client of the cache may rely on

    [cached c k] is what [Get] answers.  An entry is never invented: it was put,
    and no later [Put], [Delete] or [Clear] concerned its key. *)

Definition cached (c : lruCache) (k : K) : option V := assoc k (lru_abs c).

Lemma assoc_without k k' l :
  assoc k' (without k l) = if decide (k = k') then None else assoc k' l.
Proof.
  unfold without. induction l as [|[k1 v1] l IH]; simpl; [by case_decide|].
  destruct (decide (k1 = k)) as [->|].
  - rewrite filter_cons_False by (simpl; tauto). rewrite IH. by repeat case_decide.
  - rewrite filter_cons_True by done. simpl. rewrite IH. repeat case_decide; congruence.
Qed.

Lemma assoc_removelast k l v : assoc k (removelast l) = Some v -> assoc k l = Some v.
Proof.
  induction l as [|[k1 v1] l IH]; [done|]. destruct l as [|e l]; [done|].
  change (removelast ((k1, v1) :: e :: l)) with ((k1, v1) :: removelast (e :: l)).
  simpl. case_decide; auto.
Qed.

Lemma cached_Get k c : lru_inv c -> (lru_Get k c).1 = cached c k.
Proof.
  intros I. destruct (lru_Get_refines k c I) as [_ E]. apply (f_equal fst) in E.
  unfold spec_get, cached in *. by destruct (assoc k (lru_abs c)).
Qed.

Lemma cached_after_Get k c k' : lru_inv c -> cached (lru_Get k c).2 k' = cached c k'.
Proof.
  intros I. destruct (lru_Get_refines k c I) as [_ E]. apply (f_equal snd) in E. simpl in E.
  unfold cached. rewrite E. unfold spec_get. destruct (assoc k (lru_abs c)) eqn:A; simpl; [|done].
  rewrite assoc_without. case_decide; congruence.
Qed.

Lemma cached_after_Put k v c k' w : lru_inv c ->
  cached (lru_Put k v c).2 k' = Some w ->
  if decide (k = k') then w = v else cached c k' = Some w.
Proof.
  intros I. destruct (lru_Put_refines k v c I) as [_ E]. apply (f_equal snd) in E. simpl in E.
  unfold cached. rewrite E. unfold spec_put. destruct (_ >? _).
  - cbn [snd]. intros A%assoc_removelast. simpl in A. rewrite assoc_without in A.
    repeat case_decide; congruence.
  - simpl. rewrite assoc_without. repeat case_decide; congruence.
Qed.

Lemma cached_Put_same k v c : lru_inv c -> cached (lru_Put k v c).2 k = Some v.
Proof.
  intros I. destruct (lru_Put_refines k v c I) as [_ E]. apply (f_equal snd) in E. simpl in E.
  unfold cached. rewrite E. unfold spec_put. pose proof (inv_cap c I).
  destruct (without k (lru_abs c)) as [|e l]; simpl length; cbv zeta.
  - destruct (Z.gtb_spec (Z.of_nat 1) (capacity c)); [lia|]. simpl. by rewrite decide_True.
  - destruct (Z.gtb_spec (Z.of_nat (S (S (length l)))) (capacity c)); simpl; by rewrite decide_True.
Qed.

Lemma cached_after_Delete k c k' : lru_inv c ->
  cached (lru_Delete k c).2 k' = if decide (k = k') then None else cached c k'.
Proof.
  intros I. destruct (lru_Delete_refines k c I) as [_ E]. apply (f_equal snd) in E. simpl in E.
  unfold cached. rewrite E. apply assoc_without.
Qed.

Lemma cached_new dflt cap k : cached (newLRUCache dflt cap) k = None.
Proof. done. Qed.

(** ** Counting: the cache never holds more entries than its capacity *)

Inductive lru_op := OpGet (k : K) | OpPut (k : K) (v : V) | OpDelete (k : K) | OpClear.

Definition lru_step (o : lru_op) (c : lruCache) : lruCache :=
  match o with
  | OpGet k => (lru_Get k c).2
  | OpPut k v => (lru_Put k v c).2
  | OpDelete k => (lru_Delete k c).2
  | OpClear => lru_Clear c
  end.

Lemma lru_step_capacity o c : capacity (lru_step o c) = capacity c.
Proof.
  destruct o; simpl; unfold lru_Get, lru_Put, lru_Delete, evictOldest, list_back;
    repeat (case_match; simplify_eq/=); done.
Qed.

Lemma lru_step_inv o c : lru_inv c -> lru_inv (lru_step o c).
Proof.
  intros I. destruct o; simpl.
  - by apply lru_Get_refines.
  - by apply lru_Put_refines.
  - by apply lru_Delete_refines.
  - by apply lru_Clear_refines.
Qed.

End lru.

Arguments lruCache K {_ _} V.
