(* ===== verification/Record.v ===== *)
(** * Stored records: NameRecord, UTXO and their encodings

    namedb/namedb.go ([encodeNameRecord], [decodeNameRecord] and the
    [recordReader]) and namedb/utxo.go ([encodeUTXO], [decodeUTXO] and the key
    builders).  A [time.Time] is its Unix time in seconds: the encoding keeps
    nothing else, and a block header's timestamp has whole seconds. *)

From S2P Require Import Prelude.

Definition txHashSize : nat := 32.
Definition maxRecordStringLen : Z := 1024.
Definition NameRecordVersion : Z := 3.

(** [time.Time{}.Unix()] *)
Definition zero_time : Z := -62135596800.

Inductive NameOperation := NameNew | NameFirstUpdate | NameUpdate.

#[export] Instance NameOperation_eq_dec : EqDecision NameOperation.
Proof. solve_decision. Defined.

Definition op_index (o : NameOperation) : nat :=
  match o with NameNew => 0 | NameFirstUpdate => 1 | NameUpdate => 2 end.

#[export] Program Instance NameOperation_countable : Countable NameOperation :=
  inj_countable' op_index (fun n => nth n [NameNew; NameFirstUpdate] NameUpdate) _.
Next Obligation. by intros []. Qed.

Record NameRecord := mkNameRecord {
  Name : bytes;
  Value : bytes;
  TxHash : bytes;          (* chainhash.Hash, [32]byte *)
  OutIndex : Z;            (* uint32 *)
  Height : Z;              (* int32 *)
  ExpiresAt : Z;           (* int32 *)
  Address : bytes;
  UpdatedAt : Z;
  NameNewHeight : Z;       (* int32 *)
}.

#[export] Instance NameRecord_eq_dec : EqDecision NameRecord.
Proof. solve_decision. Defined.

(** [record.Name = name] *)
Definition set_Name (name : bytes) (r : NameRecord) : NameRecord :=
  {| Name := name; Value := Value r; TxHash := TxHash r; OutIndex := OutIndex r;
     Height := Height r; ExpiresAt := ExpiresAt r; Address := Address r;
     UpdatedAt := UpdatedAt r; NameNewHeight := NameNewHeight r |}.

Record UTXO := mkUTXO {
  u_TxHash : bytes;
  u_OutIndex : Z;          (* uint32 *)
  u_Value : Z;             (* int64 *)
  u_Address : bytes;
  u_PkScript : bytes;
  u_Height : Z;            (* int32 *)
}.

#[export] Instance UTXO_eq_dec : EqDecision UTXO.
Proof. solve_decision. Defined.

(** ** Name records *)

Definition writeRecordUint32 (buf : bytes) (value : Z) : bytes := buf ++ le_bytes 4 value.
Definition writeRecordUint64 (buf : bytes) (value : Z) : bytes := buf ++ le_bytes 8 value.
Definition writeRecordString (buf value : bytes) : bytes :=
  writeRecordUint32 buf (uint32 (Z.of_nat (length value))) ++ value.

Definition encodeNameRecord (record : NameRecord) : bytes :=
  let buf := [] ++ [byte_of_Z NameRecordVersion] in
  let buf := writeRecordString buf (Value record) in
  let buf := buf ++ TxHash record in
  let buf := writeRecordUint32 buf (OutIndex record) in
  let buf := writeRecordUint32 buf (uint32 (Height record)) in
  let buf := writeRecordUint32 buf (uint32 (ExpiresAt record)) in
  let buf := writeRecordString buf (Address record) in
  let buf := writeRecordUint64 buf (uint64 (UpdatedAt record)) in
  writeRecordUint32 buf (uint32 (NameNewHeight record)).

(** [recordReader]: sequential reads with bounds checks. *)
Record recordReader := mkReader { data : bytes; offset : nat }.

Definition advance (n : nat) (r : recordReader) : recordReader :=
  {| data := data r; offset := offset r + n |}.

(** Read [n] bytes at the offset; the callers have checked the bound. *)
Definition take_bytes (n : nat) : M recordReader bytes := fun r =>
  (Ok (slice (data r) (offset r) (offset r + n)), advance n r).

Definition room (n : nat) (r : recordReader) : bool :=
  bool_decide (offset r + n <= length (data r))%nat.

Definition readUint32 (field : string) : M recordReader Z :=
  r ← get;
  if room 4 r then b ← take_bytes 4; mret (of_le b)
  else fail (EMsg ("corrupt record: truncated at " +:+ field)).

Definition readInt32 (field : string) : M recordReader Z :=
  value ← readUint32 field; mret (int32 value).

Definition readString (field : string) : M recordReader bytes :=
  strLen ← readUint32 (field +:+ " length");
  if strLen >? maxRecordStringLen then
    fail (EMsg ("corrupt record: length exceeds maximum: " +:+ field))
  else
    r ← get;
    if room (Z.to_nat strLen) r then take_bytes (Z.to_nat strLen)
    else fail (EMsg ("corrupt record: truncated at data: " +:+ field)).

Definition readFixedBytes (n : nat) (field : string) : M recordReader bytes :=
  r ← get;
  if room n r then take_bytes n
  else fail (EMsg ("corrupt record: truncated at " +:+ field)).

Definition readOptionalTimestamp : M recordReader Z :=
  r ← get;
  if room 8 r then ts ← take_bytes 8; mret (int64 (of_le ts)) else mret zero_time.

Definition readNameNewHeight (version : Z) : M recordReader Z :=
  if version <? 3 then mret 0
  else
    r ← get;
    if room 4 r then b ← take_bytes 4; mret (int32 (of_le b))
    else fail (EMsg "corrupt record: version 3 requires NameNewHeight but data is truncated").

Definition validateRecordVersion (d : bytes) : res Z :=
  match d with
  | [] => Err (EMsg "corrupt record: empty data")
  | b :: _ =>
      let version := Z_of_byte b in
      if negb (version =? 2) && negb (version =? 3)
      then Err (EMsg "unsupported record version: %d (expected 2 or 3)")
      else Ok version
  end.

(** The mandatory fields, in order; the other fields stay zero. *)
Definition decodeNameRecordCore : M recordReader NameRecord :=
  value ← readString "value";
  txHash ← readFixedBytes 32 "txhash";
  outIndex ← readUint32 "outindex";
  height ← readInt32 "height";
  expiresAt ← readInt32 "expires_at";
  address ← readString "address";
  mret {| Name := []; Value := value; TxHash := txHash; OutIndex := outIndex;
          Height := height; ExpiresAt := expiresAt; Address := address;
          UpdatedAt := zero_time; NameNewHeight := 0 |}.

Definition set_times (ts h : Z) (r : NameRecord) : NameRecord :=
  {| Name := Name r; Value := Value r; TxHash := TxHash r; OutIndex := OutIndex r;
     Height := Height r; ExpiresAt := ExpiresAt r; Address := Address r;
     UpdatedAt := ts; NameNewHeight := h |}.

Definition decodeNameRecord (d : bytes) : res NameRecord :=
  version ← validateRecordVersion d;
  let m := record ← decodeNameRecordCore;
           ts ← readOptionalTimestamp;
           h ← readNameNewHeight version;
           mret (set_times ts h record) in
  (m {| data := d; offset := 1 |}).1.

(** ** UTXOs *)

Definition encodeUTXO (u : UTXO) : res bytes :=
  let addrBytes := u_Address u in
  if Z.of_nat (length addrBytes) >? 255 then Err (EMsg "address too long: %d bytes")
  else if Z.of_nat (length (u_PkScript u)) >? 65535 then Err (EMsg "script too long: %d bytes")
  else Ok (be_bytes 8 (uint64 (u_Value u)) ++ be_bytes 4 (uint32 (u_Height u)) ++
           [byte_of_Z (Z.of_nat (length addrBytes))] ++ addrBytes ++
           be_bytes 2 (uint16 (Z.of_nat (length (u_PkScript u)))) ++ u_PkScript u).

Definition decodeUTXO (txHash : bytes) (outIndex : Z) (d : bytes) : res UTXO :=
  if bool_decide (length d < 8 + 4 + 1)%nat then Err (EMsg "invalid UTXO data: too short")
  else
    let value := int64 (of_be (slice d 0 8)) in
    let height := int32 (of_be (slice d 8 12)) in
    let addrLen := Z.to_nat (of_be (slice d 12 13)) in
    if bool_decide (length d < 13 + addrLen + 2)%nat
    then Err (EMsg "invalid UTXO data: address truncated")
    else
      let address := slice d 13 (13 + addrLen) in
      let offset := (13 + addrLen)%nat in
      let scriptLen := Z.to_nat (of_be (slice d offset (offset + 2))) in
      if bool_decide (length d < offset + 2 + scriptLen)%nat
      then Err (EMsg "invalid UTXO data: script truncated")
      else Ok {| u_TxHash := txHash; u_OutIndex := outIndex; u_Value := value;
                 u_Address := address;
                 u_PkScript := slice d (offset + 2) (offset + 2 + scriptLen);
                 u_Height := height |}.

(** ** Bucket keys *)

Definition makeExpirationKey (height : Z) (name : bytes) : bytes :=
  be_bytes 4 (uint32 height) ++ name.
Definition makeHeightNameKey (height : Z) (name : bytes) : bytes :=
  be_bytes 4 (uint32 height) ++ name.
Definition makeUTXOKey (txHash : bytes) (outIndex : Z) : bytes :=
  txHash ++ be_bytes 4 outIndex.
Definition makeUTXOAddressKey (address txHash : bytes) (outIndex : Z) : bytes :=
  address ++ txHash ++ be_bytes 4 outIndex.
Definition makeSpentUTXOHeightKey (height : Z) (txHash : bytes) (outIndex : Z) : bytes :=
  be_bytes 4 (uint32 height) ++ txHash ++ be_bytes 4 outIndex.

(** [int32(binary.BigEndian.Uint32(k[:4]))] *)
Definition key_height (k : bytes) : Z := int32 (of_be (slice k 0 4)).

Definition parseSpentUTXOHeightKey (key : bytes) : option (bytes * Z) :=
  if bool_decide (length key < 4 + txHashSize + 4)%nat then None
  else Some (slice key 4 (4 + txHashSize), of_be (slice key (4 + txHashSize) (4 + txHashSize + 4))).

Definition parseAddressIndexKey (address key : bytes) : option (bytes * Z) :=
  if bool_decide (length key <> length address + txHashSize + 4)%nat then None
  else Some (slice key (length address) (length address + txHashSize),
             of_be (slice key (length address + txHashSize) (length address + txHashSize + 4))).

(** ** Well-formed records: what the Go types and the encodings can hold *)

Record record_ok (r : NameRecord) : Prop := {
  ok_hash : length (TxHash r) = txHashSize;
  ok_out : is_uint32 (OutIndex r);
  ok_height : is_int32 (Height r);
  ok_expires : is_int32 (ExpiresAt r);
  ok_nnh : is_int32 (NameNewHeight r);
  ok_time : is_int64 (UpdatedAt r);
  ok_value : Z.of_nat (length (Value r)) <= maxRecordStringLen;
  ok_address : Z.of_nat (length (Address r)) <= maxRecordStringLen;
}.

Record utxo_ok (u : UTXO) : Prop := {
  uok_hash : length (u_TxHash u) = txHashSize;
  uok_out : is_uint32 (u_OutIndex u);
  uok_value : is_int64 (u_Value u);
  uok_height : is_int32 (u_Height u);
  uok_address : Z.of_nat (length (u_Address u)) <= 255;
  uok_script : Z.of_nat (length (u_PkScript u)) <= 65535;
}.

(** ** Lemmas about the reader *)

(** A reader that has consumed [pre] of [pre ++ post]. *)
Definition reader (pre post : bytes) : recordReader :=
  {| data := pre ++ post; offset := length pre |}.

Lemma room_reader n pre post : room n (reader pre post) = bool_decide (n <= length post)%nat.
Proof.
  unfold room, reader. simpl. rewrite length_app.
  apply bool_decide_ext. lia.
Qed.

Lemma take_bytes_reader pre f post :
  take_bytes (length f) (reader pre (f ++ post)) = (Ok f, reader (pre ++ f) post).
Proof.
  unfold take_bytes, reader, advance. simpl. rewrite slice_mid.
  by rewrite <-app_assoc, length_app.
Qed.

(** A field of the data cut off after [m] more bytes: read when it is whole. *)
Lemma take_bytes_cut pre f post m : (length f <= m)%nat ->
  take_bytes (length f) (reader pre (take m (f ++ post))) =
  (Ok f, reader (pre ++ f) (take (m - length f) post)).
Proof. intros. rewrite take_app_ge by done. apply take_bytes_reader. Qed.

Lemma room_cut n pre f post m : length f = n ->
  room n (reader pre (take m (f ++ post))) = bool_decide (n <= m)%nat.
Proof.
  intros. rewrite room_reader. apply bool_decide_ext.
  rewrite length_take, length_app. lia.
Qed.

Lemma readUint32_cut field pre v post m : is_uint32 v ->
  readUint32 field (reader pre (take m (le_bytes 4 v ++ post))) =
  if bool_decide (4 <= m)%nat
  then (Ok v, reader (pre ++ le_bytes 4 v) (take (m - 4) post))
  else (Err (EMsg ("corrupt record: truncated at " +:+ field)),
        reader pre (take m (le_bytes 4 v ++ post))).
Proof.
  intros Hv. unfold readUint32. cbv [mbind M_bind get].
  rewrite room_cut by apply length_le_bytes. case_bool_decide; [|done].
  pose proof (take_bytes_cut pre (le_bytes 4 v) post m) as E.
  rewrite length_le_bytes in E. rewrite E by done.
  rewrite of_le_bytes. cbv [mret M_ret]. f_equal. f_equal.
  change (256 ^ Z.of_nat 4) with (2 ^ 32). by apply uint32_id.
Qed.

Lemma readInt32_cut field pre v post m : is_int32 v ->
  readInt32 field (reader pre (take m (le_bytes 4 (uint32 v) ++ post))) =
  if bool_decide (4 <= m)%nat
  then (Ok v, reader (pre ++ le_bytes 4 (uint32 v)) (take (m - 4) post))
  else (Err (EMsg ("corrupt record: truncated at " +:+ field)),
        reader pre (take m (le_bytes 4 (uint32 v) ++ post))).
Proof.
  intros Hv. unfold readInt32. cbv [mbind M_bind].
  rewrite readUint32_cut by apply uint32_range. case_bool_decide; [|done].
  cbv [mret M_ret]. by rewrite int32_uint32.
Qed.

Lemma readFixedBytes_cut field n pre f post m : length f = n ->
  readFixedBytes n field (reader pre (take m (f ++ post))) =
  if bool_decide (n <= m)%nat
  then (Ok f, reader (pre ++ f) (take (m - n) post))
  else (Err (EMsg ("corrupt record: truncated at " +:+ field)), reader pre (take m (f ++ post))).
Proof.
  intros Hl. unfold readFixedBytes. cbv [mbind M_bind get].
  rewrite room_cut by done. case_bool_decide; [|done].
  subst n. by rewrite take_bytes_cut.
Qed.

(** The bytes of a length-prefixed string. *)
Definition string_field (s : bytes) : bytes := le_bytes 4 (uint32 (Z.of_nat (length s))) ++ s.

Lemma readString_cut field pre s post m : Z.of_nat (length s) <= maxRecordStringLen ->
  exists e r,
  readString field (reader pre (take m (string_field s ++ post))) =
  if bool_decide (4 + length s <= m)%nat
  then (Ok s, reader (pre ++ string_field s) (take (m - (4 + length s)) post))
  else (Err e, r).
Proof.
  intros Hs. unfold maxRecordStringLen in Hs.
  assert (uint32 (Z.of_nat (length s)) = Z.of_nat (length s)) as Hu
    by (apply uint32_id; unfold_int; lia).
  unfold readString, string_field. cbv [mbind M_bind]. rewrite Hu, <-app_assoc.
  rewrite readUint32_cut by (unfold_int; lia).
  case_bool_decide as Hm; [|rewrite bool_decide_false by lia; eauto].
  destruct (Z.gtb_spec (Z.of_nat (length s)) maxRecordStringLen); [unfold maxRecordStringLen in *; lia|].
  cbv [get]. rewrite Nat2Z.id, room_cut by done.
  destruct (decide (4 + length s <= m)%nat) as [L|L].
  - rewrite !bool_decide_true by lia. rewrite take_bytes_cut by lia.
    exists (EMsg ""), (reader [] []). by rewrite <-app_assoc, Nat.sub_add_distr.
  - rewrite !bool_decide_false by lia. eauto.
Qed.

(** ** Name records round-trip, and what a truncated one does *)

(** The bytes of a record before its timestamp, and its last twelve bytes. *)
Definition core_bytes (r : NameRecord) : bytes :=
  string_field (Value r) ++ TxHash r ++ le_bytes 4 (OutIndex r) ++
  le_bytes 4 (uint32 (Height r)) ++ le_bytes 4 (uint32 (ExpiresAt r)) ++
  string_field (Address r).
Definition tail_bytes (r : NameRecord) : bytes :=
  le_bytes 8 (uint64 (UpdatedAt r)) ++ le_bytes 4 (uint32 (NameNewHeight r)).

Lemma encodeNameRecord_eq r : encodeNameRecord r = [Byte.x03] ++ core_bytes r ++ tail_bytes r.
Proof.
  unfold encodeNameRecord, core_bytes, tail_bytes, string_field, writeRecordString,
    writeRecordUint32, writeRecordUint64. change (byte_of_Z NameRecordVersion) with Byte.x03.
  by rewrite !app_nil_l, <-!app_assoc.
Qed.

Lemma length_string_field s : length (string_field s) = (4 + length s)%nat.
Proof. unfold string_field. by rewrite length_app, length_le_bytes. Qed.

Lemma length_tail_bytes r : length (tail_bytes r) = 12%nat.
Proof. unfold tail_bytes. by rewrite length_app, !length_le_bytes. Qed.

Lemma decode_core_cut pre r post m : record_ok r ->
  exists e s,
  decodeNameRecordCore (reader pre (take m (core_bytes r ++ post))) =
  if bool_decide (length (core_bytes r) <= m)%nat
  then (Ok (set_times zero_time 0 (set_Name [] r)),
        reader (pre ++ core_bytes r) (take (m - length (core_bytes r)) post))
  else (Err e, s).
Proof.
  intros [Hh Ho Hht Hex Hn Ht Hv Ha].
  assert (length (core_bytes r) =
    (4 + length (Value r) + 32 + 4 + 4 + 4 + (4 + length (Address r)))%nat) as Hlen.
  { unfold core_bytes. rewrite !length_app, !length_string_field, !length_le_bytes, Hh.
    unfold txHashSize. lia. }
  rewrite Hlen. unfold decodeNameRecordCore, core_bytes. rewrite <-!app_assoc.
  cbv [mbind M_bind].
  match goal with |- context [bool_decide ?P] => destruct (decide P) as [L|L] end;
    [rewrite (bool_decide_true _ L)|rewrite (bool_decide_false _ L)].
  - destruct (readString_cut "value" pre (Value r) (TxHash r ++ le_bytes 4 (OutIndex r) ++
      le_bytes 4 (uint32 (Height r)) ++ le_bytes 4 (uint32 (ExpiresAt r)) ++
      string_field (Address r) ++ post) m Hv) as (e1 & s1 & ->).
    rewrite bool_decide_true by lia. rewrite readFixedBytes_cut by done.
    rewrite bool_decide_true by lia. rewrite readUint32_cut by done.
    rewrite bool_decide_true by lia. rewrite readInt32_cut by done.
    rewrite bool_decide_true by lia. rewrite readInt32_cut by done.
    rewrite bool_decide_true by lia.
    match goal with |- context [readString _ (reader ?p (take ?k _))] =>
      destruct (readString_cut "address" p (Address r) post k Ha) as (e2 & s2 & ->) end.
    rewrite bool_decide_true by lia. exists (EMsg ""), (reader [] []).
    rewrite <-!app_assoc, !Nat.sub_add_distr. reflexivity.
  - destruct (readString_cut "value" pre (Value r) (TxHash r ++ le_bytes 4 (OutIndex r) ++
      le_bytes 4 (uint32 (Height r)) ++ le_bytes 4 (uint32 (ExpiresAt r)) ++
      string_field (Address r) ++ post) m Hv) as (e1 & s1 & ->).
    case_bool_decide; [|eauto]. rewrite readFixedBytes_cut by done.
    case_bool_decide; [|eauto]. rewrite readUint32_cut by done.
    case_bool_decide; [|eauto]. rewrite readInt32_cut by done.
    case_bool_decide; [|eauto]. rewrite readInt32_cut by done.
    case_bool_decide; [|eauto].
    match goal with |- context [readString _ (reader ?p (take ?k _))] =>
      destruct (readString_cut "address" p (Address r) post k Ha) as (e2 & s2 & ->) end.
    rewrite bool_decide_false by lia. eauto.
Qed.

Lemma decode_prefix r m : record_ok r ->
  decodeNameRecord (take (1 + m) (encodeNameRecord r)) =
  match decodeNameRecordCore (reader [Byte.x03] (take m (core_bytes r ++ tail_bytes r))) with
  | (Ok rec, s) =>
      ((ts ← readOptionalTimestamp; h ← readNameNewHeight 3; mret (set_times ts h rec)) s).1
  | (Err e, _) => Err e
  end.
Proof.
  intros _. rewrite encodeNameRecord_eq. cbn [take app plus].
  unfold decodeNameRecord. cbn [validateRecordVersion].
  change (Z_of_byte Byte.x03) with 3. cbn [negb Z.eqb andb Pos.eqb].
  change (res_bind _ _ ?f (Ok ?x)) with (f x).
  cbv [mbind res_bind M_bind]. unfold reader. simpl.
  by destruct (decodeNameRecordCore _) as [[]].
Qed.

Lemma read_tail pre r k :
  record_ok r -> (k <= 12)%nat ->
  is_ok ((ts ← readOptionalTimestamp; h ← readNameNewHeight 3; mret (ts, h))
           (reader pre (take k (tail_bytes r)))).1 =
  bool_decide (k = 12 \/ 4 <= k < 8)%nat.
Proof.
  intros Ok_r Hk. unfold readOptionalTimestamp, readNameNewHeight.
  cbv [mbind M_bind get]. rewrite room_reader.
  assert (length (take k (tail_bytes r)) = k) as Hl
    by (rewrite length_take, length_tail_bytes; lia).
  rewrite Hl. case_bool_decide.
  - cbv [mret M_ret]. cbn [Z.ltb Z.compare Pos.compare Pos.compare_cont].
    unfold room, advance, reader. simpl. rewrite length_app, Hl.
    do 2 (case_bool_decide; simpl); done || lia.
  - cbv [mret M_ret]. cbn [Z.ltb Z.compare Pos.compare Pos.compare_cont].
    rewrite room_reader, Hl.
    do 2 (case_bool_decide; simpl); done || lia.
Qed.

Lemma read_tail_full pre r : record_ok r ->
  ((ts ← readOptionalTimestamp; h ← readNameNewHeight 3; mret (ts, h))
     (reader pre (tail_bytes r))).1 = Ok (UpdatedAt r, NameNewHeight r).
Proof.
  intros [_ _ _ _ Hn Ht _ _]. unfold readOptionalTimestamp, readNameNewHeight.
  cbv [mbind M_bind get]. rewrite room_reader, length_tail_bytes, bool_decide_true by lia.
  unfold tail_bytes. pose proof (take_bytes_reader pre (le_bytes 8 (uint64 (UpdatedAt r)))
    (le_bytes 4 (uint32 (NameNewHeight r)))) as E. rewrite length_le_bytes in E. rewrite E.
  cbv [mret M_ret]. cbn [Z.ltb Z.compare Pos.compare Pos.compare_cont].
  rewrite room_reader, length_le_bytes, bool_decide_true by lia.
  pose proof (take_bytes_reader (pre ++ le_bytes 8 (uint64 (UpdatedAt r)))
    (le_bytes 4 (uint32 (NameNewHeight r))) []) as E2.
  rewrite length_le_bytes, app_nil_r in E2. rewrite E2. rewrite !of_le_bytes.
  change (256 ^ Z.of_nat 8) with (2 ^ 64). change (256 ^ Z.of_nat 4) with (2 ^ 32).
  change (?a mod 2 ^ 64) with (wrapU 64 a). change (?a mod 2 ^ 32) with (wrapU 32 a).
  cbn [fst]. apply (f_equal Ok). f_equal; int_lia.
Qed.

(** The reads after the core fields, as a function of what they return. *)
Lemma tail_reads rec s :
  ((ts ← readOptionalTimestamp; h ← readNameNewHeight 3; mret (set_times ts h rec)) s).1 =
  match ((ts ← readOptionalTimestamp; h ← readNameNewHeight 3; mret (ts, h)) s).1 with
  | Ok (ts, h) => Ok (set_times ts h rec)
  | Err e => Err e
  end.
Proof.
  cbv [mbind M_bind mret M_ret]. destruct (readOptionalTimestamp s) as [[ts|] s1]; [|done].
  by destruct (readNameNewHeight 3 s1) as [[]].
Qed.

Lemma length_encodeNameRecord r :
  length (encodeNameRecord r) = (13 + length (core_bytes r))%nat.
Proof.
  rewrite encodeNameRecord_eq, !length_app, length_tail_bytes. simpl. lia.
Qed.

Lemma decode_encode r : record_ok r ->
  decodeNameRecord (encodeNameRecord r) = Ok (set_Name [] r).
Proof.
  intros Hr. rewrite <-(firstn_all (encodeNameRecord r)), length_encodeNameRecord.
  change (13 + ?n)%nat with (1 + (12 + n))%nat. rewrite decode_prefix by done.
  destruct (decode_core_cut [Byte.x03] r (tail_bytes r) (12 + length (core_bytes r)) Hr)
    as (e & s & ->).
  rewrite bool_decide_true by lia. rewrite tail_reads.
  replace (12 + length (core_bytes r) - length (core_bytes r))%nat
    with (length (tail_bytes r)) by (rewrite length_tail_bytes; lia).
  rewrite firstn_all, read_tail_full by done. by destruct r.
Qed.

Lemma decode_truncated r n : record_ok r -> (n < length (encodeNameRecord r))%nat ->
  is_ok (decodeNameRecord (take n (encodeNameRecord r))) =
  bool_decide (5 <= length (encodeNameRecord r) - n <= 8)%nat.
Proof.
  intros Hr Hn. rewrite length_encodeNameRecord in *.
  destruct n as [|m]; [by rewrite bool_decide_false by lia|].
  change (S m) with (1 + m)%nat. rewrite decode_prefix by done.
  destruct (decode_core_cut [Byte.x03] r (tail_bytes r) m Hr) as (e & s & ->).
  case_bool_decide as Hm; [|by rewrite bool_decide_false by lia].
  rewrite tail_reads.
  pose proof (read_tail ([Byte.x03] ++ core_bytes r) r (m - length (core_bytes r)) Hr) as T.
  rewrite (bool_decide_ext _ (5 <= 13 + length (core_bytes r) - (1 + m) <= 8)%nat) in T by lia.
  rewrite <-T by lia. by match goal with |- context [match ?x with Ok _ => _ | Err _ => _ end] =>
    destruct x as [[]|] end.
Qed.

(** ** UTXO encodings *)

Lemma decode_encode_UTXO u d : utxo_ok u -> encodeUTXO u = Ok d ->
  decodeUTXO (u_TxHash u) (u_OutIndex u) d = Ok u.
Proof.
  intros [Hh Ho Hv Hht Ha Hs]. unfold encodeUTXO.
  destruct (Z.gtb_spec (Z.of_nat (length (u_Address u))) 255); [lia|].
  destruct (Z.gtb_spec (Z.of_nat (length (u_PkScript u))) 65535); [lia|].
  set (v := be_bytes 8 _). set (h := be_bytes 4 _). set (l := [byte_of_Z _]).
  set (sl := be_bytes 2 _). intros <-%Ok_inj.
  assert (length v = 8%nat) as Lv by apply length_be_bytes.
  assert (length h = 4%nat) as Lh by apply length_be_bytes.
  assert (length sl = 2%nat) as Lsl by apply length_be_bytes.
  set (d := v ++ h ++ l ++ u_Address u ++ sl ++ u_PkScript u).
  assert (length d = 13 + length (u_Address u) + 2 + length (u_PkScript u))%nat as Ld.
  { unfold d. rewrite !length_app, Lv, Lh, Lsl. simpl. lia. }
  assert (slice d 0 8 = v) as E1 by (unfold d; rewrite <-Lv; apply slice_app_l).
  assert (slice d 8 12 = h) as E2.
  { pose proof (slice_mid v h (l ++ u_Address u ++ sl ++ u_PkScript u)) as E.
    by rewrite Lv, Lh in E. }
  assert (slice d 12 13 = l) as E3.
  { pose proof (slice_mid (v ++ h) l (u_Address u ++ sl ++ u_PkScript u)) as E.
    rewrite !length_app, Lv, Lh, <-app_assoc in E. done. }
  assert (of_be l = Z.of_nat (length (u_Address u))) as El.
  { unfold l, of_be. simpl. rewrite Z_of_byte_of_Z, Z.mod_small; lia. }
  assert (slice d 13 (13 + length (u_Address u)) = u_Address u) as E4.
  { pose proof (slice_mid (v ++ h ++ l) (u_Address u) (sl ++ u_PkScript u)) as E.
    rewrite !length_app, Lv, Lh, <-!app_assoc in E. done. }
  assert (slice d (13 + length (u_Address u)) (13 + length (u_Address u) + 2) = sl) as E5.
  { pose proof (slice_mid (v ++ h ++ l ++ u_Address u) sl (u_PkScript u)) as E.
    rewrite !length_app, Lv, Lh, Lsl, <-!app_assoc in E. done. }
  assert (of_be sl = Z.of_nat (length (u_PkScript u))) as Esl.
  { unfold sl. rewrite of_be_bytes. change (256 ^ Z.of_nat 2) with 65536. int_lia. }
  unfold decodeUTXO. rewrite E1, E2, E3, El, Nat2Z.id, Ld.
  rewrite bool_decide_false, bool_decide_false by lia. rewrite E4, E5, Esl, Nat2Z.id.
  rewrite bool_decide_false by lia. f_equal.
  replace (slice d _ _) with (u_PkScript u).
  - unfold v, h. rewrite !of_be_bytes.
    change (256 ^ Z.of_nat 8) with (2 ^ 64). change (256 ^ Z.of_nat 4) with (2 ^ 32).
    destruct u; simpl in *. f_equal; int_lia.
  - pose proof (slice_mid (v ++ h ++ l ++ u_Address u ++ sl) (u_PkScript u) []) as E.
    rewrite app_nil_r, !length_app, Lv, Lh, Lsl, <-!app_assoc in E.
    transitivity (slice d (8 + (4 + (length l + (length (u_Address u) + 2))))
      (8 + (4 + (length l + (length (u_Address u) + 2))) + length (u_PkScript u))); [done|].
    f_equal; simpl; lia.
Qed.
