(* ===== verification/NameDB.v ===== *)
(** * The name database

    namedb/namedb.go: [NameDatabase] over the store of Bolt.v, with the record
    cache of Lru.v.  [mu] is not modelled: every operation holds it for its whole
    body, so operations run one after another.  [Update] and [View] are the
    transactions of [bbolt.DB]: a body that returns an error, and a failing commit,
    leave the stored buckets as they were; a cache update made inside the body
    stays.  [View] gives the body a transaction whose writes are dropped. *)

From S2P Require Import Prelude Bolt Lru Record.

Section namedb.
Context {B : Bolt}.

Abbreviation cache_t := (@lruCache bytes _ _ NameRecord).

Record NameDatabase := mkNDB {
  db : option Tx;              (* None: the bbolt handle is closed *)
  cache : cache_t;
  closed : bool;
}.

Definition set_db (d : option Tx) (n : NameDatabase) : NameDatabase :=
  {| db := d; cache := cache n; closed := closed n |}.
Definition set_cache (c : cache_t) (n : NameDatabase) : NameDatabase :=
  {| db := db n; cache := c; closed := closed n |}.

Definition ErrDatabaseNotOpen : error := EMsg "database not open".

(** [db.Update(fn)]; the body may also touch the cache. *)
Definition Update_with {A} (fn : M (Tx * cache_t) A) : M NameDatabase A := fun n =>
  match db n with
  | None => (Err ErrDatabaseNotOpen, n)
  | Some t =>
      let '(r, (t', c')) := fn (t, cache n) in
      let n' := set_cache c' n in
      match r with
      | Err e => (Err e, n')
      | Ok a => match bolt_commit t' with
                | Ok _ => (Ok a, set_db (Some t') n')
                | Err e => (Err e, n')
                end
      end
  end.

Definition on_tx {A} (m : M Tx A) : M (Tx * cache_t) A := zoom fst (fun t s => (t, s.2)) m.
Definition on_cache (f : cache_t -> cache_t) : M (Tx * cache_t) unit :=
  modify (fun s => (s.1, f s.2)).

Definition Update {A} (fn : M Tx A) : M NameDatabase A := Update_with (on_tx fn).

(** [db.View(fn)] *)
Definition View {A} (fn : M Tx A) : M NameDatabase A := fun n =>
  match db n with
  | None => (Err ErrDatabaseNotOpen, n)
  | Some t => ((fn t).1, n)
  end.

(** [NewNameDatabase]: [opened] is what [bbolt.Open] gave, the buckets of the file. *)
Definition NewNameDatabase (opened : res Tx) : res NameDatabase :=
  t ← wrap_err "failed to open database" opened;
  let t' := foldl (fun t b => if has_bucket t b then t else <[b:=bkt_empty]> t) t all_buckets in
  _ ← bolt_commit t';
  mret {| db := Some t'; cache := newLRUCache 10000 10000; closed := false |}.

(** [Close]; [close_err] is what closing the bbolt file returns. *)
Definition Close (close_err : option error) : M NameDatabase unit := fun n =>
  if closed n then (Ok tt, n)
  else match close_err with
       | Some e => (Err e, n)
       | None => (Ok tt, {| db := None; cache := lru_Clear (cache n); closed := true |})
       end.

(** ** Names and the expiration index *)

Definition deleteOldExpirationIndex (namesBkt expirationBkt : bucket) (name : bytes) : M Tx unit :=
  existingData ← b_get namesBkt name;
  match existingData with
  | None => mret tt
  | Some d =>
      existingRecord ← wrapM "failed to decode existing record for %q" (lift (decodeNameRecord d));
      b_delete expirationBkt (makeExpirationKey (ExpiresAt existingRecord) name)
  end.

(** [cacheNameRecord]; it also sets the name in the caller's struct, which is
    returned. *)
Definition cacheNameRecord (name : bytes) (record : NameRecord) : M NameDatabase NameRecord :=
  let record := set_Name name record in
  modify (fun n => set_cache (lru_Put name record (cache n)).2 n);;
  mret record.

Definition PutName (name : bytes) (record : option NameRecord) : M NameDatabase NameRecord :=
  match record with
  | None => fail (EMsg "record cannot be nil")
  | Some record =>
      Update (
        requireBuckets [namesBucket; expirationBucket];;
        deleteOldExpirationIndex namesBucket expirationBucket name;;
        b_put namesBucket name (encodeNameRecord record);;
        b_put expirationBucket (makeExpirationKey (ExpiresAt record) name) [Byte.x01]);;
      cacheNameRecord name record
  end.

Definition GetName (name : bytes) : M NameDatabase NameRecord := fun n =>
  let '(hit, c) := lru_Get name (cache n) in
  let n := set_cache c n in
  match hit with
  | Some cached => (Ok cached, n)
  | None =>
      (record ← View (
         requireBucket namesBucket;;
         data ← b_get namesBucket name;
         match data with
         | None => fail ErrNameNotFound
         | Some d =>
             record ← wrapM "failed to decode name %s" (lift (decodeNameRecord d));
             mret (set_Name name record)
         end);
       modify (fun n => set_cache (lru_Put name record (cache n)).2 n);;
       mret record) n
  end.

Definition DeleteName (name : bytes) : M NameDatabase unit :=
  Update (
    requireBuckets [namesBucket; expirationBucket];;
    existingData ← b_get namesBucket name;
    (match existingData with
     | Some d =>
         match decodeNameRecord d with
         | Ok existingRecord =>
             b_delete expirationBucket (makeExpirationKey (ExpiresAt existingRecord) name)
         | Err _ => mret tt
         end
     | None => mret tt
     end);;
    b_delete namesBucket name);;
  modify (fun n => set_cache (lru_Delete name (cache n)).2 n).

(** The scan of the expiration index, from the first key on, up to the first
    one that has not expired at [height]. *)
Fixpoint scanExpired (height : Z) (keys : list bytes) : list bytes :=
  match keys with
  | [] => []
  | k :: keys =>
      if bool_decide (length k < 4)%nat then scanExpired height keys
      else
        let expiresAt := key_height k in
        if expiresAt <? height then drop 4 k :: scanExpired height keys else []
  end.

Definition GetExpiredNames (height : Z) : M NameDatabase (list bytes) :=
  View (
    requireBucket expirationBucket;;
    items ← b_items expirationBucket;
    mret (scanExpired height items.*1)).

Fixpoint decodeAll (items : list (bytes * bytes)) : M Tx (list NameRecord) :=
  match items with
  | [] => mret []
  | (k, v) :: items =>
      record ← wrapM "failed to decode name %s" (lift (decodeNameRecord v));
      names ← decodeAll items;
      mret (set_Name k record :: names)
  end.

Definition ListNames : M NameDatabase (list NameRecord) :=
  View (withBucket namesBucket (fun bkt => items ← b_items bkt; decodeAll items)).

Definition decodeScannedName (key value : bytes) : option NameRecord :=
  match decodeNameRecord value with
  | Ok record => Some (set_Name key record)
  | Err _ => None
  end.

(** The loop of [ScanNames]; [results] counts what was found so far. *)
Fixpoint scanLoop (prefix : bytes) (count : Z) (results : list NameRecord)
    (items : list (bytes * bytes)) : list NameRecord :=
  match items with
  | [] => results
  | (k, v) :: items =>
      if negb (HasPrefix k prefix) || (Z.of_nat (length results) >=? count) then results
      else match decodeScannedName k v with
           | Some record => scanLoop prefix count (results ++ [record]) items
           | None => scanLoop prefix count results items
           end
  end.

Definition ScanNames (prefix : bytes) (count : Z) : M NameDatabase (list NameRecord) :=
  if count <=? 0 then mret []
  else View (
    t ← get;
    if has_bucket t namesBucket then
      items ← b_seek namesBucket prefix;
      mret (scanLoop prefix count [] items)
    else mret []).

(** ** History: an index of transaction hashes per name *)

(** [for i := 0; i+txHashSize <= len(l); i += txHashSize { l[i:i+txHashSize] }] *)
Definition txHashes (l : bytes) : list bytes :=
  (fun i => slice l (txHashSize * i) (txHashSize * i + txHashSize)) <$>
    List.seq 0 (length l / txHashSize).

Definition index_corrupt (l : bytes) : bool := bool_decide (length l `mod` txHashSize <> 0)%nat.

Definition corrupt_index : error := EMsg "corrupt history index for name: %s".

Definition DeleteHistory (name : bytes) : M NameDatabase unit :=
  Update (
    requireBuckets [historyIndexBucket; historyBucket];;
    indexData ← b_get historyIndexBucket name;
    match indexData with
    | None => mret tt
    | Some indexData =>
        if index_corrupt indexData then fail corrupt_index
        else
          forM (txHashes indexData) (fun txHash => b_delete historyBucket txHash);;
          b_delete historyIndexBucket name
    end).

Definition AddHistory (txHash : bytes) (record : option NameRecord) : M NameDatabase unit :=
  match record with
  | None => fail (EMsg "record cannot be nil")
  | Some record =>
      Update (withBuckets [historyBucket; historyIndexBucket] (fun _ =>
        b_put historyBucket txHash (encodeNameRecord record);;
        existing ← b_get historyIndexBucket (Name record);
        b_put historyIndexBucket (Name record) (default [] existing ++ txHash)))
  end.

Fixpoint loadHistory (name : bytes) (hashes : list bytes) : M Tx (list NameRecord) :=
  match hashes with
  | [] => mret []
  | h :: hashes =>
      data ← b_get historyBucket h;
      match data with
      | None => loadHistory name hashes
      | Some d =>
          record ← wrapM "failed to decode history for name %s" (lift (decodeNameRecord d));
          records ← loadHistory name hashes;
          mret (set_Name name record :: records)
      end
  end.

Definition GetHistory (name : bytes) : M NameDatabase (list NameRecord) :=
  View (
    requireBuckets [historyIndexBucket; historyBucket];;
    indexData ← b_get historyIndexBucket name;
    match indexData with
    | None => mret []
    | Some indexData =>
        if index_corrupt indexData then fail corrupt_index
        else loadHistory name (txHashes indexData)
    end).

Definition truncateHistoryIndex (indexBucket histBucket : bucket) (name indexData : bytes) :
    M Tx (option NameRecord) :=
  let newIndexData := take (length indexData - txHashSize) indexData in
  if bool_decide (newIndexData = []) then b_delete indexBucket name;; mret None
  else
    b_put indexBucket name newIndexData;;
    let prevTxHash := drop (length newIndexData - txHashSize) newIndexData in
    data ← b_get histBucket prevTxHash;
    match data with
    | None => mret None
    | Some d =>
        record ← wrapM "failed to decode previous record" (lift (decodeNameRecord d));
        mret (Some (set_Name name record))
    end.

Definition RemoveLastHistoryEntry (name : bytes) : M NameDatabase (option NameRecord) :=
  Update (withBuckets [historyIndexBucket; historyBucket] (fun _ =>
    indexData ← b_get historyIndexBucket name;
    let indexData := default [] indexData in
    if bool_decide (indexData = []) then mret None
    else if index_corrupt indexData then fail corrupt_index
    else
      b_delete historyBucket (drop (length indexData - txHashSize) indexData);;
      truncateHistoryIndex historyIndexBucket historyBucket name indexData)).

(** ** Backups of expired names *)

Fixpoint copyHistoryRecords (txHashList : list bytes) (src dst : bucket) : M Tx unit :=
  match txHashList with
  | [] => mret tt
  | txHash :: rest =>
      histData ← b_get src txHash;
      (match histData with
       | None => mret tt
       | Some d => b_put dst txHash d
       end);;
      copyHistoryRecords rest src dst
  end.

Definition backupExpiredHistory (heightKey nameKey : bytes)
    (histIdxBkt histBkt expiredHistIdxBkt expiredHistBkt : bucket) : M Tx unit :=
  txHashList ← b_get histIdxBkt nameKey;
  let txHashList := default [] txHashList in
  if bool_decide (txHashList = []) then mret tt
  else
    b_put expiredHistIdxBkt heightKey txHashList;;
    copyHistoryRecords (txHashes txHashList) histBkt expiredHistBkt.

Definition StoreExpiredName (record : option NameRecord) (expiredAtHeight : Z) :
    M NameDatabase unit :=
  match record with
  | None => fail (EMsg "record cannot be nil")
  | Some record =>
      Update (
        requireBuckets [expiredNamesBucket; expiredNamesIdxBucket; expiredHistBucket;
                        expiredHistIdxBucket; historyIndexBucket; historyBucket];;
        let heightKey := makeHeightNameKey expiredAtHeight (Name record) in
        b_put expiredNamesBucket heightKey (encodeNameRecord record);;
        b_put expiredNamesIdxBucket heightKey [Byte.x01];;
        backupExpiredHistory heightKey (Name record)
          historyIndexBucket historyBucket expiredHistIdxBucket expiredHistBucket)
  end.

Definition collectKeysForHeight (idxBkt : bucket) (height : Z) : M Tx (list bytes) :=
  let heightPrefix := be_bytes 4 (uint32 height) in
  items ← b_seek idxBkt heightPrefix;
  mret (prefixed heightPrefix items).*1.

(** The name is [""] when there is no backup. *)
Definition restoreExpiredNameRecord (heightKey : bytes)
    (expiredBkt namesBkt expirationBkt : bucket) : M Tx bytes :=
  data ← b_get expiredBkt heightKey;
  match data with
  | None => mret []
  | Some d =>
      let name := drop 4 heightKey in
      record ← wrapM "failed to decode expired name %s" (lift (decodeNameRecord d));
      wrapM "failed to restore name %s" (b_put namesBkt name d);;
      wrapM "failed to restore expiration index for %s"
        (b_put expirationBkt (makeExpirationKey (ExpiresAt record) name) [Byte.x01]);;
      mret name
  end.

Fixpoint moveHistoryRecords (txHashList : list bytes) (src dst : bucket) : M Tx unit :=
  match txHashList with
  | [] => mret tt
  | txHash :: rest =>
      histData ← b_get src txHash;
      (match histData with
       | None => mret tt
       | Some d =>
           wrapM "failed to restore history record for %s" (b_put dst txHash d);;
           wrapM "failed to delete restored history backup for %s" (b_delete src txHash)
       end);;
      moveHistoryRecords rest src dst
  end.

Definition restoreExpiredHistory (heightKey name : bytes)
    (expiredHistIdxBkt expiredHistBkt histIdxBkt histBkt : bucket) : M Tx unit :=
  txHashList ← b_get expiredHistIdxBkt heightKey;
  let txHashList := default [] txHashList in
  if bool_decide (txHashList = []) then mret tt
  else
    wrapM "failed to restore history index for %s" (b_put histIdxBkt name txHashList);;
    moveHistoryRecords (txHashes txHashList) expiredHistBkt histBkt;;
    wrapM "failed to delete expired history index for %s" (b_delete expiredHistIdxBkt heightKey).

Definition deleteExpiredBackup (heightKey : bytes) (expiredBkt idxBkt : bucket) : M Tx unit :=
  wrapM "failed to delete from expired names bucket" (b_delete expiredBkt heightKey);;
  wrapM "failed to delete from expired names index" (b_delete idxBkt heightKey).

(** One iteration of [RestoreExpiredNamesForBlock]. *)
Definition restoreExpiredEntry (heightKey : bytes) : M (Tx * cache_t) unit :=
  name ← on_tx (restoreExpiredNameRecord heightKey expiredNamesBucket namesBucket expirationBucket);
  if bool_decide (name = []) then mret tt
  else
    on_tx (restoreExpiredHistory heightKey name
             expiredHistIdxBucket expiredHistBucket historyIndexBucket historyBucket);;
    on_tx (deleteExpiredBackup heightKey expiredNamesBucket expiredNamesIdxBucket);;
    on_cache (fun c => (lru_Delete name c).2).

Definition RestoreExpiredNamesForBlock (height : Z) : M NameDatabase unit :=
  Update_with (
    on_tx (requireBuckets [namesBucket; expirationBucket; expiredNamesBucket;
      expiredNamesIdxBucket; expiredHistBucket; expiredHistIdxBucket; historyBucket;
      historyIndexBucket]);;
    heightKeys ← on_tx (collectKeysForHeight expiredNamesIdxBucket height);
    forM heightKeys restoreExpiredEntry).

Definition collectKeysBeforeHeight (idxBkt : bucket) (keepFromHeight : Z) : M Tx (list bytes) :=
  items ← b_items idxBkt;
  mret (filter (fun k => ~ (length k < 4)%nat /\ key_height k < keepFromHeight) items.*1).

Definition deleteExpiredHistoryBackup (heightKey : bytes)
    (expiredHistIdxBkt expiredHistBkt : bucket) : M Tx unit :=
  txHashList ← b_get expiredHistIdxBkt heightKey;
  let txHashList := default [] txHashList in
  forM (txHashes txHashList) (fun txHash => b_delete expiredHistBkt txHash);;
  if bool_decide (txHashList = []) then mret tt else b_delete expiredHistIdxBkt heightKey.

Definition CleanupOldExpiredNames (keepFromHeight : Z) : M NameDatabase unit :=
  Update (
    requireBuckets [expiredNamesBucket; expiredNamesIdxBucket; expiredHistBucket;
                    expiredHistIdxBucket];;
    heightKeys ← collectKeysBeforeHeight expiredNamesIdxBucket keepFromHeight;
    forM heightKeys (fun heightKey =>
      deleteExpiredHistoryBackup heightKey expiredHistIdxBucket expiredHistBucket;;
      deleteExpiredBackup heightKey expiredNamesBucket expiredNamesIdxBucket)).

(** ** NAME_NEW commitments *)

Record NameNewRecord := mkNameNewRecord { nn_Hash : bytes; nn_Height : Z }.

Definition PutNameNew (commitHash : bytes) (height : Z) : M NameDatabase unit :=
  Update (withBucket nameNewBucket (fun bkt =>
    existing ← b_get bkt commitHash;
    match existing with
    | Some _ => fail (EMsg "name_new commitment already exists")
    | None => b_put bkt commitHash (le_bytes 4 (uint32 height))
    end)).

Definition RestoreNameNew (commitHash : bytes) (height : Z) : M NameDatabase unit :=
  Update (withBucket nameNewBucket (fun bkt =>
    b_put bkt commitHash (le_bytes 4 (uint32 height)))).

Definition GetNameNew (commitHash : bytes) : M NameDatabase NameNewRecord :=
  View (withBucket nameNewBucket (fun bkt =>
    data ← b_get bkt commitHash;
    match data with
    | None => fail (EMsg "name_new commitment not found")
    | Some d =>
        if bool_decide (length d < 4)%nat then fail (EMsg "corrupt name_new record")
        else mret {| nn_Hash := commitHash; nn_Height := int32 (of_le (take 4 d)) |}
    end)).

Definition DeleteNameNew (commitHash : bytes) : M NameDatabase unit :=
  Update (withBucket nameNewBucket (fun bkt => b_delete bkt commitHash)).

End namedb.
