(* ===== verification/NamesSpec.v ===== *)
(** * The name database implements a finite map of names

    The specification of namedb/namedb.go's name operations: a finite map from
    names to records.  [ndb_wf] is the invariant that relates the buckets and the
    cache to it: the names bucket holds encodings of well-formed records, the
    expiration index has exactly one key per name, and the cache agrees with the
    names bucket.  The theorems show that the operations keep the invariant and
    implement the map's operations. *)

From S2P Require Import Prelude Bolt Lru Record NameDB.

(** ** The names bucket as a map of records *)

Definition decoded (name d : bytes) : option NameRecord :=
  match decodeNameRecord d with Ok r => Some (set_Name name r) | Err _ => None end.

Definition names_of (N : gmap bytes bytes) : gmap bytes NameRecord := map_imap decoded N.

(** Names whose keys both buckets accept. *)
Definition name_ok (name : bytes) : Prop := 0 < Z.of_nat (length name) <= MaxKeySize - 4.

#[export] Instance name_ok_dec name : Decision (name_ok name).
Proof. unfold name_ok. apply _. Defined.

Definition exp_key (name : bytes) (r : NameRecord) : bytes := makeExpirationKey (ExpiresAt r) name.

(** The names bucket [N] and the expiration index [X]. *)
Record names_wf (N X : gmap bytes bytes) : Prop := {
  nw_dec : forall name d, N !! name = Some d ->
    exists r, record_ok r /\ name_ok name /\ d = encodeNameRecord r;
  nw_exp : forall k, is_Some (X !! k) <->
    exists name r, names_of N !! name = Some r /\ k = exp_key name r;
}.

Lemma names_of_lookup N name : names_of N !! name = N !! name ≫= decoded name.
Proof. apply map_lookup_imap. Qed.

Lemma decoded_encode name r : record_ok r -> decoded name (encodeNameRecord r) = Some (set_Name name r).
Proof. intros H. unfold decoded. by rewrite decode_encode. Qed.

Lemma names_of_insert N name r : record_ok r ->
  names_of (<[name:=encodeNameRecord r]> N) = <[name:=set_Name name r]> (names_of N).
Proof. intros H. apply map_imap_insert_Some. by apply decoded_encode. Qed.

Lemma names_of_delete N name : names_of (delete name N) = delete name (names_of N).
Proof. apply map_imap_delete. Qed.

Lemma names_of_ok N X name r : names_wf N X -> names_of N !! name = Some r ->
  record_ok r /\ name_ok name /\ Name r = name /\ N !! name = Some (encodeNameRecord r).
Proof.
  intros W. rewrite names_of_lookup. destruct (N !! name) as [d|] eqn:E; [|done]. simpl.
  destruct (nw_dec _ _ W _ _ E) as (r0 & Hr & Hn & ->). rewrite decoded_encode by done.
  intros [= <-]. split_and!; [by destruct Hr; constructor|done..].
Qed.

Lemma names_of_none N X name : names_wf N X -> N !! name = None <-> names_of N !! name = None.
Proof.
  intros W. rewrite names_of_lookup. destruct (N !! name) as [d|] eqn:E; [|done]. simpl.
  destruct (nw_dec _ _ W _ _ E) as (r0 & Hr & _ & ->). by rewrite decoded_encode.
Qed.

Lemma key_height_make h name : is_int32 h -> key_height (makeExpirationKey h name) = h.
Proof.
  intros H. unfold key_height, makeExpirationKey.
  pose proof (slice_app_l (be_bytes 4 (uint32 h)) name) as E.
  rewrite length_be_bytes in E. rewrite E, of_be_bytes.
  change (256 ^ Z.of_nat 4) with 4294967296. int_lia.
Qed.

Lemma makeExpirationKey_inj h h' n n' : is_int32 h -> is_int32 h' ->
  makeExpirationKey h n = makeExpirationKey h' n' -> h = h' /\ n = n'.
Proof.
  intros H H' E. split.
  - rewrite <-(key_height_make h n), <-(key_height_make h' n') by done. by f_equal.
  - unfold makeExpirationKey in E. apply app_inj_1 in E as [_ ?]; [done|].
    by rewrite !length_be_bytes.
Qed.

(** What both writes leave in the index once the old key is gone. *)
Definition drop_old (N : gmap bytes bytes) (name : bytes) (X : gmap bytes bytes) : gmap bytes bytes :=
  match names_of N !! name with
  | Some r => delete (exp_key name r) X
  | None => X
  end.

Lemma drop_old_lookup N X name k : names_wf N X ->
  is_Some (drop_old N name X !! k) <->
  exists name' r, name' <> name /\ names_of N !! name' = Some r /\ k = exp_key name' r.
Proof.
  intros W. unfold drop_old.
  destruct (names_of N !! name) as [r0|] eqn:E0.
  - rewrite lookup_delete_is_Some, (nw_exp _ _ W). split.
    + intros (Hne & name' & r & E & ->). exists name', r.
      split; [|done]. intros ->. congruence.
    + intros (name' & r & Hn & E & ->). split; [|eauto].
      intros K. unfold exp_key in K.
      apply makeExpirationKey_inj in K as [_ ?]; [by subst| |];
        eapply ok_expires, names_of_ok; eauto.
  - rewrite (nw_exp _ _ W). split.
    + intros (name' & r & E & ->). exists name', r. split; [|done]. intros ->. congruence.
    + intros (name' & r & Hn & E & ->). eauto.
Qed.

Lemma names_wf_put N X name r v : names_wf N X -> record_ok r -> name_ok name ->
  names_wf (<[name:=encodeNameRecord r]> N) (<[exp_key name r:=v]> (drop_old N name X)).
Proof.
  intros W Hr Hn. split.
  - intros name' d. rewrite lookup_insert. case_decide as D.
    + intros [= <-]. subst. eauto.
    + apply (nw_dec _ _ W).
  - intros k. rewrite names_of_insert by done.
    rewrite lookup_insert_is_Some, drop_old_lookup by done. split.
    + intros [<-|(_ & name' & r' & D & E & ->)].
      * exists name, (set_Name name r). by rewrite lookup_insert_eq.
      * exists name', r'. by rewrite lookup_insert_ne.
    + intros (name' & r' & E & ->). rewrite lookup_insert in E. case_decide as D.
      * injection E as <-. subst. by left.
      * destruct (decide (exp_key name r = exp_key name' r')); [by left|right].
        split; [done|]. exists name', r'. eauto.
Qed.

Lemma names_wf_delete N X name : names_wf N X -> names_wf (delete name N) (drop_old N name X).
Proof.
  intros W. split.
  - intros name' d H%lookup_delete_Some. destruct H as [_ H]. by apply (nw_dec _ _ W).
  - intros k. rewrite drop_old_lookup, names_of_delete by done.
    split; intros (name' & r & K); exists name', r; [|destruct K as [K ?]];
      rewrite lookup_delete_Some in *; intuition congruence.
Qed.

Lemma names_wf_empty : names_wf ∅ ∅.
Proof.
  split; [done|]. intros k. split; [by intros [??]|].
  intros (name & r & E & _). by rewrite names_of_lookup in E.
Qed.

(** ** The database *)

Section spec.
Context {B : Bolt} {L : BoltLaws B}.

Definition ndb_bkt (n : NameDatabase) (b : bucket) : gmap bytes bytes :=
  match db n with Some t => bk t b | None => ∅ end.

(** The specification's state. *)
Definition ndb_names (n : NameDatabase) : gmap bytes NameRecord := names_of (ndb_bkt n namesBucket).

Definition cache_wf (m : gmap bytes NameRecord) (c : lruCache bytes NameRecord) : Prop :=
  lru_inv c /\ forall name r, cached c name = Some r -> m !! name = Some r.

Record ndb_wf (n : NameDatabase) : Prop := {
  wf_open : exists t, db n = Some t /\ tx_full t;
  wf_names : names_wf (ndb_bkt n namesBucket) (ndb_bkt n expirationBucket);
  wf_cache : cache_wf (ndb_names n) (cache n);
}.

(** [n'] is [n] up to the cache; both have the same buckets. *)
Definition same_store (n n' : NameDatabase) : Prop := db n' = db n /\ closed n' = closed n.

Lemma val_ok_encode r : record_ok r -> val_ok (encodeNameRecord r).
Proof.
  intros [Hh _ _ _ _ _ Hv Ha]. unfold val_ok, MaxValueSize, maxRecordStringLen in *.
  rewrite length_encodeNameRecord. unfold core_bytes.
  rewrite !length_app, !length_string_field, !length_le_bytes, Hh. unfold txHashSize. lia.
Qed.

Lemma key_ok_name name : name_ok name -> key_ok name.
Proof. unfold name_ok, key_ok. lia. Qed.

Lemma key_ok_exp h name : key_ok (makeExpirationKey h name) <-> Z.of_nat (length name) <= MaxKeySize - 4.
Proof.
  unfold key_ok, makeExpirationKey. rewrite length_app, length_be_bytes. lia.
Qed.

Lemma wp_deleteOldExpirationIndex name Q E t :
  tx_full t -> names_wf (bk t namesBucket) (bk t expirationBucket) ->
  (forall t', updated t expirationBucket (drop_old (bk t namesBucket) name (bk t expirationBucket)) t' ->
     Q tt t') ->
  wp (deleteOldExpirationIndex namesBucket expirationBucket name) Q E t.
Proof.
  intros F W HQ. unfold deleteOldExpirationIndex. wp_steps. unfold drop_old in HQ.
  destruct (bk t namesBucket !! name) as [d|] eqn:Ed.
  - destruct (nw_dec _ _ W _ _ Ed) as (r & Hr & _ & ->).
    rewrite names_of_lookup, Ed in HQ. simpl in HQ. rewrite decoded_encode in HQ by done.
    wp_steps. rewrite decode_encode by done. wp_steps. by apply HQ.
  - wp_steps. apply HQ. rewrite names_of_lookup, Ed. simpl.
    split; [done|]. intros b. by case_decide; subst.
Qed.

(** Running a body as a transaction. *)
Lemma wp_Update {A} {C : BoltCommits B} (fn : M Tx A) Q E n t :
  db n = Some t ->
  wp fn (fun a t' => Q a (set_db (Some t') n)) (fun e _ => E e n) t ->
  wp (Update fn) Q E n.
Proof.
  intros Hdb. unfold wp, Update, Update_with, on_tx, zoom. rewrite Hdb. cbn [fst snd].
  destruct n as [d c cl]. cbn [db] in Hdb. subst d. cbn [db cache].
  destruct (fn t) as [[a|e] t']; cbn; [|done]. by rewrite bolt_commit_ok.
Qed.

Lemma wp_View {A} (fn : M Tx A) Q E n t :
  db n = Some t ->
  wp fn (fun a _ => Q a n) (fun e _ => E e n) t ->
  wp (View fn) Q E n.
Proof. intros Hdb. unfold wp, View. rewrite Hdb. by destruct (fn t) as [[a|e] t']. Qed.

Lemma cache_wf_put m c name r : cache_wf m c ->
  cache_wf (<[name:=r]> m) (lru_Put name r c).2.
Proof.
  intros [I H]. split; [by apply lru_Put_refines|].
  intros name' r' Hc. destruct (decide (name = name')) as [->|D].
  - rewrite cached_Put_same in Hc by done. by rewrite lookup_insert_eq.
  - rewrite lookup_insert_ne by done. apply H.
    apply cached_after_Put in Hc; [|done]. by rewrite decide_False in Hc.
Qed.

Lemma cache_wf_delete m c name : cache_wf m c ->
  cache_wf (delete name m) (lru_Delete name c).2.
Proof.
  intros [I H]. split; [by apply lru_Delete_refines|].
  intros name' r' Hc. rewrite cached_after_Delete in Hc by done.
  case_decide; [done|]. rewrite lookup_delete_ne by done. by apply H.
Qed.

Lemma cache_wf_get m c name : cache_wf m c -> cache_wf m (lru_Get name c).2.
Proof.
  intros [I H]. split; [by apply lru_Get_refines|].
  intros name' r' Hc. rewrite cached_after_Get in Hc by done. by apply H.
Qed.

(** What an operation on names leaves: the buckets it does not name are as before. *)
Definition frame (bs : list bucket) (n n' : NameDatabase) : Prop :=
  closed n' = closed n /\ forall b, b ∉ bs -> ndb_bkt n' b = ndb_bkt n b.

Definition name_buckets : list bucket := [namesBucket; expirationBucket].

End spec.

(** Buckets that a computation's updates did not touch. *)
Ltac solve_frame Hdb bs :=
  split; [done|]; let b := fresh "b" in let Hb := fresh "Hb" in
  intros b Hb; unfold ndb_bkt; cbn [set_cache set_db db]; rewrite ?Hdb; unfold bs in Hb;
  repeat (apply not_elem_of_cons in Hb as [? Hb]); by bk_simpl.

Section operations.
Context {B : Bolt} {L : BoltLaws B}.

Lemma ndb_wf_new : ndb_wf {| db := Some fresh_tx; cache := newLRUCache 10000 10000; closed := false |}.
Proof.
  assert (forall b, bk fresh_tx b = ∅) as H.
  { intros b. unfold bk. by rewrite (view_lookup _ b _ (fresh_tx_lookup b)), bkt_empty_map. }
  split.
  - exists fresh_tx. split; [done|]. intros b. rewrite fresh_tx_lookup. eauto.
  - unfold ndb_bkt. simpl. rewrite !H. apply names_wf_empty.
  - split; [by apply inv_new|]. done.
Qed.

Lemma GetName_correct n name : ndb_wf n ->
  wp (GetName name)
    (fun r n' => ndb_wf n' /\ same_store n n' /\ ndb_names n !! name = Some r)
    (fun e n' => ndb_wf n' /\ same_store n n' /\ e = ErrNameNotFound /\ ndb_names n !! name = None)
    n.
Proof.
  intros [(t & Hdb & F) W C]. unfold wp, GetName.
  pose proof (cache_wf_get _ _ name C) as Cg.
  pose proof (cached_Get name (cache n) (proj1 C)) as Hit.
  destruct (lru_Get name (cache n)) as [hit c]. simpl in Hit, Cg. subst hit.
  destruct (cached (cache n) name) as [r|] eqn:Ec; cbv iota zeta beta.
  { split_and!; [|done|by apply C].
    split; unfold ndb_bkt, ndb_names in *; simpl; eauto. }
  match goal with |- match ?m ?s with _ => _ end => change (wp m
    (fun r n' => ndb_wf n' /\ same_store n n' /\ ndb_names n !! name = Some r)
    (fun e n' => ndb_wf n' /\ same_store n n' /\ e = ErrNameNotFound /\ ndb_names n !! name = None) s) end.
  unfold ndb_names, ndb_bkt in *. rewrite Hdb in *.
  wp_steps. apply (wp_View _ _ _ _ t); [done|]. wp_steps.
  destruct (bk t namesBucket !! name) as [d|] eqn:Ed.
  - destruct (nw_dec _ _ W _ _ Ed) as (r & Hr & _ & ->).
    wp_steps. rewrite decode_encode by done. wp_steps.
    assert (names_of (bk t namesBucket) !! name = Some (set_Name name r)) as Er
      by (rewrite names_of_lookup, Ed; by apply decoded_encode).
    split_and!; [|done|done]. split; simpl; [eauto|by unfold ndb_bkt; simpl; rewrite Hdb|].
    unfold ndb_names, ndb_bkt. simpl. rewrite Hdb.
    rewrite <-(insert_id _ _ _ Er). by apply cache_wf_put.
  - wp_steps. split_and!; [|done|done|by rewrite names_of_lookup, Ed].
    split; simpl; unfold ndb_names, ndb_bkt; simpl; rewrite ?Hdb; eauto.
Qed.

Lemma PutName_correct {C : BoltCommits B} n name r : ndb_wf n -> record_ok r ->
  wp (PutName name (Some r))
    (fun r' n' => name_ok name /\ ndb_wf n' /\ r' = set_Name name r /\
       ndb_names n' = <[name:=set_Name name r]> (ndb_names n) /\ frame name_buckets n n')
    (fun _ n' => ~ name_ok name /\ n' = n) n.
Proof.
  intros [(t & Hdb & F) W Cw] Hr. unfold ndb_names, ndb_bkt in W, Cw. rewrite Hdb in W, Cw.
  unfold PutName. wp_steps. apply (wp_Update _ _ _ _ t); [done|]. wp_steps.
  apply wp_deleteOldExpirationIndex; [done..|]. intros t1 U1. wp_steps.
  destruct (decide (key_ok name)) as [Kn|Kn]; cycle 1.
  { apply wp_b_put_bad; [by eauto using updated_full|tauto|]. intros e. split; [|done].
    intros ?. by apply Kn, key_ok_name. }
  apply wp_b_put; [by eauto using updated_full|done|by apply val_ok_encode|]. intros t2 U2. 
  destruct (decide (name_ok name)) as [Nn|Nn]; cycle 1.
  { apply wp_b_put_bad; [by eauto using updated_full| |done]. rewrite key_ok_exp.
    intros [? _]. apply Nn. unfold name_ok, key_ok in *. lia. }
  apply wp_b_put; [by eauto using updated_full| |apply val_ok_one|].
  { apply key_ok_exp. unfold name_ok in Nn. lia. }
  intros t3 U3. unfold cacheNameRecord. wp_steps.
  assert (names_of (bk t3 namesBucket) = <[name:=set_Name name r]> (names_of (bk t namesBucket))) as En.
  { bk_simpl. by apply names_of_insert. }
  split_and!; [done| |done| |].
  - split.
    + exists t3. eauto using updated_full.
    + unfold ndb_bkt. cbn [set_cache set_db db]. bk_simpl. by apply names_wf_put.
    + unfold ndb_names, ndb_bkt. cbn [set_cache set_db db cache]. rewrite En. by apply cache_wf_put.
  - unfold ndb_names, ndb_bkt. cbn [set_cache set_db db]. by rewrite En, Hdb.
  - solve_frame Hdb name_buckets.
Qed.

Lemma DeleteName_correct {C : BoltCommits B} n name : ndb_wf n ->
  wp (DeleteName name)
    (fun _ n' => ndb_wf n' /\ ndb_names n' = delete name (ndb_names n) /\ frame name_buckets n n')
    (fun _ _ => False) n.
Proof.
  intros [(t & Hdb & F) W Cw]. unfold ndb_names, ndb_bkt in W, Cw. rewrite Hdb in W, Cw.
  unfold DeleteName. wp_steps. apply (wp_Update _ _ _ _ t); [done|]. wp_steps.
  assert (forall t1 t2, updated t expirationBucket
      (drop_old (bk t namesBucket) name (bk t expirationBucket)) t1 ->
    updated t1 namesBucket (delete name (bk t1 namesBucket)) t2 ->
    let n' := set_cache (lru_Delete name (cache n)).2 (set_db (Some t2) n) in
    ndb_wf n' /\ ndb_names n' = delete name (ndb_names n) /\ frame name_buckets n n') as K.
  { intros t1 t2 U1 U2. cbv zeta.
    assert (names_of (bk t2 namesBucket) = delete name (names_of (bk t namesBucket))) as En.
    { bk_simpl. apply names_of_delete. }
    split_and!.
    - split; [exists t2; eauto using updated_full| |].
      + unfold ndb_bkt. cbn [set_cache set_db db]. bk_simpl. by apply names_wf_delete.
      + unfold ndb_names, ndb_bkt. cbn [set_cache set_db db cache]. rewrite En. by apply cache_wf_delete.
    - unfold ndb_names, ndb_bkt. cbn [set_cache set_db db]. by rewrite En, Hdb.
    - solve_frame Hdb name_buckets. }
  unfold drop_old in K.
  destruct (bk t namesBucket !! name) as [d|] eqn:Ed.
  - destruct (nw_dec _ _ W _ _ Ed) as (r & Hr & _ & ->). rewrite decode_encode by done.
    rewrite names_of_lookup, Ed in K. simpl in K. rewrite decoded_encode in K by done.
    wp_steps. by eapply K.
  - rewrite names_of_lookup, Ed in K. simpl in K. wp_steps. eapply (K t); [|done].
    split; [done|]. intros b. by case_decide; subst.
Qed.

(** *** Queries *)

Lemma key_height_mono k k' : (4 <= length k)%nat -> (4 <= length k')%nat ->
  0 <= key_height k -> 0 <= key_height k' -> bytes_lt k k' -> key_height k <= key_height k'.
Proof.
  intros H4 H4' P P' Lt. unfold key_height, slice in *. rewrite Nat.sub_0_r, !drop_0 in *.
  assert (length (take 4 k) = 4%nat) as E by (rewrite length_take; lia).
  assert (length (take 4 k') = 4%nat) as E' by (rewrite length_take; lia).
  unfold bytes_lt in Lt. rewrite <-(take_drop 4 k), <-(take_drop 4 k') in Lt.
  rewrite bytes_cmp_be in Lt by congruence.
  pose proof (of_be_range (take 4 k)) as R. pose proof (of_be_range (take 4 k')) as R'.
  rewrite E in R. rewrite E' in R'. change (256 ^ Z.of_nat 4) with 4294967296 in *.
  assert (of_be (take 4 k) <= of_be (take 4 k')).
  { destruct (Z.compare_spec (of_be (take 4 k)) (of_be (take 4 k'))); [lia|lia|done]. }
  int_lia.
Qed.

Lemma scanExpired_filter h keys :
  StronglySorted bytes_lt keys ->
  (forall k, k ∈ keys -> (4 <= length k)%nat /\ 0 <= key_height k) ->
  scanExpired h keys = drop 4 <$> filter (fun k => key_height k < h) keys.
Proof.
  intros S H. induction S as [|k keys S IH F]; [done|]. simpl.
  destruct (H k) as [H4 P]; [by left|]. rewrite bool_decide_false by lia.
  destruct (Z.ltb_spec (key_height k) h).
  - rewrite filter_cons_True by done. simpl. f_equal. apply IH. intros. apply H. by right.
  - rewrite filter_cons_False by lia. rewrite Forall_forall in F.
    assert (forall q, q ∈ keys -> ~ key_height q < h) as N.
    { intros q Hq. destruct (H q) as [H4' P']; [by right|].
      pose proof (key_height_mono k q H4 H4' P P' (F q Hq)). lia. }
    clear -N. induction keys as [|q keys IH]; [done|].
    rewrite filter_cons_False by (apply N; by left). apply IH. intros. apply N. by right.
Qed.

Lemma drop_exp_key h name : drop 4 (makeExpirationKey h name) = name.
Proof. unfold makeExpirationKey. by rewrite drop_app_length' by (by rewrite length_be_bytes). Qed.

Lemma length_exp_key h name : length (makeExpirationKey h name) = (4 + length name)%nat.
Proof. unfold makeExpirationKey. by rewrite length_app, length_be_bytes. Qed.

Lemma GetExpiredNames_correct n height : ndb_wf n -> 
  (forall name r, ndb_names n !! name = Some r -> 0 <= ExpiresAt r) ->
  wp (GetExpiredNames height)
    (fun l n' => n' = n /\ NoDup l /\
       forall name, name ∈ l <-> exists r, ndb_names n !! name = Some r /\ ExpiresAt r < height)
    (fun _ _ => False) n.
Proof.
  intros [(t & Hdb & F) W Cw] P. unfold ndb_names, ndb_bkt in *. rewrite Hdb in *.
  unfold GetExpiredNames. apply (wp_View _ _ _ _ t); [done|]. wp_steps.
  rename items into l, Hitems into Hl.
  assert (forall k, k ∈ l.*1 <-> exists name r,
    names_of (bk t namesBucket) !! name = Some r /\ k = exp_key name r) as Hk.
  { intros k. rewrite <-(nw_exp _ _ W), list_elem_of_fmap. split.
    - intros ([k' v] & -> & Hv). exists v. by apply (cursor_elem _ l).
    - intros [v Hv]. exists (k, v). split; [done|]. by eapply cursor_elem. }
  assert (forall k name r, names_of (bk t namesBucket) !! name = Some r -> k = exp_key name r ->
    (4 <= length k)%nat /\ key_height k = ExpiresAt r /\ drop 4 k = name) as Hp.
  { intros k name r E ->. unfold exp_key. rewrite length_exp_key, drop_exp_key, key_height_make.
    - split_and!; [lia|done..].
    - eapply ok_expires, names_of_ok; eauto. }
  rewrite scanExpired_filter; [|by destruct Hl|].
  - split_and!; [done| |].
    + apply NoDup_fmap_2_strong; [|apply NoDup_filter, (cursor_NoDup _ _ Hl)].
      intros k k' (_ & (n1 & r1 & E1 & K1)%Hk)%list_elem_of_filter
        (_ & (n2 & r2 & E2 & K2)%Hk)%list_elem_of_filter Ed.
      destruct (Hp _ _ _ E1 K1) as (_ & _ & D1). destruct (Hp _ _ _ E2 K2) as (_ & _ & D2).
      assert (n1 = n2) as -> by congruence. assert (r1 = r2) as -> by congruence. congruence.
    + intros name. rewrite list_elem_of_fmap. split.
      * intros (k & -> & (Hh & (name' & r & E & K)%Hk)%list_elem_of_filter).
        destruct (Hp _ _ _ E K) as (_ & Hh' & ->). exists r. split; [done|lia].
      * intros (r & E & Hh). exists (exp_key name r).
        destruct (Hp _ _ _ E eq_refl) as (_ & Hh' & ->). split; [done|].
        apply list_elem_of_filter. split; [lia|]. apply Hk. eauto.
  - intros k (name & r & E & K)%Hk. destruct (Hp _ _ _ E K) as (? & -> & _). eauto.
Qed.

(** The records of the database in name order. *)
Definition listing (m : gmap bytes NameRecord) (all : list NameRecord) : Prop :=
  StronglySorted bytes_lt (Name <$> all) /\ forall r, r ∈ all <-> m !! Name r = Some r.

Definition scan_dec (kv : bytes * bytes) : option NameRecord := decodeScannedName kv.1 kv.2.

(** Every entry of the names bucket decodes to a record that carries its key. *)
Lemma items_decode N X items : names_wf N X -> cursor_of N items ->
  Forall (fun kv => exists r, decodeNameRecord kv.2 = Ok r /\ scan_dec kv = Some (set_Name kv.1 r) /\
    names_of N !! kv.1 = Some (set_Name kv.1 r)) items.
Proof.
  intros W Hc. apply Forall_forall. intros [k v] E%(cursor_elem _ _ _ _ Hc). simpl.
  destruct (nw_dec _ _ W _ _ E) as (r & Hr & _ & ->). unfold scan_dec, decodeScannedName. simpl.
  rewrite names_of_lookup, E. simpl.
  rewrite decode_encode, decoded_encode by done. by exists (set_Name [] r).
Qed.

Lemma listing_items N X items : names_wf N X -> cursor_of N items ->
  listing (names_of N) (omap scan_dec items).
Proof.
  intros W Hc. pose proof (items_decode _ _ _ W Hc) as D. split.
  - assert (Name <$> omap scan_dec items = items.*1) as ->; [|apply Hc].
    clear Hc. induction D as [|kv items (r & _ & E & _) D IH]; [done|].
    simpl. rewrite E. simpl. by f_equal.
  - rewrite Forall_forall in D. intros r. rewrite list_elem_of_omap. split.
    + intros (kv & Hkv & E). destruct (D _ Hkv) as (r' & _ & E' & Em).
      rewrite E in E'. injection E' as ->. exact Em.
    + intros E. destruct (names_of_ok _ _ _ _ W E) as (_ & _ & _ & En).
      assert ((Name r, encodeNameRecord r) ∈ items) as Hin by by eapply cursor_elem.
      exists (Name r, encodeNameRecord r). split; [done|].
      destruct (D _ Hin) as (r' & _ & E' & Em). simpl in E', Em. rewrite E'. congruence.
Qed.

Lemma decodeAll_correct items (Q : list NameRecord -> Tx -> Prop) E t :
  Forall (fun kv => exists r, decodeNameRecord kv.2 = Ok r /\ scan_dec kv = Some (set_Name kv.1 r)) items ->
  Q (omap scan_dec items) t -> wp (decodeAll items) Q E t.
Proof.
  intros D. revert Q; induction D as [|[k v] items (r & Er & Es) D IH]; intros Q HQ; [done|].
  simpl in Er. cbn [decodeAll]. wp_steps. rewrite Er. wp_steps. apply IH. wp_steps.
  simpl in HQ. by rewrite Es in HQ.
Qed.

Lemma ListNames_correct n : ndb_wf n ->
  wp ListNames (fun all n' => n' = n /\ listing (ndb_names n) all) (fun _ _ => False) n.
Proof.
  intros [(t & Hdb & F) W Cw]. unfold ndb_names, ndb_bkt in *. rewrite Hdb in *.
  apply (wp_View _ _ _ _ t); [done|]. wp_steps.
  apply decodeAll_correct.
  - eapply Forall_impl; [by eapply items_decode|].
    intros kv (r & ? & ? & ?). by exists r.
  - split; [done|]. by eapply listing_items.
Qed.

Lemma scanLoop_take p count res items :
  scanLoop p count res items =
  res ++ take (Z.to_nat count - length res) (omap scan_dec (prefixed p items)).
Proof.
  revert res; induction items as [|[k v] items IH]; intros res; simpl.
  - by rewrite take_nil, app_nil_r.
  - destruct (HasPrefix k p); simpl; [|by rewrite take_nil, app_nil_r].
    unfold scan_dec at 1. simpl. destruct (Z.geb_spec (Z.of_nat (length res)) count).
    + replace (_ - _)%nat with 0%nat by lia. by rewrite take_0, app_nil_r.
    + destruct (decodeScannedName k v) as [r|]; [|apply IH].
      rewrite IH, length_app, <-app_assoc. simpl. f_equal.
      replace (Z.to_nat count - length res)%nat
        with (S (Z.to_nat count - (length res + 1))) by lia. done.
Qed.

Lemma omap_filter_prefix N X items p : names_wf N X -> cursor_of N items ->
  omap scan_dec (filter (fun kv => HasPrefix kv.1 p = true) items) =
  filter (fun r => HasPrefix (Name r) p = true) (omap scan_dec items).
Proof.
  intros W Hc. pose proof (items_decode _ _ _ W Hc) as D. clear Hc W.
  induction D as [|kv items (r & _ & E & _) D IH]; [done|].
  rewrite filter_cons. cbn [omap list_omap]. rewrite E, filter_cons. cbn [Name set_Name].
  case_decide; [|done]. simpl. rewrite E. by f_equal.
Qed.

Lemma ScanNames_correct n prefix count : ndb_wf n -> 0 < count ->
  wp (ScanNames prefix count)
    (fun l n' => n' = n /\ exists all, listing (ndb_names n) all /\
       l = take (Z.to_nat count) (filter (fun r => HasPrefix (Name r) prefix = true) all))
    (fun _ _ => False) n.
Proof.
  intros [(t & Hdb & F) W Cw] Hp. unfold ndb_names, ndb_bkt in *. rewrite Hdb in *.
  unfold ScanNames. destruct (Z.leb_spec count 0); [lia|].
  apply (wp_View _ _ _ _ t); [done|]. wp_steps.
  unfold has_bucket. rewrite bool_decide_true by apply F. unfold b_seek. wp_steps.
  split; [done|]. exists (omap scan_dec items). split; [by eapply listing_items|].
  rewrite scanLoop_take, app_nil_l, Nat.sub_0_r, prefixed_seek by apply Hitems.
  f_equal. by eapply omap_filter_prefix.
Qed.

End operations.

(** ** Histories, commitments and the backups of expired names

    namedb/namedb.go: what [AddHistory], [GetHistory], [RemoveLastHistoryEntry]
    and the NAME_NEW operations do to the stored indexes; the round trip of a name
    through [StoreExpiredName], [DeleteName], [DeleteHistory] and
    [RestoreExpiredNamesForBlock]; and that a failing operation writes nothing. *)

(** ** Lists of transaction hashes *)

Definition hash_ok (h : bytes) : Prop := length h = txHashSize.

Lemma length_concat_hashes hs : Forall hash_ok hs -> length (concat hs) = (txHashSize * length hs)%nat.
Proof.
  induction 1 as [|h hs Hh _ IH]; [done|]. cbn [concat length].
  rewrite length_app, IH, Hh. lia.
Qed.

Lemma index_corrupt_concat hs : Forall hash_ok hs -> index_corrupt (concat hs) = false.
Proof.
  intros H. unfold index_corrupt. rewrite length_concat_hashes by done.
  apply bool_decide_false. intros K. apply K. rewrite Nat.mul_comm. by apply Nat.Div0.mod_mul.
Qed.

Lemma txHashes_concat hs : Forall hash_ok hs -> txHashes (concat hs) = hs.
Proof.
  intros H. unfold txHashes. rewrite length_concat_hashes by done.
  rewrite (Nat.mul_comm txHashSize), Nat.div_mul by done.
  induction H as [|h hs Hh H IH]; [done|]. cbn [length List.seq concat fmap list_fmap].
  rewrite <-fmap_S_seq, <-list_fmap_compose. f_equal.
  - rewrite Nat.mul_0_r. change (0 + txHashSize)%nat with txHashSize. rewrite <-Hh. apply slice_app_l.
  - rewrite <-IH at 2. apply list_fmap_ext. intros _ i _. unfold compose.
    replace (txHashSize * S i)%nat with (length h + txHashSize * i)%nat by (rewrite Hh; lia).
    rewrite <-Nat.add_assoc. apply slice_app_r.
Qed.

(** The history index [I] and the history bucket [H]. *)
Record hist_wf (I H : gmap bytes bytes) : Prop := {
  hw_idx : forall name l, I !! name = Some l -> exists hs, hs <> [] /\ Forall hash_ok hs /\ l = concat hs;
  hw_rec : forall h d, H !! h = Some d -> exists r, record_ok r /\ d = encodeNameRecord r;
}.

Definition hashes (I : gmap bytes bytes) (name : bytes) : list bytes :=
  txHashes (default [] (I !! name)).

(** The history of a name: its records, oldest first. *)
Definition history_of (I H : gmap bytes bytes) (name : bytes) : list NameRecord :=
  omap (fun h => H !! h ≫= decoded name) (hashes I name).

Lemma hashes_wf I H name : hist_wf I H ->
  Forall hash_ok (hashes I name) /\ default [] (I !! name) = concat (hashes I name) /\
  (I !! name = None -> hashes I name = []) /\ (is_Some (I !! name) -> hashes I name <> []).
Proof.
  intros W. unfold hashes. destruct (I !! name) as [l|] eqn:E; simpl.
  - destruct (hw_idx _ _ W _ _ E) as (hs & Hne & Hs & ->). rewrite txHashes_concat by done. done.
  - split_and!; [done..|]. by intros [].
Qed.

Lemma concat_hashes_nil hs : Forall hash_ok hs -> concat hs = [] -> hs = [].
Proof.
  intros H E. apply (f_equal length) in E. rewrite length_concat_hashes in E by done.
  destruct hs; [done|]. simpl in E. lia.
Qed.

Section hist.
Context {B : Bolt} {L : BoltLaws B}.

Definition ndb_hashes (n : NameDatabase) (name : bytes) : list bytes :=
  hashes (ndb_bkt n historyIndexBucket) name.
Definition ndb_history (n : NameDatabase) (name : bytes) : list NameRecord :=
  history_of (ndb_bkt n historyIndexBucket) (ndb_bkt n historyBucket) name.

Record ndb_hist_wf (n : NameDatabase) : Prop := {
  hwf_open : exists t, db n = Some t /\ tx_full t;
  hwf_hist : hist_wf (ndb_bkt n historyIndexBucket) (ndb_bkt n historyBucket);
}.

Definition hist_buckets : list bucket := [historyBucket; historyIndexBucket].

Lemma wp_loadHistory I H name hs Q E t :
  tx_full t -> hist_wf I H -> bk t historyBucket = H ->
  Q (omap (fun h => H !! h ≫= decoded name) hs) t -> wp (loadHistory name hs) Q E t.
Proof.
  intros F W HH. revert Q; induction hs as [|h hs IH]; intros Q HQ; [done|].
  cbn [loadHistory]. wp_steps. rewrite HH. simpl in HQ.
  destruct (H !! h) as [d|] eqn:Ed; [|by apply IH].
  destruct (hw_rec _ _ W _ _ Ed) as (r & Hr & ->). wp_steps. rewrite decode_encode by done.
  wp_steps. apply IH. wp_steps. simpl in HQ. by rewrite decoded_encode in HQ.
Qed.

Lemma GetHistory_correct n name : ndb_hist_wf n ->
  wp (GetHistory name) (fun l n' => n' = n /\ l = ndb_history n name) (fun _ _ => False) n.
Proof.
  intros [(t & Hdb & F) W]. unfold ndb_history, ndb_bkt in *. rewrite Hdb in *.
  apply (wp_View _ _ _ _ t); [done|]. wp_steps.
  destruct (hashes_wf _ _ name W) as (Hs & Hc & Hn & _). unfold history_of.
  destruct (bk t historyIndexBucket !! name) as [l|]; simpl in Hc.
  - rewrite Hc, index_corrupt_concat, txHashes_concat by done.
    eapply wp_loadHistory; done.
  - wp_steps. split; [done|]. by rewrite Hn.
Qed.

(** The room an index needs for one more hash. *)
Definition index_room (n : NameDatabase) (name : bytes) : Prop :=
  Z.of_nat (length (ndb_hashes n name)) < 2 ^ 25.

Lemma val_ok_hashes hs : Forall hash_ok hs -> Z.of_nat (length hs) <= 2 ^ 25 -> val_ok (concat hs).
Proof.
  intros H Hl. unfold val_ok, MaxValueSize. rewrite length_concat_hashes by done.
  unfold txHashSize. lia.
Qed.

Lemma key_ok_hash h : hash_ok h -> key_ok h.
Proof. unfold hash_ok, key_ok, MaxKeySize. intros ->. unfold txHashSize. lia. Qed.

(** [AddHistory] appends the hash and stores the record under it. *)
Lemma AddHistory_correct {C : BoltCommits B} n h r :
  ndb_hist_wf n -> record_ok r -> key_ok (Name r) -> hash_ok h -> index_room n (Name r) ->
  wp (AddHistory h (Some r))
    (fun _ n' => ndb_hist_wf n' /\ cache n' = cache n /\ frame hist_buckets n n' /\
       ndb_bkt n' historyBucket = <[h:=encodeNameRecord r]> (ndb_bkt n historyBucket) /\
       forall name, ndb_hashes n' name =
         if decide (name = Name r) then ndb_hashes n name ++ [h] else ndb_hashes n name)
    (fun _ _ => False) n.
Proof.
  intros [(t & Hdb & F) W] Hr Hk Hh Room. unfold index_room, ndb_hashes, ndb_bkt in *. rewrite Hdb in *.
  destruct (hashes_wf _ _ (Name r) W) as (Hs & Hc & _ & _).
  assert (Forall hash_ok (hashes (bk t historyIndexBucket) (Name r) ++ [h])) as Hs'
    by (apply Forall_app; split; [done|by apply Forall_singleton]).
  assert (default [] (bk t historyIndexBucket !! Name r) ++ h =
    concat (hashes (bk t historyIndexBucket) (Name r) ++ [h])) as Hc'.
  { rewrite Hc, concat_app. simpl. by rewrite app_nil_r. }
  unfold AddHistory. apply (wp_Update _ _ _ _ t); [done|]. wp_steps.
  apply wp_b_put; [done|by apply key_ok_hash|by apply val_ok_encode|]. intros t1 U1. wp_steps.
  rewrite Hc'. apply wp_b_put; [by eauto using updated_full|done| |].
  { apply val_ok_hashes; [done|]. rewrite length_app. simpl. lia. }
  intros t2 U2. cbn [set_db db cache].
  split_and!; [split|done|solve_frame Hdb hist_buckets| |].
  - exists t2. eauto using updated_full.
  - unfold ndb_bkt. cbn [set_db db]. bk_simpl. split.
    + intros name l. rewrite lookup_insert. case_decide; [|apply (hw_idx _ _ W)].
      intros [= <-]. eexists. split_and!; [|done..]. by destruct (hashes _ _).
    + intros k d. rewrite lookup_insert. case_decide; [|apply (hw_rec _ _ W)].
      intros [= <-]. eauto.
  - by bk_simpl.
  - intros name. bk_simpl. unfold hashes. case_decide; subst.
    + rewrite lookup_insert_eq. cbn [default from_option]. by apply txHashes_concat.
    + by rewrite lookup_insert_ne.
Qed.

(** *** What a new entry does to the histories *)

Lemma omap_ext_hash (f g : bytes -> option NameRecord) (hs : list bytes) :
  (forall h, h ∈ hs -> f h = g h) -> omap f hs = omap g hs.
Proof.
  induction hs as [|h hs IH]; intros Hfg; [done|]. simpl.
  rewrite (Hfg h) by by left.
  assert (omap f hs = omap g hs) as E by (apply IH; intros; apply Hfg; by right).
  unfold omap in E. by rewrite E.
Qed.

Lemma history_of_add I I' H h r name :
  record_ok r -> h ∉ hashes I name ->
  hashes I' name = (if decide (name = Name r) then hashes I name ++ [h] else hashes I name) ->
  history_of I' (<[h:=encodeNameRecord r]> H) name =
  if decide (name = Name r) then history_of I H name ++ [set_Name name r] else history_of I H name.
Proof.
  intros Hr Hn E. unfold history_of. rewrite E. 
  assert (omap (fun k => <[h:=encodeNameRecord r]> H !! k ≫= decoded name) (hashes I name) =
    omap (fun k => H !! k ≫= decoded name) (hashes I name)) as Eo.
  { apply omap_ext_hash. intros k Hk. rewrite lookup_insert_ne; [done|]. by intros ->. }
  case_decide; [|done]. rewrite omap_app, Eo. f_equal. simpl.
  rewrite lookup_insert_eq. simpl. by rewrite decoded_encode.
Qed.

(** The record an index entry that was already there now answers with. *)
Lemma history_of_shared I I' H h r name :
  record_ok r -> hashes I' name = hashes I name -> h ∈ hashes I name ->
  set_Name name r ∈ history_of I' (<[h:=encodeNameRecord r]> H) name.
Proof.
  intros Hr E Hin. unfold history_of. rewrite E. apply list_elem_of_omap. exists h.
  split; [done|]. rewrite lookup_insert_eq. simpl. by rewrite decoded_encode.
Qed.

(** *** Removing the last entry *)

Lemma last_hash hs h : Forall hash_ok (hs ++ [h]) ->
  take (length (concat (hs ++ [h])) - txHashSize) (concat (hs ++ [h])) = concat hs /\
  drop (length (concat (hs ++ [h])) - txHashSize) (concat (hs ++ [h])) = h.
Proof.
  intros H. assert (length (concat (hs ++ [h])) - txHashSize = length (concat hs))%nat as ->.
  { rewrite length_concat_hashes by done. apply Forall_app in H as [H _].
    rewrite length_concat_hashes, length_app by done. cbn [length]. unfold txHashSize. lia. }
  rewrite concat_app. simpl. rewrite app_nil_r.
  by rewrite take_app_length, drop_app_length.
Qed.

Lemma RemoveLastHistoryEntry_correct {C : BoltCommits B} n name hs h :
  ndb_hist_wf n -> key_ok name -> ndb_hashes n name = hs ++ [h] -> index_room n name ->
  wp (RemoveLastHistoryEntry name)
    (fun prev n' => ndb_hist_wf n' /\ cache n' = cache n /\ frame hist_buckets n n' /\
       ndb_bkt n' historyBucket = delete h (ndb_bkt n historyBucket) /\
       (forall name', ndb_hashes n' name' = if decide (name' = name) then hs else ndb_hashes n name') /\
       prev = last hs ≫= (fun k => ndb_bkt n' historyBucket !! k ≫= decoded name))
    (fun _ _ => False) n.
Proof.
  intros [(t & Hdb & F) W] Hk Eh Room. unfold index_room, ndb_hashes, ndb_bkt in *. rewrite Hdb in *.
  destruct (hashes_wf _ _ name W) as (Hs & Hc & _ & _). rewrite Eh in Hs, Hc, Room.
  destruct (last_hash hs h Hs) as [Et Ed].
  pose proof Hs as Hs1. apply Forall_app in Hs1 as [Hs1 _].
  assert (hist_wf (delete name (bk t historyIndexBucket)) (delete h (bk t historyBucket))) as W1.
  { split; [intros ? ? [_ E]%lookup_delete_Some; by eapply (hw_idx _ _ W)|].
    intros ? ? [_ E]%lookup_delete_Some. by eapply (hw_rec _ _ W). }
  unfold RemoveLastHistoryEntry. apply (wp_Update _ _ _ _ t); [done|]. wp_steps. rewrite Hc.
  rewrite bool_decide_false by (intros E%concat_hashes_nil; [by destruct hs|done]).
  rewrite index_corrupt_concat by done. rewrite Ed. wp_steps.
  unfold truncateHistoryIndex. rewrite Et.
  destruct (decide (hs = [])) as [->|Hne].
  - rewrite bool_decide_true by done. wp_steps. cbn [set_db db cache last].
    split_and!; [split|done|solve_frame Hdb hist_buckets| | |done].
    + exists t1. eauto using updated_full.
    + unfold ndb_bkt. cbn [set_db db]. by bk_simpl.
    + unfold ndb_bkt. cbn [set_db db]. by bk_simpl.
    + intros name'. bk_simpl. unfold hashes. case_decide; subst.
      * by rewrite lookup_delete_eq.
      * by rewrite lookup_delete_ne.
  - rewrite bool_decide_false by (intros E; apply concat_hashes_nil in E; done). wp_steps.
    apply wp_b_put; [by eauto using updated_full|done| |].
    { apply val_ok_hashes; [done|]. rewrite length_app in Room. lia. }
    intros t2 U2. wp_steps.
    destruct (exists_last Hne) as (hs' & h' & ->).
    destruct (last_hash hs' h' Hs1) as [_ Ed']. rewrite Ed', last_snoc.
    set (P := fun (r : option NameRecord) n' =>
       ndb_hist_wf n' /\ cache n' = cache n /\ frame hist_buckets n n' /\
       ndb_bkt n' historyBucket = delete h (bk t historyBucket) /\
       (forall name', hashes (ndb_bkt n' historyIndexBucket) name' =
          if decide (name' = name) then hs' ++ [h'] else hashes (bk t historyIndexBucket) name') /\
       r = ndb_bkt n' historyBucket !! h' ≫= decoded name).
    assert (P (delete h (bk t historyBucket) !! h' ≫= decoded name) (set_db (Some t2) n)) as HP.
    { unfold P. cbn [set_db db cache].
      split_and!; [split|done|solve_frame Hdb hist_buckets| | |]; unfold ndb_bkt; cbn [set_db db]; try by bk_simpl.
      - exists t2. eauto using updated_full.
      - bk_simpl. split; [|apply W1]. intros k l. rewrite lookup_insert. case_decide.
        + intros <-%(inj Some). exists (hs' ++ [h']). split_and!; [by destruct hs'|done..].
        + apply (hw_idx _ _ W).
      - intros name'. bk_simpl. unfold hashes. case_decide; subst.
        + rewrite lookup_insert_eq. cbn [default from_option]. by apply txHashes_concat.
        + by rewrite lookup_insert_ne. }
    destruct (delete h (bk t historyBucket) !! h') as [d|] eqn:E.
    + destruct (hw_rec _ _ W1 _ _ E) as (r & Hr & ->). simpl in HP.
      rewrite decoded_encode in HP by done. wp_steps. rewrite decode_encode by done. wp_steps.
      exact HP.
    + wp_steps. exact HP.
Qed.

End hist.
