(* ===== verification/ExpirySpec.v ===== *)
(** * Commitments, failing operations, and undoing an expiration

    namedb/namedb.go: NAME_NEW commitments are never replaced by [PutNameNew]; an
    operation that returns an error leaves the stored buckets as they were; a name
    that expires at a height ([StoreExpiredName], [DeleteName], [DeleteHistory]) is
    brought back by [RestoreExpiredNamesForBlock] at that height, its record, its
    expiration key and its history as before. *)

From S2P Require Import Prelude Bolt Lru Record NameDB NamesSpec.

Section expiry.
Context {B : Bolt} {L : BoltLaws B}.

(** ** Commitments *)

Definition ndb_commitment (n : NameDatabase) (h : bytes) : option bytes :=
  ndb_bkt n nameNewBucket !! h.

Definition commitment_buckets : list bucket := [nameNewBucket].

Definition ndb_open (n : NameDatabase) : Prop := exists t, db n = Some t /\ tx_full t.

Lemma val_ok_le_bytes k z : (k <= 8)%nat -> val_ok (le_bytes k z).
Proof. intros. unfold val_ok, MaxValueSize. rewrite length_le_bytes. lia. Qed.

Lemma PutNameNew_correct {C : BoltCommits B} n h height : ndb_open n -> key_ok h ->
  wp (PutNameNew h height)
    (fun _ n' => ndb_commitment n h = None /\ ndb_open n' /\ cache n' = cache n /\
       frame commitment_buckets n n' /\
       ndb_bkt n' nameNewBucket = <[h:=le_bytes 4 (uint32 height)]> (ndb_bkt n nameNewBucket))
    (fun e n' => is_Some (ndb_commitment n h) /\ n' = n) n.
Proof.
  intros (t & Hdb & F) Hk. unfold ndb_commitment, ndb_bkt. rewrite Hdb.
  apply (wp_Update _ _ _ _ t); [done|]. wp_steps.
  destruct (bk t nameNewBucket !! h) as [d|] eqn:E; [wp_steps; split; [by eauto|done]|].
  apply wp_b_put; [done|done|apply val_ok_le_bytes; lia|]. intros t1 U1.
  split_and!; [done| |done|solve_frame Hdb commitment_buckets|].
  - exists t1. eauto using updated_full.
  - cbn [set_db db]. by bk_simpl.
Qed.

Lemma GetNameNew_correct n h : ndb_open n ->
  wp (GetNameNew h)
    (fun r n' => n' = n /\ exists d, ndb_commitment n h = Some d /\ (4 <= length d)%nat /\
       r = {| nn_Hash := h; nn_Height := int32 (of_le (take 4 d)) |})
    (fun e n' => n' = n /\ forall d, ndb_commitment n h = Some d -> (length d < 4)%nat) n.
Proof.
  intros (t & Hdb & F). unfold ndb_commitment, ndb_bkt. rewrite Hdb.
  apply (wp_View _ _ _ _ t); [done|]. wp_steps.
  destruct (bk t nameNewBucket !! h) as [d|] eqn:E; [|wp_steps; by split].
  case_bool_decide as K; wp_steps; (split; [done|]).
  - by intros ? [= <-].
  - exists d. split_and!; [done|lia|done].
Qed.

(** ** Failing operations *)

(** The operations of namedb.go that may write. *)
Inductive ndb_op :=
  | OpPutName (name : bytes) (record : option NameRecord)
  | OpGetName (name : bytes)
  | OpDeleteName (name : bytes)
  | OpAddHistory (txHash : bytes) (record : option NameRecord)
  | OpDeleteHistory (name : bytes)
  | OpRemoveLastHistoryEntry (name : bytes)
  | OpStoreExpiredName (record : option NameRecord) (height : Z)
  | OpRestoreExpiredNamesForBlock (height : Z)
  | OpCleanupOldExpiredNames (keepFromHeight : Z)
  | OpPutNameNew (commitHash : bytes) (height : Z)
  | OpRestoreNameNew (commitHash : bytes) (height : Z)
  | OpDeleteNameNew (commitHash : bytes).

Definition run_op (o : ndb_op) : M NameDatabase unit :=
  match o with
  | OpPutName name r => PutName name r;; mret tt
  | OpGetName name => GetName name;; mret tt
  | OpDeleteName name => DeleteName name
  | OpAddHistory h r => AddHistory h r
  | OpDeleteHistory name => DeleteHistory name
  | OpRemoveLastHistoryEntry name => RemoveLastHistoryEntry name;; mret tt
  | OpStoreExpiredName r h => StoreExpiredName r h
  | OpRestoreExpiredNamesForBlock h => RestoreExpiredNamesForBlock h
  | OpCleanupOldExpiredNames h => CleanupOldExpiredNames h
  | OpPutNameNew c h => PutNameNew c h
  | OpRestoreNameNew c h => RestoreNameNew c h
  | OpDeleteNameNew c => DeleteNameNew c
  end.

(** [m] keeps the buckets whenever it returns an error. *)
Definition atomic {A} (m : M NameDatabase A) : Prop :=
  forall n, wp m (fun _ _ => True) (fun _ n' => db n' = db n) n.

Lemma atomic_Update_with {A} (fn : M (Tx * lruCache bytes NameRecord) A) : atomic (Update_with fn).
Proof.
  intros n. unfold wp, Update_with. destruct (db n) as [t|] eqn:E; [|done].
  destruct (fn (t, cache n)) as [[a|e] [t' c']]; [|done]. by destruct (bolt_commit t').
Qed.

Lemma atomic_Update {A} (fn : M Tx A) : atomic (Update fn).
Proof. apply atomic_Update_with. Qed.

Lemma atomic_then {A C} (m : M NameDatabase A) (k : A -> M NameDatabase C) :
  atomic m -> (forall a n, wp (k a) (fun _ _ => True) (fun _ _ => False) n) ->
  atomic (m ≫= k).
Proof.
  intros Hm Hk n. rewrite wp_bind. specialize (Hm n). unfold wp in *.
  destruct (m n) as [[a|e] n']; [|done]. specialize (Hk a n').
  by destruct (k a n') as [[] ?].
Qed.

Lemma atomic_fail {A} e : atomic (@fail NameDatabase A e).
Proof. by intros n. Qed.

Lemma atomic_View {A} (fn : M Tx A) : atomic (View fn).
Proof. intros n. unfold wp, View. destruct (db n) as [t|] eqn:E; [|done]. by destruct (fn t) as [[a|e] t']. Qed.

Lemma atomic_GetName name : atomic (GetName name).
Proof.
  intros n. unfold wp, GetName. destruct (lru_Get name (cache n)) as [[r|] c]; [done|].
  match goal with |- match ?m ?s with _ => _ end => assert (atomic m) as A end.
  { apply atomic_then; [apply atomic_View|by intros]. }
  apply (A (set_cache c n)).
Qed.

Lemma run_op_atomic o : atomic (run_op o).
Proof.
  destruct o as [? [r|]| | |? [r|]| | |[r|] ?| | | | |]; cbn [run_op];
    repeat first [apply atomic_Update|apply atomic_Update_with|apply atomic_fail
                 |apply atomic_GetName|apply atomic_then; [|by intros]].
Qed.

(** ** Expiry and its undo *)

(** The loops over a list of hashes, on the contents of the buckets. *)
Definition copied (hs : list bytes) (S D : gmap bytes bytes) : gmap bytes bytes :=
  foldl (fun D h => match S !! h with Some v => <[h:=v]> D | None => D end) D hs.
Definition deleted (hs : list bytes) (D : gmap bytes bytes) : gmap bytes bytes :=
  foldl (fun D h => delete h D) D hs.

Lemma copied_lookup hs S D k :
  copied hs S D !! k = if decide (k ∈ hs) then (match S !! k with Some v => Some v | None => D !! k end)
                       else D !! k.
Proof.
  unfold copied. revert D; induction hs as [|h hs IH]; intros D; [by rewrite decide_False by set_solver|].
  simpl. rewrite IH. destruct (decide (k = h)) as [->|Hne].
  - rewrite (decide_True (P := h ∈ h :: hs)) by by left. destruct (S !! h) as [v|]; [|by case_decide].
    rewrite lookup_insert_eq. by case_decide.
  - assert ((match S !! h with Some v => <[h:=v]> D | None => D end) !! k = D !! k) as ->.
    { destruct (S !! h); [by rewrite lookup_insert_ne|done]. }
    destruct (decide (k ∈ hs)); [rewrite decide_True by by right|rewrite decide_False]; try done.
    by intros [?|?]%elem_of_cons.
Qed.

Lemma deleted_lookup hs D k : deleted hs D !! k = if decide (k ∈ hs) then None else D !! k.
Proof.
  unfold deleted. revert D; induction hs as [|h hs IH]; intros D; [by rewrite decide_False by set_solver|].
  simpl. rewrite IH. destruct (decide (k = h)) as [->|Hne].
  - rewrite lookup_delete_eq, (decide_True (P := h ∈ h :: hs)) by by left. by case_decide.
  - rewrite lookup_delete_ne by done.
    destruct (decide (k ∈ hs)); [rewrite decide_True by by right|rewrite decide_False]; try done.
    by intros [?|?]%elem_of_cons.
Qed.

Lemma wp_copyHistoryRecords hs src dst Q E t :
  src <> dst -> tx_full t -> Forall hash_ok hs -> (forall h v, h ∈ hs -> bk t src !! h = Some v -> val_ok v) ->
  (forall t', updated t dst (copied hs (bk t src) (bk t dst)) t' -> Q tt t') ->
  wp (copyHistoryRecords hs src dst) Q E t.
Proof.
  intros Hne F H V HQ.
  cut (forall t1, updated t dst (bk t1 dst) t1 ->
    (forall t', updated t dst (copied hs (bk t src) (bk t1 dst)) t' -> Q tt t') ->
    wp (copyHistoryRecords hs src dst) Q E t1).
  { intros K. apply K; [by apply updated_refl|done]. }
  clear HQ. induction H as [|h hs Hh H IH]; intros t1 U1 HQ; cbn [copyHistoryRecords]; [by apply HQ|].
  wp_steps. simpl in HQ.
  assert (forall h' v, h' ∈ hs -> bk t src !! h' = Some v -> val_ok v) as V'
    by (intros ????; eapply V; [by right|done]).
  destruct (bk t src !! h) as [v|] eqn:Ev; [|wp_steps; by apply IH].
  apply wp_b_put; [by eauto using updated_full|by apply key_ok_hash|eapply V; [by left|done]|].
  intros t2 U2. pose proof (updated_same _ _ _ _ U2) as E2.
  apply IH; [done| |by rewrite E2]. rewrite E2. by eapply updated_trans.
Qed.

Lemma wp_deleteHashes hs b Q E t :
  tx_full t -> (forall t', updated t b (deleted hs (bk t b)) t' -> Q tt t') ->
  wp (forM hs (fun h => b_delete b h)) Q E t.
Proof.
  intros F HQ.
  cut (forall t1, updated t b (bk t1 b) t1 ->
    (forall t', updated t b (deleted hs (bk t1 b)) t' -> Q tt t') ->
    wp (forM hs (fun h => b_delete b h)) Q E t1).
  { intros K. apply K; [by apply updated_refl|done]. }
  clear HQ. induction hs as [|h hs IH]; intros t1 U1 HQ; cbn [forM]; [by apply HQ|].
  wp_steps. pose proof (updated_same _ _ _ _ U) as E2.
  apply IH; [rewrite E2; by eapply updated_trans|by rewrite E2].
Qed.

(** The move empties the source of the hashes it visits. *)
Lemma wp_moveHistoryRecords hs src dst Q E t :
  src <> dst -> tx_full t -> Forall hash_ok hs -> (forall h v, h ∈ hs -> bk t src !! h = Some v -> val_ok v) ->
  (forall t', tx_full t' -> bk t' dst = copied hs (bk t src) (bk t dst) ->
     bk t' src = deleted hs (bk t src) ->
     (forall b, b <> src -> b <> dst -> bk t' b = bk t b) -> Q tt t') ->
  wp (moveHistoryRecords hs src dst) Q E t.
Proof.
  intros Hne F H. revert t F; induction H as [|h hs Hh H IH]; intros t F V HQ;
    cbn [moveHistoryRecords]; [by apply HQ|].
  wp_steps. destruct (bk t src !! h) as [v|] eqn:Ev.
  - wp_steps. apply wp_b_put; [done|by apply key_ok_hash|eapply V; [by left|done]|].
    intros t1 U1. wp_steps. rename t0 into t2, U into U2.
    assert (bk t2 src = delete h (bk t src)) as Es by (bk_simpl; done).
    assert (bk t2 dst = <[h:=v]> (bk t dst)) as Ed.
    { rewrite (updated_other _ _ _ _ dst U2) by done. by bk_simpl. }
    apply IH; [by eauto using updated_full| |].
    + intros h' v' Hin. rewrite Es. intros [_ ?]%lookup_delete_Some. eapply V; [by right|done].
    + intros t3 F3 E1 E2 E3. rewrite Es, Ed in *. apply HQ; [done| | |].
      * rewrite E1. apply map_eq. intros k. rewrite !copied_lookup.
        destruct (decide (k = h)) as [->|Hk].
        -- rewrite (decide_True (P := h ∈ h :: hs)) by by left.
           rewrite Ev, lookup_delete_eq, lookup_insert_eq. by case_decide.
        -- rewrite lookup_delete_ne, lookup_insert_ne by done.
           destruct (decide (k ∈ hs)); [rewrite decide_True by by right|rewrite decide_False]; try done.
           by intros [?|?]%elem_of_cons.
      * rewrite E2. done.
      * intros b Hs Hd. rewrite E3 by done. by rewrite (updated_other _ _ _ _ b U2), (updated_other _ _ _ _ b U1).
  - wp_steps. apply IH; [done|intros ????; eapply V; [by right|done]|].
    intros t3 F3 E1 E2 E3. apply HQ; [done| | |done].
    + rewrite E1. unfold copied. simpl. by rewrite Ev.
    + rewrite E2. unfold deleted. simpl. by rewrite delete_id.
Qed.

(** What each step of an expiration leaves. *)
Definition expired_buckets : list bucket :=
  [expiredNamesBucket; expiredNamesIdxBucket; expiredHistBucket; expiredHistIdxBucket].

Definition backup_hist (hs : list bytes) (H EH : gmap bytes bytes) : gmap bytes bytes := copied hs H EH.
Definition backup_idx (hs : list bytes) (key : bytes) (EI : gmap bytes bytes) : gmap bytes bytes :=
  if decide (hs = []) then EI else <[key:=concat hs]> EI.

Lemma key_ok_height h name : name_ok name -> key_ok (makeHeightNameKey h name).
Proof. intros N. apply (key_ok_exp h name). unfold name_ok in N. lia. Qed.

Lemma hist_val_ok I H h v : hist_wf I H -> H !! h = Some v -> val_ok v.
Proof. intros W E. destruct (hw_rec _ _ W _ _ E) as (r & Hr & ->). by apply val_ok_encode. Qed.

Lemma StoreExpiredName_correct {C : BoltCommits B} n r h :
  ndb_hist_wf n -> record_ok r -> name_ok (Name r) -> index_room n (Name r) ->
  let key := makeHeightNameKey h (Name r) in
  let hs := ndb_hashes n (Name r) in
  wp (StoreExpiredName (Some r) h)
    (fun _ n' => ndb_open n' /\ cache n' = cache n /\ frame expired_buckets n n' /\
       ndb_bkt n' expiredNamesBucket = <[key:=encodeNameRecord r]> (ndb_bkt n expiredNamesBucket) /\
       ndb_bkt n' expiredNamesIdxBucket = <[key:=[Byte.x01]]> (ndb_bkt n expiredNamesIdxBucket) /\
       ndb_bkt n' expiredHistBucket =
         backup_hist hs (ndb_bkt n historyBucket) (ndb_bkt n expiredHistBucket) /\
       ndb_bkt n' expiredHistIdxBucket = backup_idx hs key (ndb_bkt n expiredHistIdxBucket))
    (fun _ _ => False) n.
Proof.
  intros [(t & Hdb & F) W] Hr Hn Room key hs.
  unfold index_room, hs, ndb_hashes, ndb_bkt in *. rewrite Hdb in *.
  destruct (hashes_wf _ _ (Name r) W) as (Hs & Hc & _ & _).
  set (hl := hashes (bk t historyIndexBucket) (Name r)) in *.
  assert (key_ok key) as Kk by by apply key_ok_height.
  pose proof (val_ok_encode r Hr) as Vr.
  assert (val_ok (concat hl)) as Vc by (apply val_ok_hashes; [done|lia]).
  apply (wp_Update _ _ _ _ t); [done|]. wp_step. wp_step. cbv zeta. fold key.
  wp_step. apply wp_b_put; [done..|]. intros t1 U1. wp_step.
  apply wp_b_put; [by eauto using updated_full|done|apply val_ok_one|]. intros t2 U2.
  unfold backupExpiredHistory. wp_steps. rewrite Hc. unfold backup_idx, backup_hist.
  case_decide as D.
  - rewrite D. rewrite bool_decide_true by done. wp_steps. cbn [set_db db].
    split_and!; [|done|solve_frame Hdb expired_buckets|by bk_simpl..].
    exists t2. eauto using updated_full.
  - rewrite bool_decide_false by (intros E; by apply concat_hashes_nil in E). wp_step.
    apply wp_b_put; [by eauto using updated_full|done|done|]. intros t3 U3.
    rewrite txHashes_concat by done.
    apply wp_copyHistoryRecords; [done|by eauto using updated_full|done| |].
    + intros k v _. bk_simpl. by apply (hist_val_ok _ _ _ _ W).
    + intros t4 U4. cbn [set_db db].
      split_and!; [|done|solve_frame Hdb expired_buckets|by bk_simpl..].
      exists t4. eauto using updated_full.
Qed.

Lemma DeleteHistory_correct {C : BoltCommits B} n name :
  ndb_hist_wf n ->
  wp (DeleteHistory name)
    (fun _ n' => ndb_hist_wf n' /\ cache n' = cache n /\ frame hist_buckets n n' /\
       ndb_bkt n' historyIndexBucket = delete name (ndb_bkt n historyIndexBucket) /\
       ndb_bkt n' historyBucket = deleted (ndb_hashes n name) (ndb_bkt n historyBucket))
    (fun _ _ => False) n.
Proof.
  intros [(t & Hdb & F) W].
  unfold ndb_hashes, ndb_bkt in *. rewrite Hdb in *.
  destruct (hashes_wf _ _ name W) as (Hs & Hc & Hn & _).
  set (hl := hashes (bk t historyIndexBucket) name) in *.
  apply (wp_Update _ _ _ _ t); [done|]. wp_steps.
  destruct (bk t historyIndexBucket !! name) as [l|] eqn:El; simpl in Hc.
  - subst l. rewrite index_corrupt_concat, txHashes_concat by done. wp_step.
    apply wp_deleteHashes; [done|]. intros t1 U1. wp_steps. cbn [set_db db].
    split_and!; [split|done|solve_frame Hdb hist_buckets|by bk_simpl..].
    + exists t0. eauto using updated_full.
    + unfold ndb_bkt. cbn [set_db db]. bk_simpl. split.
      * intros k l [_ E]%lookup_delete_Some. by apply (hw_idx _ _ W) in E.
      * intros k d. rewrite deleted_lookup. case_decide; [done|]. apply (hw_rec _ _ W).
  - wp_steps. cbn [set_db db].
    split_and!; [split|done|split; [done|]| |]; unfold ndb_bkt; cbn [set_db db].
    + by exists t.
    + done.
    + by rewrite Hdb.
    + by rewrite delete_id.
    + by rewrite Hn.
Qed.

(** A body that also touches the cache. *)
Lemma wp_Update_with {A} {C : BoltCommits B} (fn : M (Tx * lruCache bytes NameRecord) A) Q E n t :
  db n = Some t ->
  wp fn (fun a s => Q a (set_db (Some s.1) (set_cache s.2 n))) (fun e s => E e (set_cache s.2 n))
     (t, cache n) ->
  wp (Update_with fn) Q E n.
Proof.
  intros Hdb. unfold wp, Update_with. rewrite Hdb.
  destruct (fn (t, cache n)) as [[a|e] [t' c']]; cbn; [|done]. by rewrite bolt_commit_ok.
Qed.

Lemma wp_on_tx {A} (m : M Tx A) (Q : A -> Tx * lruCache bytes NameRecord -> Prop)
    (E : error -> Tx * lruCache bytes NameRecord -> Prop) (t : Tx) c :
  wp m (fun a t' => Q a (t', c)) (fun e t' => E e (t', c)) t -> wp (on_tx m) Q E (t, c).
Proof. unfold wp, on_tx, zoom. cbn [fst snd]. by destruct (m t) as [[a|e] t']. Qed.

Lemma singleton_list (l : list bytes) k : NoDup l -> (forall x, x ∈ l <-> x = k) -> l = [k].
Proof.
  intros N H. destruct l as [|a [|b l]].
  - destruct (H k) as [_ K]. specialize (K eq_refl). set_solver.
  - f_equal. apply H. by left.
  - assert (a = k) as -> by (apply H; by left). assert (b = k) as -> by (apply H; right; by left).
    apply NoDup_cons in N as [N _]. exfalso. apply N. by left.
Qed.

Lemma wp_collectKeysForHeight b h key Q E t :
  tx_full t -> HasPrefix key (be_bytes 4 (uint32 h)) = true -> is_Some (bk t b !! key) ->
  (forall k, k <> key -> HasPrefix k (be_bytes 4 (uint32 h)) = true -> bk t b !! k = None) ->
  Q [key] t -> wp (collectKeysForHeight b h) Q E t.
Proof.
  intros F Hp [v Hv] Ho HQ. unfold collectKeysForHeight, b_seek. wp_steps. cbv zeta. wp_steps.
  rewrite prefixed_seek by apply Hitems.
  rewrite (singleton_list (filter _ items).*1 key); [done| |].
  - eapply sublist_NoDup; [by eapply cursor_NoDup|]. apply fmap_sublist, sublist_filter.
  - intros k. rewrite list_elem_of_fmap. split.
    + intros ([k' v'] & -> & [P I]%list_elem_of_filter). simpl in *.
      destruct (decide (k' = key)) as [|D]; [done|].
      apply (cursor_elem _ _ _ _ Hitems) in I. by rewrite (Ho k' D P) in I.
    + intros ->. exists (key, v). split; [done|]. apply list_elem_of_filter.
      split; [done|]. by eapply cursor_elem.
Qed.

Lemma makeHeightNameKey_name h name : drop 4 (makeHeightNameKey h name) = name.
Proof. apply (drop_exp_key h name). Qed.

Lemma HasPrefix_height h name : HasPrefix (makeHeightNameKey h name) (be_bytes 4 (uint32 h)) = true.
Proof. apply HasPrefix_app. Qed.

(** The one backup of height [h]: the record [r] of [name] with history [hs]. *)
Record backup_of (n : NameDatabase) (h : Z) (name : bytes) (r : NameRecord) (hs : list bytes) : Prop := {
  bo_rec : ndb_bkt n expiredNamesBucket !! makeHeightNameKey h name = Some (encodeNameRecord r);
  bo_idx : is_Some (ndb_bkt n expiredNamesIdxBucket !! makeHeightNameKey h name);
  bo_only : forall k, k <> makeHeightNameKey h name -> HasPrefix k (be_bytes 4 (uint32 h)) = true ->
    ndb_bkt n expiredNamesIdxBucket !! k = None;
  bo_hist : ndb_bkt n expiredHistIdxBucket !! makeHeightNameKey h name =
    if decide (hs = []) then None else Some (concat hs);
  bo_hashes : Forall hash_ok hs;
  bo_val : val_ok (concat hs);
  bo_recs : forall k v, k ∈ hs -> ndb_bkt n expiredHistBucket !! k = Some v -> val_ok v;
}.

Lemma wp_restoreExpiredHistory key name hs Q E t :
  tx_full t -> key_ok name -> Forall hash_ok hs -> val_ok (concat hs) ->
  bk t expiredHistIdxBucket !! key = (if decide (hs = []) then None else Some (concat hs)) ->
  (forall k v, k ∈ hs -> bk t expiredHistBucket !! k = Some v -> val_ok v) ->
  (forall t', tx_full t' ->
     bk t' historyIndexBucket = backup_idx hs name (bk t historyIndexBucket) ->
     bk t' historyBucket = copied hs (bk t expiredHistBucket) (bk t historyBucket) ->
     (forall b, b ∉ [historyIndexBucket; historyBucket; expiredHistIdxBucket; expiredHistBucket] ->
        bk t' b = bk t b) -> Q tt t') ->
  wp (restoreExpiredHistory key name expiredHistIdxBucket expiredHistBucket
        historyIndexBucket historyBucket) Q E t.
Proof.
  intros F Kn Hs Vc Ek V HQ. unfold restoreExpiredHistory. wp_steps. rewrite Ek.
  unfold backup_idx in HQ. case_decide as D; simpl default; cbv zeta.
  - subst hs. rewrite bool_decide_true by done. wp_steps. by apply HQ.
  - rewrite bool_decide_false by (intros C; by apply concat_hashes_nil in C). wp_steps.
    rename t0 into t1, U into U1. rewrite txHashes_concat by done.
    apply wp_moveHistoryRecords; [done|by eauto using updated_full|done| |].
    { intros k v. bk_simpl. apply V. }
    intros t2 F2 E1 E2 E3. wp_steps. apply HQ; [by eauto using updated_full| | |].
    + bk_simpl. rewrite E3 by done. by bk_simpl.
    + bk_simpl. rewrite E1. by bk_simpl.
    + intros b Hb. repeat (apply not_elem_of_cons in Hb as [? Hb]).
      bk_simpl. rewrite E3 by done. by bk_simpl.
Qed.

Lemma RestoreExpiredNamesForBlock_correct {C : BoltCommits B} n h name r hs :
  ndb_wf n -> record_ok r -> name_ok name -> ndb_names n !! name = None ->
  backup_of n h name r hs ->
  wp (RestoreExpiredNamesForBlock h)
    (fun _ n' => ndb_wf n' /\ ndb_names n' = <[name:=set_Name name r]> (ndb_names n) /\
       ndb_bkt n' historyIndexBucket = backup_idx hs name (ndb_bkt n historyIndexBucket) /\
       ndb_bkt n' historyBucket = copied hs (ndb_bkt n expiredHistBucket) (ndb_bkt n historyBucket) /\
       ndb_bkt n' expiredNamesBucket = delete (makeHeightNameKey h name) (ndb_bkt n expiredNamesBucket) /\
       ndb_bkt n' expiredNamesIdxBucket =
         delete (makeHeightNameKey h name) (ndb_bkt n expiredNamesIdxBucket))
    (fun _ _ => False) n.
Proof.
  intros [(t & Hdb & F) W Cw] Hr Hn Habs [B1 B2 B3 B4 B5 B6 B7].
  unfold ndb_names, ndb_bkt in *. rewrite Hdb in *. set (key := makeHeightNameKey h name) in *.
  apply (wp_Update_with _ _ _ _ t); [done|].
  wp_step. apply wp_on_tx. wp_steps. apply wp_on_tx.
  apply (wp_collectKeysForHeight _ _ key); [done|apply HasPrefix_height|done..|].
  cbn [forM]. wp_step. unfold restoreExpiredEntry. wp_step. apply wp_on_tx.
  unfold restoreExpiredNameRecord. wp_steps. rewrite B1. cbv zeta.
  unfold key. rewrite makeHeightNameKey_name. fold key. wp_steps. rewrite decode_encode by done. wp_steps.
  apply wp_b_put; [done|by apply key_ok_name|by apply val_ok_encode|]. intros t1 U1. wp_steps.
  apply wp_b_put; [by eauto using updated_full| |apply val_ok_one|].
  { apply key_ok_exp. unfold name_ok in Hn. lia. }
  intros t2 U2. wp_steps. rewrite bool_decide_false by (intros ->; unfold name_ok in Hn; simpl in Hn; lia).
  wp_step. apply wp_on_tx.
  apply wp_restoreExpiredHistory with (hs := hs); [by eauto using updated_full|by apply key_ok_name|done..| | |].
  { by bk_simpl. }
  { intros k v. bk_simpl. apply B7. }
  intros t3 F3 E1 E2 E3. wp_step. apply wp_on_tx. unfold deleteExpiredBackup. wp_steps.
  unfold on_cache. wp_steps. cbn [fst snd set_db set_cache db cache].
  assert (bk t4 namesBucket = <[name:=encodeNameRecord r]> (bk t namesBucket)) as EN.
  { bk_simpl. rewrite E3 by bucket_notin.
    by bk_simpl. }
  assert (bk t4 expirationBucket = <[exp_key name r:=[Byte.x01]]> (bk t expirationBucket)) as EX.
  { bk_simpl. rewrite E3 by bucket_notin.
    by bk_simpl. }
  split_and!.
  - split; unfold ndb_names, ndb_bkt; cbn [set_db set_cache db cache].
    + exists t4. eauto using updated_full.
    + rewrite EN, EX. pose proof (names_wf_put _ _ name r [Byte.x01] W Hr Hn) as Wp.
      unfold drop_old in Wp. by rewrite Habs in Wp.
    + rewrite EN, names_of_insert by done. destruct Cw as [I Cw].
      split; [by apply lru_Delete_refines|]. intros name' r' Hc.
      rewrite cached_after_Delete in Hc by done. case_decide; [done|].
      rewrite lookup_insert_ne by done. by apply Cw.
  - by rewrite EN, names_of_insert.
  - bk_simpl. rewrite E1. by bk_simpl.
  - bk_simpl. rewrite E2. by bk_simpl.
  - bk_simpl. rewrite E3 by bucket_notin.
    by bk_simpl.
  - bk_simpl. rewrite E3 by bucket_notin.
    by bk_simpl.
Qed.

(** *** The round trip *)

Lemma ndb_wf_frame bs n n' : ndb_wf n -> ndb_open n' -> cache n' = cache n -> frame bs n n' ->
  namesBucket ∉ bs -> expirationBucket ∉ bs -> ndb_wf n' /\ ndb_names n' = ndb_names n.
Proof.
  intros [_ W Cw] O Ec [_ Fr] N1 N2. unfold ndb_names in *.
  split; [split|]; unfold ndb_names; rewrite ?Fr, ?Ec by done; done.
Qed.

Lemma ndb_hist_wf_frame bs n n' : ndb_hist_wf n -> ndb_open n' -> frame bs n n' ->
  historyBucket ∉ bs -> historyIndexBucket ∉ bs ->
  ndb_hist_wf n' /\ forall name, ndb_hashes n' name = ndb_hashes n name.
Proof.
  intros [_ W] O [_ Fr] N1 N2. unfold ndb_hashes. split; [split; [done|]|intros name]; by rewrite !Fr.
Qed.

(** What expiring [name] at height [h] does: [processExpiredNames] of chain/blockchain.go. *)
Definition expireName (name : bytes) (r : NameRecord) (h : Z) : M NameDatabase unit :=
  StoreExpiredName (Some r) h;; DeleteName name;; DeleteHistory name.

(** No backup is left over from an earlier block of height [h]. *)
Record no_backup (n : NameDatabase) (h : Z) (name : bytes) : Prop := {
  nb_idx : forall k, HasPrefix k (be_bytes 4 (uint32 h)) = true -> ndb_bkt n expiredNamesIdxBucket !! k = None;
  nb_hist : ndb_bkt n expiredHistIdxBucket !! makeHeightNameKey h name = None;
}.

(** Every hash of the history index has its record. *)
Definition hist_complete (n : NameDatabase) (name : bytes) : Prop :=
  forall k, k ∈ ndb_hashes n name -> is_Some (ndb_bkt n historyBucket !! k).

Lemma expireName_correct {C : BoltCommits B} n name r h :
  ndb_wf n -> ndb_hist_wf n -> ndb_names n !! name = Some r -> index_room n name -> no_backup n h name ->
  hist_complete n name ->
  wp (expireName name r h)
    (fun _ n' => ndb_wf n' /\ ndb_hist_wf n' /\ ndb_names n' = delete name (ndb_names n) /\
       ndb_bkt n' historyIndexBucket = delete name (ndb_bkt n historyIndexBucket) /\
       ndb_bkt n' historyBucket = deleted (ndb_hashes n name) (ndb_bkt n historyBucket) /\
       ndb_bkt n' expiredHistBucket =
         copied (ndb_hashes n name) (ndb_bkt n historyBucket) (ndb_bkt n expiredHistBucket) /\
       backup_of n' h name r (ndb_hashes n name))
    (fun _ _ => False) n.
Proof.
  intros W Wh Er Room [N1 N2] Hc.
  destruct (names_of_ok _ _ _ _ (wf_names _ W) Er) as (Hr & Hn & Enm & _).
  unfold expireName. rewrite wp_bind. rewrite <-Enm in Room.
  assert (name_ok (Name r)) as Hn' by by rewrite Enm.
  eapply wp_mono; [by apply (StoreExpiredName_correct n r h Wh Hr Hn' Room)| |done].
  cbv zeta. rewrite Enm. intros _ n1 (O1 & C1 & F1 & A1 & A2 & A3 & A4).
  destruct (ndb_wf_frame _ _ _ W O1 C1 F1) as [W1 E1]; [bucket_notin..|].
  destruct (ndb_hist_wf_frame _ _ _ Wh O1 F1) as [Wh1 H1]; [bucket_notin..|].
  rewrite wp_bind. eapply wp_mono; [by apply (DeleteName_correct n1 name W1)| |done].
  intros _ n2 (W2 & E2 & F2).
  destruct (ndb_hist_wf_frame _ _ _ Wh1 (wf_open _ W2) F2) as [Wh2 H2]; [bucket_notin..|].
  eapply wp_mono; [by apply (DeleteHistory_correct n2 name Wh2)| |done].
  intros _ n3 (Wh3 & C3 & F3 & A5 & A6).
  destruct (ndb_wf_frame _ _ _ W2 (hwf_open _ Wh3) C3 F3) as [W3 E3]; [bucket_notin..|].
  destruct F1 as [_ F1], F2 as [_ F2], F3 as [_ F3].
  rewrite H2, H1 in *. rewrite !F2, !F1 in A6, A5 by bucket_notin.
  split_and!; [done|done|by rewrite E3, E2, E1|done|done| |].
  { rewrite F3, F2 by bucket_notin. done. }
  destruct (hashes_wf _ _ name (hwf_hist _ Wh)) as (Hs & _).
  split; rewrite ?F3, ?F2, ?A1, ?A2, ?A3, ?A4 by bucket_notin.
  - by rewrite lookup_insert_eq.
  - rewrite lookup_insert_eq. eauto.
  - intros k D P. rewrite lookup_insert_ne by done. by apply N1.
  - unfold backup_idx. case_decide; [done|]. by rewrite lookup_insert_eq.
  - done.
  - apply val_ok_hashes; [done|]. unfold index_room in Room. rewrite Enm in Room. lia.
  - intros k v Hin. unfold backup_hist.
    rewrite copied_lookup, decide_True by done. destruct (Hc k Hin) as [d Ed]. rewrite Ed.
    intros [= <-]. by apply (hist_val_ok _ _ _ _ (hwf_hist _ Wh) Ed).
Qed.

Lemma backup_idx_delete hs name I : hist_wf I ∅ -> hs = hashes I name ->
  backup_idx hs name (delete name I) = I.
Proof.
  intros W ->. destruct (hashes_wf _ _ name W) as (Hs & Hc & Hn & Hne). unfold backup_idx.
  destruct (I !! name) as [l|] eqn:E; simpl in Hc.
  - rewrite decide_False by eauto. subst l.
    by rewrite insert_delete_eq, insert_id.
  - rewrite decide_True by auto. by apply delete_id.
Qed.

Lemma copied_deleted hs H EH : (forall k, k ∈ hs -> is_Some (H !! k)) ->
  copied hs (copied hs H EH) (deleted hs H) = H.
Proof.
  intros Hc. apply map_eq. intros k. rewrite !copied_lookup, deleted_lookup.
  destruct (decide (k ∈ hs)) as [Hk|]; [|done]. by destruct (Hc k Hk) as [v ->].
Qed.

(** Expiring a name and then disconnecting the block brings everything back. *)
Lemma expire_restore_correct {C : BoltCommits B} n name r h :
  ndb_wf n -> ndb_hist_wf n -> ndb_names n !! name = Some r -> index_room n name -> no_backup n h name ->
  hist_complete n name ->
  wp (expireName name r h;; RestoreExpiredNamesForBlock h)
    (fun _ n' => ndb_wf n' /\ ndb_names n' = ndb_names n /\
       ndb_bkt n' historyIndexBucket = ndb_bkt n historyIndexBucket /\
       ndb_bkt n' historyBucket = ndb_bkt n historyBucket)
    (fun _ _ => False) n.
Proof.
  intros W Wh Er Room Nb Hc.
  destruct (names_of_ok _ _ _ _ (wf_names _ W) Er) as (Hr & Hn & Enm & _).
  rewrite wp_bind. eapply wp_mono; [by apply expireName_correct| |done].
  intros _ n1 (W1 & Wh1 & E1 & I1 & H1 & X1 & Bo).
  eapply wp_mono; [apply (RestoreExpiredNamesForBlock_correct n1 h name r (ndb_hashes n name) W1 Hr Hn); [|done]| |done].
  { by rewrite E1, lookup_delete_eq. }
  intros _ n2 (W2 & E2 & I2 & H2 & _). split_and!; [done| | |].
  - rewrite E2, E1, insert_delete_eq. apply insert_id. rewrite Er. f_equal.
    destruct r. simpl in *. by subst.
  - rewrite I2, I1. apply backup_idx_delete; [|done].
    split; [apply (hw_idx _ _ (hwf_hist _ Wh))|done].
  - by rewrite H2, X1, H1, copied_deleted.
Qed.

End expiry.
