(* ===== verification/Utxo.v ===== *)
(** * The UTXO set, its address index and the backups of spent outputs

    namedb/utxo.go over the transactions of NameDB.v. *)

From S2P Require Import Prelude Bolt Lru Record NameDB.

Section utxo.
Context {B : Bolt}.

Definition AddUTXO (utxo : option UTXO) : M NameDatabase unit :=
  match utxo with
  | None => fail (EMsg "utxo cannot be nil")
  | Some utxo =>
      Update (withBuckets [utxoBucket; utxoAddrBucket] (fun _ =>
        data ← lift (encodeUTXO utxo);
        let key := makeUTXOKey (u_TxHash utxo) (u_OutIndex utxo) in
        b_put utxoBucket key data;;
        b_put utxoAddrBucket
          (makeUTXOAddressKey (u_Address utxo) (u_TxHash utxo) (u_OutIndex utxo)) [Byte.x01]))
  end.

Definition RemoveUTXO (txHash : option bytes) (outIndex : Z) : M NameDatabase unit :=
  match txHash with
  | None => fail (EMsg "txHash cannot be nil")
  | Some txHash =>
      Update (withBuckets [utxoBucket; utxoAddrBucket] (fun _ =>
        let key := makeUTXOKey txHash outIndex in
        data ← b_get utxoBucket key;
        match data with
        | None => mret tt
        | Some data =>
            utxo ← lift (decodeUTXO txHash outIndex data);
            b_delete utxoAddrBucket (makeUTXOAddressKey (u_Address utxo) txHash outIndex);;
            b_delete utxoBucket key
        end))
  end.

Definition utxo_not_found : error := EMsg "UTXO not found: %s:%d".

Definition GetUTXO (txHash : option bytes) (outIndex : Z) : M NameDatabase UTXO :=
  match txHash with
  | None => fail (EMsg "txHash cannot be nil")
  | Some txHash =>
      View (withBucket utxoBucket (fun utxoBkt =>
        data ← b_get utxoBkt (makeUTXOKey txHash outIndex);
        match data with
        | None => fail utxo_not_found
        | Some data => lift (decodeUTXO txHash outIndex data)
        end))
  end.

Definition loadAddressIndexedUTXO (address indexKey : bytes) (utxoBkt : bucket) :
    M Tx (option UTXO) :=
  match parseAddressIndexKey address indexKey with
  | None => mret None
  | Some (txHash, outIndex) =>
      data ← b_get utxoBkt (makeUTXOKey txHash outIndex);
      match data with
      | None => mret None
      | Some data =>
          mret (match decodeUTXO txHash outIndex data with Ok u => Some u | Err _ => None end)
      end
  end.

(** The loop over the index keys with the address as prefix. *)
Fixpoint loadIndexed (address : bytes) (keys : list bytes) : M Tx (list UTXO) :=
  match keys with
  | [] => mret []
  | k :: keys =>
      utxo ← loadAddressIndexedUTXO address k utxoBucket;
      utxos ← loadIndexed address keys;
      mret (match utxo with Some u => u :: utxos | None => utxos end)
  end.

Definition GetUTXOsForAddress (address : bytes) : M NameDatabase (list UTXO) :=
  if bool_decide (address = []) then fail (EMsg "address cannot be empty")
  else View (
    requireBuckets [utxoBucket; utxoAddrBucket];;
    items ← b_seek utxoAddrBucket address;
    loadIndexed address (prefixed address items).*1).

Definition GetNameUTXO (name : bytes) : M NameDatabase UTXO :=
  record ← wrapM "name not found" (GetName name);
  wrapM "name UTXO not found for %s" (GetUTXO (Some (TxHash record)) (OutIndex record)).

Definition StoreSpentUTXO (utxo : option UTXO) (spentAtHeight : Z) : M NameDatabase unit :=
  match utxo with
  | None => fail (EMsg "utxo cannot be nil")
  | Some utxo =>
      Update (
        requireBuckets [spentUtxoBucket; spentUtxoIdxBucket];;
        data ← lift (encodeUTXO utxo);
        let key := makeUTXOKey (u_TxHash utxo) (u_OutIndex utxo) in
        b_put spentUtxoBucket key data;;
        b_put spentUtxoIdxBucket
          (makeSpentUTXOHeightKey spentAtHeight (u_TxHash utxo) (u_OutIndex utxo)) [Byte.x01])
  end.

(** [collectSpentUTXOKeysForHeight] and [collectSpentUTXOKeysBeforeHeight]. *)
Definition collectSpentUTXOKeysForHeight (idxBkt : bucket) (height : Z) : M Tx (list bytes) :=
  let heightPrefix := be_bytes 4 (uint32 height) in
  items ← b_seek idxBkt heightPrefix;
  mret (prefixed heightPrefix items).*1.

Definition collectSpentUTXOKeysBeforeHeight (idxBkt : bucket) (keepFromHeight : Z) :
    M Tx (list bytes) :=
  items ← b_items idxBkt;
  mret (filter (fun k => ~ (length k < 4)%nat /\ key_height k < keepFromHeight) items.*1).

Definition putRestoredUTXO (utxoKey : bytes) (utxo : UTXO) (utxoBkt addrBkt : bucket) : M Tx unit :=
  match encodeUTXO utxo with
  | Err _ => mret tt
  | Ok utxoData =>
      wrapM "failed to restore UTXO %s:%d" (b_put utxoBkt utxoKey utxoData);;
      wrapM "failed to restore UTXO address index"
        (b_put addrBkt (makeUTXOAddressKey (u_Address utxo) (u_TxHash utxo) (u_OutIndex utxo))
           [Byte.x01])
  end.

Definition restoreSpentUTXOEntry (indexKey : bytes) (spentBkt utxoBkt addrBkt : bucket) : M Tx unit :=
  match parseSpentUTXOHeightKey indexKey with
  | None => mret tt
  | Some (txHash, outIndex) =>
      let utxoKey := makeUTXOKey txHash outIndex in
      data ← b_get spentBkt utxoKey;
      match data with
      | None => mret tt
      | Some data =>
          match decodeUTXO txHash outIndex data with
          | Err _ => mret tt
          | Ok utxo => putRestoredUTXO utxoKey utxo utxoBkt addrBkt
          end
      end
  end.

Definition deleteSpentUTXOBackup (indexKey : bytes) (spentBkt idxBkt : bucket) (message : string) :
    M Tx unit :=
  (match parseSpentUTXOHeightKey indexKey with
   | Some (txHash, outIndex) => wrapM message (b_delete spentBkt (makeUTXOKey txHash outIndex))
   | None => mret tt
   end);;
  wrapM "failed to delete spent UTXO index entry" (b_delete idxBkt indexKey).

Definition RestoreSpentUTXOsForBlock (height : Z) : M NameDatabase unit :=
  Update (
    requireBuckets [spentUtxoBucket; spentUtxoIdxBucket; utxoBucket; utxoAddrBucket];;
    indexKeys ← collectSpentUTXOKeysForHeight spentUtxoIdxBucket height;
    forM indexKeys (fun indexKey =>
      restoreSpentUTXOEntry indexKey spentUtxoBucket utxoBucket utxoAddrBucket;;
      deleteSpentUTXOBackup indexKey spentUtxoBucket spentUtxoIdxBucket
        "failed to delete spent UTXO %s:%d: %w")).

Definition CleanupOldSpentUTXOs (keepFromHeight : Z) : M NameDatabase unit :=
  Update (
    requireBuckets [spentUtxoBucket; spentUtxoIdxBucket];;
    indexKeys ← collectSpentUTXOKeysBeforeHeight spentUtxoIdxBucket keepFromHeight;
    forM indexKeys (fun indexKey =>
      deleteSpentUTXOBackup indexKey spentUtxoBucket spentUtxoIdxBucket
        "failed to delete old spent UTXO %s:%d: %w")).

End utxo.
