(* ===== verification/UtxoSpec.v ===== *)
(** * The UTXO operations implement a finite map of outputs

    The specification of namedb/utxo.go: a finite map from outpoint keys to
    outputs, with the address index derived from it.  A block that spends outputs
    ([StoreSpentUTXO], [RemoveUTXO]) is undone by [RestoreSpentUTXOsForBlock]. *)

From S2P Require Import Prelude Bolt Lru Record NameDB NamesSpec ExpirySpec Utxo.

Definition uk (u : UTXO) : bytes := makeUTXOKey (u_TxHash u) (u_OutIndex u).
Definition ak (u : UTXO) : bytes := makeUTXOAddressKey (u_Address u) (u_TxHash u) (u_OutIndex u).
Definition sk (h : Z) (u : UTXO) : bytes := makeSpentUTXOHeightKey h (u_TxHash u) (u_OutIndex u).

(** An outpoint: its hash and index. *)
Definition outpoint_ok (txHash : bytes) (outIndex : Z) : Prop :=
  length txHash = txHashSize /\ is_uint32 outIndex.

Definition decodedU (k d : bytes) : option UTXO :=
  match decodeUTXO (take txHashSize k) (of_be (drop txHashSize k)) d with Ok u => Some u | Err _ => None end.

Definition utxos_of (U : gmap bytes bytes) : gmap bytes UTXO := map_imap decodedU U.

Lemma of_be_4 z : is_uint32 z -> of_be (be_bytes 4 z) = z.
Proof. intros H. rewrite of_be_bytes. change (256 ^ Z.of_nat 4) with (2 ^ 32). by apply uint32_id. Qed.

Lemma makeUTXOKey_parts h i : outpoint_ok h i ->
  take txHashSize (makeUTXOKey h i) = h /\ of_be (drop txHashSize (makeUTXOKey h i)) = i.
Proof.
  intros [Hh Hi]. unfold makeUTXOKey. rewrite <-Hh, take_app_length, drop_app_length.
  split; [done|by apply of_be_4].
Qed.

Lemma utxo_outpoint u : utxo_ok u -> outpoint_ok (u_TxHash u) (u_OutIndex u).
Proof. intros H. split; apply H. Qed.

Lemma makeUTXOKey_inj h i h' i' : outpoint_ok h i -> outpoint_ok h' i' ->
  makeUTXOKey h i = makeUTXOKey h' i' -> h = h' /\ i = i'.
Proof.
  intros H H' E. destruct (makeUTXOKey_parts h i H) as [A1 A2].
  destruct (makeUTXOKey_parts h' i' H') as [B1 B2]. rewrite E in A1, A2. split; congruence.
Qed.

Lemma length_uk h i : outpoint_ok h i -> length (makeUTXOKey h i) = 36%nat.
Proof. intros [Hh _]. unfold makeUTXOKey. rewrite length_app, length_be_bytes, Hh. done. Qed.

Lemma ak_split u : ak u = u_Address u ++ uk u.
Proof. done. Qed.
Lemma sk_split h u : sk h u = be_bytes 4 (uint32 h) ++ uk u.
Proof. done. Qed.

Lemma ak_inj u u' : utxo_ok u -> utxo_ok u' -> ak u = ak u' ->
  u_Address u = u_Address u' /\ uk u = uk u'.
Proof.
  intros H H'. rewrite !ak_split. apply app_inj_2.
  unfold uk. by rewrite !length_uk by by apply utxo_outpoint.
Qed.

Lemma uk_decode u d : utxo_ok u -> encodeUTXO u = Ok d -> decodedU (uk u) d = Some u.
Proof.
  intros H E. unfold decodedU, uk. destruct (makeUTXOKey_parts _ _ (utxo_outpoint u H)) as [-> ->].
  by rewrite (decode_encode_UTXO u d).
Qed.

Lemma encodeUTXO_ok u : utxo_ok u -> exists d, encodeUTXO u = Ok d /\ val_ok d.
Proof.
  intros [_ _ _ _ Ha Hs]. unfold encodeUTXO.
  destruct (Z.gtb_spec (Z.of_nat (length (u_Address u))) 255); [lia|].
  destruct (Z.gtb_spec (Z.of_nat (length (u_PkScript u))) 65535); [lia|].
  eexists. split; [done|]. unfold val_ok, MaxValueSize.
  rewrite !length_app, !length_be_bytes. simpl. lia.
Qed.

(** The UTXO bucket [U] and the address index [A]. *)
Record utxo_wf (U A : gmap bytes bytes) : Prop := {
  uw_dec : forall k d, U !! k = Some d -> exists u, utxo_ok u /\ k = uk u /\ encodeUTXO u = Ok d;
  uw_addr : forall k v, A !! k = Some v <-> v = [Byte.x01] /\ exists u, utxos_of U !! uk u = Some u /\ k = ak u;
}.

Lemma utxos_of_lookup U k : utxos_of U !! k = U !! k ≫= decodedU k.
Proof. apply map_lookup_imap. Qed.

Lemma utxos_of_ok U A k u : utxo_wf U A -> utxos_of U !! k = Some u ->
  utxo_ok u /\ k = uk u /\ exists d, U !! k = Some d /\ encodeUTXO u = Ok d.
Proof.
  intros W. rewrite utxos_of_lookup. destruct (U !! k) as [d|] eqn:E; [|done]. simpl.
  destruct (uw_dec _ _ W _ _ E) as (u0 & Hu & -> & Ee). rewrite (uk_decode u0 d) by done.
  intros [= <-]. eauto.
Qed.

Lemma utxos_of_none U A k : utxo_wf U A -> U !! k = None <-> utxos_of U !! k = None.
Proof.
  intros W. rewrite utxos_of_lookup. destruct (U !! k) as [d|] eqn:E; [|done]. simpl.
  destruct (uw_dec _ _ W _ _ E) as (u & Hu & -> & Ee). by rewrite (uk_decode u d).
Qed.

Lemma utxos_of_insert U u d : utxo_ok u -> encodeUTXO u = Ok d ->
  utxos_of (<[uk u:=d]> U) = <[uk u:=u]> (utxos_of U).
Proof. intros H E. apply map_imap_insert_Some. by apply uk_decode. Qed.

Lemma utxos_of_delete U k : utxos_of (delete k U) = delete k (utxos_of U).
Proof. apply map_imap_delete. Qed.

Lemma utxo_wf_add U A u d : utxo_wf U A -> utxo_ok u -> encodeUTXO u = Ok d ->
  (forall u', utxos_of U !! uk u = Some u' -> u_Address u' = u_Address u) ->
  utxo_wf (<[uk u:=d]> U) (<[ak u:=[Byte.x01]]> A).
Proof.
  intros W Hu E Hsame. split.
  - intros k d'. rewrite lookup_insert. case_decide as D; [|apply (uw_dec _ _ W)].
    intros <-%(inj Some). subst. eauto.
  - intros k v. rewrite utxos_of_insert by done. rewrite lookup_insert.
    case_decide as D.
    + split.
      * intros <-%(inj Some). split; [done|]. exists u. by rewrite lookup_insert_eq.
      * by intros [-> _].
    + rewrite (uw_addr _ _ W). split.
      * intros (-> & u' & E' & ->). split; [done|]. exists u'.
        destruct (decide (uk u = uk u')) as [K|K]; [|by rewrite lookup_insert_ne].
        exfalso. apply D. rewrite !ak_split. f_equal; [|done].
        symmetry. apply Hsame. by rewrite K.
      * intros (-> & u' & E' & ->). split; [done|]. exists u'.
        rewrite lookup_insert in E'. case_decide as K; [|done]. injection E' as ->. done.
Qed.

Lemma utxo_wf_remove U A u : utxo_wf U A -> utxos_of U !! uk u = Some u ->
  utxo_wf (delete (uk u) U) (delete (ak u) A).
Proof.
  intros W Eu. destruct (utxos_of_ok _ _ _ _ W Eu) as (Hu & _). split.
  - intros k d [_ E]%lookup_delete_Some. by apply (uw_dec _ _ W).
  - intros k v. rewrite lookup_delete_Some, (uw_addr _ _ W), utxos_of_delete. split.
    + intros (Hne & -> & u' & E' & ->). split; [done|]. exists u'. split; [|done].
      rewrite lookup_delete_ne; [done|]. intros K. apply Hne.
      assert (u = u') as -> by congruence. done.
    + intros (-> & u' & E' & ->). apply lookup_delete_Some in E' as [Hne E'].
      split_and!; [|done|eauto]. intros K. apply Hne.
      destruct (utxos_of_ok _ _ _ _ W E') as (Hu' & _). by apply ak_inj in K as [_ ?].
Qed.

Section spec.
Context {B : Bolt} {L : BoltLaws B}.

Definition ndb_utxos (n : NameDatabase) : gmap bytes UTXO := utxos_of (ndb_bkt n utxoBucket).

Record ndb_utxo_wf (n : NameDatabase) : Prop := {
  uwf_open : ndb_open n;
  uwf_set : utxo_wf (ndb_bkt n utxoBucket) (ndb_bkt n utxoAddrBucket);
}.

Definition utxo_buckets : list bucket := [utxoBucket; utxoAddrBucket].
Definition spent_buckets : list bucket := [spentUtxoBucket; spentUtxoIdxBucket].

Lemma key_ok_uk h i : outpoint_ok h i -> key_ok (makeUTXOKey h i).
Proof. intros H. unfold key_ok, MaxKeySize. rewrite length_uk by done. lia. Qed.
Lemma key_ok_ak u : utxo_ok u -> key_ok (ak u).
Proof.
  intros H. unfold key_ok, MaxKeySize. rewrite ak_split, length_app. unfold uk.
  rewrite length_uk by by apply utxo_outpoint. pose proof (uok_address u H). lia.
Qed.
Lemma key_ok_sk h u : utxo_ok u -> key_ok (sk h u).
Proof.
  intros H. unfold key_ok, MaxKeySize. rewrite sk_split, length_app, length_be_bytes. unfold uk.
  rewrite length_uk by by apply utxo_outpoint. lia.
Qed.

Lemma AddUTXO_correct {C : BoltCommits B} n u : ndb_utxo_wf n -> utxo_ok u ->
  (forall u', ndb_utxos n !! uk u = Some u' -> u_Address u' = u_Address u) ->
  wp (AddUTXO (Some u))
    (fun _ n' => ndb_utxo_wf n' /\ cache n' = cache n /\ frame utxo_buckets n n' /\
       ndb_utxos n' = <[uk u:=u]> (ndb_utxos n))
    (fun _ _ => False) n.
Proof.
  intros [(t & Hdb & F) W] Hu Hsame. unfold ndb_utxos, ndb_bkt in *. rewrite Hdb in *.
  destruct (encodeUTXO_ok u Hu) as (d & Ed & Vd).
  apply (wp_Update _ _ _ _ t); [done|]. wp_steps. rewrite Ed. cbv zeta. wp_step.
  apply wp_b_put; [done|by apply key_ok_uk, utxo_outpoint|done|]. intros t1 U1.
  apply wp_b_put; [by eauto using updated_full|by apply key_ok_ak|apply val_ok_one|]. intros t2 U2.
  cbn [set_db db cache].
  split_and!; [split|done|solve_frame Hdb utxo_buckets|].
  - exists t2. eauto using updated_full.
  - unfold ndb_bkt. cbn [set_db db]. bk_simpl. by apply utxo_wf_add.
  - bk_simpl. by apply utxos_of_insert.
Qed.

Lemma RemoveUTXO_correct {C : BoltCommits B} n h i : ndb_utxo_wf n -> outpoint_ok h i ->
  wp (RemoveUTXO (Some h) i)
    (fun _ n' => ndb_utxo_wf n' /\ cache n' = cache n /\ frame utxo_buckets n n' /\
       ndb_utxos n' = delete (makeUTXOKey h i) (ndb_utxos n))
    (fun _ _ => False) n.
Proof.
  intros [(t & Hdb & F) W] Ho. unfold ndb_utxos, ndb_bkt in *. rewrite Hdb in *.
  apply (wp_Update _ _ _ _ t); [done|]. wp_steps. cbv zeta. wp_steps.
  destruct (bk t utxoBucket !! makeUTXOKey h i) as [d|] eqn:Ed.
  - destruct (uw_dec _ _ W _ _ Ed) as (u & Hu & Ek & Ee).
    apply makeUTXOKey_inj in Ek as [-> ->]; [|done|by apply utxo_outpoint].
    wp_steps. rewrite (decode_encode_UTXO u d) by done. wp_steps. fold (uk u) (ak u) in *.
    assert (utxos_of (bk t utxoBucket) !! uk u = Some u) as Eu
      by (rewrite utxos_of_lookup, Ed; simpl; by apply uk_decode).
    cbn [set_db db cache].
    split_and!; [split|done|solve_frame Hdb utxo_buckets|].
    + exists t1. eauto using updated_full.
    + unfold ndb_bkt. cbn [set_db db]. bk_simpl. by apply utxo_wf_remove.
    + bk_simpl. apply utxos_of_delete.
  - wp_steps. cbn [set_db db cache].
    split_and!; [split|done|split; [done|]|]; unfold ndb_bkt; cbn [set_db db].
    + by exists t.
    + done.
    + by rewrite Hdb.
    + rewrite delete_id; [done|]. by rewrite <-utxos_of_none.
Qed.

Lemma GetUTXO_correct n h i : ndb_utxo_wf n -> outpoint_ok h i ->
  wp (GetUTXO (Some h) i)
    (fun u n' => n' = n /\ ndb_utxos n !! makeUTXOKey h i = Some u)
    (fun e n' => n' = n /\ e = utxo_not_found /\ ndb_utxos n !! makeUTXOKey h i = None) n.
Proof.
  intros [(t & Hdb & F) W] Ho. unfold ndb_utxos, ndb_bkt in *. rewrite Hdb in *.
  apply (wp_View _ _ _ _ t); [done|]. wp_steps.
  destruct (bk t utxoBucket !! makeUTXOKey h i) as [d|] eqn:Ed; wp_steps; cycle 1.
  { split_and!; [done..|]. by rewrite utxos_of_lookup, Ed. }
  rewrite utxos_of_lookup, Ed. simpl.
  destruct (uw_dec _ _ W _ _ Ed) as (u & Hu & Ek & Ee).
  apply makeUTXOKey_inj in Ek as [-> ->]; [|done|by apply utxo_outpoint].
  rewrite (decode_encode_UTXO u d) by done. split; [done|]. by apply uk_decode.
Qed.

(** *** The outputs of an address *)

Lemma parse_ak address u : utxo_ok u -> HasPrefix (ak u) address = true ->
  parseAddressIndexKey address (ak u) =
  if decide (u_Address u = address) then Some (u_TxHash u, u_OutIndex u) else None.
Proof.
  intros H [l P]%HasPrefix_true. unfold parseAddressIndexKey.
  pose proof (utxo_outpoint u H) as O. destruct O as [Hh Hi].
  assert (length (ak u) = length (u_Address u) + 36)%nat as Lk.
  { rewrite ak_split, length_app. unfold uk. by rewrite length_uk. }
  destruct (decide (u_Address u = address)) as [<-|D].
  - rewrite bool_decide_false by (unfold txHashSize; lia).
    rewrite ak_split. unfold uk, makeUTXOKey.
    pose proof (slice_mid (u_Address u) (u_TxHash u) (be_bytes 4 (u_OutIndex u))) as E1.
    rewrite Hh in E1. rewrite E1.
    pose proof (slice_mid (u_Address u ++ u_TxHash u) (be_bytes 4 (u_OutIndex u)) []) as E2.
    rewrite app_nil_r, length_app, length_be_bytes, Hh, <-app_assoc in E2. rewrite E2.
    by rewrite of_be_4.
  - rewrite bool_decide_true; [done|]. intros E. apply D.
    assert (length address = length (u_Address u)) as El by (unfold txHashSize in E; lia).
    rewrite ak_split in P. symmetry. by apply app_inj_1 in P as [-> _].
Qed.

Lemma wp_loadIndexed address us (Q : list UTXO -> Tx -> Prop) E t :
  tx_full t -> utxo_wf (bk t utxoBucket) (bk t utxoAddrBucket) ->
  Forall (fun u => utxos_of (bk t utxoBucket) !! uk u = Some u /\ HasPrefix (ak u) address = true) us ->
  Q (filter (fun u => u_Address u = address) us) t ->
  wp (loadIndexed address (ak <$> us)) Q E t.
Proof.
  intros F W H. revert Q; induction H as [|u us [Hu Hp] H IH]; intros Q HQ; [done|].
  cbn [fmap list_fmap loadIndexed]. wp_step.
  destruct (utxos_of_ok _ _ _ _ W Hu) as (Ok_u & _ & d & Ed & Ee).
  unfold loadAddressIndexedUTXO. rewrite parse_ak by done. rewrite filter_cons in HQ.
  destruct (decide (u_Address u = address)) as [Ea|Ea].
  - wp_steps. fold (uk u). rewrite Ed. wp_steps. rewrite (decode_encode_UTXO u d) by done.
    apply IH. wp_steps. done.
  - wp_steps. apply IH. wp_steps. done.
Qed.

(** A list of index keys is the list of keys of some outputs. *)
Lemma keys_of_utxos (f : UTXO -> bytes) (P : UTXO -> Prop) (ks : list bytes) :
  (forall k, k ∈ ks -> exists u, P u /\ k = f u) -> exists us, ks = f <$> us /\ Forall P us.
Proof.
  induction ks as [|k ks IH]; intros H; [by exists []|].
  destruct (H k) as (u & Pu & ->); [by left|].
  destruct IH as (us & -> & F); [intros; apply H; by right|].
  exists (u :: us). split; [done|by constructor].
Qed.

Lemma GetUTXOsForAddress_correct n address : ndb_utxo_wf n -> address <> [] ->
  wp (GetUTXOsForAddress address)
    (fun l n' => n' = n /\ NoDup l /\
       forall u, u ∈ l <-> ndb_utxos n !! uk u = Some u /\ u_Address u = address)
    (fun _ _ => False) n.
Proof.
  intros [(t & Hdb & F) W] Ha. unfold ndb_utxos, ndb_bkt in *. rewrite Hdb in *.
  unfold GetUTXOsForAddress. rewrite bool_decide_false by done.
  apply (wp_View _ _ _ _ t); [done|]. unfold b_seek. wp_steps.
  rewrite prefixed_seek by apply Hitems.
  set (ks := (filter _ items).*1).
  assert (forall k, k ∈ ks <-> HasPrefix k address = true /\
    exists u, utxos_of (bk t utxoBucket) !! uk u = Some u /\ k = ak u) as Hks.
  { intros k. unfold ks. rewrite list_elem_of_fmap. split.
    - intros ([k' v] & -> & [P I]%list_elem_of_filter). simpl in *. split; [done|].
      apply (cursor_elem _ _ _ _ Hitems) in I. by apply (uw_addr _ _ W) in I as [_ ?].
    - intros (P & u & Eu & ->). exists (ak u, [Byte.x01]). split; [done|].
      apply list_elem_of_filter. split; [done|]. eapply cursor_elem; [done|].
      apply (uw_addr _ _ W). eauto. }
  assert (NoDup ks) as Nk.
  { eapply sublist_NoDup; [by eapply cursor_NoDup|]. apply fmap_sublist, sublist_filter. }
  destruct (keys_of_utxos ak (fun u => utxos_of (bk t utxoBucket) !! uk u = Some u /\
    HasPrefix (ak u) address = true) ks) as (us & Eks & Hus).
  { intros k (P & u & Eu & ->)%Hks. eauto. }
  rewrite Eks in *. apply wp_loadIndexed; [done..|].
  split_and!; [done|apply NoDup_filter; by eapply NoDup_fmap_1|].
  intros u. rewrite list_elem_of_filter. rewrite Forall_forall in Hus. split.
  - intros [<- Hin]. split; [|done]. by apply Hus.
  - intros [Eu <-]. split; [done|].
    assert (ak u ∈ ak <$> us) as (u' & E & Hin)%list_elem_of_fmap.
    { apply Hks. split; [|eauto]. apply HasPrefix_true. by exists (uk u). }
    destruct (Hus _ Hin) as [Eu' _].
    destruct (utxos_of_ok _ _ _ _ W Eu) as (O & _). destruct (utxos_of_ok _ _ _ _ W Eu') as (O' & _).
    apply ak_inj in E as [_ E]; [|done..]. rewrite E in Eu. congruence.
Qed.

(** *** A block spends outputs, and its disconnection restores them *)

(** What a block at height [h] does for each output it spends. *)
Definition spendUTXO (h : Z) (u : UTXO) : M NameDatabase unit :=
  StoreSpentUTXO (Some u) h;; RemoveUTXO (Some (u_TxHash u)) (u_OutIndex u).

Lemma StoreSpentUTXO_correct {C : BoltCommits B} n u h d :
  ndb_open n -> utxo_ok u -> encodeUTXO u = Ok d ->
  wp (StoreSpentUTXO (Some u) h)
    (fun _ n' => ndb_open n' /\ cache n' = cache n /\ frame spent_buckets n n' /\
       ndb_bkt n' spentUtxoBucket = <[uk u:=d]> (ndb_bkt n spentUtxoBucket) /\
       ndb_bkt n' spentUtxoIdxBucket = <[sk h u:=[Byte.x01]]> (ndb_bkt n spentUtxoIdxBucket))
    (fun _ _ => False) n.
Proof.
  intros (t & Hdb & F) Hu Ed. unfold ndb_bkt. rewrite Hdb.
  destruct (encodeUTXO_ok u Hu) as (d' & Ed' & Vd). assert (d' = d) as -> by congruence.
  apply (wp_Update _ _ _ _ t); [done|]. wp_steps. rewrite Ed. cbv zeta. wp_step.
  apply wp_b_put; [done|by apply key_ok_uk, utxo_outpoint|done|]. intros t1 U1.
  apply wp_b_put; [by eauto using updated_full|by apply key_ok_sk|apply val_ok_one|]. intros t2 U2.
  cbn [set_db db cache].
  split_and!; [|done|solve_frame Hdb spent_buckets|by bk_simpl..].
  exists t2. eauto using updated_full.
Qed.

(** While a block at height [h] has spent [us] of the outputs of [n0] and created [M]. *)
Record spent_state (n0 n : NameDatabase) (h : Z) (us : list UTXO) (M : gmap bytes UTXO) : Prop := {
  ss_wf : ndb_utxo_wf n;
  ss_utxos : forall k, ndb_utxos n !! k =
    if decide (k ∈ uk <$> us) then None else (M ∪ ndb_utxos n0) !! k;
  ss_idx : forall k, ndb_bkt n spentUtxoIdxBucket !! k =
    if decide (k ∈ sk h <$> us) then Some [Byte.x01] else ndb_bkt n0 spentUtxoIdxBucket !! k;
  ss_rec : forall u, u ∈ us -> exists d, encodeUTXO u = Ok d /\ ndb_bkt n spentUtxoBucket !! uk u = Some d;
}.

Lemma elem_of_fmap_snoc (f : UTXO -> bytes) us u k :
  k ∈ f <$> (us ++ [u]) <-> k ∈ f <$> us \/ k = f u.
Proof. rewrite fmap_app, elem_of_app. simpl. by rewrite list_elem_of_singleton. Qed.

Definition utxo_side : list bucket := utxo_buckets ++ spent_buckets.

Lemma wp_spendUTXO {C : BoltCommits B} n0 n h us M u :
  spent_state n0 n h us M -> utxo_ok u -> uk u ∉ uk <$> us ->
  wp (spendUTXO h u) (fun _ n' => spent_state n0 n' h (us ++ [u]) M /\ cache n' = cache n /\
    frame utxo_side n n') (fun _ _ => False) n.
Proof.
  intros [W S1 S2 S3] Hu Hnew. destruct (encodeUTXO_ok u Hu) as (d & Ed & _).
  unfold spendUTXO. rewrite wp_bind.
  eapply wp_mono; [by apply (StoreSpentUTXO_correct n u h d (uwf_open _ W) Hu Ed)| |done].
  intros _ n1 (O1 & C1 & F1 & A1 & A2).
  assert (ndb_utxo_wf n1 /\ ndb_utxos n1 = ndb_utxos n) as [W1 E1].
  { destruct F1 as [_ F1]. unfold ndb_utxos. rewrite F1 by bucket_notin. split; [|done].
    split; [done|]. rewrite !F1 by bucket_notin. apply W. }
  eapply wp_mono; [by apply (RemoveUTXO_correct n1 _ _ W1 (utxo_outpoint u Hu))| |done].
  intros _ n2 (W2 & C2 & [Cl2 F2] & E2). split; [|split; [congruence|]].
  2:{ destruct F1 as [Cl1 F1]. split; [congruence|]. intros b Hb. unfold utxo_side in Hb.
      apply not_elem_of_app in Hb as [? ?]. by rewrite F2, F1. }
  destruct F1 as [_ F1]. split; [done| | |].
  - intros k. rewrite E2, E1, lookup_delete. fold (uk u). rewrite S1.
    destruct (decide (k ∈ uk <$> us ++ [u])) as [K|K]; rewrite elem_of_fmap_snoc in K.
    + case_decide; [done|]. rewrite decide_True; [done|]. destruct K; [done|congruence].
    + rewrite decide_False by (intros E; apply K; by right). by rewrite decide_False by tauto.
  - intros k. rewrite F2, A2, lookup_insert, S2 by bucket_notin.
    destruct (decide (k ∈ sk h <$> us ++ [u])) as [K|K]; rewrite elem_of_fmap_snoc in K.
    + case_decide; [done|]. rewrite decide_True; [done|]. destruct K; [done|congruence].
    + rewrite decide_False by (intros E; apply K; by right). by rewrite decide_False by tauto.
  - intros u' [Hin|Hin]%elem_of_app.
    + rewrite F2, A1 by bucket_notin. rewrite lookup_insert_ne; [by apply S3|].
      intros K. apply Hnew. rewrite K. by apply list_elem_of_fmap_2.
    + apply list_elem_of_singleton in Hin as ->. exists d. split; [done|].
      rewrite F2, A1 by bucket_notin. by rewrite lookup_insert_eq.
Qed.

Lemma wp_spend_all {C : BoltCommits B} n h us :
  ndb_utxo_wf n -> Forall utxo_ok us -> NoDup (uk <$> us) ->
  wp (forM us (spendUTXO h)) (fun _ n' => spent_state n n' h us ∅) (fun _ _ => False) n.
Proof.
  intros W Hus N. apply (wp_forM (fun done n' => spent_state n n' h done ∅)).
  - intros done u rest n' -> S. apply Forall_app in Hus as [_ Hus]. apply Forall_cons in Hus as [Hu _].
    eapply wp_mono; [apply (wp_spendUTXO n n' h done ∅ u S Hu)|by intros [] ? (? & _)|done].
    rewrite fmap_app in N. apply NoDup_app in N as (_ & N & _). intros K.
    apply (N _ K). simpl. by left.
  - split; [done| |intros k; by rewrite decide_False by apply not_elem_of_nil|].
    { intros k. rewrite decide_False by apply not_elem_of_nil. by rewrite (left_id_L ∅ (∪)). }
    by intros u Hu%not_elem_of_nil.
Qed.

Lemma parse_sk h u : utxo_ok u ->
  parseSpentUTXOHeightKey (sk h u) = Some (u_TxHash u, u_OutIndex u).
Proof.
  intros H. destruct (utxo_outpoint u H) as [Hh Hi]. unfold parseSpentUTXOHeightKey.
  rewrite sk_split, length_app, length_be_bytes. unfold uk. rewrite length_uk by done.
  rewrite bool_decide_false by (unfold txHashSize; lia). unfold makeUTXOKey.
  pose proof (slice_mid (be_bytes 4 (uint32 h)) (u_TxHash u) (be_bytes 4 (u_OutIndex u))) as E1.
  rewrite Hh, length_be_bytes in E1. rewrite E1.
  pose proof (slice_mid (be_bytes 4 (uint32 h) ++ u_TxHash u) (be_bytes 4 (u_OutIndex u)) []) as E2.
  rewrite app_nil_r, length_app, !length_be_bytes, Hh, <-app_assoc in E2. rewrite E2.
  by rewrite of_be_4.
Qed.

(** The transaction after the loop restored [done] of the outputs spent at [h]. *)
Record restored (t0 t : Tx) (h : Z) (done : list UTXO) : Prop := {
  rs_full : tx_full t;
  rs_wf : utxo_wf (bk t utxoBucket) (bk t utxoAddrBucket);
  rs_utxos : forall k, (forall u, u ∈ done -> k = uk u -> utxos_of (bk t utxoBucket) !! k = Some u) /\
    (k ∉ uk <$> done -> utxos_of (bk t utxoBucket) !! k = utxos_of (bk t0 utxoBucket) !! k);
  rs_rec : forall k, k ∉ uk <$> done -> bk t spentUtxoBucket !! k = bk t0 spentUtxoBucket !! k;
  rs_idx : forall k, bk t spentUtxoIdxBucket !! k =
    if decide (k ∈ sk h <$> done) then None else bk t0 spentUtxoIdxBucket !! k;
  rs_frame : forall b, b ∉ utxo_side -> bk t b = bk t0 b;
}.

Lemma wp_restore_one t0 t h us u d E :
  restored t0 t h us -> utxo_ok u -> uk u ∉ uk <$> us -> encodeUTXO u = Ok d ->
  utxos_of (bk t0 utxoBucket) !! uk u = None -> bk t0 spentUtxoBucket !! uk u = Some d ->
  wp (restoreSpentUTXOEntry (sk h u) spentUtxoBucket utxoBucket utxoAddrBucket;;
      deleteSpentUTXOBackup (sk h u) spentUtxoBucket spentUtxoIdxBucket
        "failed to delete spent UTXO %s:%d: %w")
    (fun _ t' => restored t0 t' h (us ++ [u])) E t.
Proof.
  intros [F W R1 R2 R3 R4] Hu Hnew Ed Hno Hrec.
  destruct (encodeUTXO_ok u Hu) as (d' & Ed' & Vd). assert (d' = d) as -> by congruence.
  unfold restoreSpentUTXOEntry, deleteSpentUTXOBackup. rewrite parse_sk by done.
  wp_steps. cbv zeta. fold (uk u). wp_steps. rewrite R2, Hrec by done.
  unfold uk at 1. rewrite (decode_encode_UTXO u d) by done. unfold putRestoredUTXO. rewrite Ed.
  fold (ak u). wp_steps.
  apply wp_b_put; [done|by apply key_ok_uk, utxo_outpoint|done|]. intros t1 U1. wp_steps.
  apply wp_b_put; [by eauto using updated_full|by apply key_ok_ak|apply val_ok_one|]. intros t2 U2.
  wp_steps. fold (uk u) (ak u) in *.
  assert (utxos_of (bk t utxoBucket) !! uk u = None) as Hno'.
  { destruct (R1 (uk u)) as [_ K]. by rewrite K. }
  split.
  - eauto using updated_full.
  - bk_simpl. apply utxo_wf_add; [done..|]. intros u'. by rewrite Hno'.
  - intros k. bk_simpl. rewrite utxos_of_insert by done. destruct (R1 k) as [K1 K2]. split.
    + intros u' [Hin|Hin]%elem_of_app ->.
      * rewrite lookup_insert_ne; [by apply K1|]. intros E1. apply Hnew. rewrite E1.
        by apply list_elem_of_fmap_2.
      * apply list_elem_of_singleton in Hin as ->. by rewrite lookup_insert_eq.
    + rewrite elem_of_fmap_snoc. intros K. rewrite lookup_insert_ne; [apply K2; tauto|].
      intros E1. apply K. by right.
  - intros k. rewrite elem_of_fmap_snoc. intros K. bk_simpl. fold (uk u).
    rewrite lookup_delete_ne; [apply R2; tauto|]. intros E1. apply K. by right.
  - intros k. bk_simpl. rewrite lookup_delete, R3.
    destruct (decide (k ∈ sk h <$> us ++ [u])) as [K|K]; rewrite elem_of_fmap_snoc in K.
    + case_decide; [done|]. rewrite decide_True; [done|]. destruct K; [done|congruence].
    + rewrite decide_False by (intros E1; apply K; by right). by rewrite decide_False by tauto.
  - intros b Hb. rewrite <-R4 by done. unfold utxo_side, utxo_buckets, spent_buckets in Hb.
    simpl in Hb. apply not_elem_of_cons in Hb as [? Hb]. apply not_elem_of_cons in Hb as [? Hb].
    apply not_elem_of_cons in Hb as [? Hb]. apply not_elem_of_cons in Hb as [? _]. by bk_simpl.
Qed.

Lemma sk_uk_inj h u u' : sk h u = sk h u' -> uk u = uk u'.
Proof. rewrite !sk_split. by intros ?%(inj (app (be_bytes 4 (uint32 h)))). Qed.

(** The backup index has no entry of height [h]. *)
Definition no_spent_backup (n : NameDatabase) (h : Z) : Prop :=
  forall k, HasPrefix k (be_bytes 4 (uint32 h)) = true -> ndb_bkt n spentUtxoIdxBucket !! k = None.

Lemma RestoreSpentUTXOsForBlock_correct {C : BoltCommits B} n0 n h us :
  ndb_utxo_wf n0 -> spent_state n0 n h us ∅ -> no_spent_backup n0 h ->
  (forall u, u ∈ us -> ndb_utxos n0 !! uk u = Some u) ->
  wp (RestoreSpentUTXOsForBlock h)
    (fun _ n' => ndb_utxo_wf n' /\ cache n' = cache n /\ frame utxo_side n n' /\
       ndb_utxos n' = ndb_utxos n0 /\
       ndb_bkt n' spentUtxoIdxBucket = ndb_bkt n0 spentUtxoIdxBucket)
    (fun _ _ => False) n.
Proof.
  intros W0 [[(t & Hdb & F) W] S1 S2 S3] Nb Hus.
  unfold no_spent_backup, ndb_utxos in *. rewrite (left_id_L ∅ (∪)) in S1.
  assert (forall b, ndb_bkt n b = bk t b) as Eb by (intros b; unfold ndb_bkt; by rewrite Hdb).
  setoid_rewrite Eb in S1. setoid_rewrite Eb in S2. setoid_rewrite Eb in S3. rewrite !Eb in W.
  apply (wp_Update _ _ _ _ t); [done|]. unfold collectSpentUTXOKeysForHeight, b_seek.
  wp_steps. cbv zeta. wp_steps. rewrite prefixed_seek by apply Hitems.
  set (ks := (filter _ items).*1).
  assert (forall k, k ∈ ks <-> k ∈ sk h <$> us) as Hks.
  { intros k. unfold ks. rewrite list_elem_of_fmap. split.
    - intros ([k' v] & -> & [P I]%list_elem_of_filter). simpl in *.
      apply (cursor_elem _ _ _ _ Hitems) in I. rewrite S2, Nb in I by done. by case_decide.
    - intros Hk. exists (k, [Byte.x01]). split; [done|]. apply list_elem_of_filter. split.
      + apply list_elem_of_fmap in Hk as (u & -> & _). apply HasPrefix_app.
      + eapply cursor_elem; [done|]. by rewrite S2, decide_True. }
  assert (NoDup ks) as Nk.
  { eapply sublist_NoDup; [by eapply cursor_NoDup|]. apply fmap_sublist, sublist_filter. }
  destruct (keys_of_utxos (sk h) (fun u => u ∈ us) ks) as (vs & Eks & Hvs).
  { intros k (u & -> & Hu)%Hks%list_elem_of_fmap. eauto. }
  rewrite Eks in *. rewrite forM_fmap. rewrite Forall_forall in Hvs.
  assert (forall k, k ∈ uk <$> vs <-> k ∈ uk <$> us) as Huk.
  { intros k. rewrite !list_elem_of_fmap. split; intros (u & -> & Hu); [by eauto|].
    assert (sk h u ∈ sk h <$> vs) as (v & E & Hv)%list_elem_of_fmap
      by by apply Hks, list_elem_of_fmap_2.
    exists v. split; [by eapply sk_uk_inj|done]. }
  eapply wp_mono; [apply (wp_forM (fun done t' => restored t t' h done) _ _ (fun _ _ => False))| |done].
  - intros done u rest t' -> R.
    assert (u ∈ us) as Hu by (apply Hvs, elem_of_app; right; by left).
    destruct (S3 u Hu) as (d & Ed & Er).
    destruct (utxos_of_ok _ _ _ _ (uwf_set _ W0) (Hus u Hu)) as (Ou & _).
    apply (wp_restore_one t t' h done u d); [done|done| |done| |done].
    + intros (v & E & Hv)%list_elem_of_fmap.
      rewrite fmap_app in Nk. apply NoDup_app in Nk as (_ & Nk & _).
      apply (Nk (sk h v)); [by apply list_elem_of_fmap_2|].
      assert (sk h v = sk h u) as -> by (rewrite !sk_split; by rewrite E). simpl. by left.
    + rewrite S1, decide_True; [done|]. by apply list_elem_of_fmap_2.
  - split; [done|done| |done|intros k; by rewrite decide_False by apply not_elem_of_nil|done].
    intros k. split; [|done]. by intros u Hu%not_elem_of_nil.
  - intros [] t' [F' W' R1 R2 R3 R4].
    assert (frame utxo_side n (set_db (Some t') n)) as Fr.
    { split; [done|]. intros b Hb. rewrite Eb. by apply R4. }
    unfold ndb_bkt at 1 2. cbn [set_db db cache].
    split; [split|split; [done|split; [done|split]]].
    + exists t'. done.
    + done.
    + apply map_eq. intros k. destruct (decide (k ∈ uk <$> vs)) as [K|K].
      * apply list_elem_of_fmap in K as (u & -> & Hu). destruct (R1 (uk u)) as [K1 _].
        rewrite (K1 u), Hus by auto. done.
      * destruct (R1 k) as [_ K2]. rewrite K2 by done. rewrite S1, decide_False; [done|].
        by rewrite <-Huk.
    + apply map_eq. intros k. rewrite R3, S2.
      destruct (decide (k ∈ sk h <$> vs)) as [K|K]; rewrite Hks in K.
      * apply list_elem_of_fmap in K as (u & -> & _). symmetry. apply Nb, HasPrefix_app.
      * by rewrite decide_False.
Qed.

(** Spending outputs in a block and disconnecting the block brings them back. *)
Lemma spend_restore_correct {C : BoltCommits B} n h us :
  ndb_utxo_wf n -> no_spent_backup n h -> NoDup (uk <$> us) ->
  (forall u, u ∈ us -> ndb_utxos n !! uk u = Some u) ->
  wp (forM us (spendUTXO h);; RestoreSpentUTXOsForBlock h)
    (fun _ n' => ndb_utxo_wf n' /\ ndb_utxos n' = ndb_utxos n /\
       ndb_bkt n' spentUtxoIdxBucket = ndb_bkt n spentUtxoIdxBucket)
    (fun _ _ => False) n.
Proof.
  intros W Nb N Hus. rewrite wp_bind. eapply wp_mono; [apply (wp_spend_all n h us W)| |done].
  - apply Forall_forall. intros u Hu. by destruct (utxos_of_ok _ _ _ _ (uwf_set _ W) (Hus u Hu)).
  - done.
  - intros [] n1 Hs.
    eapply wp_mono; [by apply (RestoreSpentUTXOsForBlock_correct n n1 h us W Hs Nb Hus)| |done].
    intros ? n2 (? & _ & _ & ? & ?). done.
Qed.

End spec.
