(* ===== verification/Batch.v ===== *)
(** * Batched writes

    namedb/batch.go: [BatchWriter] collects writes and applies them in one
    transaction.  The order in which Go's [range] visits a map is not specified:
    it is [MapRange], any permutation of the entries.  A record pointer
    passed to the writer is copied, so the pending maps hold values; the caller is
    assumed to pass non-nil records. *)

From S2P Require Import Prelude Bolt Lru Record NameDB NamesSpec ExpirySpec Utxo.

Section batch.
Context {B : Bolt} {R : MapRange}.

(** The pending maps; [nameNews] maps a commitment hash to its height, and
    [deletedUTXOs] lists outpoints. *)
Record BatchWriter := mkBatch {
  names : gmap bytes NameRecord;
  deletedNames : gmap bytes unit;
  history : gmap bytes NameRecord;
  nameNews : gmap bytes Z;
  utxos : list UTXO;
  deletedUTXOs : list (bytes * Z);
  batchSize : Z;
  maxBatchSize : Z;
}.

Definition NewBatchWriter (maxSize : Z) : BatchWriter :=
  {| names := ∅; deletedNames := ∅; history := ∅; nameNews := ∅; utxos := [];
     deletedUTXOs := []; batchSize := 0; maxBatchSize := if maxSize <? 0 then 100 else maxSize |}.

(** The writer and the database it points to. *)
Abbreviation batch_state := (BatchWriter * NameDatabase)%type.

Definition updateExpirationIndex (namesBkt expirationBkt : bucket) (name : bytes) : M Tx unit :=
  existingData ← b_get namesBkt name;
  match existingData with
  | None => mret tt
  | Some d =>
      existingRecord ←
        wrapM "failed to decode existing record for %q during expiration index update"
          (lift (decodeNameRecord d));
      wrapM "delete old expiration index for %s"
        (b_delete expirationBkt (makeExpirationKey (ExpiresAt existingRecord) name))
  end.

Definition writeName (nr : bytes * NameRecord) : M Tx unit :=
  let '(name, record) := nr in
  updateExpirationIndex namesBucket expirationBucket name;;
  wrapM "failed to put name %s" (b_put namesBucket name (encodeNameRecord record));;
  wrapM "failed to update expiration index for %s"
    (b_put expirationBucket (makeExpirationKey (ExpiresAt record) name) [Byte.x01]).

Definition writeNames (bw : BatchWriter) : M Tx unit :=
  if bool_decide (names bw = ∅) then mret tt
  else
    requireBuckets [namesBucket; expirationBucket];;
    forM (range (names bw)) writeName.

Definition removeExpirationIndex (namesBkt expirationBkt : bucket) (name : bytes) : M Tx unit :=
  existingData ← b_get namesBkt name;
  match existingData with
  | None => mret tt
  | Some d =>
      existingRecord ←
        wrapM "failed to decode existing record for %q during expiration index removal"
          (lift (decodeNameRecord d));
      wrapM "delete expiration index for %s"
        (b_delete expirationBkt (makeExpirationKey (ExpiresAt existingRecord) name))
  end.

Definition removeName (e : bytes * unit) : M Tx unit :=
  let name := e.1 in
  removeExpirationIndex namesBucket expirationBucket name;;
  wrapM "failed to delete name %s" (b_delete namesBucket name).

Definition deleteNames (bw : BatchWriter) : M Tx unit :=
  if bool_decide (deletedNames bw = ∅) then mret tt
  else
    requireBuckets [namesBucket; expirationBucket];;
    forM (range (deletedNames bw)) removeName.

Definition writeHistory (bw : BatchWriter) : M Tx unit :=
  if bool_decide (history bw = ∅) then mret tt
  else
    requireBuckets [historyBucket; historyIndexBucket];;
    forM (range (history bw)) (fun '(txHash, record) =>
      wrapM "failed to put history" (b_put historyBucket txHash (encodeNameRecord record));;
      existing ← b_get historyIndexBucket (Name record);
      wrapM "failed to update history index"
        (b_put historyIndexBucket (Name record) (default [] existing ++ txHash))).

Definition writeNameNews (bw : BatchWriter) : M Tx unit :=
  if bool_decide (nameNews bw = ∅) then mret tt
  else
    requireBucket nameNewBucket;;
    forM (range (nameNews bw)) (fun '(commitHash, height) =>
      wrapM "failed to put name_new"
        (b_put nameNewBucket commitHash (le_bytes 4 (uint32 height)))).

Definition addUTXOToAddressIndex (addrBkt : bucket) (utxo : UTXO) : M Tx unit :=
  wrapM "failed to update utxo address index"
    (b_put addrBkt (makeUTXOAddressKey (u_Address utxo) (u_TxHash utxo) (u_OutIndex utxo)) [Byte.x01]).

Definition writeUTXOs (bw : BatchWriter) : M Tx unit :=
  if bool_decide (utxos bw = []) then mret tt
  else
    requireBuckets [utxoBucket; utxoAddrBucket];;
    forM (utxos bw) (fun utxo =>
      data ← wrapM "failed to encode utxo" (lift (encodeUTXO utxo));
      wrapM "failed to put utxo"
        (b_put utxoBucket (makeUTXOKey (u_TxHash utxo) (u_OutIndex utxo)) data);;
      addUTXOToAddressIndex utxoAddrBucket utxo).

Definition removeUTXOFromAddressIndex (utxoBkt addrBkt : bucket) (ukey : bytes * Z) : M Tx unit :=
  data ← b_get utxoBkt (makeUTXOKey ukey.1 ukey.2);
  match data with
  | None => mret tt
  | Some data =>
      utxo ← wrapM "failed to decode UTXO for address index removal"
               (lift (decodeUTXO ukey.1 ukey.2 data));
      wrapM "remove UTXO from address index %s:%d"
        (b_delete addrBkt (makeUTXOAddressKey (u_Address utxo) ukey.1 ukey.2))
  end.

Definition deleteUTXOs (bw : BatchWriter) : M Tx unit :=
  if bool_decide (deletedUTXOs bw = []) then mret tt
  else
    requireBuckets [utxoBucket; utxoAddrBucket];;
    forM (deletedUTXOs bw) (fun ukey =>
      removeUTXOFromAddressIndex utxoBucket utxoAddrBucket ukey;;
      wrapM "failed to delete utxo" (b_delete utxoBucket (makeUTXOKey ukey.1 ukey.2))).

Definition applyWrites (bw : BatchWriter) : M Tx unit :=
  forM [writeNames; deleteNames; writeHistory; writeNameNews; writeUTXOs; deleteUTXOs]
    (fun write => write bw).

(** [updateCache]: [record.Name = name] writes the pending record, which [clear]
    then drops. *)
Definition updateCache (bw : BatchWriter) (c : lruCache bytes NameRecord) : lruCache bytes NameRecord :=
  let c := foldl (fun c '(name, record) => (lru_Put name (set_Name name record) c).2)
             c (range (names bw)) in
  foldl (fun c '(name, _) => (lru_Delete name c).2) c (range (deletedNames bw)).

Definition clear (bw : BatchWriter) : BatchWriter :=
  {| names := ∅; deletedNames := ∅; history := ∅; nameNews := ∅; utxos := [];
     deletedUTXOs := []; batchSize := 0; maxBatchSize := maxBatchSize bw |}.

Definition Commit : M batch_state unit := fun s =>
  let '(bw, n) := s in
  if batchSize bw =? 0 then (Ok tt, s)
  else
    match Update (applyWrites bw) n with
    | (Err e, n') => (Err (EWrap "batch commit failed" e), (bw, n'))
    | (Ok _, n') => (Ok tt, (clear bw, set_cache (updateCache bw (cache n')) n'))
    end.

Definition autoCommitIfNeeded : M batch_state unit :=
  s ← get;
  if (maxBatchSize s.1 >? 0) && (batchSize s.1 >=? maxBatchSize s.1) then Commit else mret tt.

(** An operation: a change of the pending writes, [bw.batchSize++], auto-commit. *)
Definition enqueue (f : BatchWriter -> BatchWriter) : M batch_state unit :=
  modify (fun s => (f s.1, s.2));;
  autoCommitIfNeeded.

Definition PutName (name : bytes) (record : NameRecord) : M batch_state unit :=
  enqueue (fun bw =>
    {| names := <[name:=record]> (names bw); deletedNames := delete name (deletedNames bw);
       history := history bw; nameNews := nameNews bw; utxos := utxos bw;
       deletedUTXOs := deletedUTXOs bw; batchSize := batchSize bw + 1;
       maxBatchSize := maxBatchSize bw |}).

Definition DeleteName (name : bytes) : M batch_state unit :=
  enqueue (fun bw =>
    {| names := delete name (names bw); deletedNames := <[name:=tt]> (deletedNames bw);
       history := history bw; nameNews := nameNews bw; utxos := utxos bw;
       deletedUTXOs := deletedUTXOs bw; batchSize := batchSize bw + 1;
       maxBatchSize := maxBatchSize bw |}).

Definition AddHistory (txHash : bytes) (record : NameRecord) : M batch_state unit :=
  enqueue (fun bw =>
    {| names := names bw; deletedNames := deletedNames bw;
       history := <[txHash:=record]> (history bw); nameNews := nameNews bw; utxos := utxos bw;
       deletedUTXOs := deletedUTXOs bw; batchSize := batchSize bw + 1;
       maxBatchSize := maxBatchSize bw |}).

Definition PutNameNew (commitHash : bytes) (height : Z) : M batch_state unit :=
  enqueue (fun bw =>
    {| names := names bw; deletedNames := deletedNames bw; history := history bw;
       nameNews := <[commitHash:=height]> (nameNews bw); utxos := utxos bw;
       deletedUTXOs := deletedUTXOs bw; batchSize := batchSize bw + 1;
       maxBatchSize := maxBatchSize bw |}).

Definition AddUTXO (utxo : UTXO) : M batch_state unit :=
  enqueue (fun bw =>
    {| names := names bw; deletedNames := deletedNames bw; history := history bw;
       nameNews := nameNews bw; utxos := utxos bw ++ [utxo];
       deletedUTXOs := deletedUTXOs bw; batchSize := batchSize bw + 1;
       maxBatchSize := maxBatchSize bw |}).

Definition RemoveUTXO (txHash : bytes) (outIndex : Z) : M batch_state unit :=
  enqueue (fun bw =>
    {| names := names bw; deletedNames := deletedNames bw; history := history bw;
       nameNews := nameNews bw; utxos := utxos bw;
       deletedUTXOs := deletedUTXOs bw ++ [(txHash, outIndex)]; batchSize := batchSize bw + 1;
       maxBatchSize := maxBatchSize bw |}).

Definition Size (bw : BatchWriter) : Z := batchSize bw.

End batch.
