(* ===== verification/BatchSpec.v ===== *)
(** * A batch is a view of the name database

    namedb/batch.go: the pending writes together with the stored names form one
    map of names, [batch_view].  Queueing a write changes the view as the direct
    operation changes the database, and a commit, whether asked for or automatic,
    leaves the view as it is while the pending writes become empty. *)

From S2P Require Import Prelude Bolt Lru Record NameDB NamesSpec ExpirySpec Utxo Batch.

Section spec.
Context {B : Bolt} {L : BoltLaws B} {R : MapRange}.

(** [m] writes only the buckets [bs], when it returns normally. *)
Definition writes_only {A} (bs : list bucket) (m : M Tx A) : Prop :=
  forall t, tx_full t ->
    wp m (fun _ t' => tx_full t' /\ forall b, b ∉ bs -> bk t' b = bk t b) (fun _ _ => True) t.

Lemma writes_ret {A} bs (a : A) : writes_only bs (mret a).
Proof. intros t F. by rewrite wp_ret. Qed.

Lemma writes_lift {A} bs (r : res A) : writes_only bs (lift r).
Proof. intros t F. rewrite wp_lift. by destruct r. Qed.

Lemma writes_bind {A C} bs (m : M Tx A) (k : A -> M Tx C) :
  writes_only bs m -> (forall a, writes_only bs (k a)) -> writes_only bs (m ≫= k).
Proof.
  intros Hm Hk t F. rewrite wp_bind. eapply wp_mono; [by apply Hm| |done].
  intros a t1 [F1 E1]. eapply wp_mono; [by apply Hk| |done].
  intros _ t2 [F2 E2]. split; [done|]. intros b Hb. by rewrite E2, E1.
Qed.

Lemma writes_wrapM {A} bs msg (m : M Tx A) : writes_only bs m -> writes_only bs (wrapM msg m).
Proof. intros Hm t F. rewrite wp_wrapM. by apply Hm. Qed.

Lemma writes_require bs l : writes_only bs (requireBuckets l).
Proof. intros t F. by apply wp_requireBuckets. Qed.
Lemma writes_require1 bs b : writes_only bs (requireBucket b).
Proof. intros t F. by apply wp_requireBucket. Qed.

Lemma writes_get bs b k : writes_only bs (b_get b k).
Proof. intros t F. by apply wp_b_get. Qed.

Lemma writes_put bs b k v : b ∈ bs -> writes_only bs (b_put b k v).
Proof.
  intros Hb t F. apply wp_b_put_any; [done| |done]. intros t' U.
  split; [by eapply updated_full|]. intros b' Hb'. apply (updated_other _ _ _ _ _ U). by intros ->.
Qed.

Lemma writes_delete bs b k : b ∈ bs -> writes_only bs (b_delete b k).
Proof.
  intros Hb t F. apply wp_b_delete; [done|]. intros t' U.
  split; [by eapply updated_full|]. intros b' Hb'. apply (updated_other _ _ _ _ _ U). by intros ->.
Qed.

Lemma writes_forM {A} bs (l : list A) (f : A -> M Tx unit) :
  (forall x, writes_only bs (f x)) -> writes_only bs (forM l f).
Proof. intros H. induction l; [apply writes_ret|]. cbn [forM]. by apply writes_bind. Qed.

Ltac writes_step :=
  lazymatch goal with
  | |- writes_only _ (mbind _ _) => apply writes_bind; [|intros ?]
  | |- writes_only _ (wrapM _ _) => apply writes_wrapM
  | |- writes_only _ (mret _) => apply writes_ret
  | |- writes_only _ (lift _) => apply writes_lift
  | |- writes_only _ (requireBuckets _) => apply writes_require
  | |- writes_only _ (requireBucket _) => apply writes_require1
  | |- writes_only _ (b_get _ _) => apply writes_get
  | |- writes_only _ (b_put _ _ _) => apply writes_put; set_solver
  | |- writes_only _ (b_delete _ _) => apply writes_delete; set_solver
  | |- writes_only _ (forM _ _) => apply writes_forM; intros ?
  | |- _ => case_match
  end.

Definition other_buckets : list bucket :=
  [historyBucket; historyIndexBucket; nameNewBucket; utxoBucket; utxoAddrBucket].

Lemma writes_others bw :
  writes_only other_buckets (forM [writeHistory; writeNameNews; writeUTXOs; deleteUTXOs]
    (fun write => write bw)).
Proof.
  cbn [forM]. unfold writeHistory, writeNameNews, writeUTXOs, deleteUTXOs,
    addUTXOToAddressIndex, removeUTXOFromAddressIndex, other_buckets.
  repeat writes_step.
Qed.

(** ** The name part of a commit *)

(** The invariant of both loops: the names map is [m'] and nothing else changed. *)
Record names_are (t0 t : Tx) (look : bytes -> option NameRecord) : Prop := {
  na_full : tx_full t;
  na_wf : names_wf (bk t namesBucket) (bk t expirationBucket);
  na_names : forall k, names_of (bk t namesBucket) !! k = look k;
  na_frame : forall b, b ∉ name_buckets -> bk t b = bk t0 b;
}.

Lemma names_are_updated t0 t look b m t' :
  names_are t0 t look -> updated t b m t' -> b ∈ name_buckets ->
  tx_full t' /\ forall b', b' ∉ name_buckets -> bk t' b' = bk t0 b'.
Proof.
  intros [F _ _ Fr] U Hb. split; [by eapply updated_full|]. intros b' Hb'.
  rewrite (updated_other _ _ _ _ _ U); [by apply Fr|]. by intros ->.
Qed.

Lemma wp_writeName t0 t look name r (E : error -> Tx -> Prop) :
  names_are t0 t look -> record_ok r -> (~ name_ok name -> forall e t', E e t') ->
  wp (writeName (name, r))
    (fun _ t' => names_are t0 t' (fun k => if decide (k = name) then Some (set_Name name r) else look k))
    E t.
Proof.
  intros N Hr HE. pose proof N as [F W Nm Fr]. unfold writeName.
  assert (forall Q, (forall t', updated t expirationBucket
      (drop_old (bk t namesBucket) name (bk t expirationBucket)) t' -> Q tt t') ->
    wp (updateExpirationIndex namesBucket expirationBucket name) Q E t) as Hdel.
  { intros Q HQ. unfold updateExpirationIndex. wp_steps. unfold drop_old in HQ.
    destruct (bk t namesBucket !! name) as [d|] eqn:Ed; rewrite names_of_lookup, Ed in HQ; simpl in HQ.
    - destruct (nw_dec _ _ W _ _ Ed) as (r0 & Hr0 & _ & ->). rewrite decoded_encode in HQ by done.
      wp_steps. rewrite decode_encode by done. wp_steps. by apply HQ.
    - wp_steps. apply HQ. by apply updated_refl. }
  rewrite wp_bind. apply Hdel. intros t1 U1. wp_steps.
  destruct (decide (name_ok name)) as [Hn|Hn]; cycle 1.
  { specialize (HE Hn). destruct (decide (key_ok name)) as [Kn|Kn]; cycle 1.
    { apply wp_b_put_bad; [by eauto using updated_full|tauto|done]. }
    apply wp_b_put; [by eauto using updated_full|done|by apply val_ok_encode|]. intros t2 U2. wp_steps.
    apply wp_b_put_bad; [by eauto using updated_full| |done]. rewrite key_ok_exp.
    intros [? _]. apply Hn. unfold name_ok, key_ok in *. lia. }
  apply wp_b_put; [by eauto using updated_full|by apply key_ok_name|by apply val_ok_encode|].
  intros t2 U2. wp_steps.
  apply wp_b_put; [by eauto using updated_full| |apply val_ok_one|].
  { apply key_ok_exp. unfold name_ok in Hn. lia. }
  intros t3 U3. split.
  - eauto using updated_full.
  - bk_simpl. by apply names_wf_put.
  - intros k. bk_simpl. rewrite names_of_insert, lookup_insert by done.
    repeat case_decide; subst; done.
  - intros b Hb. unfold name_buckets in Hb.
    repeat (apply not_elem_of_cons in Hb as [? Hb]). bk_simpl. apply Fr. bucket_notin.
Qed.

Lemma wp_removeName t0 t look name u (E : error -> Tx -> Prop) :
  names_are t0 t look ->
  wp (removeName (name, u))
    (fun _ t' => names_are t0 t' (fun k => if decide (k = name) then None else look k))
    E t.
Proof.
  intros N. pose proof N as [F W Nm Fr]. unfold removeName. cbn [fst].
  assert (forall t1 t2, updated t expirationBucket
      (drop_old (bk t namesBucket) name (bk t expirationBucket)) t1 ->
    updated t1 namesBucket (delete name (bk t1 namesBucket)) t2 ->
    names_are t0 t2 (fun k => if decide (k = name) then None else look k)) as K.
  { intros t1 t2 U1 U2. split.
    - eauto using updated_full.
    - bk_simpl. by apply names_wf_delete.
    - intros k. bk_simpl. rewrite names_of_delete, lookup_delete.
      repeat case_decide; subst; done.
    - intros b Hb. unfold name_buckets in Hb.
      repeat (apply not_elem_of_cons in Hb as [? Hb]). bk_simpl. apply Fr. bucket_notin. }
  unfold removeExpirationIndex, drop_old in *. wp_steps. 
  destruct (bk t namesBucket !! name) as [d|] eqn:Ed; rewrite names_of_lookup, Ed in K; simpl in K.
  - destruct (nw_dec _ _ W _ _ Ed) as (r0 & Hr0 & _ & ->). rewrite decoded_encode in K by done.
    wp_steps. rewrite decode_encode by done. wp_steps. by eapply K.
  - wp_steps. eapply (K t); [by apply updated_refl|done].
Qed.

Lemma names_are_ext t0 t f g : names_are t0 t f -> (forall k, f k = g k) -> names_are t0 t g.
Proof. intros [F W N Fr] E. split; try done. intros k. by rewrite N. Qed.

Lemma range_NoDup {V} (m : gmap bytes V) : NoDup (range m).*1.
Proof. rewrite range_perm. apply NoDup_fst_map_to_list. Qed.

Lemma range_map {V} (m : gmap bytes V) : list_to_map (range m) = m.
Proof.
  rewrite <-(list_to_map_to_list m) at 2. apply list_to_map_proper; [apply range_NoDup|apply range_perm].
Qed.

Lemma range_elem {V} (m : gmap bytes V) k v : (k, v) ∈ range m <-> m !! k = Some v.
Proof. by rewrite range_perm, elem_of_map_to_list. Qed.

(** A lookup after the writes of [m] over [look]. *)
Definition over {V} (f : bytes -> V -> option NameRecord) (m : gmap bytes V)
    (look : bytes -> option NameRecord) (k : bytes) : option NameRecord :=
  match m !! k with Some v => f k v | None => look k end.

Lemma wp_range_loop {V} (t0 t : Tx) (m : gmap bytes V) (f : bytes -> V -> option NameRecord)
    (body : bytes * V -> M Tx unit) (look : bytes -> option NameRecord) (E : error -> Tx -> Prop) :
  (forall k v look (t : Tx), m !! k = Some v -> names_are t0 t look ->
     wp (body (k, v)) (fun _ t' => names_are t0 t' (fun k' => if decide (k' = k) then f k v else look k'))
       E t) ->
  names_are t0 t look ->
  wp (forM (range m) body) (fun _ t' => names_are t0 t' (over f m look)) E t.
Proof.
  intros Hb N.
  eapply wp_mono; [apply (wp_forM (fun l t' => names_are t0 t' (over f (list_to_map l) look))
    body (range m) E)| |done].
  - intros l [k v] rest t1 El N1.
    assert (m !! k = Some v) as Hm.
    { apply range_elem. rewrite El. apply elem_of_app. right. by left. }
    eapply wp_mono; [by apply (Hb k v _ _ Hm N1)| |done]. intros [] t2 N2.
    eapply names_are_ext; [done|]. intros k'. unfold over.
    assert (k ∉ l.*1) as Hk.
    { pose proof (range_NoDup m) as Nd. rewrite El, fmap_app in Nd. simpl in Nd.
      apply NoDup_app in Nd as (_ & Nd & _). intros Hin. apply (Nd _ Hin). by left. }
    rewrite list_to_map_snoc, lookup_insert by done.
    repeat case_decide; subst; done.
  - eapply names_are_ext; [exact N|]. done.
  - intros [] t' N'. by rewrite range_map in N'.
Qed.

(** ** The view *)

Definition batch_look (bw : BatchWriter) (m : gmap bytes NameRecord) (k : bytes) : option NameRecord :=
  over (fun _ _ => None) (deletedNames bw)
    (over (fun k r => Some (set_Name k r)) (names bw) (fun k => m !! k)) k.

Definition batch_view (s : BatchWriter * NameDatabase) : bytes -> option NameRecord :=
  batch_look s.1 (ndb_names s.2).

Record batch_wf (s : BatchWriter * NameDatabase) : Prop := {
  bwf_ndb : ndb_wf s.2;
  bwf_ok : forall k r, names s.1 !! k = Some r -> record_ok r;
  bwf_disj : forall k, is_Some (names s.1 !! k) -> deletedNames s.1 !! k = None;
  bwf_size : 0 <= batchSize s.1;
  bwf_empty : batchSize s.1 = 0 -> names s.1 = ∅ /\ deletedNames s.1 = ∅;
}.

(** Nothing is queued but writes and deletes of names, of names the store can key. *)
Record plain (bw : BatchWriter) : Prop := {
  pl_names : forall k r, names bw !! k = Some r -> name_ok k;
  pl_history : history bw = ∅;
  pl_news : nameNews bw = ∅;
  pl_utxos : utxos bw = [];
  pl_spent : deletedUTXOs bw = [];
}.

Lemma wp_writeNames t0 t bw look (E : error -> Tx -> Prop) : names_are t0 t look ->
  (forall k r, names bw !! k = Some r -> record_ok r) -> (~ plain bw -> forall e t', E e t') ->
  wp (writeNames bw)
    (fun _ t' => names_are t0 t' (over (fun k r => Some (set_Name k r)) (names bw) look))
    E t.
Proof.
  intros N Hok HE. unfold writeNames. case_bool_decide as Em; wp_step.
  - rewrite Em. eapply names_are_ext; [done|]. intros k. unfold over. by rewrite lookup_empty.
  - apply wp_requireBuckets; [apply N|]. apply wp_range_loop; [|done].
    intros k r look' t' Hk N'. eapply wp_writeName; [done|by eauto|].
    intros Hn. apply HE. intros Pl. eapply Hn, pl_names; eauto.
Qed.

Lemma wp_deleteNames t0 t bw look (E : error -> Tx -> Prop) : names_are t0 t look ->
  wp (deleteNames bw) (fun _ t' => names_are t0 t' (over (fun _ _ => None) (deletedNames bw) look))
    E t.
Proof.
  intros N. unfold deleteNames. case_bool_decide as Em; wp_step.
  - rewrite Em. eapply names_are_ext; [done|]. intros k. unfold over. by rewrite lookup_empty.
  - apply wp_requireBuckets; [apply N|]. apply wp_range_loop; [|done].
    intros k r look' t' Hk N'. eapply wp_removeName; eauto.
Qed.

(** The other four, which do nothing to a plain batch. *)
Lemma wp_others bw t Q (E : error -> Tx -> Prop) : tx_full t -> (~ plain bw -> forall e t', E e t') ->
  (forall t', tx_full t' -> (forall b, b ∉ other_buckets -> bk t' b = bk t b) -> Q tt t') ->
  wp (forM [writeHistory; writeNameNews; writeUTXOs; deleteUTXOs] (fun write => write bw)) Q E t.
Proof.
  intros F HE HQ.
  destruct (decide (history bw = ∅ /\ nameNews bw = ∅ /\ utxos bw = [] /\ deletedUTXOs bw = []))
    as [(E1 & E2 & E3 & E4)|Hne].
  - cbn [forM]. unfold writeHistory, writeNameNews, writeUTXOs, deleteUTXOs.
    rewrite E1, E2, E3, E4, !bool_decide_true by done. wp_steps. by apply HQ.
  - eapply wp_mono; [by apply writes_others| |].
    + intros [] t' [F' Fr]. by apply HQ.
    + intros e t' _. apply HE. intros [_ ? ? ? ?]. by apply Hne.
Qed.

Lemma wp_applyWrites t bw (E : error -> Tx -> Prop) : tx_full t -> names_wf (bk t namesBucket) (bk t expirationBucket) ->
  (forall k r, names bw !! k = Some r -> record_ok r) -> (~ plain bw -> forall e t', E e t') ->
  wp (applyWrites bw)
    (fun _ t' => tx_full t' /\ names_wf (bk t' namesBucket) (bk t' expirationBucket) /\
       forall k, names_of (bk t' namesBucket) !! k = batch_look bw (names_of (bk t namesBucket)) k)
    E t.
Proof.
  intros F W Hok HE. unfold applyWrites. cbn [forM].
  rewrite wp_bind. eapply wp_mono; [apply (wp_writeNames t t bw (fun k => names_of (bk t namesBucket) !! k) E)| |done].
  { by split. }
  { done. }
  { done. }
  intros [] t1 N1. rewrite wp_bind. eapply wp_mono; [by apply (wp_deleteNames t t1 bw)| |done].
  intros [] t2 [F2 W2 N2 _]. apply wp_others; [done..|].
  intros t3 F3 Fr3. rewrite !Fr3 by bucket_notin. done.
Qed.

Lemma cache_puts m c l :
  cache_wf m c -> exists m', cache_wf m' (foldl (fun c '(name, record) =>
      (lru_Put name (set_Name name record) c).2) c l) /\
    forall k, m' !! k = foldl (fun o '(name, record) => if decide (k = name) then Some (set_Name name record) else o)
      (m !! k) l.
Proof.
  revert m c; induction l as [|[name r] l IH]; intros m c Hc; simpl; [eauto|].
  destruct (IH (<[name:=set_Name name r]> m) (lru_Put name (set_Name name r) c).2) as (m' & H1 & H2);
    [by apply cache_wf_put|].
  exists m'. split; [done|]. intros k. rewrite H2. f_equal. rewrite lookup_insert.
  repeat case_decide; subst; done.
Qed.

Lemma cache_deletes m c (l : list (bytes * unit)) :
  cache_wf m c -> exists m', cache_wf m' (foldl (fun c '(name, _) => (lru_Delete name c).2) c l) /\
    forall k, m' !! k = if decide (k ∈ l.*1) then None else m !! k.
Proof.
  revert m c; induction l as [|[name []] l IH]; intros m c Hc.
  { exists m. split; [done|]. intros k. by rewrite decide_False by apply not_elem_of_nil. }
  destruct (IH (delete name m) (lru_Delete name c).2) as (m' & H1 & H2); [by apply cache_wf_delete|].
  exists m'. split; [done|]. intros k. rewrite H2, lookup_delete. cbn [fmap list_fmap fst].
  destruct (decide (k ∈ name :: l.*1)) as [K|K]; rewrite elem_of_cons in K.
  - repeat case_decide; try done. destruct K; congruence.
  - repeat case_decide; try done; exfalso; apply K; auto.
Qed.

Lemma foldl_puts (l : list (bytes * NameRecord)) k o : NoDup l.*1 ->
  foldl (fun o '(name, record) => if decide (k = name) then Some (set_Name name record) else o) o l =
  match (list_to_map l : gmap bytes NameRecord) !! k with Some r => Some (set_Name k r) | None => o end.
Proof.
  induction l as [|[name r] l IH] using rev_ind; intros N; [done|].
  rewrite fmap_app in N. apply NoDup_app in N as (N & Nd & _).
  rewrite foldl_app. simpl. rewrite IH by done.
  rewrite list_to_map_snoc by (intros Hin; apply (Nd _ Hin); by left).
  rewrite lookup_insert. repeat case_decide; subst; done.
Qed.

Lemma updateCache_wf bw m c : cache_wf m c -> exists m', cache_wf m' (updateCache bw c) /\
  forall k, m' !! k = batch_look bw m k.
Proof.
  intros Hc. unfold updateCache.
  destruct (cache_puts m c (range (names bw)) Hc) as (m1 & C1 & E1).
  destruct (cache_deletes m1 _ (range (deletedNames bw)) C1) as (m2 & C2 & E2).
  exists m2. split; [done|]. intros k. rewrite E2, E1, foldl_puts, range_map by apply range_NoDup.
  unfold batch_look, over. destruct (deletedNames bw !! k) as [[]|] eqn:Ed.
  - rewrite decide_True; [done|]. apply list_elem_of_fmap. exists (k, tt).
    split; [done|]. by apply range_elem.
  - rewrite decide_False; [done|]. intros ([k' []] & Ek & Hin)%list_elem_of_fmap.
    apply range_elem in Hin. simpl in Ek. congruence.
Qed.

Lemma batch_look_clear bw m k : batch_look (clear bw) m k = m !! k.
Proof. done. Qed.

Lemma Commit_correct {C : BoltCommits B} s : batch_wf s ->
  wp Commit
    (fun _ s' => batch_wf s' /\ (s'.1 = clear s.1 \/ s' = s) /\ batchSize s'.1 = 0 /\
       (forall k, ndb_names s'.2 !! k = batch_view s k))
    (fun _ s' => s' = s /\ ~ plain s.1) s.
Proof.
  destruct s as [bw n]. intros Ws. pose proof Ws as [[(t & Hdb & F) W Cw] Hok Hd Hsz Hem].
  cbn [fst snd] in *. unfold wp, Commit. cbn [fst snd]. destruct (Z.eqb_spec (batchSize bw) 0) as [Ez|Ez].
  { destruct (Hem Ez) as [E1 E2]. split_and!; [done|by right|done|]. intros k.
    unfold batch_view, batch_look, over. cbn [fst snd]. by rewrite E1, E2, !lookup_empty. }
  assert (wp (Update (applyWrites bw)) (fun _ n' => ndb_open n' /\ cache n' = cache n /\
      names_wf (ndb_bkt n' namesBucket) (ndb_bkt n' expirationBucket) /\
      forall k, ndb_names n' !! k = batch_look bw (ndb_names n) k)
      (fun _ n' => n' = n /\ ~ plain bw) n) as U.
  { unfold ndb_names, ndb_bkt in *. rewrite Hdb in *. apply (wp_Update _ _ _ _ t); [done|].
    eapply wp_mono; [by apply (wp_applyWrites t bw (fun _ _ => ~ plain bw))| |by intros e t' ?].
    intros _ t' (F' & W' & N'). cbn [set_db db cache]. split_and!; [|done..]. by exists t'. }
  unfold wp in U. destruct (Update (applyWrites bw) n) as [[[]|e] n']; [|by destruct U as [-> ?]].
  destruct U as (O' & Ec & W' & N'). rewrite Ec.
  destruct (updateCache_wf bw _ _ Cw) as (m' & Cw' & Em).
  assert (ndb_names n' = m') as En by (apply map_eq; intros k; by rewrite N', Em).
  split_and!; [|by left|done|exact N'].
  split; cbn [fst snd]; [|done|done|done|done].
  split; [done|done|]. cbn [set_cache cache]. unfold ndb_names, ndb_bkt in *. cbn [set_cache db].
  by rewrite En.
Qed.

(** A queued write and its possible commit: the view follows the write. *)
Lemma enqueue_correct {C : BoltCommits B} f s (view' : bytes -> option NameRecord) :
  batch_wf (f s.1, s.2) -> batchSize (f s.1) <> 0 -> (forall k, batch_view (f s.1, s.2) k = view' k) ->
  wp (enqueue f)
    (fun _ s' => batch_wf s' /\ (forall k, batch_view s' k = view' k) /\
       (maxBatchSize (f s.1) > 0 -> batchSize s'.1 < maxBatchSize (f s.1)) /\
       (plain (f s.1) -> plain s'.1))
    (fun _ s' => s' = (f s.1, s.2) /\ ~ plain (f s.1)) s.
Proof.
  intros W Hsz Hv. unfold enqueue, autoCommitIfNeeded. rewrite !wp_bind, wp_modify, wp_bind, wp_get.
  cbn [fst]. destruct (Z.gtb_spec (maxBatchSize (f s.1)) 0) as [G|G];
    [destruct (Z.geb_spec (batchSize (f s.1)) (maxBatchSize (f s.1)))|]; simpl.
  - eapply wp_mono; [by apply Commit_correct| |done]. cbn [fst snd].
    intros _ s' (W' & [E|E] & Z & N); [|subst s'; done].
    split_and!; [done| |lia|].
    + intros k. unfold batch_view. rewrite E, batch_look_clear, N. apply Hv.
    + intros _. rewrite E. split; cbn; [|done..]. intros k r. by rewrite lookup_empty.
  - split_and!; [done|done| |done]. simpl. lia.
  - split_and!; [done|done| |done]. simpl. lia.
Qed.

Lemma batch_PutName_correct {C : BoltCommits B} s name r : batch_wf s -> record_ok r ->
  wp (Batch.PutName name r)
    (fun _ s' => batch_wf s' /\
       (forall k, batch_view s' k = if decide (k = name) then Some (set_Name name r) else batch_view s k) /\
       (maxBatchSize s.1 > 0 -> batchSize s'.1 < maxBatchSize s.1) /\
       (plain s.1 -> name_ok name -> plain s'.1))
    (fun _ s' => batchSize s'.1 = batchSize s.1 + 1 /\ s'.2 = s.2 /\ ~ (plain s.1 /\ name_ok name)) s.
Proof.
  intros [W Hok Hd Hsz Hem] Hr. destruct s as [bw n]. cbn [fst snd] in *.
  set (bw' := {| names := <[name:=r]> (names bw); deletedNames := delete name (deletedNames bw);
       history := history bw; nameNews := nameNews bw; utxos := utxos bw;
       deletedUTXOs := deletedUTXOs bw; batchSize := batchSize bw + 1;
       maxBatchSize := maxBatchSize bw |}).
  assert (plain bw -> name_ok name -> plain bw') as Pl.
  { intros [P1 ? ? ? ?] Hn. split; cbn; try done. intros k r'.
    rewrite lookup_insert. case_decide; [by intros; subst|apply P1]. }
  eapply wp_mono; [apply (enqueue_correct _ (bw, n) (fun k => if decide (k = name) then
    Some (set_Name name r) else batch_view (bw, n) k)); cbn [fst snd]| |].
  - split; cbn [fst snd names deletedNames batchSize]; [done| | |lia|lia].
    + intros k r'. rewrite lookup_insert. case_decide; [by intros [= <-]|]. apply Hok.
    + intros k. rewrite lookup_insert, lookup_delete. case_decide; [done|]. apply Hd.
  - cbn [batchSize]. lia.
  - intros k. unfold batch_view, batch_look, over. cbn [fst snd names deletedNames].
    rewrite lookup_insert, lookup_delete. repeat case_decide; subst; done.
  - intros [] s' (? & ? & ? & Q). split_and!; [done..|]. intros ? ?. apply Q. by apply Pl.
  - intros e s' [-> Q]. split_and!; [done..|]. intros [? ?]. apply Q. by apply Pl.
Qed.

Lemma batch_DeleteName_correct {C : BoltCommits B} s name : batch_wf s ->
  wp (Batch.DeleteName name)
    (fun _ s' => batch_wf s' /\
       (forall k, batch_view s' k = if decide (k = name) then None else batch_view s k) /\
       (maxBatchSize s.1 > 0 -> batchSize s'.1 < maxBatchSize s.1) /\
       (plain s.1 -> plain s'.1))
    (fun _ s' => batchSize s'.1 = batchSize s.1 + 1 /\ s'.2 = s.2 /\ ~ plain s.1) s.
Proof.
  intros [W Hok Hd Hsz Hem]. destruct s as [bw n]. cbn [fst snd] in *.
  set (bw' := {| names := delete name (names bw); deletedNames := <[name:=tt]> (deletedNames bw);
       history := history bw; nameNews := nameNews bw; utxos := utxos bw;
       deletedUTXOs := deletedUTXOs bw; batchSize := batchSize bw + 1;
       maxBatchSize := maxBatchSize bw |}).
  assert (plain bw -> plain bw') as Pl.
  { intros [P1 ? ? ? ?]. split; cbn; try done. intros k r' [_ E]%lookup_delete_Some. by eapply P1. }
  eapply wp_mono; [apply (enqueue_correct _ (bw, n) (fun k => if decide (k = name) then
    None else batch_view (bw, n) k)); cbn [fst snd]| |].
  - split; cbn [fst snd names deletedNames batchSize]; [done| | |lia|lia].
    + intros k r' [_ E]%lookup_delete_Some. by apply (Hok k).
    + intros k. rewrite lookup_insert, lookup_delete. case_decide; [by intros []|]. apply Hd.
  - cbn [batchSize]. lia.
  - intros k. unfold batch_view, batch_look, over. cbn [fst snd names deletedNames].
    rewrite lookup_insert, lookup_delete. repeat case_decide; subst; done.
  - intros [] s' (? & ? & ? & Q). split_and!; [done..|]. intros ?. apply Q. by apply Pl.
  - intros e s' [-> Q]. split_and!; [done..|]. intros ?. apply Q. by apply Pl.
Qed.

(** ** A sequence of queued writes and its direct run *)

Inductive batch_op := BatchPut (name : bytes) (r : NameRecord) | BatchDelete (name : bytes).

Definition queue (o : batch_op) : M (BatchWriter * NameDatabase) unit :=
  match o with BatchPut name r => Batch.PutName name r | BatchDelete name => Batch.DeleteName name end.

Definition op_fits (o : batch_op) : Prop :=
  match o with BatchPut name r => record_ok r /\ name_ok name | BatchDelete name => True end.

(** The same write on the map of names. *)
Definition direct (m : gmap bytes NameRecord) (o : batch_op) : gmap bytes NameRecord :=
  match o with BatchPut name r => <[name:=set_Name name r]> m | BatchDelete name => delete name m end.

Lemma queue_correct {C : BoltCommits B} s o m : batch_wf s -> plain s.1 -> op_fits o ->
  (forall k, batch_view s k = m !! k) ->
  wp (queue o) (fun _ s' => batch_wf s' /\ plain s'.1 /\ forall k, batch_view s' k = direct m o !! k)
    (fun _ _ => False) s.
Proof.
  intros W Pl Ho Hv. destruct o as [name r|name]; simpl in *.
  - eapply wp_mono; [apply batch_PutName_correct; tauto| |].
    + intros [] s' (? & Hv' & _ & Q). split_and!; [done|tauto|]. intros k.
      rewrite Hv', lookup_insert, Hv. repeat case_decide; subst; done.
    + intros e s' (_ & _ & []). tauto.
  - eapply wp_mono; [by apply batch_DeleteName_correct| |].
    + intros [] s' (? & Hv' & _ & Q). split_and!; [done|tauto|]. intros k.
      rewrite Hv', lookup_delete, Hv. repeat case_decide; subst; done.
    + intros e s' (_ & _ & []). tauto.
Qed.

Lemma queue_all_commit {C : BoltCommits B} s ops : batch_wf s -> plain s.1 -> Forall op_fits ops ->
  batchSize s.1 = 0 ->
  wp (forM ops queue;; Commit)
    (fun _ s' => batch_wf s' /\ batchSize s'.1 = 0 /\ ndb_names s'.2 = foldl direct (ndb_names s.2) ops)
    (fun _ _ => False) s.
Proof.
  intros W Pl Ho Hz.
  assert (forall k, batch_view s k = ndb_names s.2 !! k) as Hv.
  { intros k. destruct (bwf_empty _ W Hz) as [E1 E2]. unfold batch_view, batch_look, over.
    by rewrite E1, E2, !lookup_empty. }
  clear Hz. revert Hv. generalize (ndb_names s.2) as m. intros m Hv. revert m s W Pl Hv.
  induction Ho as [|o ops Ho _ IH]; intros m s W Pl Hv.
  - cbn [forM foldl]. wp_steps. eapply wp_mono; [by apply Commit_correct| |].
    + intros [] s' (? & _ & ? & N). split_and!; [done..|]. apply map_eq. intros k. by rewrite N, Hv.
    + intros e s' [_ []]. done.
  - cbn [forM foldl]. rewrite !wp_bind. eapply wp_mono; [by apply (queue_correct s o m)| |done].
    intros [] s' (W' & Pl' & Hv'). rewrite <-wp_bind. by apply IH.
Qed.

End spec.
