(* ===== verification/Config.v ===== *)
(** * Protocol constants and the block subsidy

    config/config.go, config/subsidy.go and config/seeds.go, with the fields of
    config/namecoin_params.go the modelled code reads. *)

From S2P Require Import Prelude.

Definition NameExpirationBlocks : Z := 36000.
Definition MinBlocksBeforeFirstUpdate : Z := 12.
Definition MaxBlocksBeforeFirstUpdate : Z := 36000.
Definition MaxNameLength : Z := 255.
Definition MaxValueLength : Z := 520.
Definition DustLimit : Z := 546.
Definition MinNameOperationFee : Z := 1000000.
Definition MinRelayTxFee : Z := 1000.
Definition AuxPowVersionBit : Z := 0x100.
Definition MainNetAuxPowActivationHeight : Z := 19200.
Definition TestNetAuxPowActivationHeight : Z := 19200.
Definition RegTestAuxPowActivationHeight : Z := 999999999.
Definition MaxValueLengthUI : Z := 520.
Definition UTXOTrackingStartHeight : Z := 0.

Definition ValidNamespaces : list bytes := [str "d/"; str "id/"; str "p/"].

(** The network magics, as the [uint32] constants the code writes. *)
Definition MainNetMagic : Z := 0xf9beb4fe.
Definition TestNetMagic : Z := 0xfabfb5fe.
Definition RegTestMagic : Z := 0xfabfb5da.

(** The fields of [chaincfg.Params] the modelled code reads. *)
Record Params := mkParams {
  Net : Z;
  SubsidyReductionInterval : Z;   (* int32 *)
  PowLimit : Z;                   (* *big.Int *)
  PowLimitBits : Z;               (* uint32 *)
}.

Definition NamecoinMainNetParams : Params :=
  {| Net := MainNetMagic; SubsidyReductionInterval := 210000; PowLimit := 2 ^ 224 - 1;
     PowLimitBits := 0x1d00ffff |}.
Definition NamecoinTestNetParams : Params :=
  {| Net := TestNetMagic; SubsidyReductionInterval := 210000; PowLimit := 2 ^ 224 - 1;
     PowLimitBits := 0x1d00ffff |}.
Definition NamecoinRegTestParams : Params :=
  {| Net := RegTestMagic; SubsidyReductionInterval := 150; PowLimit := 2 ^ 255 - 1;
     PowLimitBits := 0x207fffff |}.

(** [Config.ChainParams], on [c.Network]. *)
Definition ChainParams (network : bytes) : Params :=
  if bool_decide (network = str "testnet") then NamecoinTestNetParams
  else if bool_decide (network = str "regtest") then NamecoinRegTestParams
  else NamecoinMainNetParams.

(** ** Seeds and ports *)

Definition MainNetDNSSeeds : list bytes :=
  [str "nmc.seed.quisquis.de"; str "seed.nmc.markasoftware.com"; str "dnsseed1.nmc.dotbit.zone";
   str "dnsseed2.nmc.dotbit.zone"; str "dnsseed.nmc.testls.space"; str "namecoin.seed.cypherstack.com"].
Definition TestNetDNSSeeds : list bytes := [str "dnsseed.test.namecoin.webbtc.com"].
Definition RegTestDNSSeeds : list bytes := [].

Definition DNSSeeds (network : bytes) : list bytes :=
  if bool_decide (network = str "testnet") then TestNetDNSSeeds
  else if bool_decide (network = str "regtest") then RegTestDNSSeeds
  else MainNetDNSSeeds.

Definition MainNetDefaultPort : bytes := str "8334".
Definition TestNetDefaultPort : bytes := str "18334".
Definition RegTestDefaultPort : bytes := str "18445".

Definition DefaultPort (network : bytes) : bytes :=
  if bool_decide (network = str "testnet") then TestNetDefaultPort
  else if bool_decide (network = str "regtest") then RegTestDefaultPort
  else MainNetDefaultPort.

Definition IsValidNamespace (name : bytes) : bool :=
  existsb (fun ns => HasPrefix name ns) ValidNamespaces.

Definition GetAuxPowActivationHeight (p : Params) : Z :=
  if Net p =? MainNetMagic then MainNetAuxPowActivationHeight
  else if Net p =? TestNetMagic then TestNetAuxPowActivationHeight
  else if Net p =? RegTestMagic then RegTestAuxPowActivationHeight
  else MainNetAuxPowActivationHeight.

(** ** Subsidy *)

Definition CoinValue : Z := 100000000.
Definition InitialBlockSubsidy : Z := 50 * CoinValue.
Definition MaxHalvings : Z := 64.

Definition CalcBlockSubsidy (height : Z) (chainParams : Params) : Z :=
  if height <? 0 then 0
  else
    let halvings := height / SubsidyReductionInterval chainParams in
    if halvings >=? MaxHalvings then 0
    else Z.shiftr InitialBlockSubsidy halvings.

(** The subsidies of the blocks below a height. *)
Fixpoint total_subsidy (p : Params) (n : nat) : Z :=
  match n with
  | O => 0
  | S n => total_subsidy p n + CalcBlockSubsidy (Z.of_nat n) p
  end.

Lemma CalcBlockSubsidy_eq h p : 0 <= h -> 0 < SubsidyReductionInterval p ->
  CalcBlockSubsidy h p = InitialBlockSubsidy / 2 ^ (h / SubsidyReductionInterval p).
Proof.
  intros Hh Hp. unfold CalcBlockSubsidy. destruct (Z.ltb_spec h 0); [lia|].
  assert (0 <= h / SubsidyReductionInterval p) by (apply Z.div_pos; lia).
  set (k := h / SubsidyReductionInterval p) in *.
  destruct (Z.geb_spec k MaxHalvings) as [G|G].
  - symmetry. apply Z.div_small. split; [done|].
    apply Z.lt_le_trans with (2 ^ 64); [by vm_compute|]. apply Z.pow_le_mono_r; unfold MaxHalvings in G; lia.
  - by rewrite Z.shiftr_div_pow2.
Qed.

Lemma CalcBlockSubsidy_range h p : 0 < SubsidyReductionInterval p ->
  0 <= CalcBlockSubsidy h p <= InitialBlockSubsidy.
Proof.
  intros Hp. destruct (Z.ltb_spec h 0) as [L|L].
  - unfold CalcBlockSubsidy. destruct (Z.ltb_spec h 0); [|lia]. by vm_compute.
  - rewrite CalcBlockSubsidy_eq by done.
    assert (0 < 2 ^ (h / SubsidyReductionInterval p)) by (apply Z.pow_pos_nonneg; [lia|apply Z.div_pos; lia]).
    split; [apply Z.div_pos; [by vm_compute|lia]|].
    apply Z.div_le_upper_bound; [done|]. assert (0 < InitialBlockSubsidy) by by vm_compute. nia.
Qed.

Lemma CalcBlockSubsidy_mono h h' p : 0 < SubsidyReductionInterval p -> 0 <= h <= h' ->
  CalcBlockSubsidy h' p <= CalcBlockSubsidy h p.
Proof.
  intros Hp H. rewrite !CalcBlockSubsidy_eq by lia.
  apply Z.div_le_compat_l; [by vm_compute|]. split.
  - apply Z.pow_pos_nonneg; [lia|apply Z.div_pos; lia].
  - apply Z.pow_le_mono_r; [lia|]. apply Z.div_le_mono; lia.
Qed.

(** ** The supply: [I] blocks of each subsidy, each half the one before *)

Section supply.
Context (p : Params) (I : nat).
Context (HI : Z.of_nat I = SubsidyReductionInterval p) (Hpos : (0 < I)%nat).

Definition era_subsidy (k : nat) : Z := InitialBlockSubsidy / 2 ^ Z.of_nat k.

Lemma era_CalcBlockSubsidy k i : (i < I)%nat ->
  CalcBlockSubsidy (Z.of_nat (k * I + i)) p = era_subsidy k.
Proof.
  intros Hi. rewrite CalcBlockSubsidy_eq by lia. unfold era_subsidy. do 2 f_equal.
  rewrite <-HI, Nat2Z.inj_add, Nat2Z.inj_mul, Z.div_add_l by lia. rewrite Z.div_small by lia. lia.
Qed.

Fixpoint eras (k : nat) : Z :=
  match k with O => 0 | S k => eras k + Z.of_nat I * era_subsidy k end.

Lemma eras_S k : eras (S k) = eras k + Z.of_nat I * era_subsidy k.
Proof. done. Qed.

Lemma total_era k i : (i <= I)%nat ->
  total_subsidy p (k * I + i) = total_subsidy p (k * I) + Z.of_nat i * era_subsidy k.
Proof.
  induction i as [|i IH]; intros Hi; [rewrite Nat.add_0_r; lia|].
  rewrite Nat.add_succ_r. cbn [total_subsidy]. rewrite IH, era_CalcBlockSubsidy by lia. lia.
Qed.

Lemma total_eras k : total_subsidy p (k * I) = eras k.
Proof.
  induction k as [|k IH]; [done|]. rewrite eras_S.
  replace (S k * I)%nat with (k * I + I)%nat by lia. rewrite total_era, IH by lia. lia.
Qed.

Lemma era_subsidy_zero k : (33 <= k)%nat -> era_subsidy k = 0.
Proof.
  intros Hk. unfold era_subsidy. apply Z.div_small. split; [done|].
  apply Z.lt_le_trans with (2 ^ 33); [by vm_compute|]. apply Z.pow_le_mono_r; lia.
Qed.

Lemma eras_total k : (33 <= k)%nat -> eras k = eras 33.
Proof.
  intros Hk. replace k with (33 + (k - 33))%nat by lia. generalize (k - 33)%nat as m.
  induction m as [|m IH]; [by rewrite Nat.add_0_r|].
  rewrite Nat.add_succ_r, eras_S, IH, era_subsidy_zero by lia. lia.
Qed.

Lemma total_subsidy_mono n m : (n <= m)%nat -> total_subsidy p n <= total_subsidy p m.
Proof.
  induction 1 as [|m H IH]; [done|]. cbn [total_subsidy].
  pose proof (CalcBlockSubsidy_range (Z.of_nat m) p). lia.
Qed.

(** The supply is reached with the last era that still pays and never passed. *)
Lemma supply_bound n :
  total_subsidy p n <= eras 33 /\ ((33 * I <= n)%nat -> total_subsidy p n = eras 33).
Proof.
  assert (forall n, (33 * I <= n)%nat -> total_subsidy p n = eras 33) as E.
  { intros m Hm. assert (m <= m * I)%nat as Hm' by nia.
    assert (33 <= m)%nat by nia.
    pose proof (total_subsidy_mono m (m * I) Hm') as H1. pose proof (total_subsidy_mono (33 * I) m Hm) as H2.
    rewrite total_eras in H1, H2. rewrite (eras_total m) in H1 by done. lia. }
  split; [|apply E]. destruct (Nat.le_gt_cases (33 * I) n) as [L|L]; [by rewrite E|].
  assert (n <= 33 * I)%nat as Hn by lia.
  pose proof (total_subsidy_mono n (33 * I) Hn) as H. rewrite total_eras in H. lia.
Qed.

End supply.
