(* ===== verification/Script.v ===== *)
(** * Name scripts: parsing and building

    chain/name_script.go (the parser) and the script builders of wallet/wallet.go.
    A script is a byte string; an offset is a [nat].  Hash functions, the address
    extraction of btcd and [encoding/json] are parameters: [Hash160] is
    [btcutil.Hash160], [ExtractPkScriptAddrs] the encoded addresses of
    [txscript.ExtractPkScriptAddrs], [json_Unmarshal] whether [json.Unmarshal]
    into an [interface{}] succeeds. *)

From S2P Require Import Prelude Record Config.

Definition opNameNew : Z := 0xd0.
Definition opNameFirstUpdate : Z := 0xd1.
Definition opNameUpdate : Z := 0xd2.
Definition opPushData1 : Z := 0x4c.
Definition opPushData2 : Z := 0x4d.
Definition opPushData4 : Z := 0x4e.
Definition opDrop : Z := 0x75.
Definition op2Drop : Z := 0x6d.
Definition opDup : Z := 0x76.
Definition opHash160 : Z := 0xa9.
Definition opEqualVerify : Z := 0x88.
Definition opCheckSig : Z := 0xac.

(** [script[i]], for an index in range. *)
Definition at_ (script : bytes) (i : nat) : Z := from_option Z_of_byte 0 (script !! i).

Definition in_script (script : bytes) (i : nat) : bool := bool_decide (i < length script)%nat.

(** ** Reading push data *)

(** The length of the data a push opcode announces, and where the data starts. *)
Definition pushDataLength (script : bytes) (offset : nat) (opcode : Z) : res (Z * nat) :=
  if opcode =? 0 then Ok (0, offset)
  else if (opcode >=? 1) && (opcode <=? 0x4b) then Ok (opcode, offset)
  else if opcode =? opPushData1 then
    if negb (in_script script offset) then Err (EMsg "missing length byte for OP_PUSHDATA1")
    else Ok (at_ script offset, offset + 1)%nat
  else if opcode =? opPushData2 then
    if negb (in_script script (offset + 1)) then Err (EMsg "missing length bytes for OP_PUSHDATA2")
    else Ok (Z.lor (at_ script offset) (Z.shiftl (at_ script (offset + 1)) 8), offset + 2)%nat
  else if opcode =? opPushData4 then
    if negb (in_script script (offset + 3)) then Err (EMsg "missing length bytes for OP_PUSHDATA4")
    else
      let lenU32 := Z.lor (Z.lor (Z.lor (at_ script offset)
        (uint32 (Z.shiftl (at_ script (offset + 1)) 8)))
        (uint32 (Z.shiftl (at_ script (offset + 2)) 16)))
        (uint32 (Z.shiftl (at_ script (offset + 3)) 24)) in
      if lenU32 >? 0x7FFFFFFF then Err (EMsg "OP_PUSHDATA4 length %d exceeds maximum")
      else Ok (lenU32, offset + 4)%nat
  else Err (EMsg "unexpected opcode 0x%02x at offset %d").

Definition readPushData (script : bytes) (offset : nat) : res (bytes * nat) :=
  if negb (in_script script offset) then Err (EMsg "offset beyond script length")
  else
    let opcode := at_ script offset in
    '(dataLen, offset) ← pushDataLength script (offset + 1) opcode;
    let dataLen := Z.to_nat dataLen in
    if bool_decide (length script < offset + dataLen)%nat
    then Err (EMsg "data length %d exceeds remaining script")
    else Ok (slice script offset (offset + dataLen), offset + dataLen)%nat.

Definition readPushDataWithError (script : bytes) (offset : nat) (fieldName : string) :
    res (bytes * nat) :=
  wrap_err ("failed to read " +:+ fieldName) (readPushData script offset).

(** ** Parsing a name script *)

(** [if offset >= len(script) || script[offset] != op] *)
Definition expect_op (script : bytes) (offset : nat) (op : Z) (msg : string) : res nat :=
  if negb (in_script script offset) || negb (at_ script offset =? op) then Err (EMsg msg)
  else Ok (offset + 1)%nat.

Definition minP2PKHSize : nat := 25.

Definition validateScriptFormat (script : bytes) (opType : NameOperation) (dataEndOffset : nat) :
    res nat :=
  if negb (in_script script dataEndOffset)
  then Err (EMsg "script ends after name operation data, missing drop opcodes")
  else
    offset ← match opType with
             | NameNew =>
                 expect_op script dataEndOffset op2Drop
                   "NAME_NEW script missing required OP_2DROP (0x6d) at offset %d"
             | NameFirstUpdate =>
                 offset ← expect_op script dataEndOffset op2Drop
                   "NAME_FIRSTUPDATE script missing first OP_2DROP (0x6d) at offset %d";
                 expect_op script offset op2Drop
                   "NAME_FIRSTUPDATE script missing second OP_2DROP (0x6d) at offset %d"
             | NameUpdate =>
                 offset ← expect_op script dataEndOffset op2Drop
                   "NAME_UPDATE script missing required OP_2DROP (0x6d) at offset %d";
                 expect_op script offset opDrop
                   "NAME_UPDATE script missing required OP_DROP (0x75) at offset %d"
             end;
    if bool_decide (length script - offset < minP2PKHSize)%nat
    then Err (EMsg "P2PKH suffix too short: %d bytes (minimum %d bytes required)")
    else Ok offset.

Definition parseNameValue (script : bytes) (startOffset : nat) : res (bytes * bytes * nat) :=
  '(nameBytes, newOffset) ← readPushDataWithError script startOffset "name";
  '(valueBytes, finalOffset) ← readPushDataWithError script newOffset "value";
  mret (nameBytes, valueBytes, finalOffset).

(** The operation, name, value, extra data (the commitment hash or the salt) and
    the offset after the pushed data. *)
Definition parseNameData (script : bytes) : res (NameOperation * bytes * bytes * bytes * nat) :=
  let op := at_ script 0 in
  if op =? opNameNew then
    '(hash, newOffset) ← wrap_err "failed to read hash" (readPushData script 1);
    mret (NameNew, [], [], hash, newOffset)
  else if op =? opNameFirstUpdate then
    '(nameBytes, offset) ← readPushDataWithError script 1 "name";
    '(rand, offset) ← readPushDataWithError script offset "rand";
    '(valueBytes, newOffset) ← readPushDataWithError script offset "value";
    mret (NameFirstUpdate, nameBytes, valueBytes, rand, newOffset)
  else if op =? opNameUpdate then
    '(name, value, dataEndOffset) ← parseNameValue script 1;
    mret (NameUpdate, name, value, [], dataEndOffset)
  else Err (EMsg "not a name operation").

Definition parseNameScriptFull (script : bytes) : res (NameOperation * bytes * bytes * bytes) :=
  if bool_decide (length script < 2)%nat then Err (EMsg "script too short")
  else
    '(opType, name, value, extra, dataEndOffset) ← parseNameData script;
    _ ← wrap_err "invalid script format" (validateScriptFormat script opType dataEndOffset);
    mret (opType, name, value, extra).

Definition parseNameScript (script : bytes) : res (NameOperation * bytes * bytes) :=
  '(op, name, value, _) ← parseNameScriptFull script;
  mret (op, name, value).

(** ** The embedded pay-to-pubkey-hash script *)

Fixpoint skipPushDataFields (script : bytes) (offset count : nat) : res nat :=
  match count with
  | O => Ok offset
  | S count =>
      '(_, newOffset) ← readPushData script offset;
      skipPushDataFields script newOffset count
  end.

(** [if offset < len(script) && script[offset] == op { offset++ }] *)
Definition skip_op (script : bytes) (op : Z) (offset : nat) : nat :=
  if in_script script offset && (at_ script offset =? op) then (offset + 1)%nat else offset.

Definition skipNameNewPrefix (script : bytes) : res nat :=
  '(_, offset) ← readPushData script 1;
  mret (skip_op script op2Drop offset).

(** [for i := 0; i < 2 && offset < len(script) && script[offset] == 0x6d; i++] *)
Fixpoint skip_ops (n : nat) (script : bytes) (op : Z) (offset : nat) : nat :=
  match n with
  | O => offset
  | S n => if in_script script offset && (at_ script offset =? op)
           then skip_ops n script op (offset + 1) else offset
  end.

Definition skipNameFirstUpdatePrefix (script : bytes) : res nat :=
  offset ← skipPushDataFields script 1 3;
  mret (skip_ops 2 script op2Drop offset).

Definition skipNameUpdatePrefix (script : bytes) : res nat :=
  offset ← skipPushDataFields script 1 2;
  mret (skip_op script opDrop (skip_op script op2Drop offset)).

Definition skipNameScriptPrefix (script : bytes) : res nat :=
  let op := at_ script 0 in
  if op =? opNameNew then skipNameNewPrefix script
  else if op =? opNameFirstUpdate then skipNameFirstUpdatePrefix script
  else if op =? opNameUpdate then skipNameUpdatePrefix script
  else Err (EMsg "not a name script").

(** ** unicode/utf8.ValidString *)

Definition cont (lo hi : Z) (b : byte) : bool := (lo <=? Z_of_byte b) && (Z_of_byte b <=? hi).

Fixpoint utf8_ValidString (s : bytes) : bool :=
  match s with
  | [] => true
  | b0 :: s1 =>
      let x := Z_of_byte b0 in
      if x <? 0x80 then utf8_ValidString s1
      else match s1 with
      | b1 :: s2 =>
          if (0xC2 <=? x) && (x <=? 0xDF) then cont 0x80 0xBF b1 && utf8_ValidString s2
          else match s2 with
          | b2 :: s3 =>
              if (0xE0 <=? x) && (x <=? 0xEF) then
                cont (if x =? 0xE0 then 0xA0 else 0x80) (if x =? 0xED then 0x9F else 0xBF) b1 &&
                cont 0x80 0xBF b2 && utf8_ValidString s3
              else match s3 with
              | b3 :: s4 =>
                  (0xF0 <=? x) && (x <=? 0xF4) &&
                  cont (if x =? 0xF0 then 0x90 else 0x80) (if x =? 0xF4 then 0x8F else 0xBF) b1 &&
                  cont 0x80 0xBF b2 && cont 0x80 0xBF b3 && utf8_ValidString s4
              | [] => false
              end
          | [] => false
          end
      | [] => false
      end
  end.

(** ** Name and value formats *)

Definition blen (s : bytes) : Z := Z.of_nat (length s).

Definition validateConsensusNameFormat (name value : bytes) : res unit :=
  if (blen name =? 0) || (blen name >? MaxNameLength) then
    Err (EMsg "invalid name length: %d (max: %d)")
  else if blen value >? MaxValueLength then
    Err (EMsg "value too large: %d bytes (max: %d)")
  else Ok tt.

Section format.
Context (json_Unmarshal : bytes -> bool).

Definition json_namespace (name : bytes) : bool :=
  HasPrefix name (str "d/") || HasPrefix name (str "id/").

Definition validateValueEncoding (name value : bytes) : res unit :=
  if blen value =? 0 then Ok tt
  else if negb (utf8_ValidString value) then Err (EMsg "value must be valid UTF-8")
  else if json_namespace name && negb (json_Unmarshal value)
  then Err (EMsg "value must be valid JSON for %s namespace")
  else Ok tt.

Definition hasContent (name : bytes) : bool :=
  existsb (fun ns => HasPrefix name ns && (blen name >? blen ns)) ValidNamespaces.

Definition validateNameFormat (name value : bytes) : res unit :=
  if (blen name =? 0) || (blen name >? MaxNameLength) then
    Err (EMsg "invalid name length: %d (max: %d)")
  else if negb (IsValidNamespace name) then
    Err (EMsg "invalid namespace: name must start with a valid namespace prefix (d/, id/, p/)")
  else if negb (hasContent name) then
    Err (EMsg "invalid name: must have content after namespace prefix")
  else if blen value >? MaxValueLength then
    Err (EMsg "value too large: %d bytes (max: %d)")
  else validateValueEncoding name value.

End format.

Section script.
Context (Hash160 : bytes -> bytes) (ExtractPkScriptAddrs : bytes -> Params -> res (list bytes)).

Definition computeCommitHash (rand name : bytes) : bytes := Hash160 (rand ++ name).

(** [chainParams] is [None] for a nil pointer. *)
Definition extractAddressFromNameScript (script : bytes) (chainParams : option Params) : bytes :=
  match chainParams with
  | None => []
  | Some p =>
      if bool_decide (length script < 2)%nat then []
      else match skipNameScriptPrefix script with
           | Err _ => []
           | Ok offset =>
               if bool_decide (length script <= offset)%nat then []
               else match ExtractPkScriptAddrs (drop offset script) p with
                    | Ok (a :: _) => a
                    | _ => []
                    end
           end
  end.

(** wallet/wallet.go [ComputeNameNewHash] *)
Definition ComputeNameNewHash (randBytes name : bytes) : bytes := Hash160 (randBytes ++ name).

End script.

(** ** Building name scripts (wallet/wallet.go) *)

Definition validateNameScriptParams (name value pubKeyHash : bytes) : res unit :=
  if (blen name =? 0) || (blen name >? 255) then Err (EMsg "invalid name length: %d")
  else if blen value >? MaxValueLengthUI then Err (EMsg "value too large: %d bytes (max %d)")
  else if negb (blen pubKeyHash =? 20) then Err (EMsg "invalid pubkey hash length: %d")
  else Ok tt.

Definition appendP2PKHScript (script pubKeyHash : bytes) : bytes :=
  script ++ [byte_of_Z opDup; byte_of_Z opHash160] ++ [Byte.x14] ++ pubKeyHash ++
  [byte_of_Z opEqualVerify; byte_of_Z opCheckSig].

Definition pushData (data : bytes) : res bytes :=
  let l := blen data in
  if l =? 0 then Ok [Byte.x00]
  else if l <=? 75 then Ok (byte_of_Z l :: data)
  else if l <=? 255 then Ok ([Byte.x4c; byte_of_Z l] ++ data)
  else if l <=? 65535 then Ok ([Byte.x4d; byte_of_Z l; byte_of_Z (Z.shiftr l 8)] ++ data)
  else if l <=? 0xFFFFFFFF then
    Ok ([Byte.x4e; byte_of_Z l; byte_of_Z (Z.shiftr l 8); byte_of_Z (Z.shiftr l 16);
         byte_of_Z (Z.shiftr l 24)] ++ data)
  else Err (EMsg "data exceeds maximum size: %d bytes").

(** The pushes of [buildNameScript], in order. *)
Fixpoint pushAll (pushes : list (string * bytes)) : res bytes :=
  match pushes with
  | [] => Ok []
  | (label, d) :: pushes =>
      encoded ← wrap_err ("failed to push " +:+ label) (pushData d);
      rest ← pushAll pushes;
      mret (encoded ++ rest)
  end.

Definition buildNameScript (op : Z) (pubKeyHash : bytes) (dropOps : list Z)
    (pushes : list (string * bytes)) : res bytes :=
  pushed ← pushAll pushes;
  mret (appendP2PKHScript ([byte_of_Z op] ++ pushed ++ map byte_of_Z dropOps) pubKeyHash).

Definition BuildNameNewScript (hash pubKeyHash : bytes) : res bytes :=
  if negb (blen hash =? 20) then Err (EMsg "invalid hash length: %d (expected 20)")
  else if negb (blen pubKeyHash =? 20) then Err (EMsg "invalid pubkey hash length: %d")
  else buildNameScript opNameNew pubKeyHash [op2Drop] [("hash"%string, hash)].

Definition BuildNameUpdateScript (name value pubKeyHash : bytes) : res bytes :=
  _ ← validateNameScriptParams name value pubKeyHash;
  buildNameScript opNameUpdate pubKeyHash [op2Drop; opDrop]
    [("name"%string, name); ("value"%string, value)].

(** encoding/hex: [EncodeToString] and [DecodeString]. *)
Definition hex_digit (v : Z) : byte :=
  byte_of_Z (if v <? 10 then 48 + v else 87 + v).

Fixpoint hex_EncodeToString (b : bytes) : bytes :=
  match b with
  | [] => []
  | x :: b => hex_digit (Z_of_byte x / 16) :: hex_digit (Z_of_byte x mod 16) :: hex_EncodeToString b
  end.

Definition hex_value (b : byte) : option Z :=
  let c := Z_of_byte b in
  if (48 <=? c) && (c <=? 57) then Some (c - 48)
  else if (97 <=? c) && (c <=? 102) then Some (c - 87)
  else if (65 <=? c) && (c <=? 70) then Some (c - 55)
  else None.

Fixpoint hex_DecodeString (s : bytes) : res bytes :=
  match s with
  | [] => Ok []
  | [_] => Err (EMsg "encoding/hex")
  | a :: b :: s =>
      match hex_value a, hex_value b with
      | Some x, Some y => rest ← hex_DecodeString s; mret (byte_of_Z (16 * x + y) :: rest)
      | _, _ => Err (EMsg "encoding/hex")
      end
  end.

Definition BuildNameFirstUpdateScript (name randHex value pubKeyHash : bytes) : res bytes :=
  _ ← validateNameScriptParams name value pubKeyHash;
  if blen randHex =? 0 then Err (EMsg "randHex cannot be empty")
  else
    randBytes ← wrap_err "invalid rand hex" (hex_DecodeString randHex);
    buildNameScript opNameFirstUpdate pubKeyHash [op2Drop; op2Drop]
      [("name"%string, name); ("rand"%string, randBytes); ("value"%string, value)].
