(* ===== verification/ScriptSpec.v ===== *)
(** * Name scripts: the parser inverts the builder

    chain/name_script.go and wallet/wallet.go: reading push data never leaves the
    script and inverts [pushData]; the three kinds of scripts the wallet builds
    parse back to what they were built from; the address of a parsed script is taken
    from the suffix the parser validated; the local format rules imply the consensus
    rules. *)

From S2P Require Import Prelude Record Config Script.

(** ** Positions in a script *)

Lemma at_mid pre x post : at_ (pre ++ x :: post) (length pre) = Z_of_byte x.
Proof. unfold at_. by rewrite list_lookup_middle. Qed.

Lemma at_mid' pre x post n : n = length pre -> at_ (pre ++ x :: post) n = Z_of_byte x.
Proof. intros ->. apply at_mid. Qed.

Lemma in_script_true s i : in_script s i = true <-> (i < length s)%nat.
Proof. unfold in_script. apply bool_decide_eq_true. Qed.

Lemma in_script_false s i : in_script s i = false <-> (length s <= i)%nat.
Proof. unfold in_script. rewrite bool_decide_eq_false. lia. Qed.

Lemma at_range s i : 0 <= at_ s i < 256.
Proof. unfold at_. destruct (s !! i) as [b|]; [apply Z_of_byte_range|simpl; lia]. Qed.

(** ** Reading never leaves the script *)

Lemma pushDataLength_bounds s off op n off' :
  pushDataLength s off op = Ok (n, off') -> 0 <= op < 256 ->
  0 <= n /\ (off <= off')%nat.
Proof.
  unfold pushDataLength. intros H Hop.
  pose proof (at_range s off). pose proof (at_range s (off + 1)).
  pose proof (at_range s (off + 2)). pose proof (at_range s (off + 3)).
  repeat match type of H with
  | (if ?c then _ else _) = _ => destruct c eqn:?
  end; try done; apply Ok_inj, pair_equal_spec in H as [<- <-]; (split; [|lia]); try lia.
  - apply Z.lor_nonneg. split; [lia|]. apply Z.shiftl_nonneg. lia.
  - apply Z.lor_nonneg; split; [apply Z.lor_nonneg; split; [apply Z.lor_nonneg; split|]|];
      [lia|apply uint32_range..].
Qed.

Lemma readPushData_ok s off d off' : readPushData s off = Ok (d, off') ->
  (off < off' <= length s)%nat /\ (length d <= off')%nat /\ d = slice s (off' - length d) off'.
Proof.
  unfold readPushData. destruct (in_script s off) eqn:I; [|done]. simpl.
  destruct (pushDataLength s (off + 1) (at_ s off)) as [[n o]|e] eqn:E; [|done].
  cbv [mbind res_bind]. case_bool_decide as Hb; [done|].
  apply pushDataLength_bounds in E as [Hn Ho]; [|apply at_range].
  intros [= <- <-]. rewrite length_slice by lia.
  split_and!; [lia|lia|lia|]. f_equal; lia.
Qed.

(** ** Reading inverts pushing *)

Lemma lor_shift a b k : 0 <= k -> 0 <= a < 2 ^ k -> Z.lor a (Z.shiftl b k) = a + b * 2 ^ k.
Proof.
  intros Hk Ha. rewrite <-Z.add_nocarry_lor; [by rewrite Z.shiftl_mul_pow2|].
  apply Z.bits_inj'. intros i Hi. rewrite Z.land_spec, Z.bits_0. destruct (Z.lt_ge_cases i k).
  - rewrite Z.shiftl_spec_low by done. apply andb_false_r.
  - destruct (Z.eq_dec a 0) as [->|Hne]; [by rewrite Z.bits_0|].
    rewrite (Z.bits_above_log2 a i); [done|lia|].
    apply Z.log2_lt_pow2; [lia|]. apply Z.lt_le_trans with (2 ^ k); [lia|].
    apply Z.pow_le_mono_r; lia.
Qed.

Lemma lor_2 l : 0 <= l < 65536 -> Z.lor (l mod 256) (Z.shiftl ((l / 2 ^ 8) mod 256) 8) = l.
Proof.
  intros H. rewrite lor_shift; [|done|by apply Z.mod_pos_bound].
  change (2 ^ 8) with 256. Z.div_mod_to_equations. lia.
Qed.

Lemma shiftl_uint32 b k : 0 <= b < 256 -> 0 <= k <= 24 -> uint32 (Z.shiftl b k) = b * 2 ^ k.
Proof.
  intros Hb Hk. rewrite Z.shiftl_mul_pow2 by lia. apply uint32_id. unfold is_uint32.
  assert (0 < 2 ^ k <= 2 ^ 24).
  { split; [by apply Z.pow_pos_nonneg; lia|]. apply Z.pow_le_mono_r; lia. }
  change (2 ^ 24) with 16777216 in *. nia.
Qed.

Lemma lor_mul a b k : 0 <= k -> 0 <= a < 2 ^ k -> Z.lor a (b * 2 ^ k) = a + b * 2 ^ k.
Proof. intros Hk Ha. rewrite <-Z.shiftl_mul_pow2 by done. by rewrite lor_shift, Z.shiftl_mul_pow2. Qed.

Lemma lor_4 l : 0 <= l < 2 ^ 32 ->
  Z.lor (Z.lor (Z.lor (l mod 256) (uint32 (Z.shiftl ((l / 2 ^ 8) mod 256) 8)))
    (uint32 (Z.shiftl ((l / 2 ^ 16) mod 256) 16))) (uint32 (Z.shiftl ((l / 2 ^ 24) mod 256) 24)) = l.
Proof.
  intros H. rewrite !shiftl_uint32 by (split; try lia; by apply Z.mod_pos_bound).
  set (a := l mod 256). set (b := (l / 2 ^ 8) mod 256). set (c := (l / 2 ^ 16) mod 256).
  set (d := (l / 2 ^ 24) mod 256).
  assert (0 <= a < 256 /\ 0 <= b < 256 /\ 0 <= c < 256) as (Ha & Hb & Hc)
    by (split_and!; by apply Z.mod_pos_bound).
  rewrite (lor_mul a b 8); [|done|exact Ha].
  rewrite (lor_mul _ c 16); [|done|change (2 ^ 8) with 256; change (2 ^ 16) with 65536; lia].
  rewrite (lor_mul _ d 24); [|done|change (2 ^ 8) with 256; change (2 ^ 16) with 65536;
    change (2 ^ 24) with 16777216; lia].
  unfold a, b, c, d. change (2 ^ 8) with 256. change (2 ^ 16) with 65536.
  change (2 ^ 24) with 16777216. change (2 ^ 32) with 4294967296 in H. Z.div_mod_to_equations. lia.
Qed.

Lemma in_script_app pre mid post i : (i < length pre + length mid)%nat ->
  in_script (pre ++ mid ++ post) i = true.
Proof. intros. apply in_script_true. rewrite !length_app. lia. Qed.

(** The last steps of [readPushData], once the data's place is known. *)
Lemma read_slice pre hd d post off :
  off = (length pre + length hd)%nat ->
  (if bool_decide (length (pre ++ (hd ++ d) ++ post) < off + Z.to_nat (blen d))%nat
   then Err (EMsg "data length %d exceeds remaining script")
   else Ok (slice (pre ++ (hd ++ d) ++ post) off (off + Z.to_nat (blen d)),
            (off + Z.to_nat (blen d))%nat)) = Ok (d, (length pre + length (hd ++ d))%nat).
Proof.
  intros ->. unfold blen. rewrite Nat2Z.id, bool_decide_false by (rewrite !length_app; lia).
  rewrite length_app. do 2 f_equal; [|lia].
  rewrite <-app_assoc, app_assoc, <-length_app. apply slice_mid.
Qed.

Lemma at_app pre mid post i : (i < length mid)%nat -> at_ (pre ++ mid ++ post) (length pre + i) = at_ mid i.
Proof.
  intros. unfold at_. rewrite lookup_app_r by lia.
  replace (length pre + i - length pre)%nat with i by lia. by rewrite lookup_app_l.
Qed.

(** What [pushDataLength] finds after each of the headers [pushData] writes. *)
Definition push_header (l : Z) (hd : bytes) : Prop :=
  (l = 0 /\ hd = [Byte.x00]) \/ (1 <= l <= 75 /\ hd = [byte_of_Z l]) \/
  (1 <= l <= 255 /\ hd = [Byte.x4c; byte_of_Z l]) \/
  (1 <= l <= 65535 /\ hd = [Byte.x4d; byte_of_Z l; byte_of_Z (Z.shiftr l 8)]) \/
  (1 <= l <= 0x7FFFFFFF /\ hd = [Byte.x4e; byte_of_Z l; byte_of_Z (Z.shiftr l 8);
     byte_of_Z (Z.shiftr l 16); byte_of_Z (Z.shiftr l 24)]).

Lemma pushData_header d e : pushData d = Ok e -> blen d <= 0x7FFFFFFF ->
  exists hd, push_header (blen d) hd /\ e = hd ++ d.
Proof.
  unfold pushData, push_header. intros H Hl. assert (0 <= blen d) as H0 by (unfold blen; lia).
  destruct (Z.eqb_spec (blen d) 0) as [E|E].
  { apply Ok_inj in H as <-. exists [Byte.x00]. split; [auto|]. by destruct d. }
  repeat match type of H with
  | (if ?a <=? ?b then _ else _) = _ => destruct (Z.leb_spec a b)
  end; try done; apply Ok_inj in H as <-.
  - eexists [_]. split; [|done]. right; left. split; [lia|done].
  - eexists [_; _]. split; [|done]. right; right; left. split; [lia|done].
  - eexists [_; _; _]. split; [|done]. do 3 right; left. split; [lia|done].
  - eexists [_; _; _; _; _]. split; [|done]. do 4 right. split; [lia|done].
Qed.

Lemma pushDataLength_header pre hd post l : push_header l hd ->
  pushDataLength (pre ++ hd ++ post) (length pre + 1) (at_ (pre ++ hd ++ post) (length pre)) =
  Ok (l, length pre + length hd)%nat.
Proof.
  intros H. replace (length pre) with (length pre + 0)%nat at 2 by lia.
  destruct H as [[-> ->]|[[Hl ->]|[[Hl ->]|[[Hl ->]|[Hl ->]]]]];
    rewrite at_app by (simpl; lia); unfold at_ at 1; cbn [lookup list_lookup from_option]; unfold pushDataLength.
  - done.
  - rewrite Z_of_byte_of_Z, Z.mod_small by lia. destruct (Z.eqb_spec l 0); [lia|].
    destruct (Z.geb_spec l 1); [|lia]. destruct (Z.leb_spec l 0x4b); [|lia]. done.
  - change (Z_of_byte Byte.x4c) with 0x4c. cbn [Z.eqb Pos.eqb Z.geb Z.leb Z.compare Pos.compare Pos.compare_cont andb opPushData1].
    rewrite in_script_app, at_app by (simpl; lia). simpl. unfold at_. simpl.
    rewrite Z_of_byte_of_Z, Z.mod_small by lia. do 2 f_equal. lia.
  - change (Z_of_byte Byte.x4d) with 0x4d. cbn [Z.eqb Pos.eqb Z.geb Z.leb Z.compare Pos.compare Pos.compare_cont andb opPushData1 opPushData2].
    rewrite <-!Nat.add_assoc. rewrite in_script_app, !at_app by (simpl; lia). simpl. unfold at_. simpl.
    rewrite !Z_of_byte_of_Z, Z.shiftr_div_pow2, lor_2 by lia. done.
  - change (Z_of_byte Byte.x4e) with 0x4e. cbn [Z.eqb Pos.eqb Z.geb Z.leb Z.compare Pos.compare Pos.compare_cont andb opPushData1 opPushData2 opPushData4].
    rewrite <-!Nat.add_assoc. rewrite in_script_app, !at_app by (simpl; lia). simpl. unfold at_. simpl.
    rewrite !Z_of_byte_of_Z, !Z.shiftr_div_pow2, lor_4 by (change (2 ^ 32) with 4294967296; lia).
    destruct (Z.gtb_spec l 2147483647); [lia|done].
Qed.

Lemma readPushData_pushData pre d e post :
  pushData d = Ok e -> blen d <= 0x7FFFFFFF ->
  readPushData (pre ++ e ++ post) (length pre) = Ok (d, length pre + length e)%nat.
Proof.
  intros H Hl. destruct (pushData_header d e H Hl) as (hd & Hh & ->).
  unfold readPushData. 
  assert (0 < length hd)%nat as Hp.
  { destruct Hh as [[_ ->]|[[_ ->]|[[_ ->]|[[_ ->]|[_ ->]]]]]; simpl; lia. }
  assert (in_script (pre ++ (hd ++ d) ++ post) (length pre) = true) as ->.
  { apply in_script_true. rewrite !length_app. lia. }
  cbn [negb]. rewrite <-(app_assoc hd), (pushDataLength_header _ _ _ _ Hh).
  cbv [mbind res_bind]. rewrite (app_assoc hd). by apply read_slice.
Qed.

(** ** The parser inverts the builders *)

Definition p2pkh (pubKeyHash : bytes) : bytes :=
  [byte_of_Z opDup; byte_of_Z opHash160] ++ [Byte.x14] ++ pubKeyHash ++
  [byte_of_Z opEqualVerify; byte_of_Z opCheckSig].

Lemma appendP2PKHScript_eq s h : appendP2PKHScript s h = s ++ p2pkh h.
Proof. done. Qed.

Lemma length_p2pkh h : blen h = 20 -> length (p2pkh h) = 25%nat.
Proof. unfold blen, p2pkh. intros. rewrite !length_app. simpl. lia. Qed.

Lemma read_at s pre d e post n : s = pre ++ e ++ post -> n = length pre -> pushData d = Ok e ->
  blen d <= 0x7FFFFFFF -> readPushData s n = Ok (d, n + length e)%nat.
Proof. intros -> -> He Hl. by apply readPushData_pushData. Qed.

Lemma expect_op_at s pre x post n op msg : s = pre ++ x :: post -> n = length pre ->
  Z_of_byte x = op -> expect_op s n op msg = Ok (n + 1)%nat.
Proof.
  intros -> -> <-. unfold expect_op. rewrite at_mid, Z.eqb_refl.
  replace (in_script _ _) with true; [done|]. symmetry. apply in_script_true.
  rewrite length_app. simpl. lia.
Qed.

Lemma skip_op_at s pre x post n op : s = pre ++ x :: post -> n = length pre ->
  Z_of_byte x = op -> skip_op s op n = (n + 1)%nat.
Proof.
  intros -> -> <-. unfold skip_op. rewrite at_mid, Z.eqb_refl.
  replace (in_script _ _) with true; [done|]. symmetry. apply in_script_true.
  rewrite length_app. simpl. lia.
Qed.

(** The validator on data followed by drop opcodes and the suffix. *)
Definition drops_of (op : NameOperation) : list byte :=
  match op with
  | NameNew => [Byte.x6d]
  | NameFirstUpdate => [Byte.x6d; Byte.x6d]
  | NameUpdate => [Byte.x6d; Byte.x75]
  end.

Lemma validateScriptFormat_at pre op h n : n = length pre -> blen h = 20 ->
  validateScriptFormat (pre ++ drops_of op ++ p2pkh h) op n = Ok (n + length (drops_of op))%nat.
Proof.
  intros -> Hh. unfold validateScriptFormat.
  assert (in_script (pre ++ drops_of op ++ p2pkh h) (length pre) = true) as ->.
  { apply in_script_true. rewrite !length_app, length_p2pkh by done. lia. }
  cbn [negb].
  assert (forall o, o = (length pre + length (drops_of op))%nat ->
    (if bool_decide (length (pre ++ drops_of op ++ p2pkh h) - o < minP2PKHSize)%nat
     then Err (EMsg "P2PKH suffix too short: %d bytes (minimum %d bytes required)")
     else Ok o) = Ok (length pre + length (drops_of op))%nat) as K.
  { intros o ->. rewrite bool_decide_false; [done|].
    rewrite !length_app, length_p2pkh by done. unfold minP2PKHSize. lia. }
  destruct op; cbn [drops_of app length] in *.
  - rewrite (expect_op_at _ pre Byte.x6d (p2pkh h)) by done. by apply K.
  - rewrite (expect_op_at _ pre Byte.x6d (Byte.x6d :: p2pkh h)) by done. cbv [mbind res_bind].
    rewrite (expect_op_at _ (pre ++ [Byte.x6d]) Byte.x6d (p2pkh h))
      by (done || rewrite <-?app_assoc, ?length_app; done). apply K. lia.
  - rewrite (expect_op_at _ pre Byte.x6d (Byte.x75 :: p2pkh h)) by done. cbv [mbind res_bind].
    rewrite (expect_op_at _ (pre ++ [Byte.x6d]) Byte.x75 (p2pkh h))
      by (done || rewrite <-?app_assoc, ?length_app; done). apply K. lia.
Qed.

Lemma pushData_len d e : pushData d = Ok e -> (1 <= length e)%nat.
Proof.
  unfold pushData. intros H. repeat (case_match; [apply Ok_inj in H as <-; simpl; lia|]). done.
Qed.

Lemma pushAll_ok l s : pushAll l = Ok s ->
  exists es, Forall2 (fun p e => pushData p.2 = Ok e) l es /\ s = concat es.
Proof.
  revert s; induction l as [|[lab d] l IH]; intros s H; simpl in H.
  - apply Ok_inj in H as <-. by exists [].
  - destruct (pushData d) as [e|] eqn:Ed; [|done]. simpl in H.
    destruct (pushAll l) as [r|]; [|done]. apply Ok_inj in H as <-.
    destruct (IH r eq_refl) as (es & F & ->). exists (e :: es). split; [by constructor|done].
Qed.

(** Whatever the operation: the script is the opcode, the pushed data, the drop
    opcodes and the suffix, and the parser finds the end of the data. *)
Lemma parseNameScriptFull_built op data name value extra h n s :
  parseNameData s = Ok (op, name, value, extra, n) ->
  s = data ++ drops_of op ++ p2pkh h -> n = length data -> blen h = 20 ->
  parseNameScriptFull s = Ok (op, name, value, extra).
Proof.
  intros Hp Hs Hn Hh. unfold parseNameScriptFull.
  assert (25 <= length s)%nat by (rewrite Hs, !length_app, length_p2pkh by done; lia).
  rewrite bool_decide_false by lia. rewrite Hp. cbv [mbind res_bind].
  rewrite Hs at 1. by rewrite validateScriptFormat_at.
Qed.

Lemma BuildNameNewScript_parse hash h s : BuildNameNewScript hash h = Ok s ->
  parseNameScriptFull s = Ok (NameNew, [], [], hash) /\
  exists off, skipNameScriptPrefix s = Ok off /\ drop off s = p2pkh h.
Proof.
  unfold BuildNameNewScript. destruct (Z.eqb_spec (blen hash) 20) as [Hl|]; [|done].
  destruct (Z.eqb_spec (blen h) 20) as [Hh|]; [|done]. cbn [negb]. unfold buildNameScript.
  destruct (pushAll _) as [p|] eqn:Hp; [|done]. cbv [mbind res_bind].
  apply pushAll_ok in Hp as (es & F & ->). inversion F as [|? e ? ? He F']; subst. inversion F'; subst.
  simpl in He. cbn [concat]. rewrite app_nil_r, appendP2PKHScript_eq. intros <-%Ok_inj.
  set (s := ([byte_of_Z opNameNew] ++ e ++ map byte_of_Z [op2Drop]) ++ p2pkh h).
  assert (s = ([byte_of_Z opNameNew] ++ e) ++ drops_of NameNew ++ p2pkh h) as Es
    by (unfold s; rewrite <-!app_assoc; done).
  assert (at_ s 0 = opNameNew) as E0 by done.
  assert (readPushData s 1 = Ok (hash, 1 + length e)%nat) as R.
  { eapply (read_at s [byte_of_Z opNameNew]); [|done|done|lia].
    unfold s. by rewrite <-!app_assoc. }
  split.
  - eapply parseNameScriptFull_built with (n := (1 + length e)%nat); [|exact Es|done|done].
    unfold parseNameData. rewrite E0. cbn [Z.eqb Pos.eqb opNameNew]. by rewrite R.
  - exists (1 + length e + 1)%nat. split.
    + unfold skipNameScriptPrefix. rewrite E0. cbn [Z.eqb Pos.eqb opNameNew].
      unfold skipNameNewPrefix. rewrite R. cbv [mbind res_bind mret res_ret].
      f_equal. by apply (skip_op_at s ([byte_of_Z opNameNew] ++ e) Byte.x6d (p2pkh h)).
    + rewrite Es, (app_assoc _ (drops_of NameNew)).
      rewrite drop_app_length' by (rewrite !length_app; simpl; lia). done.
Qed.

Lemma BuildNameUpdateScript_parse name value h s : BuildNameUpdateScript name value h = Ok s ->
  parseNameScriptFull s = Ok (NameUpdate, name, value, []) /\
  exists off, skipNameScriptPrefix s = Ok off /\ drop off s = p2pkh h.
Proof.
  unfold BuildNameUpdateScript, validateNameScriptParams.
  destruct ((blen name =? 0) || (blen name >? 255)) eqn:Hn; [done|].
  destruct (Z.gtb_spec (blen value) MaxValueLengthUI) as [|Hv]; [done|].
  destruct (Z.eqb_spec (blen h) 20) as [Hh|]; [|done]. cbn [negb]. cbv [mbind res_bind].
  unfold buildNameScript. destruct (pushAll _) as [p|] eqn:Hp; [|done]. cbv [mbind res_bind].
  apply pushAll_ok in Hp as (es & F & ->).
  inversion F as [|? e1 ? ? H1 F']; subst. inversion F' as [|? e2 ? ? H2 F'']; subst.
  inversion F''; subst. simpl in H1, H2. cbn [concat].
  rewrite app_nil_r, appendP2PKHScript_eq. intros <-%Ok_inj.
  apply orb_false_iff in Hn as [_ Hn]. unfold MaxValueLengthUI in Hv.
  assert (blen name <= 255) by (destruct (Z.gtb_spec (blen name) 255); [done|lia]).
  set (s := ([byte_of_Z opNameUpdate] ++ (e1 ++ e2) ++ map byte_of_Z [op2Drop; opDrop]) ++ p2pkh h).
  assert (s = ([byte_of_Z opNameUpdate] ++ e1 ++ e2) ++ drops_of NameUpdate ++ p2pkh h) as Es
    by (unfold s; rewrite <-!app_assoc; done).
  assert (at_ s 0 = opNameUpdate) as E0 by done.
  assert (readPushData s 1 = Ok (name, 1 + length e1)%nat) as R1.
  { eapply (read_at s [byte_of_Z opNameUpdate]); [|done|done|lia].
    unfold s. by rewrite <-!app_assoc. }
  assert (readPushData s (1 + length e1) = Ok (value, 1 + length e1 + length e2)%nat) as R2.
  { eapply (read_at s ([byte_of_Z opNameUpdate] ++ e1)); [|done|done|lia].
    unfold s. by rewrite <-!app_assoc. }
  split.
  - eapply parseNameScriptFull_built with (n := (1 + length e1 + length e2)%nat); [|exact Es| |done].
    + unfold parseNameData. rewrite E0. cbn [Z.eqb Pos.eqb opNameNew opNameFirstUpdate opNameUpdate].
      unfold parseNameValue, readPushDataWithError. rewrite R1. cbn [wrap_err].
      cbv [mbind res_bind]. by rewrite R2.
    + simpl. rewrite length_app. lia.
  - exists (1 + length e1 + length e2 + 1 + 1)%nat. split.
    + unfold skipNameScriptPrefix. rewrite E0. cbn [Z.eqb Pos.eqb opNameNew opNameFirstUpdate opNameUpdate].
      unfold skipNameUpdatePrefix. cbn [skipPushDataFields]. rewrite R1. cbv [mbind res_bind].
      rewrite R2. cbv [mret res_ret]. f_equal.
      rewrite (skip_op_at s ([byte_of_Z opNameUpdate] ++ e1 ++ e2) Byte.x6d (Byte.x75 :: p2pkh h) _ op2Drop); [|exact Es| |done].
      * apply (skip_op_at s ([byte_of_Z opNameUpdate] ++ e1 ++ e2 ++ [Byte.x6d]) Byte.x75 (p2pkh h)); [|simpl|done].
        -- rewrite Es, <-!app_assoc. done.
        -- rewrite !length_app. simpl. lia.
      * simpl. rewrite length_app. lia.
    + rewrite Es, (app_assoc _ (drops_of NameUpdate)).
      rewrite drop_app_length' by (rewrite !length_app; simpl; lia). done.
Qed.

Lemma BuildNameFirstUpdateScript_parse name randHex value h s rand :
  BuildNameFirstUpdateScript name randHex value h = Ok s ->
  hex_DecodeString randHex = Ok rand -> blen rand <= 0x7FFFFFFF ->
  parseNameScriptFull s = Ok (NameFirstUpdate, name, value, rand) /\
  exists off, skipNameScriptPrefix s = Ok off /\ drop off s = p2pkh h.
Proof.
  unfold BuildNameFirstUpdateScript, validateNameScriptParams. intros H Hx Hr. revert H.
  destruct ((blen name =? 0) || (blen name >? 255)) eqn:Hn; [done|].
  destruct (Z.gtb_spec (blen value) MaxValueLengthUI) as [|Hv]; [done|].
  destruct (Z.eqb_spec (blen h) 20) as [Hh|]; [|done]. cbn [negb]. cbv [mbind res_bind].
  destruct (blen randHex =? 0); [done|]. rewrite Hx. cbn [wrap_err].
  unfold buildNameScript. destruct (pushAll _) as [p|] eqn:Hp; [|done]. cbv [mbind res_bind].
  apply pushAll_ok in Hp as (es & F & ->).
  inversion F as [|? e1 ? ? H1 F']; subst. inversion F' as [|? e2 ? ? H2 F'']; subst.
  inversion F'' as [|? e3 ? ? H3 F3]; subst. inversion F3; subst. simpl in H1, H2, H3. cbn [concat].
  rewrite app_nil_r, appendP2PKHScript_eq. intros <-%Ok_inj.
  apply orb_false_iff in Hn as [_ Hn]. unfold MaxValueLengthUI in Hv.
  assert (blen name <= 255) by (destruct (Z.gtb_spec (blen name) 255); [done|lia]).
  set (o := byte_of_Z opNameFirstUpdate).
  set (s := ([o] ++ (e1 ++ e2 ++ e3) ++ map byte_of_Z [op2Drop; op2Drop]) ++ p2pkh h).
  assert (s = ([o] ++ e1 ++ e2 ++ e3) ++ drops_of NameFirstUpdate ++ p2pkh h) as Es
    by (unfold s; rewrite <-!app_assoc; done).
  assert (at_ s 0 = opNameFirstUpdate) as E0 by done.
  assert (readPushData s 1 = Ok (name, 1 + length e1)%nat) as R1.
  { eapply (read_at s [o]); [|done|done|lia]. unfold s. by rewrite <-!app_assoc. }
  assert (readPushData s (1 + length e1) = Ok (rand, 1 + length e1 + length e2)%nat) as R2.
  { eapply (read_at s ([o] ++ e1)); [|done|done|lia]. unfold s. by rewrite <-!app_assoc. }
  assert (readPushData s (1 + length e1 + length e2) =
    Ok (value, 1 + length e1 + length e2 + length e3)%nat) as R3.
  { eapply (read_at s ([o] ++ e1 ++ e2)); [| |done|lia]; [unfold s; by rewrite <-!app_assoc|].
    simpl. rewrite length_app. lia. }
  split.
  - eapply parseNameScriptFull_built with (n := (1 + length e1 + length e2 + length e3)%nat);
      [|exact Es| |done].
    + unfold parseNameData. rewrite E0. cbn [Z.eqb Pos.eqb opNameNew opNameFirstUpdate].
      unfold readPushDataWithError. rewrite R1. cbn [wrap_err]. cbv [mbind res_bind].
      rewrite R2. cbn [wrap_err]. by rewrite R3.
    + simpl. rewrite !length_app. lia.
  - exists (1 + length e1 + length e2 + length e3 + 1 + 1)%nat. split.
    + unfold skipNameScriptPrefix. rewrite E0. cbn [Z.eqb Pos.eqb opNameNew opNameFirstUpdate].
      unfold skipNameFirstUpdatePrefix. cbn [skipPushDataFields]. rewrite R1. cbv [mbind res_bind].
      rewrite R2, R3. cbv [mret res_ret]. f_equal.
      assert (forall k, skip_ops 1 s op2Drop k = skip_op s op2Drop k) as K1 by done.
      change (skip_ops 2 s op2Drop (1 + length e1 + length e2 + length e3)) with
        (if in_script s (1 + length e1 + length e2 + length e3) &&
            (at_ s (1 + length e1 + length e2 + length e3) =? op2Drop)
         then skip_ops 1 s op2Drop (1 + length e1 + length e2 + length e3 + 1)
         else (1 + length e1 + length e2 + length e3)%nat).
      assert ((1 + length e1 + length e2 + length e3)%nat = length ([o] ++ e1 ++ e2 ++ e3)) as El
        by (simpl; rewrite !length_app; lia).
      pose proof (at_mid ([o] ++ e1 ++ e2 ++ e3) Byte.x6d (Byte.x6d :: p2pkh h)) as A.
      rewrite <-El in A. change (([o] ++ e1 ++ e2 ++ e3) ++ Byte.x6d :: Byte.x6d :: p2pkh h)
        with (([o] ++ e1 ++ e2 ++ e3) ++ drops_of NameFirstUpdate ++ p2pkh h) in A.
      rewrite <-Es in A. rewrite A.
      assert (in_script s (1 + length e1 + length e2 + length e3) = true) as ->.
      { apply in_script_true. rewrite Es, El, (length_app ([o] ++ e1 ++ e2 ++ e3)). cbn [drops_of app length]. lia. }
      cbn [andb]. change (Z_of_byte Byte.x6d =? op2Drop) with true. cbv iota. rewrite K1.
      apply (skip_op_at s ([o] ++ e1 ++ e2 ++ e3 ++ [Byte.x6d]) Byte.x6d (p2pkh h)); [|simpl|done].
      * rewrite Es, <-!app_assoc. done.
      * rewrite !length_app. simpl. lia.
    + rewrite Es, (app_assoc _ (drops_of NameFirstUpdate)).
      rewrite drop_app_length' by (rewrite !length_app; simpl; lia). done.
Qed.

(** ** The address comes from the suffix the parser checked *)

Lemma expect_op_skip s n op msg m : expect_op s n op msg = Ok m -> skip_op s op n = m /\ (n < m)%nat.
Proof.
  unfold expect_op, skip_op. destruct (in_script s n), (at_ s n =? op); simpl; try done.
  intros [= <-]. split; [done|lia].
Qed.

Lemma wrap_err_ok {A} msg (r : res A) a : wrap_err msg r = Ok a -> r = Ok a.
Proof. by destruct r; simpl; intros [= ->]. Qed.

(** The offset after the drop opcodes, as the three skippers compute it. *)
Definition skip_drops (op : NameOperation) (s : bytes) (n : nat) : nat :=
  match op with
  | NameNew => skip_op s op2Drop n
  | NameFirstUpdate => skip_ops 2 s op2Drop n
  | NameUpdate => skip_op s opDrop (skip_op s op2Drop n)
  end.

Lemma validateScriptFormat_skip s op n off : validateScriptFormat s op n = Ok off ->
  skip_drops op s n = off /\ (off + minP2PKHSize <= length s)%nat.
Proof.
  unfold validateScriptFormat. destruct (in_script s n); [|done]. cbn [negb].
  intros Hv.
  match type of Hv with (?m ≫= _) = _ => destruct m as [o|] eqn:Ho end; [|done].
  cbv [mbind res_bind] in Hv. case_bool_decide as Hl; [done|]. apply Ok_inj in Hv as ->.
  split; [|unfold minP2PKHSize in *; lia].
  destruct op; cbv [mbind res_bind] in Ho; unfold skip_drops.
  - by apply expect_op_skip in Ho as [? _].
  - destruct (expect_op s n op2Drop _) as [o|] eqn:E1; [|done].
    apply expect_op_skip in E1 as [E1 _]. apply expect_op_skip in Ho as [E2 L].
    cbn [skip_ops]. unfold skip_op in *.
    destruct (in_script s n && (at_ s n =? op2Drop)) eqn:B1.
    + rewrite E1. done.
    + subst o. rewrite B1 in E2. lia.
  - destruct (expect_op s n op2Drop _) as [o|] eqn:E1; [|done].
    apply expect_op_skip in E1 as [-> _]. by apply expect_op_skip in Ho as [-> _].
Qed.

(** The pushes the parser reads are the ones the skippers skip. *)
Lemma parseNameData_skip s op name value extra n : parseNameData s = Ok (op, name, value, extra, n) ->
  skipNameScriptPrefix s = Ok (skip_drops op s n).
Proof.
  unfold parseNameData, skipNameScriptPrefix, parseNameValue, readPushDataWithError,
    skipNameNewPrefix, skipNameFirstUpdatePrefix, skipNameUpdatePrefix.
  cbn [skipPushDataFields]. cbv [mbind res_bind].
  destruct (at_ s 0 =? opNameNew).
  { destruct (readPushData s 1) as [[d m]|]; simpl; [|done]. by intros [= <- <- <- <- <-]. }
  destruct (at_ s 0 =? opNameFirstUpdate).
  { destruct (readPushData s 1) as [[d1 m1]|]; simpl; [|done].
    destruct (readPushData s m1) as [[d2 m2]|]; simpl; [|done].
    destruct (readPushData s m2) as [[d3 m3]|]; simpl; [|done]. by intros [= <- <- <- <- <-]. }
  destruct (at_ s 0 =? opNameUpdate); [|done].
  destruct (readPushData s 1) as [[d1 m1]|]; simpl; [|done].
  destruct (readPushData s m1) as [[d2 m2]|]; simpl; [|done]. by intros [= <- <- <- <- <-].
Qed.

(** What [parseNameScriptFull] accepts, [skipNameScriptPrefix] skips to the offset
    the validator returned, with at least a standard suffix left. *)
Lemma parse_skip s op name value extra : parseNameScriptFull s = Ok (op, name, value, extra) ->
  exists off, skipNameScriptPrefix s = Ok off /\ (off + minP2PKHSize <= length s)%nat.
Proof.
  unfold parseNameScriptFull. case_bool_decide; [done|].
  destruct (parseNameData s) as [[[[[op' name'] value'] extra'] n]|] eqn:Hp; [|done].
  cbv [mbind res_bind].
  destruct (validateScriptFormat s op' n) as [off|] eqn:Hv; [|done]. intros _.
  apply validateScriptFormat_skip in Hv as [Hs Hl]. apply parseNameData_skip in Hp.
  exists off. split; [by rewrite Hp, Hs|done].
Qed.

(** ** Formats *)

Lemma validateConsensus_iff name value :
  validateConsensusNameFormat name value = Ok tt <->
  (1 <= blen name <= MaxNameLength /\ blen value <= MaxValueLength).
Proof.
  unfold validateConsensusNameFormat. assert (0 <= blen name) by (unfold blen; lia).
  destruct (Z.eqb_spec (blen name) 0); destruct (Z.gtb_spec (blen name) MaxNameLength); simpl;
    try destruct (Z.gtb_spec (blen value) MaxValueLength); split; intros; try done; lia.
Qed.

Lemma validateNameFormat_consensus json name value :
  validateNameFormat json name value = Ok tt ->
  validateConsensusNameFormat name value = Ok tt /\ IsValidNamespace name = true /\
  utf8_ValidString value = true /\
  (json_namespace name = true -> value <> [] -> json value = true).
Proof.
  unfold validateNameFormat, validateConsensusNameFormat, validateValueEncoding.
  destruct ((blen name =? 0) || (blen name >? MaxNameLength)); [done|].
  destruct (IsValidNamespace name); [|done]. destruct (hasContent name); [|done].
  destruct (blen value >? MaxValueLength); [done|]. cbn [negb].
  destruct (Z.eqb_spec (blen value) 0) as [E|E].
  - intros _. destruct value; [|by unfold blen in E; simpl in E; lia]. done.
  - destruct (utf8_ValidString value); [|done]. cbn [negb].
    destruct (json_namespace name), (json value); simpl; try done.
Qed.

(** ** encoding/hex *)

Lemma hex_value_digit v : 0 <= v < 16 -> hex_value (hex_digit v) = Some v.
Proof.
  intros H. assert (v ∈ seqZ 0 16) as Hv by (apply elem_of_seqZ; lia).
  revert v Hv H. apply (Forall_forall (fun v => 0 <= v < 16 -> hex_value (hex_digit v) = Some v)).
  vm_compute seqZ. repeat constructor.
Qed.

Lemma hex_roundtrip b : hex_DecodeString (hex_EncodeToString b) = Ok b.
Proof.
  induction b as [|x b IH]; [done|]. cbn [hex_EncodeToString hex_DecodeString].
  pose proof (Z_of_byte_range x).
  rewrite !hex_value_digit by (Z.div_mod_to_equations; lia). rewrite IH. cbv [mbind res_bind mret res_ret].
  do 2 f_equal. rewrite <-(byte_of_Z_of_byte x) at 3. f_equal. Z.div_mod_to_equations. lia.
Qed.

Lemma hex_ascii b : Forall (fun c => Z_of_byte c < 128) (hex_EncodeToString b).
Proof.
  assert (forall v, 0 <= v < 16 -> Z_of_byte (hex_digit v) < 128) as H.
  { intros v Hv. unfold hex_digit. rewrite Z_of_byte_of_Z. destruct (Z.ltb_spec v 10); rewrite Z.mod_small; lia. }
  induction b as [|x b IH]; [done|]. cbn [hex_EncodeToString]. pose proof (Z_of_byte_range x).
  constructor; [apply H; Z.div_mod_to_equations; lia|]. constructor; [|done]. apply H, Z.mod_pos_bound. lia.
Qed.
