(* ===== verification/Wire.v ===== *)
(** * Transactions, blocks and their encodings

    The structs of btcd's [wire] package that the code reads and writes.  btcd's
    functions are not part of the repository: hashes, (de)serialization and the
    compact target are the class [Wire]; what their documentation promises is
    [WireLaws].  [RefWire] satisfies the laws. *)

From S2P Require Import Prelude.

Record OutPoint := mkOutPoint { op_Hash : bytes; op_Index : Z }.
Record TxIn := mkTxIn {
  PreviousOutPoint : OutPoint;
  SignatureScript : bytes;
  Sequence : Z;
}.
Record TxOut := mkTxOut { to_Value : Z; PkScript : bytes }.
Record MsgTx := mkMsgTx {
  tx_Version : Z;
  TxIns : list TxIn;
  TxOuts : list TxOut;
  LockTime : Z;
}.
Record BlockHeader := mkHeader {
  hdr_Version : Z;       (* int32 *)
  PrevBlock : bytes;
  MerkleRoot : bytes;
  Timestamp : Z;
  Bits : Z;              (* uint32 *)
  Nonce : Z;
}.

#[export] Instance OutPoint_eq_dec : EqDecision OutPoint.
Proof. solve_decision. Defined.
#[export] Instance TxIn_eq_dec : EqDecision TxIn.
Proof. solve_decision. Defined.
#[export] Instance TxOut_eq_dec : EqDecision TxOut.
Proof. solve_decision. Defined.
#[export] Instance MsgTx_eq_dec : EqDecision MsgTx.
Proof. solve_decision. Defined.
#[export] Instance BlockHeader_eq_dec : EqDecision BlockHeader.
Proof. solve_decision. Defined.

#[export] Program Instance OutPoint_countable : Countable OutPoint :=
  inj_countable' (fun o => (op_Hash o, op_Index o)) (fun p => mkOutPoint p.1 p.2) _.
Next Obligation. by intros []. Qed.
#[export] Program Instance TxIn_countable : Countable TxIn :=
  inj_countable' (fun i => (PreviousOutPoint i, SignatureScript i, Sequence i))
    (fun p => mkTxIn p.1.1 p.1.2 p.2) _.
Next Obligation. by intros []. Qed.
#[export] Program Instance TxOut_countable : Countable TxOut :=
  inj_countable' (fun o => (to_Value o, PkScript o)) (fun p => mkTxOut p.1 p.2) _.
Next Obligation. by intros []. Qed.
#[export] Program Instance MsgTx_countable : Countable MsgTx :=
  inj_countable' (fun t => (tx_Version t, TxIns t, TxOuts t, LockTime t))
    (fun p => mkMsgTx p.1.1.1 p.1.1.2 p.1.2 p.2) _.
Next Obligation. by intros []. Qed.
#[export] Program Instance BlockHeader_countable : Countable BlockHeader :=
  inj_countable' (fun h => (hdr_Version h, PrevBlock h, MerkleRoot h, Timestamp h, Bits h, Nonce h))
    (fun p => mkHeader p.1.1.1.1.1 p.1.1.1.1.2 p.1.1.1.2 p.1.1.2 p.1.2 p.2) _.
Next Obligation. by intros []. Qed.

(** An [io.Reader] over a byte string: the bytes left. *)
Abbreviation Reader := (M bytes).

Class Wire := {
  TxHash : MsgTx -> bytes;                     (* MsgTx.TxHash *)
  BlockHash : BlockHeader -> bytes;            (* BlockHeader.BlockHash *)
  DoubleHashH : bytes -> bytes;                (* chainhash.DoubleHashH *)
  HashToBig : bytes -> Z;                      (* blockchain.HashToBig *)
  CompactToBig : Z -> Z;                       (* blockchain.CompactToBig *)
  tx_Serialize : MsgTx -> bytes;
  tx_Deserialize : Reader MsgTx;
  hdr_Serialize : BlockHeader -> bytes;
  hdr_Deserialize : Reader BlockHeader;
  WriteVarInt : Z -> bytes;
  ReadVarInt : Reader Z;
}.

(** The values that btcd's encodings represent: integers of the fields' widths, scripts
    and counts under the message limits, at least one input (a count of zero is the
    marker of a witness). *)
Record tx_fits (t : MsgTx) : Prop := {
  tf_version : is_int32 (tx_Version t);
  tf_lock : is_uint32 (LockTime t);
  tf_some : TxIns t <> [];
  tf_ins : Forall (fun i => length (op_Hash (PreviousOutPoint i)) = 32%nat /\
    is_uint32 (op_Index (PreviousOutPoint i)) /\ is_uint32 (Sequence i) /\
    Z.of_nat (length (SignatureScript i)) <= 2 ^ 20) (TxIns t);
  tf_outs : Forall (fun o => is_int64 (to_Value o) /\ Z.of_nat (length (PkScript o)) <= 2 ^ 20) (TxOuts t);
  tf_counts : Z.of_nat (length (TxIns t)) <= 2 ^ 16 /\ Z.of_nat (length (TxOuts t)) <= 2 ^ 16;
}.

Record hdr_fits (h : BlockHeader) : Prop := {
  hf_version : is_int32 (hdr_Version h);
  hf_prev : length (PrevBlock h) = 32%nat;
  hf_merkle : length (MerkleRoot h) = 32%nat;
  hf_time : is_uint32 (Timestamp h);
  hf_bits : is_uint32 (Bits h);
  hf_nonce : is_uint32 (Nonce h);
}.

Class WireLaws (W : Wire) := {
  DoubleHashH_len b : length (DoubleHashH b) = 32%nat;
  TxHash_len t : length (TxHash t) = 32%nat;
  BlockHash_len h : length (BlockHash h) = 32%nat;
  HashToBig_le h : HashToBig h = of_le h;
  tx_roundtrip t rest : tx_fits t -> tx_Deserialize (tx_Serialize t ++ rest) = (Ok t, rest);
  hdr_roundtrip h rest : hdr_fits h -> hdr_Deserialize (hdr_Serialize h ++ rest) = (Ok h, rest);
  VarInt_roundtrip n rest : 0 <= n < 2 ^ 64 -> ReadVarInt (WriteVarInt n ++ rest) = (Ok n, rest);
}.

(** [io.ReadFull] into a buffer of [n] bytes. *)
Definition ReadFull (n : nat) : Reader bytes := fun r =>
  if bool_decide (length r < n)%nat then (Err (EMsg "unexpected EOF"), [])
  else (Ok (take n r), drop n r).

Lemma ReadFull_app n a rest : length a = n -> ReadFull n (a ++ rest) = (Ok a, rest).
Proof.
  intros <-. unfold ReadFull. rewrite bool_decide_false by (rewrite length_app; lia).
  by rewrite take_app_length, drop_app_length.
Qed.

(** ** An instance: positives in a self-delimiting base *)

Fixpoint pos_bytes (p : positive) : bytes :=
  match p with
  | xH => [Byte.x02]
  | xO p => Byte.x00 :: pos_bytes p
  | xI p => Byte.x01 :: pos_bytes p
  end.

Fixpoint read_pos (b : bytes) : option (positive * bytes) :=
  match b with
  | Byte.x02 :: b => Some (xH, b)
  | Byte.x00 :: b => match read_pos b with Some (p, r) => Some (xO p, r) | None => None end
  | Byte.x01 :: b => match read_pos b with Some (p, r) => Some (xI p, r) | None => None end
  | _ => None
  end.

Lemma read_pos_bytes p rest : read_pos (pos_bytes p ++ rest) = Some (p, rest).
Proof. induction p as [p IH|p IH|]; simpl; [by rewrite IH..|done]. Qed.

Definition enc {A} `{Countable A} (a : A) : bytes := pos_bytes (encode a).
Definition dec {A} `{Countable A} : Reader A := fun b =>
  match read_pos b with
  | Some (p, rest) => match decode p with Some a => (Ok a, rest) | None => (Err (EMsg "decode"), rest) end
  | None => (Err (EMsg "decode"), b)
  end.

Lemma dec_enc {A} `{Countable A} (a : A) rest : dec (enc a ++ rest) = (Ok a, rest).
Proof. unfold dec, enc. by rewrite read_pos_bytes, decode_encode. Qed.

(** A hash for the instance: the first 32 bytes, padded. *)
Definition ref_hash (b : bytes) : bytes := take 32 (b ++ replicate 32 Byte.x00).

Lemma ref_hash_len b : length (ref_hash b) = 32%nat.
Proof. unfold ref_hash. rewrite length_take, length_app, length_replicate. lia. Qed.

#[export] Instance RefWire : Wire := {
  TxHash t := ref_hash (enc t);
  BlockHash h := ref_hash (enc h);
  DoubleHashH b := ref_hash b;
  HashToBig h := of_le h;
  CompactToBig c := c;
  tx_Serialize := enc;
  tx_Deserialize := dec;
  hdr_Serialize := enc;
  hdr_Deserialize := dec;
  WriteVarInt := enc;
  ReadVarInt := dec;
}.

#[export] Instance RefWireLaws : WireLaws RefWire.
Proof.
  split; intros; try apply ref_hash_len; try done; apply dec_enc.
Qed.

(** ** Peers and messages of btcd

    btcd's peer package is a parameter: a peer is a pointer with an identifier, an
    address and a direction.  The messages are the structs of its wire package that
    the code builds and reads. *)

Class PeerLib := {
  Peer : Type;
  Peer_eq_dec :: EqDecision Peer;
  Peer_countable :: Countable Peer;
  ID : Peer -> Z;          (* int32 *)
  Addr : Peer -> bytes;
  Inbound : Peer -> bool;
}.

(** btcd numbers the peers it makes, so no two have the same identifier. *)
Class PeerLaws (P : PeerLib) := ID_inj : forall p q, ID p = ID q -> p = q.

Definition InvTypeTx : Z := 1.
Definition InvTypeBlock : Z := 2.

(** Limits of the wire protocol. *)
Definition MaxInvPerMsg : Z := 50000.
Definition MaxBlockHeadersPerMsg : Z := 2000.
Definition MaxBlocksPerMsg : Z := 500.

Record InvVect := mkInvVect { inv_Type : Z; inv_Hash : bytes }.

(** A message block: a header and its transactions. *)
Record MsgBlock := mkMsgBlock { mb_Header : BlockHeader; mb_Transactions : list MsgTx }.

Inductive Message :=
  | MsgGetHeaders (BlockLocatorHashes : list bytes) (HashStop : bytes)
  | MsgHeaders (Headers : list BlockHeader)
  | MsgGetData (InvList : list InvVect)
  | MsgInv (InvList : list InvVect)
  | MsgTransaction (tx : MsgTx)
  | MsgBlockData (block : MsgBlock).

(** [AddInvVect] refuses more than [MaxInvPerMsg] vectors. *)
Definition AddInvVect (l : list InvVect) (iv : InvVect) : res (list InvVect) :=
  if Z.of_nat (length l) + 1 >? MaxInvPerMsg then Err (EMsg "too many invvect in message [max %v]")
  else Ok (l ++ [iv]).

(** [AddBlockHeader] refuses more than [MaxBlockHeadersPerMsg] headers. *)
Definition AddBlockHeader (l : list BlockHeader) (h : BlockHeader) : res (list BlockHeader) :=
  if Z.of_nat (length l) + 1 >? MaxBlockHeadersPerMsg then
    Err (EMsg "too many block headers in message [count %v, max %v]")
  else Ok (l ++ [h]).
