(* ===== verification/AuxPow.v ===== *)
(** * Merged mining

    chain/auxpow.go, chain/block.go and chain/auxpow_validation.go: the wire format
    of a block with its auxiliary proof of work, the checks of the proof, and their
    place in the acceptance of a block.  The AuxPow cache of chain/auxpow_cache.go
    is the pointer structure of Lru.v at values [AuxPow]. *)

From S2P Require Import Prelude Lru Config Wire.

Record MerkleBranch := mkBranch { Branch : list bytes; SideMask : Z (* uint32 *) }.

Record AuxPow := mkAuxPow {
  CoinbaseTx : MsgTx;
  ap_BlockHash : bytes;
  CoinbaseBranch : MerkleBranch;
  ChainMerkleBranch : MerkleBranch;
  ParentBlock : BlockHeader;
}.

#[export] Instance MerkleBranch_eq_dec : EqDecision MerkleBranch.
Proof. solve_decision. Defined.
#[export] Instance AuxPow_eq_dec : EqDecision AuxPow.
Proof. solve_decision. Defined.

Definition NamecoinChainID : Z := 1.
Definition DefaultAuxPowCacheSize : Z := 100.

Section auxpow.
Context {W : Wire}.

(** ** Wire format *)

Fixpoint readHashes (n : nat) : Reader (list bytes) :=
  match n with
  | O => mret []
  | S n =>
      h ← wrapM "failed to read branch hash %d" (ReadFull 32);
      hs ← readHashes n;
      mret (h :: hs)
  end.

Definition DeserializeMerkleBranch : Reader MerkleBranch :=
  branchSize ← wrapM "failed to read branch size" ReadVarInt;
  if branchSize >? 32 then fail (EMsg "merkle branch too deep: %d levels (max 32)")
  else
    hashes ← readHashes (Z.to_nat branchSize);
    sideMaskBytes ← wrapM "failed to read side mask" (ReadFull 4);
    mret {| Branch := hashes; SideMask := of_le sideMaskBytes |}.

Definition SerializeMerkleBranch (mb : MerkleBranch) : res bytes :=
  if Z.of_nat (length (Branch mb)) >? 32 then Err (EMsg "merkle branch too deep: %d levels (max 32)")
  else Ok (WriteVarInt (Z.of_nat (length (Branch mb))) ++ concat (Branch mb) ++ le_bytes 4 (SideMask mb)).

Definition DeserializeAuxPow : Reader AuxPow :=
  coinbase ← wrapM "failed to deserialize coinbase tx" tx_Deserialize;
  blockHash ← wrapM "failed to read block hash" (ReadFull 32);
  coinbaseBranch ← wrapM "failed to deserialize coinbase branch" DeserializeMerkleBranch;
  chainBranch ← wrapM "failed to deserialize chain branch" DeserializeMerkleBranch;
  parent ← wrapM "failed to deserialize parent block header" hdr_Deserialize;
  mret {| CoinbaseTx := coinbase; ap_BlockHash := blockHash; CoinbaseBranch := coinbaseBranch;
          ChainMerkleBranch := chainBranch; ParentBlock := parent |}.

Definition SerializeAuxPow (ap : AuxPow) : res bytes :=
  cb ← wrap_err "failed to serialize coinbase branch" (SerializeMerkleBranch (CoinbaseBranch ap));
  cm ← wrap_err "failed to serialize chain branch" (SerializeMerkleBranch (ChainMerkleBranch ap));
  mret (tx_Serialize (CoinbaseTx ap) ++ ap_BlockHash ap ++ cb ++ cm ++ hdr_Serialize (ParentBlock ap)).

(** [Block]: the message block and the proof attached to it. *)
Record Block := mkBlock {
  Header : BlockHeader;
  Transactions : list MsgTx;
  auxPow : option AuxPow;
}.

Definition NewBlock (hdr : BlockHeader) (txs : list MsgTx) : Block :=
  {| Header := hdr; Transactions := txs; auxPow := None |}.

Definition SetAuxPow (a : option AuxPow) (b : Block) : Block :=
  {| Header := Header b; Transactions := Transactions b; auxPow := a |}.

(** [version & config.AuxPowVersionBit != 0], on an [int32]. *)
Definition hasAuxPowBit (version : Z) : bool := negb (Z.land version AuxPowVersionBit =? 0).

Definition HasAuxPow (b : Block) : bool :=
  hasAuxPowBit (hdr_Version (Header b)) && bool_decide (is_Some (auxPow b)).

Definition maxTxPerBlock : Z := 100000.

Fixpoint readTxs (n : nat) : Reader (list MsgTx) :=
  match n with
  | O => mret []
  | S n =>
      tx ← wrapM "failed to deserialize transaction %d" tx_Deserialize;
      txs ← readTxs n;
      mret (tx :: txs)
  end.

Definition NewBlockFromReader : Reader Block :=
  header ← wrapM "failed to deserialize block header" hdr_Deserialize;
  aux ← (if hasAuxPowBit (hdr_Version header) then
           a ← wrapM "failed to deserialize AuxPow" DeserializeAuxPow; mret (Some a)
         else mret None);
  txCount ← wrapM "failed to read transaction count" ReadVarInt;
  if txCount >? maxTxPerBlock then fail (EMsg "transaction count %d exceeds maximum %d")
  else
    transactions ← readTxs (Z.to_nat txCount);
    mret {| Header := header; Transactions := transactions; auxPow := aux |}.

Definition NewBlockFromBytes (serializedBlock : bytes) : res Block :=
  (NewBlockFromReader serializedBlock).1.

Definition Serialize (b : Block) : res bytes :=
  aux ← (match auxPow b with
         | Some a => if HasAuxPow b then wrap_err "failed to serialize AuxPow" (SerializeAuxPow a)
                     else Ok []
         | None => Ok []
         end);
  mret (hdr_Serialize (Header b) ++ aux ++ WriteVarInt (Z.of_nat (length (Transactions b))) ++
        concat (map tx_Serialize (Transactions b))).

(** ** Merkle branches *)

(** One level: the hash of the two children, the side bit telling which is ours. *)
Definition combine (sideBit : Z) (hash sibling : bytes) : bytes :=
  if sideBit =? 0 then DoubleHashH (hash ++ sibling) else DoubleHashH (sibling ++ hash).

(** The loops of [computeChainMerkleRoot] and [CheckMerkleBranch], at level [i]. *)
Fixpoint climb (i : nat) (mask : Z) (hash : bytes) (siblings : list bytes) : bytes :=
  match siblings with
  | [] => hash
  | sibling :: siblings =>
      let sideBit := Z.land (Z.shiftr mask (Z.of_nat i)) 1 in
      climb (S i) mask (combine sideBit hash sibling) siblings
  end.

Definition computeChainMerkleRoot (root : bytes) (branch : MerkleBranch) : bytes :=
  climb 0 (SideMask branch) root (Branch branch).

Definition CheckMerkleBranch (leaf : bytes) (branch : MerkleBranch) (root : bytes) : bool :=
  bool_decide (climb 0 (SideMask branch) leaf (Branch branch) = root).

(** ** The commitment in the parent's coinbase *)

Definition serializeCoinbaseForSearch (tx : MsgTx) : bytes :=
  concat (map SignatureScript (TxIns tx)) ++ concat (map PkScript (TxOuts tx)).

Definition reverseHashBytes (h : bytes) : bytes := rev h.

Definition auxPowMagic : bytes := [Byte.xfa; Byte.xbe; Byte.x6d; Byte.x6d].

(** [bytes.Index(s, sep)]: the first position of [sep], if any. *)
Fixpoint bytes_Index (s sep : bytes) : option nat :=
  if HasPrefix s sep then Some O
  else match s with
       | [] => None
       | _ :: s => S <$> bytes_Index s sep
       end.

Definition bytes_Contains (s sep : bytes) : bool := bool_decide (is_Some (bytes_Index s sep)).

(** One hit of the magic at the start of [rest] (without its first [idx] bytes). *)
Definition commitment_at (rest computedRoot : bytes) (expectedSize : Z) : bool :=
  let offset := length auxPowMagic in
  if bool_decide (length rest < offset + 36)%nat then false
  else
    let root := slice rest offset (offset + 32) in
    let size := of_le (slice rest (offset + 32) (offset + 36)) in
    (bool_decide (root = computedRoot) || bool_decide (root = reverseHashBytes computedRoot)) &&
    (size =? expectedSize).

(** The loop: [rest] loses at least one byte per iteration, so its length is
    enough fuel. *)
Fixpoint countCommitments (fuel : nat) (rest computedRoot : bytes) (expectedSize : Z) : Z :=
  match fuel with
  | O => 0
  | S fuel =>
      match bytes_Index rest auxPowMagic with
      | None => 0
      | Some idx =>
          (if commitment_at (drop idx rest) computedRoot expectedSize then 1 else 0) +
          countCommitments fuel (drop (idx + 1) rest) computedRoot expectedSize
      end
  end.

Definition checkMergeMiningCommitment (coinbaseData computedRoot : bytes) (branchLen : Z) : res unit :=
  if (branchLen <? 0) || (branchLen >=? 32) then
    Err (EMsg "auxpow: invalid chain merkle branch length %d (must be 0..31)")
  else
    let expectedSize := uint32 (Z.shiftl 1 branchLen) in
    let validCommitCount :=
      countCommitments (S (length coinbaseData)) coinbaseData computedRoot expectedSize in
    if validCommitCount >? 1 then
      Err (EMsg "auxpow: %d valid merged-mining commitment(s) in coinbase, expected exactly one")
    else if validCommitCount =? 0 then
      Err (EMsg "auxpow: no valid merged-mining commitment")
    else Ok tt.

(** ** Validation of a proof *)

Definition validateParentDifficulty (ap : AuxPow) (targetDifficulty : bytes) : res unit :=
  check (HashToBig (BlockHash (ParentBlock ap)) <=? HashToBig targetDifficulty)
    (EMsg "parent block hash %s does not meet difficulty target %s").

Definition validateCoinbaseBranch (ap : AuxPow) : res unit :=
  check (CheckMerkleBranch (TxHash (CoinbaseTx ap)) (CoinbaseBranch ap) (MerkleRoot (ParentBlock ap)))
    (EMsg "coinbase merkle branch verification failed: coinbase tx not in parent block").

Definition validateDirectChainCommitment (ap : AuxPow) (blockHash : bytes) : res unit :=
  let coinbaseData := serializeCoinbaseForSearch (CoinbaseTx ap) in
  check (bytes_Contains coinbaseData blockHash ||
         bytes_Contains coinbaseData (reverseHashBytes blockHash))
    (EMsg "auxpow: block hash not found in coinbase for direct commitment").

Definition validateMergedMiningCommitment (ap : AuxPow) (blockHash : bytes) : res unit :=
  let computedRoot := computeChainMerkleRoot blockHash (ChainMerkleBranch ap) in
  wrap_err "chain merkle root not committed in coinbase"
    (checkMergeMiningCommitment (serializeCoinbaseForSearch (CoinbaseTx ap)) computedRoot
       (Z.of_nat (length (Branch (ChainMerkleBranch ap))))).

Definition validateChainCommitment (ap : AuxPow) (blockHash : bytes) : res unit :=
  if bool_decide (Branch (ChainMerkleBranch ap) = []) then validateDirectChainCommitment ap blockHash
  else if Z.of_nat (length (Branch (ChainMerkleBranch ap))) >? 32 then
    Err (EMsg "chain merkle branch too deep: %d levels (max 32)")
  else if CheckMerkleBranch blockHash (ChainMerkleBranch ap) (TxHash (CoinbaseTx ap)) then Ok tt
  else validateMergedMiningCommitment ap blockHash.

Definition ValidateAuxPow (ap : AuxPow) (blockHash targetDifficulty : bytes) : res unit :=
  _ ← validateParentDifficulty ap targetDifficulty;
  _ ← validateCoinbaseBranch ap;
  validateChainCommitment ap blockHash.

(** [uint32(version) >> 16] *)
Definition ExtractChainIDFromVersion (version : Z) : Z := Z.shiftr (uint32 version) 16.

(** ** auxpow_validation.go: the block's proof, taken from the cache *)

(** [BlockHeightByHash] of btcd's chain (third party), [None] for an unknown block;
    [chain_nil] says the chain pointer is nil, [nameDB_nil] the database pointer. *)
Record chain_view := mkView {
  chain_nil : bool;
  nameDB_nil : bool;
  BlockHeightByHash : bytes -> option Z;
  chainParams : Params;
}.

Definition zero_hash : bytes := replicate 32 Byte.x00.

(** [block.Height()] is [metaHeight]. *)
Definition resolveBlockHeight (bc : chain_view) (hdr : BlockHeader) (metaHeight : Z) : Z :=
  if negb (chain_nil bc) && negb (bool_decide (PrevBlock hdr = zero_hash)) then
    match BlockHeightByHash bc (PrevBlock hdr) with
    | Some parentHeight => int32 (parentHeight + 1)
    | None => metaHeight
    end
  else metaHeight.

Definition verifyAuxPowVersionBit (hdr : BlockHeader) : res unit :=
  check (hasAuxPowBit (hdr_Version hdr))
    (EMsg "block at height %d requires AuxPow version bit but it's not set").

Definition verifyChainID (hdr : BlockHeader) : res unit :=
  check (ExtractChainIDFromVersion (hdr_Version hdr) =? NamecoinChainID)
    (EMsg "block at height %d has invalid chain ID %d (expected %d)").

(** math/big [Int.Bytes]: the absolute value, big-endian, without leading zeros. *)
Definition big_Bytes (v : Z) : bytes :=
  if v =? 0 then [] else be_bytes (Z.to_nat (Z.log2 (Z.abs v) / 8 + 1)) (Z.abs v).

(** The loop that writes [targetBytes] reversed into a zero hash. *)
Definition targetHash (targetBytes : bytes) : bytes :=
  rev targetBytes ++ replicate (32 - length targetBytes) Byte.x00.

Definition verifyAuxPowProof (hdr : BlockHeader) (ap : AuxPow) (blockHash : bytes) : res unit :=
  let targetBytes := big_Bytes (CompactToBig (Bits hdr)) in
  if bool_decide (32 < length targetBytes)%nat then
    Err (EMsg "compact target exceeds 256 bits: %d bytes for block %s at height %d")
  else wrap_err "AuxPow validation failed for block %s at height %d"
         (ValidateAuxPow ap blockHash (targetHash targetBytes)).

(** The state is the AuxPow cache. *)
Definition validateAuxPow (bc : chain_view) (hdr : BlockHeader) (metaHeight : Z) :
    M (lruCache bytes AuxPow) unit := fun cache =>
  let height := resolveBlockHeight bc hdr metaHeight in
  if height <? 0 then (Ok tt, cache)
  else if height <? GetAuxPowActivationHeight (chainParams bc) then (Ok tt, cache)
  else match verifyAuxPowVersionBit hdr with
  | Err e => (Err e, cache)
  | Ok _ =>
      let blockHash := BlockHash hdr in
      let '(ap, cache) := lru_Get blockHash cache in
      let cache' := (lru_Delete blockHash cache).2 in   (* deferred *)
      match ap with
      | None => (Err (EMsg "block at height %d requires AuxPow but no AuxPow data was provided"), cache')
      | Some ap =>
          (_ ← verifyChainID hdr; verifyAuxPowProof hdr ap blockHash, cache')
      end
  end.

End auxpow.
