(* ===== verification/Genesis.v ===== *)
(** * Genesis blocks and network parameters

    config/namecoin_params.go: the genesis blocks, their hashes and the parameters of the
    three networks.  Whether the hashes are those of the blocks is a question about double
    SHA-256 and the encoding of headers and transactions on the wire: crypto/sha256 is
    written out, the encoding is the class [WireFormat], the documented format of the
    protocol; [BitcoinWire] has it and satisfies the laws of Wire.v. *)

From S2P Require Import Prelude Clock Config Wire.

(** ** crypto/sha256 (FIPS 180-4) *)

Module Sha256.

Definition w32 (z : Z) : Z := Z.land z 0xffffffff.
Definition rotr (n x : Z) : Z := Z.lor (Z.shiftr x n) (w32 (Z.shiftl x (32 - n))).
Definition Ch (x y z : Z) : Z := Z.lxor (Z.land x y) (Z.land (Z.lxor x 0xffffffff) z).
Definition Maj (x y z : Z) : Z := Z.lxor (Z.lxor (Z.land x y) (Z.land x z)) (Z.land y z).
Definition Sigma0 (x : Z) : Z := Z.lxor (Z.lxor (rotr 2 x) (rotr 13 x)) (rotr 22 x).
Definition Sigma1 (x : Z) : Z := Z.lxor (Z.lxor (rotr 6 x) (rotr 11 x)) (rotr 25 x).
Definition sigma0 (x : Z) : Z := Z.lxor (Z.lxor (rotr 7 x) (rotr 18 x)) (Z.shiftr x 3).
Definition sigma1 (x : Z) : Z := Z.lxor (Z.lxor (rotr 17 x) (rotr 19 x)) (Z.shiftr x 10).

(** The first 32 bits of the fractional part of the e-th root of [p]. *)
Fixpoint root (e x : Z) (bits : nat) (r : Z) : Z :=
  match bits with
  | O => r
  | Datatypes.S bits =>
      let r' := r + 2 ^ Z.of_nat bits in
      root e x bits (if r' ^ e <=? x then r' else r)
  end.
Definition fraction (e p : Z) : Z := w32 (root e (p * 2 ^ (32 * e)) 40 0).

Definition is_prime (p : Z) : bool := forallb (fun d => negb (p mod (Z.of_nat d + 2) =? 0)) (seq 0 (Z.to_nat p - 2)).
Definition primes : list Z := Eval vm_compute in filter (fun p => is_prime p = true) (Z.of_nat <$> seq 2 310).

(** The constants of the rounds and the first state are those of the first primes. *)
Definition K : list Z := Eval vm_compute in fraction 3 <$> primes.

Record state := mkState { sa : Z; sb : Z; sc : Z; sd : Z; se : Z; sf : Z; sg : Z; sh : Z }.

Definition init : state := Eval vm_compute in
  let h i := fraction 2 (nth i primes 0) in
  mkState (h 0%nat) (h 1%nat) (h 2%nat) (h 3%nat) (h 4%nat) (h 5%nat) (h 6%nat) (h 7%nat).

Definition round (k w : Z) (s : state) : state :=
  let t1 := sh s + Sigma1 (se s) + Ch (se s) (sf s) (sg s) + k + w in
  let t2 := Sigma0 (sa s) + Maj (sa s) (sb s) (sc s) in
  mkState (w32 (t1 + t2)) (sa s) (sb s) (sc s) (w32 (sd s + t1)) (se s) (sf s) (sg s).

(** The rounds, with the next sixteen words of the schedule. *)
Fixpoint rounds (ks ws : list Z) (s : state) : state :=
  match ks, ws with
  | k :: ks, w :: ws' =>
      let next := w32 (sigma1 (nth 13 ws' 0) + nth 8 ws' 0 + sigma0 (nth 0 ws' 0) + w) in
      rounds ks (ws' ++ [next]) (round k w s)
  | _, _ => s
  end.

Definition compress (s : state) (ws : list Z) : state :=
  let t := rounds K ws s in
  mkState (w32 (sa s + sa t)) (w32 (sb s + sb t)) (w32 (sc s + sc t)) (w32 (sd s + sd t))
    (w32 (se s + se t)) (w32 (sf s + sf t)) (w32 (sg s + sg t)) (w32 (sh s + sh t)).

(** The words of a block: of every four bytes one. *)
Fixpoint words (b : bytes) : list Z :=
  match b with
  | a :: b :: c :: d :: rest => of_be [a; b; c; d] :: words rest
  | _ => []
  end.

Definition pad (msg : bytes) : bytes :=
  let l := length msg in
  let zeros := Z.to_nat ((55 - Z.of_nat l) mod 64) in
  msg ++ [Byte.x80] ++ replicate zeros Byte.x00 ++ be_bytes 8 (8 * Z.of_nat l).

Fixpoint blocks (n : nat) (ws : list Z) (s : state) : state :=
  match n with
  | O => s
  | Datatypes.S n => blocks n (drop 16 ws) (compress s (take 16 ws))
  end.

Definition Sum256 (msg : bytes) : bytes :=
  let ws := words (pad msg) in
  let s := blocks (length ws / 16) ws init in
  concat (be_bytes 4 <$> [sa s; sb s; sc s; sd s; se s; sf s; sg s; sh s]).

End Sha256.

Definition double_sha256 (b : bytes) : bytes := Sha256.Sum256 (Sha256.Sum256 b).

(** The test vectors of the standard. *)
Example sha256_abc : of_be (Sha256.Sum256 (str "abc")) =
  0xba7816bf8f01cfea414140de5dae2223b00361a396177a9cb410ff61f20015ad.
Proof. vm_compute. reflexivity. Qed.
Example sha256_two_blocks : of_be (Sha256.Sum256 (str "abcdbcdecdefdefgefghfghighijhijkijkljklmklmnlmnomnopnopq")) =
  0x248d6a61d20638b8e5c026930c3e6039a33ce45964ff2167f6ecedd419db06c1.
Proof. vm_compute. reflexivity. Qed.

(** ** The encoding on the wire *)

Definition of_Zs (l : list Z) : bytes := byte_of_Z <$> l.

Definition var_int (z : Z) : bytes :=
  if z <? 0xfd then le_bytes 1 z
  else if z <=? 0xffff then byte_of_Z 0xfd :: le_bytes 2 z
  else if z <=? 0xffffffff then byte_of_Z 0xfe :: le_bytes 4 z
  else byte_of_Z 0xff :: le_bytes 8 z.
Definition var_bytes (b : bytes) : bytes := var_int (Z.of_nat (length b)) ++ b.

Definition header_bytes (h : BlockHeader) : bytes :=
  le_bytes 4 (hdr_Version h) ++ PrevBlock h ++ MerkleRoot h ++ le_bytes 4 (Timestamp h) ++ le_bytes 4 (Bits h) ++
  le_bytes 4 (Nonce h).

Definition in_bytes (i : TxIn) : bytes :=
  op_Hash (PreviousOutPoint i) ++ le_bytes 4 (op_Index (PreviousOutPoint i)) ++ var_bytes (SignatureScript i) ++
  le_bytes 4 (Sequence i).
Definition out_bytes (o : TxOut) : bytes := le_bytes 8 (to_Value o) ++ var_bytes (PkScript o).
Definition tx_bytes (t : MsgTx) : bytes :=
  le_bytes 4 (tx_Version t) ++ var_int (Z.of_nat (length (TxIns t))) ++ concat (in_bytes <$> TxIns t) ++
  var_int (Z.of_nat (length (TxOuts t))) ++ concat (out_bytes <$> TxOuts t) ++ le_bytes 4 (LockTime t).

(** The number of a compact target: a mantissa of 23 bits, a sign and a power of 256. *)
Definition compact (c : Z) : Z :=
  let mantissa := Z.land c 0x7fffff in
  let exponent := Z.shiftr c 24 in
  let n := if exponent <=? 3 then Z.shiftr mantissa (8 * (3 - exponent)) else Z.shiftl mantissa (8 * (exponent - 3)) in
  if Z.testbit c 23 then - n else n.

(** What btcd documents of its hashes and numbers. *)
Class WireFormat (W : Wire) := {
  wf_BlockHash h : BlockHash h = double_sha256 (header_bytes h);
  wf_TxHash t : TxHash t = double_sha256 (tx_bytes t);
  wf_HashToBig h : HashToBig h = of_le h;
  wf_CompactToBig c : is_uint32 c -> CompactToBig c = compact c;
}.

(** *** Reading it back *)

Definition read_uint (n : nat) : Reader Z := b ← ReadFull n; mret (of_le b).
Definition read_int32 : Reader Z := z ← read_uint 4; mret (int32 z).
Definition read_int64 : Reader Z := z ← read_uint 8; mret (int64 z).
Definition read_var : Reader Z :=
  z ← read_uint 1;
  if z =? 0xfd then read_uint 2 else if z =? 0xfe then read_uint 4 else if z =? 0xff then read_uint 8 else mret z.
Definition read_var_bytes : Reader bytes := n ← read_var; ReadFull (Z.to_nat n).

Fixpoint read_n {A} (n : nat) (r : Reader A) : Reader (list A) :=
  match n with
  | O => mret []
  | Datatypes.S n => a ← r; l ← read_n n r; mret (a :: l)
  end.

Definition read_header : Reader BlockHeader :=
  version ← read_int32; prev ← ReadFull 32; root ← ReadFull 32;
  time ← read_uint 4; bits ← read_uint 4; nonce ← read_uint 4;
  mret (mkHeader version prev root time bits nonce).

Definition read_in : Reader TxIn :=
  hash ← ReadFull 32; index ← read_uint 4; script ← read_var_bytes; seq ← read_uint 4;
  mret (mkTxIn (mkOutPoint hash index) script seq).
Definition read_out : Reader TxOut := value ← read_int64; script ← read_var_bytes; mret (mkTxOut value script).
Definition read_tx : Reader MsgTx :=
  version ← read_int32;
  ins ← read_var; ins ← read_n (Z.to_nat ins) read_in;
  outs ← read_var; outs ← read_n (Z.to_nat outs) read_out;
  lock ← read_uint 4;
  mret (mkMsgTx version ins outs lock).

Definition BitcoinWire : Wire := {|
  TxHash t := double_sha256 (tx_bytes t);
  BlockHash h := double_sha256 (header_bytes h);
  DoubleHashH := double_sha256;
  HashToBig := of_le;
  CompactToBig := compact;
  tx_Serialize := tx_bytes;
  tx_Deserialize := read_tx;
  hdr_Serialize := header_bytes;
  hdr_Deserialize := read_header;
  WriteVarInt := var_int;
  ReadVarInt := read_var;
|}.

Lemma BitcoinWireFormat : WireFormat BitcoinWire.
Proof. by split. Qed.

#[local] Arguments le_bytes : simpl never.

(** A reader of what a writer wrote. *)
Definition reads {A} (r : Reader A) (b : bytes) (a : A) : Prop := forall rest, r (b ++ rest) = (Ok a, rest).

Lemma reads_bind {A C} (r : Reader A) (f : A -> Reader C) b b' a c :
  reads r b a -> reads (f a) b' c -> reads (r ≫= f) (b ++ b') c.
Proof. intros Hr Hf rest. unfold mbind, M_bind. by rewrite <-app_assoc, Hr, Hf. Qed.

Lemma reads_ret {A} (a : A) : reads (mret a) [] a.
Proof. done. Qed.

Lemma reads_last {A C} (r : Reader A) (f : A -> C) b a : reads r b a -> reads (a ← r; mret (f a)) b (f a).
Proof. intros Hr rest. unfold mbind, M_bind. by rewrite Hr. Qed.

Lemma reads_full n b : length b = n -> reads (ReadFull n) b b.
Proof. intros H rest. by apply ReadFull_app. Qed.

Lemma reads_uint n z : 0 <= z < 256 ^ Z.of_nat n -> reads (read_uint n) (le_bytes n z) z.
Proof.
  intros Hz. unfold read_uint. rewrite <-(Z.mod_small z (256 ^ Z.of_nat n)) at 2 by done. rewrite <-of_le_bytes.
  apply (reads_last _ of_le), reads_full, length_le_bytes.
Qed.

Lemma reads_mod n z : reads (read_uint n) (le_bytes n z) (z mod 256 ^ Z.of_nat n).
Proof. rewrite <-of_le_bytes. apply (reads_last _ of_le), reads_full, length_le_bytes. Qed.

Lemma reads_int32 z : is_int32 z -> reads read_int32 (le_bytes 4 z) z.
Proof.
  intros Hz. rewrite <-(int32_uint32 z) at 2 by done. apply (reads_last _ int32). exact (reads_mod 4 z).
Qed.

Lemma reads_int64 z : is_int64 z -> reads read_int64 (le_bytes 8 z) z.
Proof.
  intros Hz. rewrite <-(int64_uint64 z) at 2 by done. apply (reads_last _ int64). exact (reads_mod 8 z).
Qed.

Lemma reads_uint32 z : is_uint32 z -> reads (read_uint 4) (le_bytes 4 z) z.
Proof. intros Hz. by apply reads_uint. Qed.

Lemma reads_var z : 0 <= z < 2 ^ 64 -> reads read_var (var_int z) z.
Proof.
  intros Hz. unfold var_int.
  assert (forall c, 0 <= c < 256 -> reads (read_uint 1) [byte_of_Z c] c) as H1.
  { intros c Hc. replace [byte_of_Z c] with (le_bytes 1 c) by done. by apply reads_uint. }
  destruct (Z.ltb_spec z 0xfd); [|destruct (Z.leb_spec z 0xffff); [|destruct (Z.leb_spec z 0xffffffff)]].
  - rewrite <-(app_nil_r (le_bytes 1 z)). eapply reads_bind; [apply reads_uint; lia|].
    destruct (Z.eqb_spec z 0xfd); [lia|]. destruct (Z.eqb_spec z 0xfe); [lia|].
    destruct (Z.eqb_spec z 0xff); [lia|]. apply reads_ret.
  - change (byte_of_Z 0xfd :: le_bytes 2 z) with ([byte_of_Z 0xfd] ++ le_bytes 2 z).
    eapply reads_bind; [apply H1; lia|]. apply (reads_uint 2). lia.
  - change (byte_of_Z 0xfe :: le_bytes 4 z) with ([byte_of_Z 0xfe] ++ le_bytes 4 z).
    eapply reads_bind; [apply H1; lia|]. apply (reads_uint 4). lia.
  - change (byte_of_Z 0xff :: le_bytes 8 z) with ([byte_of_Z 0xff] ++ le_bytes 8 z).
    eapply reads_bind; [apply H1; lia|]. apply (reads_uint 8). lia.
Qed.

Lemma reads_var_bytes b : Z.of_nat (length b) <= 2 ^ 20 -> reads read_var_bytes (var_bytes b) b.
Proof.
  intros Hb. eapply reads_bind; [apply reads_var; lia|]. apply reads_full. by rewrite Nat2Z.id.
Qed.

Lemma reads_n {A} (r : Reader A) (w : A -> bytes) l :
  Forall (fun a => reads r (w a) a) l -> reads (read_n (length l) r) (concat (w <$> l)) l.
Proof.
  induction 1 as [|a l Ha _ IH]; [apply reads_ret|]. cbn. eapply reads_bind; [exact Ha|]. by apply (reads_last _ (cons a)).
Qed.

Lemma reads_in i : length (op_Hash (PreviousOutPoint i)) = 32%nat -> is_uint32 (op_Index (PreviousOutPoint i)) ->
  is_uint32 (Sequence i) -> Z.of_nat (length (SignatureScript i)) <= 2 ^ 20 -> reads read_in (in_bytes i) i.
Proof.
  destruct i as [[hash index] script seq]. cbn. intros. unfold read_in, in_bytes. cbn.
  eapply reads_bind; [by apply reads_full|]. eapply reads_bind; [by apply reads_uint32|].
  eapply reads_bind; [by apply reads_var_bytes|]. by apply (reads_last _ (mkTxIn _ _)), reads_uint32.
Qed.

Lemma reads_out o : is_int64 (to_Value o) -> Z.of_nat (length (PkScript o)) <= 2 ^ 20 -> reads read_out (out_bytes o) o.
Proof.
  destruct o as [value script]. cbn. intros. eapply reads_bind; [by apply reads_int64|].
  by apply (reads_last _ (mkTxOut _)), reads_var_bytes.
Qed.

Lemma reads_tx t : tx_fits t -> reads read_tx (tx_bytes t) t.
Proof.
  intros [Hv Hl _ Hi Ho [Hni Hno]]. destruct t as [version ins outs lock]. cbn in *. unfold read_tx, tx_bytes. cbn.
  eapply reads_bind; [by apply reads_int32|].
  eapply reads_bind; [apply reads_var; lia|].
  eapply reads_bind; [rewrite Nat2Z.id; apply reads_n; eapply Forall_impl; [exact Hi|]; intros ? (? & ? & ? & ?); by apply reads_in|].
  eapply reads_bind; [apply reads_var; lia|].
  eapply reads_bind; [rewrite Nat2Z.id; apply reads_n; eapply Forall_impl; [exact Ho|]; intros ? (? & ?); by apply reads_out|].
  by apply (reads_last _ (mkMsgTx _ _ _)), reads_uint32.
Qed.

Lemma reads_header h : hdr_fits h -> reads read_header (header_bytes h) h.
Proof.
  intros []. destruct h as [version prev root time bits nonce]. cbn in *. unfold read_header, header_bytes. cbn.
  eapply reads_bind; [by apply reads_int32|]. eapply reads_bind; [by apply reads_full|].
  eapply reads_bind; [by apply reads_full|]. eapply reads_bind; [by apply reads_uint32|].
  eapply reads_bind; [by apply reads_uint32|]. by apply (reads_last _ (mkHeader _ _ _ _ _)), reads_uint32.
Qed.

Lemma double_sha256_len b : length (double_sha256 b) = 32%nat.
Proof. unfold double_sha256, Sha256.Sum256. cbn -[be_bytes]. by rewrite !length_app, !length_be_bytes. Qed.

(** The encoding of the protocol has the laws that the development asks of btcd. *)
Lemma BitcoinWireLaws : WireLaws BitcoinWire.
Proof.
  split; intros; try apply double_sha256_len.
  - done.
  - by apply reads_tx.
  - by apply reads_header.
  - by apply reads_var.
Qed.

(** ** Hashes and genesis blocks *)

Definition MainNetGenesisHash : bytes := of_Zs [
  0x70; 0xc7; 0xa9; 0xf0; 0xa2; 0xfb; 0x3d; 0x48; 0xe6; 0x35; 0xa7; 0x0d; 0x5b; 0x15; 0x7c; 0x80;
  0x7e; 0x58; 0xc8; 0xfb; 0x45; 0xeb; 0x2c; 0x5e; 0x2c; 0xb7; 0x62; 0x00; 0x00; 0x00; 0x00; 0x00].
Definition MainNetGenesisMerkleRoot : bytes := of_Zs [
  0x09; 0x58; 0x6a; 0x61; 0xb9; 0xee; 0xff; 0xf1; 0xb6; 0x2c; 0x9d; 0x84; 0x7e; 0xec; 0x6e; 0xf2;
  0xa9; 0xc1; 0x66; 0x84; 0x20; 0x8f; 0x6a; 0x7b; 0xe8; 0xfa; 0x4c; 0x7b; 0x7c; 0xfa; 0xb4; 0xd4].
Definition mainnetBlock19200Hash : bytes := of_Zs [
  0x3d; 0x90; 0xda; 0x4a; 0x34; 0xdd; 0xed; 0x71; 0xa1; 0xa0; 0x3a; 0x5a; 0x9e; 0xb7; 0x60; 0xca;
  0xa2; 0x83; 0x75; 0xcc; 0x6f; 0x5e; 0x01; 0xee; 0xbc; 0x95; 0x1e; 0x1e; 0xe0; 0xc3; 0xa7; 0xd8].
Definition testNetGenesisMerkleRoot : bytes := of_Zs [
  0x3b; 0xa3; 0xed; 0xfd; 0x7a; 0x7b; 0x12; 0xb2; 0x7a; 0xc7; 0x2c; 0x3e; 0x67; 0x76; 0x8f; 0x61;
  0x7f; 0xc8; 0x1b; 0xc3; 0x88; 0x8a; 0x51; 0x32; 0x3a; 0x9f; 0xb8; 0xaa; 0x4b; 0x1e; 0x5e; 0x4a].
Definition testNetGenesisHash : bytes := of_Zs [
  0x43; 0x49; 0x7f; 0xd7; 0xf8; 0x26; 0x95; 0x71; 0x08; 0xf4; 0xa3; 0x0f; 0xd9; 0xce; 0xc3; 0xae;
  0xba; 0x79; 0x97; 0x20; 0x84; 0xe9; 0x0e; 0xad; 0x01; 0xea; 0x33; 0x09; 0x00; 0x00; 0x00; 0x00].
Definition regTestGenesisMerkleRoot : bytes := of_Zs [
  0x3b; 0xa3; 0xed; 0xfd; 0x7a; 0x7b; 0x12; 0xb2; 0x7a; 0xc7; 0x2c; 0x3e; 0x67; 0x76; 0x8f; 0x61;
  0x7f; 0xc8; 0x1b; 0xc3; 0x88; 0x8a; 0x51; 0x32; 0x3a; 0x9f; 0xb8; 0xaa; 0x4b; 0x1e; 0x5e; 0x4a].
Definition regTestGenesisHash : bytes := of_Zs [
  0x06; 0x22; 0x6e; 0x46; 0x11; 0x1a; 0x0b; 0x59; 0xca; 0xaf; 0x12; 0x60; 0x43; 0xeb; 0x5b; 0xbf;
  0x28; 0xc3; 0x4f; 0x3a; 0x5e; 0x33; 0x2a; 0x1f; 0xc7; 0xb2; 0xb7; 0x3c; 0xf1; 0x88; 0x91; 0x0f].
Definition genesis_SignatureScript : bytes := of_Zs [
  0x04; 0xff; 0xff; 0x00; 0x1d; 0x01; 0x04; 0x45; 0x54; 0x68; 0x65; 0x20; 0x54; 0x69; 0x6d; 0x65;
  0x73; 0x20; 0x30; 0x33; 0x2f; 0x4a; 0x61; 0x6e; 0x2f; 0x32; 0x30; 0x30; 0x39; 0x20; 0x43; 0x68;
  0x61; 0x6e; 0x63; 0x65; 0x6c; 0x6c; 0x6f; 0x72; 0x20; 0x6f; 0x6e; 0x20; 0x62; 0x72; 0x69; 0x6e;
  0x6b; 0x20; 0x6f; 0x66; 0x20; 0x73; 0x65; 0x63; 0x6f; 0x6e; 0x64; 0x20; 0x62; 0x61; 0x69; 0x6c;
  0x6f; 0x75; 0x74; 0x20; 0x66; 0x6f; 0x72; 0x20; 0x62; 0x61; 0x6e; 0x6b; 0x73].
Definition genesis_PkScript : bytes := of_Zs [
  0x41; 0x04; 0x67; 0x8a; 0xfd; 0xb0; 0xfe; 0x55; 0x48; 0x27; 0x19; 0x67; 0xf1; 0xa6; 0x71; 0x30;
  0xb7; 0x10; 0x5c; 0xd6; 0xa8; 0x28; 0xe0; 0x39; 0x09; 0xa6; 0x79; 0x62; 0xe0; 0xea; 0x1f; 0x61;
  0xde; 0xb6; 0x49; 0xf6; 0xbc; 0x3f; 0x4c; 0xef; 0x38; 0xc4; 0xf3; 0x55; 0x04; 0xe5; 0x1e; 0xc1;
  0x12; 0xde; 0x5c; 0x38; 0x4d; 0xf7; 0xba; 0x0b; 0x8d; 0x57; 0x8a; 0x4c; 0x70; 0x2b; 0x6b; 0xf1;
  0x1d; 0x5f; 0xac].

Definition genesisTimestamp : Z := 1303000001.
Definition testNetGenesisTimestamp : Z := 1296688602.
Definition regTestGenesisTimestamp : Z := 1296688602.

Definition no_hash : bytes := replicate 32 Byte.x00.

Definition genesisCoinbaseTx : MsgTx :=
  mkMsgTx 1 [mkTxIn (mkOutPoint no_hash 0xffffffff) genesis_SignatureScript 0xffffffff]
    [mkTxOut 0x12a05f200 genesis_PkScript] 0.

Definition genesisBlock : MsgBlock :=
  mkMsgBlock (mkHeader 1 no_hash MainNetGenesisMerkleRoot genesisTimestamp 0x1c007fff 0xa21ea192) [genesisCoinbaseTx].
Definition testNetGenesisBlock : MsgBlock :=
  mkMsgBlock (mkHeader 1 no_hash testNetGenesisMerkleRoot testNetGenesisTimestamp 0x1d00ffff 0x18aea41a) [genesisCoinbaseTx].
Definition regTestGenesisBlock : MsgBlock :=
  mkMsgBlock (mkHeader 1 no_hash regTestGenesisMerkleRoot regTestGenesisTimestamp 0x207fffff 0) [genesisCoinbaseTx].

(** ** Parameters

    [chaincfg.Params], with the fields the code sets. *)

Record Checkpoint := mkCheckpoint { cp_Height : Z; cp_Hash : bytes }.

Record NetworkParams := mkNetworkParams {
  np_Name : bytes; np_Net : Z; np_DefaultPort : bytes; np_Bech32HRPSegwit : bytes;
  np_PubKeyHashAddrID : Z; np_ScriptHashAddrID : Z; np_PrivateKeyID : Z;      (* bytes *)
  np_WitnessPubKeyHashAddrID : Z; np_WitnessScriptHashAddrID : Z;
  np_HDPublicKeyID : bytes; np_HDPrivateKeyID : bytes; np_HDCoinType : Z;
  np_GenesisBlock : MsgBlock; np_GenesisHash : bytes;
  np_PowLimit : Z; np_PowLimitBits : Z; np_TargetTimespan : Z; np_TargetTimePerBlock : Z;
  np_RetargetAdjustmentFactor : Z; np_ReduceMinDifficulty : bool; np_MinDiffReductionTime : Z; np_GenerateSupported : bool;
  np_CoinbaseMaturity : Z; np_SubsidyReductionInterval : Z; np_Checkpoints : list Checkpoint;
  np_RuleChangeActivationThreshold : Z; np_MinerConfirmationWindow : Z; np_RelayNonStdTxs : bool;
}.

Definition MainNetParams : NetworkParams :=
  mkNetworkParams (str "mainnet") MainNetMagic MainNetDefaultPort (str "nc")
    0x34 0x0d 0xb4 0x00 0x00
    (of_Zs [0x04; 0x88; 0xb2; 0x1e]) (of_Zs [0x04; 0x88; 0xad; 0xe4]) 7
    genesisBlock MainNetGenesisHash
    (Z.shiftl 1 224 - 1) 0x1d00ffff (Hour * 24 * 14) (Minute * 10) 4 false 0 false 100 210000
    [mkCheckpoint 0 MainNetGenesisHash; mkCheckpoint 19200 mainnetBlock19200Hash] 1916 2016 false.

Definition TestNetParams : NetworkParams :=
  mkNetworkParams (str "testnet") TestNetMagic TestNetDefaultPort (str "tn")
    0x6f 0xc4 0xef 0x00 0x00
    (of_Zs [0x04; 0x35; 0x87; 0xcf]) (of_Zs [0x04; 0x35; 0x83; 0x94]) 1
    testNetGenesisBlock testNetGenesisHash
    (Z.shiftl 1 224 - 1) 0x1d00ffff (Hour * 24 * 14) (Minute * 10) 4 true (Minute * 20) false 100 210000
    [mkCheckpoint 0 testNetGenesisHash] 1512 2016 true.

Definition RegTestParams : NetworkParams :=
  mkNetworkParams (str "regtest") RegTestMagic RegTestDefaultPort (str "ncrt")
    0x6f 0xc4 0xef 0x00 0x00
    (of_Zs [0x04; 0x35; 0x87; 0xcf]) (of_Zs [0x04; 0x35; 0x83; 0x94]) 1
    regTestGenesisBlock regTestGenesisHash
    (Z.shiftl 1 255 - 1) 0x207fffff (Hour * 24 * 14) (Minute * 10) 4 true (Minute * 20) true 100 150
    [mkCheckpoint 0 regTestGenesisHash] 108 144 true.

(** The Merkle root of Namecoin's own genesis block, which the code does not have. *)
Definition namecoin_root : bytes :=
  be_bytes 32 0x0dcbd3e6f061215bf3b3383c8ce2ec201bc65acde32595449ac86890bd2dc641.

(** The fields that Config.v has. *)
Definition params_of (p : NetworkParams) : Params :=
  mkParams (np_Net p) (np_SubsidyReductionInterval p) (np_PowLimit p) (np_PowLimitBits p).

Lemma params_agree :
  params_of MainNetParams = NamecoinMainNetParams /\ params_of TestNetParams = NamecoinTestNetParams /\
  params_of RegTestParams = NamecoinRegTestParams.
Proof. by vm_compute. Qed.
