(* ===== verification/AuxPowSpec.v ===== *)
(** * Merged mining: round trips, Merkle proofs and commitments

    chain/auxpow.go, chain/block.go and chain/auxpow_validation.go: serialization
    round-trips; a branch taken from a Merkle tree is accepted and an accepted branch
    determines its leaf up to a hash collision; the search for the commitment counts
    exactly the positions where one starts; which blocks pass [validateAuxPow]. *)

From S2P Require Import Prelude Lru Config Wire AuxPow.

Section spec.
Context {W : Wire} {L : WireLaws W}.

Definition is_hash (h : bytes) : Prop := length h = 32%nat.

Record branch_ok (b : MerkleBranch) : Prop := {
  bo_hash : Forall is_hash (Branch b);
  bo_len : (length (Branch b) <= 32)%nat;
  bo_mask : is_uint32 (SideMask b);
}.

Record auxpow_ok (a : AuxPow) : Prop := {
  ao_hash : is_hash (ap_BlockHash a);
  ao_cb : branch_ok (CoinbaseBranch a);
  ao_chain : branch_ok (ChainMerkleBranch a);
  ao_tx : tx_fits (CoinbaseTx a);
  ao_parent : hdr_fits (ParentBlock a);
}.

(** ** Round trips *)

Lemma readHashes_app hs rest : Forall is_hash hs ->
  readHashes (length hs) (concat hs ++ rest) = (Ok hs, rest).
Proof.
  induction 1 as [|h hs Hh H IH]; [done|]. cbn [length readHashes concat].
  cbv [mbind M_bind wrapM]. rewrite <-app_assoc, ReadFull_app by done. cbn [wrap_err].
  by rewrite IH.
Qed.

Lemma branch_roundtrip b s rest : branch_ok b -> SerializeMerkleBranch b = Ok s ->
  DeserializeMerkleBranch (s ++ rest) = (Ok b, rest).
Proof.
  intros [Hh Hl Hm]. unfold SerializeMerkleBranch.
  destruct (Z.gtb_spec (Z.of_nat (length (Branch b))) 32); [lia|]. intros <-%Ok_inj.
  unfold DeserializeMerkleBranch. cbv [mbind M_bind wrapM]. rewrite <-!app_assoc.
  rewrite VarInt_roundtrip by lia. cbn [wrap_err].
  destruct (Z.gtb_spec (Z.of_nat (length (Branch b))) 32); [lia|].
  rewrite Nat2Z.id, readHashes_app by done.
  rewrite ReadFull_app by apply length_le_bytes. cbn [wrap_err].
  rewrite of_le_bytes. change (256 ^ Z.of_nat 4) with (2 ^ 32).
  cbv [mret M_ret]. destruct b as [hs m]. simpl in *. do 3 f_equal. by apply uint32_id.
Qed.

Lemma auxpow_roundtrip a s rest : auxpow_ok a -> SerializeAuxPow a = Ok s ->
  DeserializeAuxPow (s ++ rest) = (Ok a, rest).
Proof.
  intros [Hh Hcb Hcm Ht Hp]. unfold SerializeAuxPow.
  destruct (SerializeMerkleBranch (CoinbaseBranch a)) as [cb|] eqn:E1; [|done].
  destruct (SerializeMerkleBranch (ChainMerkleBranch a)) as [cm|] eqn:E2; [|done].
  cbn [wrap_err]. cbv [mbind res_bind mret res_ret]. intros <-%Ok_inj.
  unfold DeserializeAuxPow. cbv [mbind M_bind wrapM]. rewrite <-!app_assoc.
  rewrite tx_roundtrip by done. cbn [wrap_err]. rewrite ReadFull_app by done. cbn [wrap_err].
  rewrite (branch_roundtrip _ _ _ Hcb E1). cbn [wrap_err].
  rewrite (branch_roundtrip _ _ _ Hcm E2). cbn [wrap_err].
  rewrite hdr_roundtrip by done. cbn [wrap_err]. by destruct a.
Qed.

Lemma readTxs_app txs rest : Forall tx_fits txs ->
  readTxs (length txs) (concat (map tx_Serialize txs) ++ rest) = (Ok txs, rest).
Proof.
  induction 1 as [|t txs Ht _ IH]; [done|]. cbn [length readTxs map concat].
  cbv [mbind M_bind wrapM]. rewrite <-app_assoc, tx_roundtrip by done. cbn [wrap_err]. by rewrite IH.
Qed.

(** A block whose proof is present exactly when its version says so. *)
Record block_ok (b : Block) : Prop := {
  blk_bit : hasAuxPowBit (hdr_Version (Header b)) = bool_decide (is_Some (auxPow b));
  blk_aux : forall a, auxPow b = Some a -> auxpow_ok a;
  blk_txs : Z.of_nat (length (Transactions b)) <= maxTxPerBlock;
  blk_hdr : hdr_fits (Header b);
  blk_fits : Forall tx_fits (Transactions b);
}.

Lemma serialize_ok b : block_ok b -> exists s, Serialize b = Ok s.
Proof.
  intros [Hb Ha Ht Hh Hf]. unfold Serialize. destruct (auxPow b) as [a|] eqn:E; [|by eexists].
  destruct (Ha a eq_refl) as [_ [_ L1 _] [_ L2 _] _ _].
  unfold SerializeAuxPow, SerializeMerkleBranch.
  destruct (Z.gtb_spec (Z.of_nat (length (Branch (CoinbaseBranch a)))) 32); [lia|].
  destruct (Z.gtb_spec (Z.of_nat (length (Branch (ChainMerkleBranch a)))) 32); [lia|].
  destruct (HasAuxPow b); by eexists.
Qed.

Lemma block_roundtrip b s : block_ok b -> Serialize b = Ok s -> NewBlockFromBytes s = Ok b.
Proof.
  intros [Hb Ha Ht Hh Hf]. unfold Serialize, NewBlockFromBytes, NewBlockFromReader, HasAuxPow.
  rewrite Hb. unfold maxTxPerBlock in *.
  destruct (auxPow b) as [a|] eqn:E.
  - rewrite bool_decide_true by eauto. cbn [andb].
    destruct (SerializeAuxPow a) as [sa|] eqn:Es; [|done]. cbn [wrap_err].
    cbv [mbind res_bind mret res_ret]. intros <-%Ok_inj.
    cbv [M_bind M_ret wrapM]. rewrite hdr_roundtrip by done. cbn [wrap_err].
    rewrite Hb, bool_decide_true by eauto. rewrite (auxpow_roundtrip a sa) by eauto. cbn [wrap_err].
    rewrite VarInt_roundtrip by lia. cbn [wrap_err].
    destruct (Z.gtb_spec (Z.of_nat (length (Transactions b))) 100000); [lia|].
    rewrite Nat2Z.id. rewrite <-(app_nil_r (concat _)), readTxs_app by done. destruct b; simpl in *. by subst.
  - cbv [mbind res_bind mret res_ret]. intros <-%Ok_inj.
    cbv [M_bind M_ret wrapM]. rewrite hdr_roundtrip by done. cbn [wrap_err].
    rewrite Hb, bool_decide_false by by intros []. 
    rewrite app_nil_l, VarInt_roundtrip by lia. cbn [wrap_err].
    destruct (Z.gtb_spec (Z.of_nat (length (Transactions b))) 100000); [lia|].
    rewrite Nat2Z.id. rewrite <-(app_nil_r (concat _)), readTxs_app by done. destruct b; simpl in *. by subst.
Qed.

(** ** Merkle branches *)

(** A Merkle tree; a path from a leaf up: [true] when our side is the right one. *)
Inductive mtree := MLeaf (h : bytes) | MNode (l r : mtree).

Fixpoint mroot (t : mtree) : bytes :=
  match t with
  | MLeaf h => h
  | MNode l r => DoubleHashH (mroot l ++ mroot r)
  end.

(** The leaf at the end of a path from the root, and the siblings met, root first. *)
Fixpoint descend (t : mtree) (path : list bool) : option (bytes * list bytes) :=
  match t, path with
  | MLeaf h, [] => Some (h, [])
  | MNode l r, b :: path =>
      let '(mine, other) := if b : bool then (r, l) else (l, r) in
      '(h, sibs) ← descend mine path; Some (h, mroot other :: sibs)
  | _, _ => None
  end.

(** The mask whose bit [i] is the side at level [i], the leaf's level first. *)
Fixpoint mask_of (sides : list bool) : Z :=
  match sides with
  | [] => 0
  | b :: sides => (if b then 1 else 0) + 2 * mask_of sides
  end.

Fixpoint sides_up (sides : list bool) (hash : bytes) (sibs : list bytes) : bytes :=
  match sides, sibs with
  | b :: sides, s :: sibs => sides_up sides (combine (if b then 1 else 0) hash s) sibs
  | _, _ => hash
  end.

Lemma mask_of_range sides : 0 <= mask_of sides < 2 ^ Z.of_nat (length sides).
Proof.
  induction sides as [|b sides IH]; [done|]. cbn [mask_of length].
  rewrite Nat2Z.inj_succ, Z.pow_succ_r by lia. destruct b; lia.
Qed.

Lemma mask_bit sides i (b : bool) : sides !! i = Some b ->
  Z.land (Z.shiftr (mask_of sides) (Z.of_nat i)) 1 = if b then 1 else 0.
Proof.
  change 1 with (Z.ones 1) at 1. rewrite Z.land_ones by lia. change (2 ^ 1) with 2.
  revert i; induction sides as [|b' sides IH]; intros i E; [done|]. cbn [mask_of].
  destruct i as [|i]; simpl in E.
  - injection E as ->. rewrite Z.shiftr_0_r. rewrite Z.add_comm, Z.mul_comm, Z.add_mod by lia.
    rewrite Z.mod_mul by lia. by destruct b.
  - rewrite <-(IH i E). f_equal. rewrite Nat2Z.inj_succ, !Z.shiftr_div_pow2, Z.pow_succ_r by lia.
    rewrite <-Z.div_div by (try apply Z.pow_pos_nonneg; lia). f_equal.
    destruct b'; Z.div_mod_to_equations; lia.
Qed.

Lemma climb_sides sides sibs hash i mask : length sides = length sibs ->
  (forall j b, sides !! j = Some b ->
     Z.land (Z.shiftr mask (Z.of_nat (i + j))) 1 = if (b : bool) then 1 else 0) ->
  climb i mask hash sibs = sides_up sides hash sibs.
Proof.
  revert sibs hash i; induction sides as [|b sides IH]; intros [|s sibs] hash i Hl Hm;
    try done. cbn [climb sides_up].
  pose proof (Hm 0%nat b eq_refl) as H0. rewrite Nat.add_0_r in H0. rewrite H0.
  apply IH; [by injection Hl|]. intros j b' Hj. rewrite Nat.add_succ_comm. by apply Hm.
Qed.

Lemma sides_up_app s1 s2 l1 l2 hash : length s1 = length l1 ->
  sides_up (s1 ++ s2) hash (l1 ++ l2) = sides_up s2 (sides_up s1 hash l1) l2.
Proof.
  revert l1 hash; induction s1 as [|b s1 IH]; intros [|x l1] hash H; try done.
  simpl. apply IH. by injection H.
Qed.

Lemma descend_up t path h sibs : descend t path = Some (h, sibs) ->
  length path = length sibs /\ sides_up (rev path) h (rev sibs) = mroot t.
Proof.
  revert t h sibs; induction path as [|b path IH]; intros [h'|l r] h sibs E; simpl in E; try done.
  - by injection E as -> <-.
  - destruct b.
    + destruct (descend r path) as [[h1 s1]|] eqn:E1; [|done]. injection E as -> <-.
      destruct (IH _ _ _ E1) as [El Eu]. split; [simpl; lia|]. simpl.
      rewrite sides_up_app, Eu by (by rewrite !length_rev). done.
    + destruct (descend l path) as [[h1 s1]|] eqn:E1; [|done]. injection E as -> <-.
      destruct (IH _ _ _ E1) as [El Eu]. split; [simpl; lia|]. simpl.
      rewrite sides_up_app, Eu by (by rewrite !length_rev). done.
Qed.

Lemma CheckMerkleBranch_complete t path h sibs : descend t path = Some (h, sibs) ->
  CheckMerkleBranch h {| Branch := rev sibs; SideMask := mask_of (rev path) |} (mroot t) = true.
Proof.
  intros E. destruct (descend_up _ _ _ _ E) as [El Eu]. unfold CheckMerkleBranch. simpl.
  apply bool_decide_true. rewrite <-Eu. apply climb_sides; [by rewrite !length_rev|].
  intros j b Hj. apply (mask_bit (rev path) j b Hj).
Qed.

Lemma CheckMerkleBranch_root leaf b root :
  CheckMerkleBranch leaf b root = bool_decide (computeChainMerkleRoot leaf b = root).
Proof. done. Qed.

(** Two different byte strings with the same hash. *)
Definition collision : Prop := exists x y, x <> y /\ DoubleHashH x = DoubleHashH y.

Lemma combine_len s h x : is_hash (combine s h x).
Proof. unfold combine. destruct (s =? 0); apply DoubleHashH_len. Qed.

Lemma combine_inj s h h' x x' : is_hash h -> is_hash h' -> is_hash x -> is_hash x' ->
  combine s h x = combine s h' x' -> (h = h' /\ x = x') \/ collision.
Proof.
  intros Hh Hh' Hx Hx' E. unfold combine in E. destruct (s =? 0).
  - destruct (decide (h ++ x = h' ++ x')) as [K|K].
    + left. apply app_inj_1 in K as [-> ->]; [done|]. by rewrite Hh, Hh'.
    + right. by exists (h ++ x), (h' ++ x').
  - destruct (decide (x ++ h = x' ++ h')) as [K|K].
    + left. apply app_inj_1 in K as [-> ->]; [done|]. by rewrite Hx, Hx'.
    + right. by exists (x ++ h), (x' ++ h').
Qed.

Lemma climb_binding l1 l2 i mask h1 h2 : is_hash h1 -> is_hash h2 ->
  Forall is_hash l1 -> Forall is_hash l2 -> length l1 = length l2 ->
  climb i mask h1 l1 = climb i mask h2 l2 -> (h1 = h2 /\ l1 = l2) \/ collision.
Proof.
  revert l2 i h1 h2; induction l1 as [|x l1 IH]; intros [|y l2] i h1 h2 H1 H2 F1 F2 Hl E; try done.
  { by left. }
  apply Forall_cons in F1 as [Fx F1]. apply Forall_cons in F2 as [Fy F2]. simpl in E.
  apply IH in E as [[Ec ->]|C]; [|by right|apply combine_len..|done|done|by injection Hl].
  destruct (combine_inj _ _ _ _ _ H1 H2 Fx Fy Ec) as [[-> ->]|C]; [by left|by right].
Qed.

Lemma CheckMerkleBranch_binding leaf leaf' b b' root :
  is_hash leaf -> is_hash leaf' -> branch_ok b -> branch_ok b' ->
  length (Branch b) = length (Branch b') -> SideMask b = SideMask b' ->
  CheckMerkleBranch leaf b root = true -> CheckMerkleBranch leaf' b' root = true ->
  (leaf = leaf' /\ b = b') \/ collision.
Proof.
  intros H H' [F _ _] [F' _ _] Hl Hm E%bool_decide_eq_true E'%bool_decide_eq_true.
  rewrite <-E' in E. rewrite <-Hm in E.
  destruct (climb_binding _ _ _ _ _ _ H H' F F' Hl E) as [[-> Eb]|C]; [left|by right].
  split; [done|]. destruct b, b'; simpl in *; by subst.
Qed.

(** ** The commitment search *)

(** A commitment starts at position [i] of the coinbase data. *)
Definition commits_at (data root : bytes) (size : Z) (i : nat) : bool :=
  HasPrefix (drop i data) auxPowMagic && commitment_at (drop i data) root size.

Definition commit_positions (data root : bytes) (size : Z) : list nat :=
  filter (fun i => commits_at data root size i = true) (List.seq 0 (length data)).

Lemma bytes_Index_None s sep : bytes_Index s sep = None -> forall i, HasPrefix (drop i s) sep = false \/ (length s < i)%nat.
Proof.
  induction s as [|x s IH]; simpl; destruct (HasPrefix _ sep) eqn:P; try done; intros E i.
  - destruct i; [by left|right; simpl; lia].
  - destruct (bytes_Index s sep); [done|]. destruct i as [|i]; [by left|].
    destruct (IH eq_refl i) as [?|?]; [by left|right; lia].
Qed.

Lemma bytes_Index_Some s sep k : bytes_Index s sep = Some k ->
  HasPrefix (drop k s) sep = true /\ (k <= length s)%nat /\ forall i, (i < k)%nat -> HasPrefix (drop i s) sep = false.
Proof.
  revert k; induction s as [|x s IH]; intros k; simpl; destruct (HasPrefix _ sep) eqn:P.
  - intros [= <-]. split_and!; [done|simpl; lia|lia].
  - done.
  - intros [= <-]. split_and!; [done|lia|lia].
  - destruct (bytes_Index s sep) as [j|] eqn:E; [|done]. intros [= <-].
    destruct (IH j eq_refl) as (H1 & H2 & H3). split_and!; [done|lia|].
    intros [|i] Hi; [done|]. apply H3. lia.
Qed.

Lemma length_filter_seq_split (P : nat -> bool) n k : (k < n)%nat ->
  (forall i, (i < k)%nat -> P i = false) ->
  length (filter (fun i => P i = true) (List.seq 0 n)) =
  ((if P k then 1 else 0) + length (filter (fun i => P (i + (k + 1))%nat = true) (List.seq 0 (n - (k + 1)))))%nat.
Proof.
  intros Hk Hn. replace n with (k + (1 + (n - (k + 1))))%nat at 1 by lia.
  rewrite !seq_app, !filter_app, !length_app. simpl List.seq at 2.
  assert (filter (fun i => P i = true) (List.seq 0 k) = []) as ->.
  { assert (forall l, (forall i, i ∈ l -> P i = false) -> filter (fun i => P i = true) l = []) as K.
    { induction l as [|a l IH]; intros Hl; [done|]. rewrite filter_cons_False.
      - apply IH. intros. apply Hl. by right.
      - rewrite Hl by by left. done. }
    apply K. intros i Hi. apply Hn. apply elem_of_seq in Hi. lia. }
  rewrite filter_cons. simpl (0 + k)%nat. 
  assert (forall m o, length (filter (fun i => P i = true) (List.seq (o + k + 1) m)) =
     length (filter (fun i => P (i + (k + 1))%nat = true) (List.seq o m))) as K.
  { induction m as [|m IH]; intros o; [done|]. simpl List.seq. rewrite !filter_cons.
    replace (o + (k + 1))%nat with (o + k + 1)%nat by lia.
    specialize (IH (S o)). simpl in IH. case_decide; simpl; by rewrite IH. }
  specialize (K (n - (k + 1))%nat 0%nat). simpl in K. simpl. 
  destruct (P k); case_decide; try done; simpl; by rewrite K.
Qed.

Lemma countCommitments_positions fuel data root size : (length data < fuel)%nat ->
  countCommitments fuel data root size = Z.of_nat (length (commit_positions data root size)).
Proof.
  revert data; induction fuel as [|fuel IH]; intros data Hf; [lia|]. cbn [countCommitments].
  unfold commit_positions. destruct (bytes_Index data auxPowMagic) as [k|] eqn:E.
  - apply bytes_Index_Some in E as (H1 & H2 & H3).
    assert (k < length data)%nat as Hk.
    { destruct (Nat.eq_dec k (length data)) as [->|]; [|lia]. by rewrite drop_all in H1. }
    rewrite (length_filter_seq_split (commits_at data root size) _ k Hk).
    + unfold commits_at at 1. rewrite H1. cbn [andb].
      rewrite IH by (rewrite length_drop; lia). unfold commit_positions. rewrite length_drop.
      assert (forall n, filter (fun i => commits_at (drop (k + 1) data) root size i = true) (List.seq 0 n) =
         filter (fun i => commits_at data root size (i + (k + 1)) = true) (List.seq 0 n)) as ->.
      { intros n. apply list_filter_iff. intros i. unfold commits_at. rewrite drop_drop.
        by rewrite (Nat.add_comm (k + 1) i). }
      destruct (commitment_at (drop k data) root size); lia.
    + intros i Hi. unfold commits_at. by rewrite H3.
  - assert (forall l, filter (fun i => commits_at data root size i = true) l = []) as ->; [|done].
    induction l as [|i l IHl]; [done|]. rewrite filter_cons_False; [done|].
    unfold commits_at. destruct (bytes_Index_None _ _ E i) as [->|Hi]; [done|].
    rewrite drop_ge by lia. done.
Qed.

Lemma checkMergeMiningCommitment_iff data root n : 0 <= n < 32 ->
  checkMergeMiningCommitment data root n = Ok tt <->
  length (commit_positions data root (2 ^ n)) = 1%nat.
Proof.
  intros Hn. unfold checkMergeMiningCommitment.
  destruct (Z.ltb_spec n 0); [lia|]. destruct (Z.geb_spec n 32); [lia|]. cbn [orb]. cbv zeta.
  rewrite countCommitments_positions by lia.
  assert (uint32 (Z.shiftl 1 n) = 2 ^ n) as ->.
  { rewrite Z.shiftl_mul_pow2, Z.mul_1_l by lia. apply uint32_id. unfold is_uint32.
    split; [apply Z.pow_nonneg; lia|]. apply Z.lt_le_trans with (2 ^ 32); [|done].
    apply Z.pow_lt_mono_r; lia. }
  destruct (Z.gtb_spec (Z.of_nat (length (commit_positions data root (2 ^ n)))) 1).
  { split; [done|lia]. }
  destruct (Z.eqb_spec (Z.of_nat (length (commit_positions data root (2 ^ n)))) 0).
  { split; [done|lia]. }
  split; [lia|done].
Qed.

(** ** The target hash *)

Lemma big_Bytes_abs v : of_be (big_Bytes v) = Z.abs v.
Proof.
  unfold big_Bytes. destruct (Z.eqb_spec v 0) as [->|Hv]; [done|].
  rewrite of_be_bytes. apply Z.mod_small. split; [lia|].
  assert (0 < Z.abs v) as Hp by lia. pose proof (Z.log2_nonneg (Z.abs v)).
  apply Z.log2_lt_pow2 with (b := 8 * (Z.log2 (Z.abs v) / 8 + 1)) in Hp as [_ K].
  replace 256 with (2 ^ 8) by done. rewrite <-Z.pow_mul_r by lia.
  rewrite Z2Nat.id by (assert (0 <= Z.log2 (Z.abs v) / 8) by (apply Z.div_pos; lia); lia).
  apply K. Z.div_mod_to_equations. lia.
Qed.

Lemma of_le_zeros n : of_le (replicate n Byte.x00) = 0.
Proof. induction n; simpl; [done|]. by rewrite IHn. Qed.

Lemma targetHash_value v : (length (big_Bytes v) <= 32)%nat ->
  HashToBig (targetHash (big_Bytes v)) = Z.abs v /\ length (targetHash (big_Bytes v)) = 32%nat.
Proof.
  intros Hl. unfold targetHash. split.
  - rewrite HashToBig_le, of_le_app, of_le_zeros, Z.mul_0_r, Z.add_0_r.
    apply (big_Bytes_abs v).
  - rewrite length_app, length_rev, length_replicate. lia.
Qed.

(** ** Acceptance *)

(** What a proof must satisfy for the block with hash [h] and target [v]. *)
Definition proof_ok (ap : AuxPow) (h : bytes) (v : Z) : Prop :=
  HashToBig (BlockHash (ParentBlock ap)) <= Z.abs v /\
  CheckMerkleBranch (TxHash (CoinbaseTx ap)) (CoinbaseBranch ap) (MerkleRoot (ParentBlock ap)) = true /\
  validateChainCommitment ap h = Ok tt.

Lemma check_ok b e : check b e = Ok tt <-> b = true.
Proof. by destruct b. Qed.

Lemma verifyAuxPowProof_iff hdr ap h :
  verifyAuxPowProof hdr ap h = Ok tt <->
  (length (big_Bytes (CompactToBig (Bits hdr))) <= 32)%nat /\ proof_ok ap h (CompactToBig (Bits hdr)).
Proof.
  unfold verifyAuxPowProof. case_bool_decide as Hl; [split; [done|intros [? _]; lia]|].
  destruct (targetHash_value (CompactToBig (Bits hdr))) as [Ev _]; [lia|].
  unfold proof_ok, ValidateAuxPow, validateParentDifficulty, validateCoinbaseBranch. rewrite Ev.
  destruct (Z.leb_spec (HashToBig (BlockHash (ParentBlock ap))) (Z.abs (CompactToBig (Bits hdr))));
    [|split; [done|intros (_ & ? & _); lia]]. cbn [check]. cbv [mbind res_bind].
  destruct (CheckMerkleBranch _ _ _); [|split; [done|by intros (_ & _ & ? & _)]]. cbn [check].
  destruct (validateChainCommitment ap h) as [[]|]; cbn [wrap_err];
    (split; [intros; split_and!; [lia|done..]|by intros (_ & _ & _ & ?)]) || (split; [done|by intros (_ & _ & _ & ?)]).
Qed.

(** The height at which the block is checked requires a proof. *)
Definition needs_auxpow (bc : chain_view) (hdr : BlockHeader) (meta : Z) : Prop :=
  0 <= resolveBlockHeight bc hdr meta /\
  GetAuxPowActivationHeight (chainParams bc) <= resolveBlockHeight bc hdr meta.

Lemma validateAuxPow_correct bc hdr meta c : lru_inv c ->
  let '(r, c') := validateAuxPow bc hdr meta c in
  lru_inv c' /\
  (r = Ok tt <->
    (needs_auxpow bc hdr meta ->
     hasAuxPowBit (hdr_Version hdr) = true /\
     ExtractChainIDFromVersion (hdr_Version hdr) = NamecoinChainID /\
     exists ap, cached c (BlockHash hdr) = Some ap /\
       (length (big_Bytes (CompactToBig (Bits hdr))) <= 32)%nat /\
       proof_ok ap (BlockHash hdr) (CompactToBig (Bits hdr)))) /\
  (needs_auxpow bc hdr meta -> r = Ok tt -> cached c' (BlockHash hdr) = None).
Proof.
  intros Inv. unfold validateAuxPow, needs_auxpow. set (h := resolveBlockHeight bc hdr meta).
  destruct (Z.ltb_spec h 0); [split_and!; [done|split; [lia|done]|lia]|].
  destruct (Z.ltb_spec h (GetAuxPowActivationHeight (chainParams bc)));
    [split_and!; [done|split; [lia|done]|lia]|].
  unfold verifyAuxPowVersionBit. destruct (hasAuxPowBit (hdr_Version hdr)); cbn [check]; cycle 1.
  { split_and!; [done| |done]. split; [done|]. intros K. by destruct K as [? _]. }
  pose proof (cached_Get (BlockHash hdr) c Inv) as Hg.
  pose proof (proj1 (lru_Get_refines (BlockHash hdr) c Inv)) as Ig.
  destruct (lru_Get (BlockHash hdr) c) as [ap c1]. simpl in Hg, Ig. subst ap.
  pose proof (proj1 (lru_Delete_refines (BlockHash hdr) c1 Ig)) as Id.
  assert (cached (lru_Delete (BlockHash hdr) c1).2 (BlockHash hdr) = None) as Hn.
  { rewrite cached_after_Delete by done. by rewrite decide_True. }
  destruct (cached c (BlockHash hdr)) as [ap|]; cycle 1.
  { split_and!; [done| |done]. split; [done|]. intros K.
    destruct K as (_ & _ & ap & ? & _); [done|congruence]. }
  split_and!; [done| |done]. unfold verifyChainID.
  destruct (Z.eqb_spec (ExtractChainIDFromVersion (hdr_Version hdr)) NamecoinChainID) as [Ec|Ec];
    cbn [check]; cbv [mbind res_bind].
  - rewrite verifyAuxPowProof_iff. split.
    + intros K _. eauto.
    + intros K. destruct K as (_ & _ & ap' & [= <-] & ?); done.
  - split; [done|]. intros K. destruct K as (_ & ? & _); done.
Qed.

End spec.
