(* ===== verification/Encryption.v ===== *)
(** * Encryption of the wallet: wallet/encryption.go

    The cryptographic primitives are the class [Crypto] with their documented
    behaviour [CryptoLaws]: scrypt is a third-party package, AES-GCM and the source of
    randomness belong to Go's crypto packages.  The password rules, the formats and the
    order of the calls are the code's. *)

From S2P Require Import Prelude Strings Base64.

Class Crypto := {
  rng : Type;                                           (* the state of crypto/rand *)
  rand_Read : nat -> M rng bytes;                       (* io.ReadFull(rand.Reader, buf of n bytes) *)
  scrypt_Key : bytes -> bytes -> Z -> Z -> Z -> nat -> res bytes;
  gcm_Seal : bytes -> bytes -> bytes -> bytes;          (* of a key: nonce, plaintext *)
  gcm_Open : bytes -> bytes -> bytes -> res bytes;      (* of a key: nonce, ciphertext *)
}.

(** A read is as long as asked for; scrypt succeeds for the work factors in use; what was
    sealed with a key of AES-256 and a nonce opens with them. *)
Class CryptoLaws (K : Crypto) := {
  rand_Read_len n s b s' : rand_Read n s = (Ok b, s') -> length b = n;
  scrypt_Key_ok pw salt N : N ∈ [16384; 32768; 65536] ->
    exists k, scrypt_Key pw salt N 8 1 32 = Ok k /\ length k = 32%nat;
  gcm_Open_Seal key nonce plaintext : length key = 32%nat -> length nonce = 12%nat ->
    gcm_Open key nonce (gcm_Seal key nonce plaintext) = Ok plaintext;
}.

Definition scryptN : Z := 32768.
Definition scryptR : Z := 8.
Definition scryptP : Z := 1.
Definition keyLen : nat := 32.
Definition saltLen : nat := 32.
Definition nonceLen : nat := 12.
Definition legacyPasswordHashVersion : Z := 1.
Definition currentPasswordHashVersion : Z := 2.
Definition legacyPasswordHashN : Z := 16384.
Definition currentPasswordHashN : Z := 65536.

Record encryptedData := mkEncryptedData {
  Salt : bytes;
  Nonce : bytes;
  Ciphertext : bytes;
}.

(** An AES-GCM cipher: its key. *)
Record AEAD := mkAEAD { aead_key : bytes }.
Definition NonceSize (gcm : AEAD) : nat := 12.

Section encryption.
Context {K : Crypto}.

Definition deriveKey (password salt : bytes) : res bytes :=
  if bool_decide (length password = 0%nat) then Err (EMsg "password cannot be empty")
  else if bool_decide (length salt <> saltLen) then Err (EMsg "invalid salt length: %d (expected %d)")
  else wrap_err "failed to derive key" (scrypt_Key password salt scryptN scryptR scryptP keyLen).

(** [aes.NewCipher] takes keys of 16, 24 and 32 bytes. *)
Definition buildCipherGCM (key : bytes) : res AEAD :=
  if bool_decide (length key = 16 \/ length key = 24 \/ length key = 32)%nat then Ok (mkAEAD key)
  else Err (EWrap "failed to create cipher" (EMsg "crypto/aes: invalid key size ")).

Definition encrypt (plaintext password : bytes) : M rng encryptedData :=
  salt ← wrapM "failed to generate salt" (rand_Read saltLen);
  key ← lift (deriveKey password salt);
  gcm ← lift (buildCipherGCM key);
  nonce ← wrapM "failed to generate nonce" (rand_Read (NonceSize gcm));
  mret {| Salt := salt; Nonce := nonce; Ciphertext := gcm_Seal (aead_key gcm) nonce plaintext |}.

(** [None] is a nil pointer. *)
Definition decrypt (data : option encryptedData) (password : bytes) : res bytes :=
  match data with
  | None => Err (EMsg "encrypted data cannot be nil")
  | Some data =>
      key ← deriveKey password (Salt data);
      gcm ← buildCipherGCM key;
      if bool_decide (length (Nonce data) <> NonceSize gcm) then
        Err (EMsg "invalid nonce size: %d (expected %d)")
      else wrap_err "failed to decrypt" (gcm_Open (aead_key gcm) (Nonce data) (Ciphertext data))
  end.

(** ** Passwords *)

Definition validatePasswordLength (password : bytes) : res unit :=
  if bool_decide (length password < 8)%nat then Err (EMsg "password must be at least 8 characters long")
  else if bool_decide (256 < length password)%nat then Err (EMsg "password must be at most 256 characters long")
  else Ok tt.

(** The loop of [countPasswordCharacterTypes]: lower, upper, digit, special.  It ranges
    over code points; the bytes of one outside ASCII are all above '~', as it is. *)
Fixpoint password_types (password : bytes) (seen : bool * bool * bool * bool) : res (bool * bool * bool * bool) :=
  match password with
  | [] => Ok seen
  | b :: password =>
      let ch := Z_of_byte b in
      let '(lower, upper, digit, special) := seen in
      if (97 <=? ch) && (ch <=? 122) then password_types password (true, upper, digit, special)
      else if (65 <=? ch) && (ch <=? 90) then password_types password (lower, true, digit, special)
      else if (48 <=? ch) && (ch <=? 57) then password_types password (lower, upper, true, special)
      else if (ch <? 32) || (ch >? 126) then Err (EMsg "password contains invalid characters")
      else password_types password (lower, upper, digit, true)
  end.

Definition boolCount (values : list bool) : Z := Z.of_nat (length (filter Is_true values)).

Definition countPasswordCharacterTypes (password : bytes) : res Z :=
  '(hasLower, hasUpper, hasDigit, hasSpecial) ← password_types password (false, false, false, false);
  mret (boolCount [hasLower; hasUpper; hasDigit; hasSpecial]).

Definition validatePassword (password : bytes) : res unit :=
  _ ← validatePasswordLength password;
  typeCount ← countPasswordCharacterTypes password;
  if typeCount <? 2 then
    Err (EMsg "password must contain at least 2 of: lowercase, uppercase, digits, or special characters")
  else Ok tt.

Definition passwordHashScryptN (version : Z) : res Z :=
  if (version =? 0) || (version =? legacyPasswordHashVersion) then Ok legacyPasswordHashN
  else if version =? currentPasswordHashVersion then Ok currentPasswordHashN
  else Err (EMsg "unsupported password hash version: %d").

Definition hashPasswordWithVersion (password salt : bytes) (version : Z) : res bytes :=
  n ← passwordHashScryptN version;
  wrap_err "failed to hash password" (scrypt_Key password salt n 8 1 32).

(** It panics where the other reports an error. *)
Definition hashPassword (password salt : bytes) : res bytes :=
  match hashPasswordWithVersion password salt currentPasswordHashVersion with
  | Ok hash => Ok hash
  | Err _ => Err (EPanic "scrypt password hashing failed with fixed parameters: %v")
  end.

Definition generatePasswordSalt : M rng bytes :=
  wrapM "failed to generate password salt" (rand_Read 32).

(** ** Storage *)

Definition colon : byte := Byte.x3a.

Definition encodeEncryptedData (data : encryptedData) : bytes :=
  b64_EncodeToString (Salt data) ++ [colon] ++ b64_EncodeToString (Nonce data) ++ [colon] ++
  b64_EncodeToString (Ciphertext data).

Definition decodeEncryptedData (encoded : bytes) : res encryptedData :=
  match Split encoded colon with
  | [p0; p1; p2] =>
      salt ← wrap_err "failed to decode salt" (b64_DecodeString p0);
      nonce ← wrap_err "failed to decode nonce" (b64_DecodeString p1);
      ciphertext ← wrap_err "failed to decode ciphertext" (b64_DecodeString p2);
      mret (mkEncryptedData salt nonce ciphertext)
  | _ => Err (EMsg "invalid encrypted data format")
  end.

(** ** Facts *)

Lemma b64_no_colon b : colon ∉ b64_EncodeToString b.
Proof.
  intros Hin. pose proof (b64_encode_plain b) as F. rewrite Forall_forall in F.
  destruct (F _ Hin) as [Hn _]. apply Hn. unfold colon. set_solver.
Qed.

Lemma decode_encode_Encrypted data : decodeEncryptedData (encodeEncryptedData data) = Ok data.
Proof.
  unfold decodeEncryptedData, encodeEncryptedData. cbn [app].
  rewrite !Split_app by apply b64_no_colon. rewrite Split_none by apply b64_no_colon.
  rewrite !b64_roundtrip. by destruct data.
Qed.

Lemma encodeEncryptedData_ascii data : Forall (fun c => Z_of_byte c < 128) (encodeEncryptedData data).
Proof.
  assert (forall b, Forall (fun c => Z_of_byte c < 128) (b64_EncodeToString b)) as H.
  { intros b. eapply Forall_impl; [apply b64_encode_plain|]. by intros c []. }
  unfold encodeEncryptedData. rewrite !Forall_app. split_and!; auto; by repeat constructor.
Qed.

Context {L : CryptoLaws K}.

Lemma deriveKey_ok password salt : password <> [] -> length salt = 32%nat ->
  exists k, deriveKey password salt = Ok k /\ length k = 32%nat.
Proof.
  intros Hp Hs. destruct (scrypt_Key_ok password salt scryptN) as (k & E & Hk); [unfold scryptN; set_solver|].
  exists k. split; [|done]. unfold deriveKey, saltLen. rewrite bool_decide_false by (by destruct password).
  rewrite bool_decide_false by tauto. simpl. unfold scryptR, scryptP, keyLen. by rewrite E.
Qed.

(** What was encrypted is decrypted with the same password. *)
Lemma decrypt_encrypt plaintext password s data s' :
  password <> [] -> encrypt plaintext password s = (Ok data, s') -> decrypt (Some data) password = Ok plaintext.
Proof.
  intros Hp. unfold encrypt, mbind, M_bind, wrapM, lift.
  destruct (rand_Read saltLen s) as [[salt|e] s1] eqn:Er; simpl; [|done].
  pose proof (rand_Read_len _ _ _ _ Er) as Hs. destruct (deriveKey_ok password salt Hp Hs) as (k & Ek & Hk). rewrite Ek.
  unfold buildCipherGCM. rewrite bool_decide_true by lia. simpl. unfold NonceSize.
  destruct (rand_Read 12 s1) as [[nonce|e] s2] eqn:En; simpl; [|done]. intros [= <- <-].
  pose proof (rand_Read_len _ _ _ _ En) as Hn. unfold decrypt. cbn [Salt Nonce Ciphertext]. rewrite Ek.
  cbv [mbind res_bind]. unfold buildCipherGCM. rewrite bool_decide_true by lia.
  rewrite bool_decide_false by tauto. simpl. by rewrite gcm_Open_Seal.
Qed.

Lemma hashPasswordWithVersion_ok password salt version : version ∈ [0; 1; 2] ->
  exists h, hashPasswordWithVersion password salt version = Ok h /\ length h = 32%nat.
Proof.
  intros Hv. unfold hashPasswordWithVersion, passwordHashScryptN.
  assert (exists n, n ∈ [16384; 32768; 65536] /\ (if (version =? 0) || (version =? legacyPasswordHashVersion)
    then Ok legacyPasswordHashN else if version =? currentPasswordHashVersion then Ok currentPasswordHashN
    else Err (EMsg "unsupported password hash version: %d")) = Ok n) as (n & Hn & ->).
  { rewrite !elem_of_cons in Hv. destruct Hv as [->|[->|[->|Hv]]]; [..|by apply not_elem_of_nil in Hv].
    - exists 16384. split; [set_solver|done].
    - exists 16384. split; [set_solver|done].
    - exists 65536. split; [set_solver|done]. }
  destruct (scrypt_Key_ok password salt n Hn) as (h & E & Hl). exists h. split; [|done].
  cbv [mbind res_bind]. by rewrite E.
Qed.

End encryption.
