(* ===== verification/Mempool.v ===== *)
(** * The transaction pool

    network/mempool.go.  The pool is a map from transaction hashes to entries; the
    validator it calls is the interface [TxValidator], which the chain implements.
    Every operation runs under the pool's mutex; [time.Now()] is an argument.  A
    transaction is a value here: [AddTx] and the readers copy it ([tx.Copy()]), so no
    caller shares memory with the pool. *)

From S2P Require Import Prelude Clock Wire.

(** The interface [TxValidator]; [V] is the state the implementation works on. *)
Class TxValidator (V : Type) := validator_Validate : MsgTx -> M V unit.

(** What a client of the interface relies on: in a good state the validator accepts
    a transaction of the wire exactly when it is acceptable there, and stays good. *)
Class TxValidatorLaws (V : Type) {T : TxValidator V} := {
  val_inv : V -> Prop;
  val_wire : MsgTx -> Prop;
  val_acceptable : V -> MsgTx -> Prop;
  val_spec v tx : val_inv v -> val_wire tx ->
    wp (validator_Validate tx) (fun _ v' => val_inv v' /\ val_acceptable v tx)
      (fun _ v' => val_inv v' /\ ~ val_acceptable v tx) v;
}.

Record mempoolTx := mkMempoolTx {
  mp_tx : MsgTx;
  addedAt : Z;
  lastSeen : Z;
}.

Record Mempool := mkMempool {
  txs : gmap bytes mempoolTx;
  validator : bool;          (* the interface value is not nil *)
  maxTxs : Z;
  txExpiry : Z;
  cleanupTick : Z;
}.

Record MempoolConfig := mkMempoolConfig {
  Validator : bool;
  MaxTxs : Z;
  TxExpiry : Z;
  CleanupTick : Z;
}.

Definition set_txs (t : gmap bytes mempoolTx) (mp : Mempool) : Mempool :=
  {| txs := t; validator := validator mp; maxTxs := maxTxs mp; txExpiry := txExpiry mp;
     cleanupTick := cleanupTick mp |}.

(** [None] is a nil configuration. *)
Definition NewMempoolWithConfig (cfg : option MempoolConfig) : Mempool :=
  let cfg := default (mkMempoolConfig false 0 0 0) cfg in
  {| txs := ∅;
     validator := Validator cfg;
     maxTxs := if MaxTxs cfg <=? 0 then 5000 else MaxTxs cfg;
     txExpiry := if TxExpiry cfg <=? 0 then 24 * Hour else TxExpiry cfg;
     cleanupTick := if CleanupTick cfg <=? 0 then 10 * Minute else CleanupTick cfg |}.

Definition NewMempool : Mempool := NewMempoolWithConfig None.

Section mempool.
Context {W : Wire} {R : MapRange} {V : Type} {T : TxValidator V}.

Definition on_mp {A} (m : M Mempool A) : M (Mempool * V) A := zoom fst (fun mp s => (mp, s.2)) m.
Definition on_validator {A} (m : M V A) : M (Mempool * V) A := zoom snd (fun v s => (s.1, v)) m.

(** The loop deletes from the map it ranges over. *)
Definition cleanupExpired (now : Z) (mp : Mempool) : Mempool :=
  set_txs (foldl (fun m '(hash, mtx) =>
    if Sub now (addedAt mtx) >? txExpiry mp then delete hash m else m)
    (txs mp) (range (txs mp))) mp.

Definition AddTx (now : Z) (tx : option MsgTx) : M (Mempool * V) unit :=
  match tx with
  | None => fail (EMsg "cannot add nil transaction")
  | Some tx =>
      let txHash := TxHash tx in
      '(mp, _) ← get;
      match txs mp !! txHash with
      | Some mtx =>
          on_mp (modify (set_txs (<[txHash := mkMempoolTx (mp_tx mtx) (addedAt mtx) now]> (txs mp))))
      | None =>
          if Z.of_nat (size (txs mp)) >=? maxTxs mp then
            fail (EMsg "mempool is full (%d transactions)")
          else
            (if validator mp then
               wrapM "transaction validation failed" (on_validator (validator_Validate tx))
             else mret tt);;
            on_mp (modify (set_txs (<[txHash := mkMempoolTx tx now now]> (txs mp))))
      end
  end.

Definition RemoveTx (txHash : bytes) (mp : Mempool) : Mempool :=
  set_txs (delete txHash (txs mp)) mp.

Definition RemoveTxs (txHashes : list bytes) (mp : Mempool) : Mempool :=
  if bool_decide (txHashes = []) then mp
  else set_txs (foldl (fun m h => delete h m) (txs mp) txHashes) mp.

(** [None] is [nil, false]. *)
Definition GetTx (txHash : bytes) (mp : Mempool) : option MsgTx := mp_tx <$> txs mp !! txHash.
Definition HasTx (txHash : bytes) (mp : Mempool) : bool := bool_decide (is_Some (txs mp !! txHash)).
Definition Count (mp : Mempool) : Z := Z.of_nat (size (txs mp)).
Definition GetAll (mp : Mempool) : list MsgTx := (fun p => mp_tx p.2) <$> range (txs mp).
Definition Clear (mp : Mempool) : Mempool := set_txs ∅ mp.

(** ** What the loops compute *)

Lemma cleanupExpired_filter now mp :
  txs (cleanupExpired now mp) =
  filter (fun p => Sub now (addedAt p.2) <= txExpiry mp) (txs mp).
Proof.
  unfold cleanupExpired. simpl.
  rewrite (foldl_delete_range (fun mtx => Sub now (addedAt mtx) >? txExpiry mp)).
  apply map_filter_ext. intros h e _. simpl. lia.
Qed.

Lemma RemoveTxs_lookup hs mp h :
  txs (RemoveTxs hs mp) !! h = if bool_decide (h ∈ hs) then None else txs mp !! h.
Proof.
  unfold RemoveTxs. case_bool_decide as E; [subst; simpl; done|]. clear E. simpl.
  generalize (txs mp). induction hs as [|k hs IH]; intros m; [done|]. simpl. rewrite IH.
  destruct (decide (h = k)) as [->|].
  - rewrite lookup_delete_eq. rewrite (bool_decide_true (k ∈ k :: hs)) by set_solver. by case_match.
  - rewrite lookup_delete_ne by done. do 2 case_bool_decide; set_solver.
Qed.

Lemma GetAll_perm mp : GetAll mp ≡ₚ (fun p => mp_tx p.2) <$> map_to_list (txs mp).
Proof. unfold GetAll. by rewrite range_perm. Qed.

End mempool.
