(* ===== verification/Chain.v ===== *)
(** * Validation of blocks and transactions

    The checks of chain/blockchain.go: the block checks of [ProcessBlock] (proof of
    work, version, AuxPow, subsidy, name operations) and those of
    [ValidateMempoolTransaction].  They read the name database (whose cache [GetName]
    may fill); [bc] is what they read of the [BlockChain] besides it. *)

From S2P Require Import Prelude Bolt Lru Record NameDB Utxo Config Script Wire AuxPow.

(** btcutil.Block: the message block and the height it carries, -1 while unset. *)
Record btcBlock := mkBtcBlock {
  blk_Header : BlockHeader;
  blk_Height : Z;           (* int32 *)
  blk_Txs : list MsgTx;
}.

(** The functions of btcd the code calls: [btcutil.Hash160], the encoded addresses
    of [txscript.ExtractPkScriptAddrs] and [blockchain.CheckProofOfWork]. *)
Class BtcLib := {
  Hash160 : bytes -> bytes;
  ExtractPkScriptAddrs : bytes -> Params -> res (list bytes);
  CheckProofOfWork : BlockHeader -> Z -> res unit;
}.

(** The state of the checks of one block: the map entries are always [true]. *)
Record nameValidationContext := mkCtx {
  seenNameNewCommits : gset bytes;
  seenNames : gset bytes;
}.

Definition newNameValidationContext : nameValidationContext :=
  {| seenNameNewCommits := ∅; seenNames := ∅ |}.

Definition add_commit (c : bytes) (ctx : nameValidationContext) : nameValidationContext :=
  {| seenNameNewCommits := {[c]} ∪ seenNameNewCommits ctx; seenNames := seenNames ctx |}.
Definition add_name (nm : bytes) (ctx : nameValidationContext) : nameValidationContext :=
  {| seenNameNewCommits := seenNameNewCommits ctx; seenNames := {[nm]} ∪ seenNames ctx |}.

Section chain.
Context {B : Bolt} {W : Wire} {G : BtcLib} {R : MapRange}.

(** The checks of a block run on the database and the context. *)
Abbreviation V := (M (NameDatabase * nameValidationContext)).

Definition on_ndb {A} (m : M NameDatabase A) : V A := zoom fst (fun n s => (n, s.2)) m.
Definition get_ctx : V nameValidationContext := s ← get; mret s.2.
Definition set_ctx (f : nameValidationContext -> nameValidationContext) : V unit :=
  modify (fun s => (s.1, f s.2)).

(** ** Heights *)

(** [block.Height()] is used when the parent's height is not known. *)
Definition determineBlockHeight (bc : chain_view) (block : btcBlock) : res Z :=
  let prevHash := PrevBlock (blk_Header block) in
  let height :=
    if negb (chain_nil bc) && negb (bool_decide (prevHash = zero_hash)) then
      match BlockHeightByHash bc prevHash with
      | Some parentHeight => int32 (parentHeight + 1)
      | None => -1
      end
    else -1 in
  if height <? 0 then
    let height := blk_Height block in
    if height <? 0 then Err (EMsg "cannot determine block height") else Ok height
  else Ok height.

Definition resolveSubsidyHeight (bc : chain_view) (block : btcBlock) : Z :=
  match determineBlockHeight bc block with Ok height => height | Err _ => -1 end.

Definition requiresChildPoWCheck (bc : chain_view) (height : Z) : bool :=
  (height >=? 0) && (height <? GetAuxPowActivationHeight (chainParams bc)).

Definition validateProofOfWork (bc : chain_view) (block : btcBlock) : res unit :=
  CheckProofOfWork (blk_Header block) (PowLimit (chainParams bc)).

Definition validateBlockVersion (bc : chain_view) (block : btcBlock) : res unit :=
  let prevHash := PrevBlock (blk_Header block) in
  let indexed :=
    if negb (chain_nil bc) && negb (bool_decide (prevHash = zero_hash)) then
      match BlockHeightByHash bc prevHash with
      | Some parentHeight => int32 (parentHeight + 1)
      | None => -1
      end
    else -1 in
  let height := if indexed <? 0 then blk_Height block else indexed in
  if height <? 0 then Ok tt
  else
    if height >=? GetAuxPowActivationHeight (chainParams bc) then
      if negb (hasAuxPowBit (hdr_Version (blk_Header block))) then
        Err (EMsg "block version 0x%x at height %d missing required AuxPow version bit 0x%x (activation height: %d)")
      else Ok tt
    else Ok tt.

(** ** Values and fees *)

Fixpoint sumOutputs (totalOutputValue : Z) (outs : list TxOut) : res Z :=
  match outs with
  | [] => Ok totalOutputValue
  | txOut :: outs =>
      if (totalOutputValue >? 0) && (to_Value txOut >? 0) &&
         (totalOutputValue >? int64 (MaxInt64 - to_Value txOut))
      then Err (EMsg "transaction output value overflow: %d + %d")
      else sumOutputs (int64 (totalOutputValue + to_Value txOut)) outs
  end.

Definition sumOutputValues (tx : MsgTx) : res Z := sumOutputs 0 (TxOuts tx).

(** The loop of [sumInputValues]; the boolean says the check is skipped. *)
Fixpoint sumInputs (totalInputValue : Z) (ins : list TxIn) (height : Z) :
    M NameDatabase (Z * bool) :=
  match ins with
  | [] => mret (totalInputValue, false)
  | txIn :: ins =>
      let op := PreviousOutPoint txIn in
      utxo ← try (GetUTXO (Some (op_Hash op)) (op_Index op));
      match utxo with
      | Err err =>
          if height <? UTXOTrackingStartHeight then mret (0, true)
          else fail (EWrap "cannot validate transaction fee: UTXO %s:%d not found at height %d" err)
      | Ok utxo =>
          if u_Value utxo <? 0 then fail (EMsg "negative UTXO value %d at %s:%d")
          else if (totalInputValue >? 0) && (u_Value utxo >? 0) &&
                  (totalInputValue >? int64 (MaxInt64 - u_Value utxo))
          then fail (EMsg "transaction input value overflow: %d + %d")
          else sumInputs (int64 (totalInputValue + u_Value utxo)) ins height
      end
  end.

Definition sumInputValues (tx : MsgTx) (height : Z) : M NameDatabase (Z * bool) :=
  sumInputs 0 (TxIns tx) height.

Definition minFeeOf (opType : NameOperation) : Z :=
  match opType with
  | NameNew => MinRelayTxFee
  | NameFirstUpdate | NameUpdate => MinNameOperationFee
  end.

Definition validateMinFee (fee : Z) (opType : NameOperation) : res unit :=
  if fee <? 0 then Err (EMsg "transaction fee cannot be negative: %d satoshis")
  else if fee <? minFeeOf opType then
    Err (EMsg "transaction fee %d satoshis below minimum %d satoshis for %s")
  else Ok tt.

Definition validateTransactionFee (tx : MsgTx) (opType : NameOperation) (height : Z) :
    M NameDatabase unit :=
  if bool_decide (TxIns tx = []) then
    fail (EMsg "transaction has no inputs (cannot validate fee)")
  else
    '(totalInputValue, skip) ← sumInputValues tx height;
    if skip : bool then mret tt
    else
      totalOutputValue ← lift (sumOutputValues tx);
      lift (validateMinFee (int64 (totalInputValue - totalOutputValue)) opType).

(** [computeBlockFees]'s loop over the transactions after the coinbase. *)
Fixpoint sumFees (totalFees : Z) (txs : list MsgTx) (height : Z) : M NameDatabase (Z * bool) :=
  match txs with
  | [] => mret (totalFees, false)
  | tx :: txs =>
      '(inputSum, skip) ← sumInputValues tx height;
      if skip : bool then mret (0, true)
      else
        outputSum ← lift (sumOutputValues tx);
        let fee := int64 (inputSum - outputSum) in
        sumFees (if fee >? 0 then int64 (totalFees + fee) else totalFees) txs height
  end.

Definition computeBlockFees (bc : chain_view) (txs : list MsgTx) (height : Z) :
    M NameDatabase (Z * bool) :=
  if nameDB_nil bc || bool_decide (txs = []) then mret (0, false)
  else sumFees 0 txs height.

Definition validateCoinbaseSubsidy (totalOutput maxSubsidy totalFees : Z) : res unit :=
  if totalOutput >? int64 (maxSubsidy + totalFees) then
    Err (EMsg "coinbase output %d exceeds maximum block subsidy %d plus fees %d at height %d")
  else Ok tt.

Definition validateBlockSubsidy (bc : chain_view) (block : btcBlock) : M NameDatabase unit :=
  match blk_Txs block with
  | [] => fail (EMsg "block has no transactions")
  | coinbase :: txs =>
      totalOutput ← lift (sumOutputValues coinbase);
      let height := resolveSubsidyHeight bc block in
      if height <? 0 then mret tt
      else
        let maxSubsidy := CalcBlockSubsidy height (chainParams bc) in
        '(totalFees, skipFeeCheck) ← computeBlockFees bc txs height;
        if skipFeeCheck : bool then mret tt
        else lift (validateCoinbaseSubsidy totalOutput maxSubsidy totalFees)
  end.

(** ** Name operations of a block *)

Definition validateNameNewOp (txOut : TxOut) (extra : bytes) : V unit :=
  if to_Value txOut <? DustLimit then
    fail (EMsg "name_new output value %d below dust limit %d in tx %s")
  else
    ctx ← get_ctx;
    if bool_decide (extra ∈ seenNameNewCommits ctx) then
      fail (EMsg "duplicate name_new commitment in block (tx: %s)")
    else
      set_ctx (add_commit extra);;
      r ← try (on_ndb (GetNameNew extra));
      match r with
      | Ok _ => fail (EMsg "name_new commitment already exists (tx: %s)")
      | Err _ => mret tt
      end.

Definition validateNamedTxOut (txOut : TxOut) (name : bytes) : V unit :=
  if to_Value txOut <? DustLimit then fail (EMsg "%s output value %d below dust limit %d in tx %s")
  else
    ctx ← get_ctx;
    if bool_decide (name ∈ seenNames ctx) then
      fail (EMsg "duplicate name operation in block for name: %s (tx: %s)")
    else set_ctx (add_name name).

Definition ensureNameAvailableForFirstUpdate (name : bytes) (height : Z) : M NameDatabase unit :=
  existingRecord ← try (GetName name);
  match existingRecord with
  | Err err =>
      if is_not_found err then mret tt
      else fail (EWrap "failed to check existing name %s" err)
  | Ok existingRecord =>
      if ExpiresAt existingRecord >=? height then
        fail (EMsg "name already exists and is not expired: %s (expires at %d, current height %d, tx: %s)")
      else mret tt
  end.

Definition validateFirstUpdateWindow (commitHash : bytes) (height : Z) : M NameDatabase unit :=
  nameNewRecord ← try (GetNameNew commitHash);
  match nameNewRecord with
  | Err _ => fail (EMsg "no matching name_new found for name: %s (tx: %s)")
  | Ok nameNewRecord =>
      if height <? nn_Height nameNewRecord then
        fail (EMsg "name_firstupdate before name_new: block %d < name_new block %d (name: '%s', tx: %s)")
      else
        let blocksSinceNew := int32 (height - nn_Height nameNewRecord) in
        if blocksSinceNew <? MinBlocksBeforeFirstUpdate then
          fail (EMsg "name_firstupdate too early: %d blocks since name_new, minimum %d required (name: '%s', tx: %s)")
        else if blocksSinceNew >? MaxBlocksBeforeFirstUpdate then
          fail (EMsg "name_firstupdate too late: %d blocks since name_new, maximum %d allowed (commitment expired) (name: '%s', tx: %s)")
        else mret tt
  end.

Definition validateNameFirstUpdateOp (txOut : TxOut) (name extra : bytes) (height : Z) : V unit :=
  validateNamedTxOut txOut name;;
  on_ndb (ensureNameAvailableForFirstUpdate name height);;
  on_ndb (validateFirstUpdateWindow (computeCommitHash Hash160 extra name) height).

(** Some input spends the outpoint. *)
Definition spends (msgTx : MsgTx) (txHash : bytes) (outIndex : Z) : bool :=
  existsb (fun txIn => bool_decide (op_Hash (PreviousOutPoint txIn) = txHash) &&
                       (op_Index (PreviousOutPoint txIn) =? outIndex)) (TxIns msgTx).

Definition validateNameUpdateOp (msgTx : MsgTx) (txOut : TxOut) (name : bytes) (height : Z) : V unit :=
  validateNamedTxOut txOut name;;
  record ← try (on_ndb (GetName name));
  match record with
  | Err err =>
      if is_not_found err then fail (EMsg "name not found for update: %s (tx: %s)")
      else fail (EWrap "failed to get name %s for update" err)
  | Ok record =>
      if ExpiresAt record <? height then
        fail (EMsg "name expired: %s (expires at block %d, current %d, tx: %s)")
      else if negb (spends msgTx (Record.TxHash record) (OutIndex record)) then
        fail (EMsg "name_update does not spend current name UTXO (tx=%s, out=%d): name theft attempt for %s (tx: %s)")
      else mret tt
  end.

Definition dispatchNameOpValidation (msgTx : MsgTx) (txOut : TxOut) (op : NameOperation)
    (name extra : bytes) (height : Z) : V unit :=
  match op with
  | NameNew => validateNameNewOp txOut extra
  | NameFirstUpdate => validateNameFirstUpdateOp txOut name extra height
  | NameUpdate => validateNameUpdateOp msgTx txOut name height
  end.

(** One output of [validateNameOutputs]; not a name script: [continue]. *)
Definition validateNameOutput (msgTx : MsgTx) (height : Z) (txOut : TxOut) : V unit :=
  match parseNameScriptFull (PkScript txOut) with
  | Err _ => mret tt
  | Ok (op, name, value, extra) =>
      dispatchNameOpValidation msgTx txOut op name extra height;;
      if bool_decide (op <> NameNew) then
        wrapM "%w (name: '%s', tx: %s)" (lift (validateConsensusNameFormat name value))
      else mret tt
  end.

Definition validateNameOutputs (msgTx : MsgTx) (height : Z) : V unit :=
  forM (TxOuts msgTx) (validateNameOutput msgTx height).

Definition collectNameOperationTypes (msgTx : MsgTx) : gmap NameOperation unit :=
  foldl (fun ops txOut =>
    match parseNameScriptFull (PkScript txOut) with
    | Ok (op, _, _, _) => <[op:=tt]> ops
    | Err _ => ops
    end) ∅ (TxOuts msgTx).

Definition validateNameOpFees (msgTx : MsgTx) (nameOpTypes : gmap NameOperation unit)
    (txIdx : nat) (height : Z) : M NameDatabase unit :=
  if bool_decide (nameOpTypes = ∅) || bool_decide (txIdx = 0%nat) then mret tt
  else forM (range nameOpTypes) (fun opType =>
    wrapM "invalid transaction fee for %s in tx %s" (validateTransactionFee msgTx opType.1 height)).

Definition validateTransactionNameOps (tx : MsgTx) (txIdx : nat) (height : Z) : V unit :=
  on_ndb (validateNameOpFees tx (collectNameOperationTypes tx) txIdx height);;
  validateNameOutputs tx height.

(** The block's transactions with their indexes. *)
Definition indexed {A} (l : list A) : list (nat * A) := zip (List.seq 0 (length l)) l.

Definition validateNameOperations (bc : chain_view) (block : btcBlock) : M NameDatabase unit := fun n =>
  match determineBlockHeight bc block with
  | Err e => (Err (EWrap "cannot determine block height for name validation" e), n)
  | Ok height =>
      let '(r, s) := forM (indexed (blk_Txs block))
          (fun it => validateTransactionNameOps it.2 it.1 height)
          (n, newNameValidationContext) in
      (r, s.1)
  end.

(** ** The mempool's checks, at the height of the best block *)

Definition validateNameNew (commitHash : bytes) : M NameDatabase unit :=
  r ← try (GetNameNew commitHash);
  match r with
  | Ok _ => fail (EMsg "name_new commitment already exists")
  | Err _ => mret tt
  end.

Definition validateNameFirstUpdate (name value extra : bytes) (currentHeight : Z) :
    M NameDatabase unit :=
  existingRecord ← try (GetName name);
  (match existingRecord with
   | Ok existingRecord =>
       if ExpiresAt existingRecord >=? currentHeight then
         fail (EMsg "name already exists and not expired: %s (expires at block %d)")
       else mret tt
   | Err err =>
       if negb (is_not_found err) then fail (EWrap "failed to check existing name %s" err)
       else mret tt
   end);;
  nameNewRecord ← try (GetNameNew (computeCommitHash Hash160 extra name));
  match nameNewRecord with
  | Err _ => fail (EMsg "no matching name_new found for name: %s")
  | Ok nameNewRecord =>
      if currentHeight <? nn_Height nameNewRecord then
        fail (EMsg "name_firstupdate before name_new: block %d < name_new block %d (name: '%s')")
      else
        let blocksSinceNameNew := int32 (currentHeight - nn_Height nameNewRecord) in
        if blocksSinceNameNew <? MinBlocksBeforeFirstUpdate then
          fail (EMsg "name_firstupdate too early: must wait %d blocks after name_new (current: %d blocks)")
        else if blocksSinceNameNew >? MaxBlocksBeforeFirstUpdate then
          fail (EMsg "name_firstupdate expired: name_new commitment is too old (must reveal within %d blocks, current: %d blocks)")
        else wrapM "invalid name format" (lift (validateConsensusNameFormat name value))
  end.

Definition validateNameUpdate (name value : bytes) (tx : MsgTx) (currentHeight : Z) :
    M NameDatabase unit :=
  record ← try (GetName name);
  match record with
  | Err err =>
      if is_not_found err then fail (EMsg "name not found for update: %s")
      else fail (EWrap "failed to get name %s for update" err)
  | Ok record =>
      if ExpiresAt record <? currentHeight then
        fail (EMsg "name expired: %s (expired at block %d, current %d)")
      else if negb (spends tx (Record.TxHash record) (OutIndex record)) then
        fail (EMsg "name_update does not spend current name UTXO: name theft attempt for %s")
      else wrapM "invalid name format" (lift (validateConsensusNameFormat name value))
  end.

Definition validateNameOperation (op : NameOperation) (name value extra : bytes) (tx : MsgTx)
    (currentHeight : Z) : M NameDatabase unit :=
  match op with
  | NameNew => validateNameNew extra
  | NameFirstUpdate => validateNameFirstUpdate name value extra currentHeight
  | NameUpdate => validateNameUpdate name value tx currentHeight
  end.

(** The loop over the outputs; [hasNameOp] says one was seen. *)
Fixpoint validateNameOpsFrom (hasNameOp : bool) (outs : list TxOut) (tx : MsgTx)
    (currentHeight : Z) : M NameDatabase bool :=
  match outs with
  | [] => mret hasNameOp
  | txOut :: outs =>
      if bool_decide (PkScript txOut = []) then validateNameOpsFrom hasNameOp outs tx currentHeight
      else match parseNameScriptFull (PkScript txOut) with
      | Err _ => validateNameOpsFrom hasNameOp outs tx currentHeight
      | Ok (op, name, value, extra) =>
          if hasNameOp then fail (EMsg "transaction has multiple name operations (not allowed)")
          else if to_Value txOut <? DustLimit then
            fail (EMsg "name operation output index %d has value %d below dust limit %d")
          else
            validateNameOperation op name value extra tx currentHeight;;
            wrapM "fee validation failed" (validateTransactionFee tx op currentHeight);;
            validateNameOpsFrom true outs tx currentHeight
      end
  end.

Definition validateNameOperationsInTx (tx : MsgTx) (currentHeight : Z) : M NameDatabase bool :=
  validateNameOpsFrom false (TxOuts tx) tx currentHeight.

Definition validateRegularTransaction (tx : MsgTx) : res unit :=
  if bool_decide (TxOuts tx = []) then Err (EMsg "transaction has no outputs")
  else match TxIns tx with
  | [] => Err (EMsg "transaction has no inputs")
  | txIn :: _ =>
      if bool_decide (op_Hash (PreviousOutPoint txIn) = zero_hash)
      then Err (EMsg "coinbase transactions not allowed in mempool")
      else Ok tt
  end.

(** [bestHeight] is [BestSnapshot().Height]; [None] is a nil transaction. *)
Definition ValidateMempoolTransaction (bestHeight : Z) (tx : option MsgTx) : M NameDatabase unit :=
  match tx with
  | None => fail (EMsg "transaction is nil")
  | Some tx =>
      hasNameOp ← validateNameOperationsInTx tx bestHeight;
      if negb hasNameOp then lift (validateRegularTransaction tx) else mret tt
  end.

(** ** name_script.go: the operations of a transaction, for the RPC server *)

Record NameOperationInfo := mkOpInfo {
  oi_OpType : NameOperation;
  oi_Name : bytes;
  oi_Value : bytes;
  oi_TxHash : bytes;
  oi_OutputIndex : nat;
}.

(** [namedb.NameOperation(0)] is [NameNew]. *)
Definition ParseNameOperationsFromTx (tx : MsgTx) : list NameOperationInfo :=
  omap (fun '(i, txOut) =>
    match parseNameScript (PkScript txOut) with
    | Ok (opType, name, value) =>
        if bool_decide (opType <> NameNew) then
          Some {| oi_OpType := opType; oi_Name := name; oi_Value := value;
                  oi_TxHash := TxHash tx; oi_OutputIndex := i |}
        else None
    | Err _ => None
    end) (indexed (TxOuts tx)).

End chain.
