(* ===== verification/ChainUpdate.v ===== *)
(** * Connecting and disconnecting blocks

    chain/blockchain.go: what a block of the main chain does to the name database
    ([updateNameDatabase]), what its disconnection undoes ([rollbackNameOperations])
    and [ProcessBlock], which puts the checks of Chain.v and btcd's own block
    processing around them.  btcd's chain is the class [Btcd]: a state, and a step
    that gives the notifications it sends while it processes a block.  Messages to
    the log and metrics are not modelled; an error that is only logged is dropped
    here as well. *)

From S2P Require Import Prelude Bolt Lru Record NameDB Utxo Config Script Wire AuxPow Chain.

Inductive NotificationType := NTBlockAccepted | NTBlockConnected | NTBlockDisconnected.

(** [Data] as a *btcutil.Block, [None] when it is something else. *)
Record Notification := mkNotification { nt_Type : NotificationType; nt_Data : option btcBlock }.

(** What btcd's [ProcessBlock] returns: [pr_block] is the block after the call,
    which sets its height. *)
Record process_result (S : Type) := mkProcess {
  pr_isMainChain : bool;
  pr_isOrphan : bool;
  pr_err : option error;
  pr_notifications : list Notification;
  pr_block : btcBlock;
  pr_state : S;
}.
Arguments pr_isMainChain {S}. Arguments pr_isOrphan {S}. Arguments pr_err {S}.
Arguments pr_notifications {S}. Arguments pr_block {S}. Arguments pr_state {S}.

Class Btcd := {
  btcd_state : Type;
  btcd_BlockHeightByHash : btcd_state -> bytes -> option Z;
  btcd_BestHeight : btcd_state -> Z;
  BFNoPoWCheck : Z;
  btcd_ProcessBlock : btcBlock -> Z -> btcd_state -> process_result btcd_state;
}.

Section update.
Context {B : Bolt} {W : Wire} {G : BtcLib} {R : MapRange}.

(** ** Connecting a block *)

(** [name] is what [GetExpiredNames] listed. *)
Definition expireOne (height : Z) (name : bytes) : M NameDatabase unit :=
  record ← try (GetName name);
  (match record with
   | Ok record =>
       wrapM "failed to store expired name %s for rollback" (StoreExpiredName (Some record) height)
   | Err _ => mret tt
   end);;
  DeleteName name;;
  DeleteHistory name.

Definition handleExpiredNames (height : Z) : M NameDatabase unit :=
  expired ← GetExpiredNames height;
  forM expired (expireOne height).

(** One input of [processTransactionInputs]. *)
Definition processInput (height : Z) (txIn : TxIn) : M NameDatabase unit :=
  let op := PreviousOutPoint txIn in
  utxo ← try (GetUTXO (Some (op_Hash op)) (op_Index op));
  (match utxo with
   | Ok utxo => wrapM "store spent UTXO %s:%d at height %d" (StoreSpentUTXO (Some utxo) height)
   | Err _ => mret tt
   end);;
  _ ← try (RemoveUTXO (Some (op_Hash op)) (op_Index op));
  mret tt.

Definition processTransactionInputs (msgTx : MsgTx) (height : Z) : M NameDatabase unit :=
  forM (TxIns msgTx) (processInput height).

(** The UTXO of an output; the address is [""] when none is extracted. *)
Definition utxo_of (params : Params) (txHash : bytes) (outIdx : nat) (txOut : TxOut) (height : Z) : UTXO :=
  {| u_TxHash := txHash; u_OutIndex := uint32 (Z.of_nat outIdx); u_Value := to_Value txOut;
     u_Address := match ExtractPkScriptAddrs (PkScript txOut) params with
                  | Ok (a :: _) => a
                  | _ => []
                  end;
     u_PkScript := PkScript txOut; u_Height := height |}.

Definition addUTXO (params : Params) (txHash : bytes) (outIdx : nat) (txOut : TxOut) (height : Z) :
    M NameDatabase unit :=
  wrapM "failed to add UTXO %s:%d" (AddUTXO (Some (utxo_of params txHash outIdx txOut height))).

Definition processNameNew (commitHash : bytes) (height : Z) : M NameDatabase unit :=
  PutNameNew commitHash height.

Definition safeCalcExpiresAt (height : Z) : Z :=
  if height >? int32 (MaxInt32 - NameExpirationBlocks) then MaxInt32
  else int32 (height + NameExpirationBlocks).

Definition getNameNewHeight (extra name : bytes) (currentHeight : Z) : M NameDatabase Z :=
  nameNewRecord ← try (GetNameNew (computeCommitHash Hash160 extra name));
  match nameNewRecord with
  | Ok nameNewRecord => mret (nn_Height nameNewRecord)
  | Err _ =>
      let nameNewHeight := int32 (currentHeight - MinBlocksBeforeFirstUpdate) in
      mret (if nameNewHeight <? 0 then 0 else nameNewHeight)
  end.

(** The record both operations write. *)
Definition op_record (params : Params) (txHash : bytes) (outIdx : nat) (txOut : TxOut)
    (name value : bytes) (height blockTime nameNewHeight : Z) : NameRecord :=
  {| Name := name; Value := value; Record.TxHash := txHash; OutIndex := uint32 (Z.of_nat outIdx);
     Height := height; ExpiresAt := safeCalcExpiresAt height;
     Address := extractAddressFromNameScript ExtractPkScriptAddrs (PkScript txOut) (Some params);
     UpdatedAt := blockTime; NameNewHeight := nameNewHeight |}.

(** [PutName] sets the name of the record the caller holds. *)
Definition processNameFirstUpdate (params : Params) (txHash : bytes) (outIdx : nat) (txOut : TxOut)
    (name value extra : bytes) (height blockTime : Z) : M NameDatabase unit :=
  nameNewHeight ← getNameNewHeight extra name height;
  record ← PutName name
    (Some (op_record params txHash outIdx txOut name value height blockTime nameNewHeight));
  AddHistory txHash (Some record);;
  DeleteNameNew (computeCommitHash Hash160 extra name).

Definition processNameUpdate (params : Params) (txHash : bytes) (outIdx : nat) (txOut : TxOut)
    (name value : bytes) (height blockTime : Z) : M NameDatabase unit :=
  prevRecord ← try (GetName name);
  let nameNewHeight := match prevRecord with Ok p => NameNewHeight p | Err _ => 0 end in
  record ← PutName name
    (Some (op_record params txHash outIdx txOut name value height blockTime nameNewHeight));
  AddHistory txHash (Some record).

Definition processNameOperation (params : Params) (txHash : bytes) (outIdx : nat) (txOut : TxOut)
    (height blockTime : Z) : M NameDatabase unit :=
  match parseNameScriptFull (PkScript txOut) with
  | Err _ => mret tt
  | Ok (NameNew, _, _, extra) => processNameNew extra height
  | Ok (NameFirstUpdate, name, value, extra) =>
      processNameFirstUpdate params txHash outIdx txOut name value extra height blockTime
  | Ok (NameUpdate, name, value, _) =>
      processNameUpdate params txHash outIdx txOut name value height blockTime
  end.

Definition processTransactionOutputs (params : Params) (tx : MsgTx) (height blockTime : Z) :
    M NameDatabase unit :=
  let txHash := TxHash tx in
  forM (indexed (TxOuts tx)) (fun '(outIdx, txOut) =>
    addUTXO params txHash outIdx txOut height;;
    processNameOperation params txHash outIdx txOut height blockTime).

Definition processBlockTransactions (params : Params) (block : btcBlock) (height blockTime : Z) :
    M NameDatabase unit :=
  forM (indexed (blk_Txs block)) (fun '(txIdx, tx) =>
    (if bool_decide (0 < txIdx)%nat then processTransactionInputs tx height else mret tt);;
    processTransactionOutputs params tx height blockTime).

Definition RetentionDepth : Z := 1000.

Definition cleanupSpentUTXOsIfNeeded (height : Z) : M NameDatabase unit :=
  if (height >? RetentionDepth) && (Z.rem height 100 =? 0) then
    _ ← try (CleanupOldSpentUTXOs (int32 (height - RetentionDepth))); mret tt
  else mret tt.

Definition cleanupOldExpiredNamesIfNeeded (height : Z) : M NameDatabase unit :=
  if (height >? RetentionDepth) && (Z.rem height 100 =? 0) then
    _ ← try (CleanupOldExpiredNames (int32 (height - RetentionDepth))); mret tt
  else mret tt.

Definition updateNameDatabase (params : Params) (block : btcBlock) : M NameDatabase unit :=
  let height := blk_Height block in
  let blockTime := Timestamp (blk_Header block) in
  handleExpiredNames height;;
  processBlockTransactions params block height blockTime;;
  cleanupSpentUTXOsIfNeeded height;;
  cleanupOldExpiredNamesIfNeeded height.

(** ** Disconnecting a block *)

(** The commitments restored so far; errors are collected and the loop goes on. *)
Abbreviation RB := (M (NameDatabase * gset bytes)).

Definition on_rb {A} (m : M NameDatabase A) : RB A := zoom fst (fun n s => (n, s.2)) m.

(** [if err := m(); err != nil { errs = append(errs, err) }] over the items of a list. *)
Fixpoint collect {S A} (l : list A) (f : A -> M S unit) : M S (list error) :=
  match l with
  | [] => mret []
  | x :: l =>
      r ← try (f x);
      errs ← collect l f;
      mret (match r with Ok _ => errs | Err e => e :: errs end)
  end.

Definition join_errors (msg : string) (errs : list error) : res unit :=
  match errs with [] => Ok tt | _ => Err (EWrap msg (EJoin errs)) end.

Definition rollbackTransactionUTXOs (tx : MsgTx) : M NameDatabase unit :=
  let txHash := TxHash tx in
  errs ← collect (List.seq 0 (length (TxOuts tx))) (fun outIdx =>
    wrapM "failed to remove created UTXO %s:%d"
      (RemoveUTXO (Some txHash) (uint32 (Z.of_nat outIdx))));
  lift (join_errors "rollback UTXOs for tx %s" errs).

Definition rollbackNameNew (extra : bytes) : RB unit :=
  s ← get;
  if bool_decide (extra ∈ s.2) then mret tt else on_rb (DeleteNameNew extra).

Definition getNameNewHeightForRollback (name : bytes) (blockHeight : Z) : M NameDatabase Z :=
  nameRecord ← try (GetName name);
  let fallback :=
    let nameNewHeight := int32 (blockHeight - MinBlocksBeforeFirstUpdate) in
    if nameNewHeight <? 0 then 0 else nameNewHeight in
  match nameRecord with
  | Ok nameRecord =>
      mret (if negb (NameNewHeight nameRecord =? 0) then NameNewHeight nameRecord else fallback)
  | Err _ => mret fallback
  end.

Definition rollbackNameFirstUpdate (name extra : bytes) (blockHeight : Z) : RB unit :=
  nameNewHeight ← on_rb (getNameNewHeightForRollback name blockHeight);
  _ ← on_rb (wrapM "failed to remove history for %s" (RemoveLastHistoryEntry name));
  on_rb (wrapM "failed to delete name %s" (DeleteName name));;
  let commitHash := computeCommitHash Hash160 extra name in
  on_rb (wrapM "failed to restore NAME_NEW for %s" (RestoreNameNew commitHash nameNewHeight));;
  modify (fun s => (s.1, {[commitHash]} ∪ s.2)).

Definition rollbackNameUpdate (name : bytes) : M NameDatabase unit :=
  prevRecord ← wrapM "failed to remove history for %s" (RemoveLastHistoryEntry name);
  match prevRecord with
  | None => mret tt
  | Some prevRecord =>
      _ ← wrapM "failed to restore previous record for %s" (PutName name (Some prevRecord));
      mret tt
  end.

(** One output of [rollbackTransactionNameOps]. *)
Definition rollbackOutput (blockHeight : Z) (txOut : TxOut) : RB unit :=
  match parseNameScriptFull (PkScript txOut) with
  | Err _ => mret tt
  | Ok (NameNew, _, _, extra) => wrapM "NAME_NEW rollback failed" (rollbackNameNew extra)
  | Ok (NameFirstUpdate, name, _, extra) =>
      wrapM "NAME_FIRSTUPDATE rollback for %s failed" (rollbackNameFirstUpdate name extra blockHeight)
  | Ok (NameUpdate, name, _, _) =>
      wrapM "NAME_UPDATE rollback for %s failed" (on_rb (rollbackNameUpdate name))
  end.

Definition rollbackTransactionNameOps (tx : MsgTx) (blockHeight : Z) : RB unit :=
  errs ← collect (rev (TxOuts tx)) (rollbackOutput blockHeight);
  lift (join_errors "rollback name operations for tx %s" errs).

(** The errors are logged; they are the result here. *)
Definition rollbackNameOperations (block : btcBlock) : M NameDatabase (list error) := fun n =>
  let height := blk_Height block in
  let m : RB (list error) :=
    e1 ← collect [tt] (fun _ =>
      on_rb (wrapM "failed to restore expired names for block %d" (RestoreExpiredNamesForBlock height)));
    e2 ← collect (concat ((fun tx => [(false, tx); (true, tx)]) <$> rev (blk_Txs block)))
      (fun '(ops, tx) =>
        if ops : bool then rollbackTransactionNameOps tx height
        else on_rb (rollbackTransactionUTXOs tx));
    e3 ← collect [tt] (fun _ =>
      on_rb (wrapM "failed to restore spent UTXOs for block %d" (RestoreSpentUTXOsForBlock height)));
    mret (e1 ++ e2 ++ e3) in
  let '(r, s) := m (n, ∅) in (r, s.1).

Definition HandleBlockchainNotification (notification : Notification) : M NameDatabase unit :=
  match nt_Type notification with
  | NTBlockAccepted | NTBlockConnected => mret tt
  | NTBlockDisconnected =>
      match nt_Data notification with
      | None => mret tt
      | Some block => _ ← try (rollbackNameOperations block); mret tt
      end
  end.

(** ** ProcessBlock *)

Section blockchain.
Context {D : Btcd} (params : Params).

Record BlockChain := mkBlockChain {
  nameDB : NameDatabase;
  auxPowCache : lruCache bytes AuxPow;
  btcd : btcd_state;
}.

Definition set_nameDB (n : NameDatabase) (bc : BlockChain) : BlockChain :=
  {| nameDB := n; auxPowCache := auxPowCache bc; btcd := btcd bc |}.
Definition set_auxPowCache (c : lruCache bytes AuxPow) (bc : BlockChain) : BlockChain :=
  {| nameDB := nameDB bc; auxPowCache := c; btcd := btcd bc |}.
Definition set_btcd (s : btcd_state) (bc : BlockChain) : BlockChain :=
  {| nameDB := nameDB bc; auxPowCache := auxPowCache bc; btcd := s |}.

Definition in_nameDB {A} (m : M NameDatabase A) : M BlockChain A := zoom nameDB set_nameDB m.

(** A chain made by [NewBlockChain]: neither pointer is nil. *)
Definition view_of (bc : BlockChain) : chain_view :=
  {| chain_nil := false; nameDB_nil := false;
     BlockHeightByHash := btcd_BlockHeightByHash (btcd bc); chainParams := params |}.

(** [SetBlockAuxPowFromBytes] *)
Definition SetBlockAuxPowFromBytes (blockHash serializedBlock : bytes) : M BlockChain unit :=
  if bool_decide (length serializedBlock < 80)%nat then mret tt
  else
    let version := of_le (take 4 serializedBlock) in
    if Z.land version AuxPowVersionBit =? 0 then mret tt
    else
      block ← wrapM "failed to deserialize block with AuxPow" (lift (NewBlockFromBytes serializedBlock));
      match auxPow block with
      | None => mret tt
      | Some a => modify (fun bc => set_auxPowCache (lru_Put blockHash a (auxPowCache bc)).2 bc)
      end.

Definition validateBlockForProcessing (block : btcBlock) (height : Z) : M BlockChain unit :=
  bc ← get;
  let v := view_of bc in
  wrapM "invalid proof of work for block %s at height %d"
    (lift (if negb (requiresChildPoWCheck v height) then Ok tt else validateProofOfWork v block));;
  wrapM "invalid block version for block %s at height %d" (lift (validateBlockVersion v block));;
  wrapM "invalid AuxPow for block %s at height %d"
    (zoom auxPowCache set_auxPowCache (validateAuxPow v (blk_Header block) (blk_Height block)));;
  wrapM "invalid block subsidy for block %s at height %d" (in_nameDB (validateBlockSubsidy v block));;
  wrapM "invalid name operations in block %s at height %d" (in_nameDB (validateNameOperations v block)).

(** btcd sends its notifications while it processes the block. *)
Definition processBtcdBlock (block : btcBlock) (flags height : Z) :
    M BlockChain (process_result btcd_state) := fun bc =>
  let btcdFlags :=
    if height >=? GetAuxPowActivationHeight params then Z.lor flags BFNoPoWCheck else flags in
  let p := btcd_ProcessBlock block btcdFlags (btcd bc) in
  (_ ← in_nameDB (forM (pr_notifications p) HandleBlockchainNotification);
   modify (set_btcd (pr_state p));;
   mret p) bc.

Definition updateMainChainNames (block : btcBlock) (isMainChain : bool) : M BlockChain unit :=
  if negb isMainChain then mret tt
  else wrapM "failed to update name database for block %s at height %d"
         (in_nameDB (updateNameDatabase params block)).

(** Returns (isMainChain, isOrphan, err). *)
Definition ProcessBlock (block : btcBlock) (flags : Z) : M BlockChain (bool * bool * option error) :=
  bc ← get;
  let height := resolveBlockHeight (view_of bc) (blk_Header block) (blk_Height block) in
  v ← try (validateBlockForProcessing block height);
  match v with
  | Err e => mret (false, false, Some e)
  | Ok _ =>
      p ← processBtcdBlock block flags height;
      match pr_err p with
      | Some e => mret (pr_isMainChain p, pr_isOrphan p, Some e)
      | None =>
          u ← try (updateMainChainNames (pr_block p) (pr_isMainChain p));
          mret (pr_isMainChain p, pr_isOrphan p, match u with Ok _ => None | Err e => Some e end)
      end
  end.

(** [VerifyBlock] and the mempool check, on the same state. *)
Definition VerifyBlock (block : btcBlock) : M BlockChain unit :=
  bc ← get; in_nameDB (validateNameOperations (view_of bc) block).

Definition validateMempool (tx : option MsgTx) : M BlockChain unit :=
  bc ← get; in_nameDB (ValidateMempoolTransaction (btcd_BestHeight (btcd bc)) tx).

End blockchain.
End update.
