(* ===== verification/Wallet.v ===== *)
(** * The wallet: keys, storage and locking of wallet/wallet.go

    A wallet is a map from addresses to key pairs with its encryption state.  The code
    of btcec and btcutil (keys, addresses) is the class [KeyLib], the wallet file is the
    class [Disk], its JSON text the class [WalletJson]; the directory is fixed.
    Zeroing the bytes of a password before its slice is dropped has no effect on the
    state.  A method runs under the wallet's mutex: it is one step on a [World]. *)

From S2P Require Import Prelude Config Script Wire Chain Encryption.

Class KeyLib {K : Crypto} := {
  privkey : Type;                                       (* *btcec.PrivateKey *)
  pubkey : Type;                                        (* *btcec.PublicKey *)
  address : Type;                                       (* btcutil.Address *)
  NewPrivateKey : M rng privkey;
  PrivKeyFromBytes : bytes -> privkey * pubkey;
  PubKey : privkey -> pubkey;
  priv_Serialize : privkey -> bytes;
  SerializeCompressed : pubkey -> bytes;
  NewAddressPubKeyHash : bytes -> Params -> res address;
  EncodeAddress : address -> bytes;
}.

(** A private key is 32 bytes, which determine it; an address of a hash of 20 bytes is
    text in ASCII. *)
Class KeyLaws {K : Crypto} (L : KeyLib) := {
  priv_Serialize_len k : length (priv_Serialize k) = 32%nat;
  PrivKeyFromBytes_Serialize k : PrivKeyFromBytes (priv_Serialize k) = (k, PubKey k);
  NewAddressPubKeyHash_ok h p : length h = 20%nat -> exists a, NewAddressPubKeyHash h p = Ok a;
  EncodeAddress_ascii a : Forall (fun c => Z_of_byte c < 128) (EncodeAddress a);
}.

Definition ErrNotExist : error := EMsg "file does not exist".
Definition IsNotExist (err : error) : bool :=
  match err with EMsg msg => bool_decide (msg = "file does not exist"%string) | _ => false end.

(** The file of the wallet and its directory.  A write that fails may leave anything. *)
Class Disk := {
  disk : Type;
  ReadFile : disk -> res bytes;
  MkdirAll : M disk unit;
  WriteFile : bytes -> M disk unit;
}.

Class DiskLaws (D : Disk) := {
  ReadFile_WriteFile data d d' : WriteFile data d = (Ok tt, d') -> ReadFile d' = Ok data;
  ReadFile_MkdirAll d r d' : MkdirAll d = (r, d') -> ReadFile d' = ReadFile d;
}.

Record keyData := mkKeyData { PrivateKeyHex : bytes; kd_Address : bytes }.
Record walletData := mkWalletData {
  Version : Z;
  Encrypted : bool;
  PasswordHash : bytes;
  PasswordSalt : bytes;
  PasswordHashVersion : Z;
  Keys : list keyData;
}.

Class WalletJson := {
  MarshalIndent : walletData -> res bytes;
  Unmarshal : bytes -> res walletData;
}.

(** JSON represents every string of ASCII and every int. *)
Definition json_fits (wd : walletData) : Prop :=
  Forall (fun c => Z_of_byte c < 128) (PasswordHash wd) /\ Forall (fun c => Z_of_byte c < 128) (PasswordSalt wd) /\
  is_int64 (Version wd) /\ is_int64 (PasswordHashVersion wd) /\
  Forall (fun kd => Forall (fun c => Z_of_byte c < 128) (PrivateKeyHex kd) /\
    Forall (fun c => Z_of_byte c < 128) (kd_Address kd)) (Keys wd).

Class JsonLaws (J : WalletJson) :=
  Unmarshal_Marshal wd : json_fits wd -> exists data, MarshalIndent wd = Ok data /\ Unmarshal data = Ok wd.

Section wallet.
Context {K : Crypto} {L : KeyLib} {D : Disk} {J : WalletJson} {G : BtcLib} {R : MapRange}.

Record KeyPair := mkKeyPair {
  PrivateKey : privkey;
  PublicKey : pubkey;
  kp_Address : address;
}.

Record Wallet := mkWallet {
  chainParams : Params;
  keys : gmap bytes KeyPair;
  encrypted : bool;
  locked : bool;
  passwordHash : bytes;
  passwordSalt : bytes;
  passwordHashVersion : Z;
  unlockPassword : bytes;       (* empty when nil *)
}.

Record World := mkWorld { wallet : Wallet; file : disk; entropy : rng }.

Definition set_keys (f : gmap bytes KeyPair -> gmap bytes KeyPair) (w : Wallet) : Wallet :=
  {| chainParams := chainParams w; keys := f (keys w); encrypted := encrypted w; locked := locked w;
     passwordHash := passwordHash w; passwordSalt := passwordSalt w;
     passwordHashVersion := passwordHashVersion w; unlockPassword := unlockPassword w |}.
Definition set_state (e l : bool) (w : Wallet) : Wallet :=
  {| chainParams := chainParams w; keys := keys w; encrypted := e; locked := l;
     passwordHash := passwordHash w; passwordSalt := passwordSalt w;
     passwordHashVersion := passwordHashVersion w; unlockPassword := unlockPassword w |}.
Definition set_hash (hash salt : bytes) (version : Z) (w : Wallet) : Wallet :=
  {| chainParams := chainParams w; keys := keys w; encrypted := encrypted w; locked := locked w;
     passwordHash := hash; passwordSalt := salt; passwordHashVersion := version;
     unlockPassword := unlockPassword w |}.
Definition set_unlockPassword (pw : bytes) (w : Wallet) : Wallet :=
  {| chainParams := chainParams w; keys := keys w; encrypted := encrypted w; locked := locked w;
     passwordHash := passwordHash w; passwordSalt := passwordSalt w;
     passwordHashVersion := passwordHashVersion w; unlockPassword := pw |}.

Definition on_wallet {A} (m : M Wallet A) : M World A := zoom wallet (fun w s => mkWorld w (file s) (entropy s)) m.
Definition on_disk {A} (m : M disk A) : M World A := zoom file (fun d s => mkWorld (wallet s) d (entropy s)) m.
Definition on_rng {A} (m : M rng A) : M World A := zoom entropy (fun g s => mkWorld (wallet s) (file s) g) m.
Definition get_wallet : M World Wallet := s ← get; mret (wallet s).
Definition set_wallet (f : Wallet -> Wallet) : M World unit := on_wallet (modify f).

(** ** Loading *)

Definition normalizeWalletVersion (wd : walletData) : walletData :=
  if Version wd =? 0 then
    mkWalletData 1 false (PasswordHash wd) (PasswordSalt wd) (PasswordHashVersion wd) (Keys wd)
  else wd.

Definition applyEncryptionState (wd : walletData) : M Wallet unit :=
  modify (fun w => set_state (Encrypted wd) (locked w) w);;
  if negb (Encrypted wd) then modify (fun w => set_state (encrypted w) false w)
  else
    modify (fun w => set_state (encrypted w) true w);;
    let version := if PasswordHashVersion wd =? 0 then legacyPasswordHashVersion else PasswordHashVersion wd in
    modify (fun w => set_hash (passwordHash w) (passwordSalt w) version w);;
    hash ← lift (wrap_err "failed to decode password hash" (hex_DecodeString (PasswordHash wd)));
    modify (fun w => set_hash hash (passwordSalt w) (passwordHashVersion w) w);;
    salt ← lift (wrap_err "failed to decode password salt" (hex_DecodeString (PasswordSalt wd)));
    modify (fun w => set_hash (passwordHash w) salt (passwordHashVersion w) w).

Definition decodePrivateKey (w : Wallet) (keyHex : bytes) : res bytes :=
  if encrypted w && bool_decide (length (unlockPassword w) <> 0%nat) then
    encData ← wrap_err "failed to decode encrypted private key" (decodeEncryptedData keyHex);
    wrap_err "failed to decrypt private key" (decrypt (Some encData) (unlockPassword w))
  else if negb (encrypted w) then wrap_err "failed to decode private key" (hex_DecodeString keyHex)
  else Err (EMsg "cannot load keys from encrypted wallet without password").

Definition loadKey (kd : keyData) : M Wallet unit :=
  w ← get;
  privKeyBytes ← lift (decodePrivateKey w (PrivateKeyHex kd));
  if bool_decide (length privKeyBytes <> 32%nat) then
    fail (EMsg "invalid private key length: expected 32 bytes, got %d")
  else
    let '(privKey, pubKey) := PrivKeyFromBytes privKeyBytes in
    let pubKeyHash := Hash160 (SerializeCompressed pubKey) in
    addr ← lift (wrap_err "failed to create address" (NewAddressPubKeyHash pubKeyHash (chainParams w)));
    let derivedAddr := EncodeAddress addr in
    if bool_decide (derivedAddr <> kd_Address kd) then
      fail (EMsg "address mismatch: derived %s, stored %s")
    else modify (set_keys <[derivedAddr := mkKeyPair privKey pubKey addr]>).

Definition loadKeys (wd : walletData) : M Wallet unit := forM (Keys wd) loadKey.

Definition load : M World unit :=
  s ← get;
  data ← lift (ReadFile (file s));
  wd ← lift (wrap_err "failed to parse wallet" (Unmarshal data));
  let wd := normalizeWalletVersion wd in
  on_wallet (applyEncryptionState wd);;
  w ← get_wallet;
  if negb (encrypted w) then on_wallet (loadKeys wd) else mret tt.

Definition empty_wallet (params : Params) : Wallet :=
  {| chainParams := params; keys := ∅; encrypted := false; locked := false;
     passwordHash := []; passwordSalt := []; passwordHashVersion := 0; unlockPassword := [] |}.

Definition NewWallet (params : Params) : M World unit :=
  set_wallet (fun _ => empty_wallet params);;
  r ← try load;
  match r with
  | Err err => if negb (IsNotExist err) then fail (EWrap "failed to load wallet" err) else mret tt
  | Ok _ => mret tt
  end.

(** ** Saving *)

Definition encodePrivateKey (kp : KeyPair) : M World bytes :=
  w ← get_wallet;
  if negb (encrypted w) then mret (hex_EncodeToString (priv_Serialize (PrivateKey kp)))
  else if bool_decide (length (unlockPassword w) = 0%nat) then
    fail (EMsg "cannot save encrypted wallet while locked")
  else
    encData ← wrapM "failed to encrypt private key"
      (on_rng (encrypt (priv_Serialize (PrivateKey kp)) (unlockPassword w)));
    mret (encodeEncryptedData encData).

(** The loop of [save] over the keys. *)
Fixpoint encodeKeys (l : list (bytes * KeyPair)) : M World (list keyData) :=
  match l with
  | [] => mret []
  | (addr, kp) :: l =>
      privKeyHex ← encodePrivateKey kp;
      rest ← encodeKeys l;
      mret (mkKeyData privKeyHex addr :: rest)
  end.

(** [sort.Slice] by the address; no two addresses are equal. *)
Definition key_order (a b : keyData) : Prop := bytes_le (kd_Address a) (kd_Address b).
#[export] Instance key_order_dec : RelDecision key_order.
Proof. intros a b. unfold key_order. apply _. Defined.

Definition save : M World unit :=
  w ← get_wallet;
  Keys ← encodeKeys (range (keys w));
  let wd := {|
    Version := 2; Encrypted := encrypted w;
    PasswordHash := if encrypted w then hex_EncodeToString (passwordHash w) else [];
    PasswordSalt := if encrypted w then hex_EncodeToString (passwordSalt w) else [];
    PasswordHashVersion := if encrypted w then passwordHashVersion w else 0;
    Keys := merge_sort key_order Keys |} in
  data ← lift (wrap_err "failed to serialize wallet" (MarshalIndent wd));
  wrapM "failed to create wallet directory" (on_disk MkdirAll);;
  wrapM "failed to write wallet file %s" (on_disk (WriteFile data)).

(** ** Operations *)

Definition GenerateKey : M World bytes :=
  privKey ← wrapM "failed to generate private key" (on_rng NewPrivateKey);
  let pubKey := PubKey privKey in
  let pubKeyHash := Hash160 (SerializeCompressed pubKey) in
  w ← get_wallet;
  addr ← lift (wrap_err "failed to create address" (NewAddressPubKeyHash pubKeyHash (chainParams w)));
  let addrStr := EncodeAddress addr in
  set_wallet (set_keys <[addrStr := mkKeyPair privKey pubKey addr]>);;
  r ← try save;
  match r with
  | Err err =>
      set_wallet (set_keys (delete addrStr));;
      fail (EWrap "failed to save wallet" err)
  | Ok _ => mret addrStr
  end.

(** The sorted addresses. *)
Definition GetAddresses (w : Wallet) : list bytes := merge_sort bytes_le ((range (keys w)).*1).
Definition HasKey (addr : bytes) (w : Wallet) : bool := bool_decide (is_Some (keys w !! addr)).
Definition GetKey (addr : bytes) (w : Wallet) : res KeyPair :=
  option_res (EMsg "no key found for address: %s") (keys w !! addr).
Definition IsEncrypted (w : Wallet) : bool := encrypted w.
Definition IsLocked (w : Wallet) : bool := locked w.

Definition EncryptWallet (password : bytes) : M World unit :=
  w ← get_wallet;
  if encrypted w then fail (EMsg "wallet is already encrypted")
  else
    lift (wrap_err "invalid password" (validatePassword password));;
    salt ← wrapM "failed to generate password salt" (on_rng generatePasswordSalt);
    set_wallet (set_state true false);;
    set_wallet (set_unlockPassword password);;
    set_wallet (fun w => set_hash (passwordHash w) salt currentPasswordHashVersion w);;
    hash ← lift (hashPassword password salt);
    set_wallet (fun w => set_hash hash (passwordSalt w) (passwordHashVersion w) w);;
    r ← try save;
    match r with
    | Err err =>
        set_wallet (set_state false false);;
        set_wallet (set_unlockPassword []);;
        set_wallet (fun w => set_hash [] [] (passwordHashVersion w) w);;
        fail (EWrap "failed to save encrypted wallet" err)
    | Ok _ => mret tt
    end.

Definition Lock : M World unit :=
  w ← get_wallet;
  if negb (encrypted w) then fail (EMsg "wallet is not encrypted")
  else if locked w then fail (EMsg "wallet is already locked")
  else
    set_wallet (set_keys (fun _ => ∅));;
    set_wallet (set_unlockPassword []);;
    set_wallet (fun w => set_state (encrypted w) true w).

(** [len(a) != len(b) || ConstantTimeCompare(a, b) != 1] is inequality. *)
Definition Unlock (password : bytes) : M World unit :=
  s ← get;
  let w := wallet s in
  if negb (encrypted w) then fail (EMsg "wallet is not encrypted")
  else if negb (locked w) then fail (EMsg "wallet is already unlocked")
  else
    hash ← lift (wrap_err "failed to hash password"
      (hashPasswordWithVersion password (passwordSalt w) (passwordHashVersion w)));
    if bool_decide (hash <> passwordHash w) then fail (EMsg "incorrect password")
    else
      data ← lift (wrap_err "failed to read wallet file" (ReadFile (file s)));
      wd ← lift (wrap_err "failed to parse wallet" (Unmarshal data));
      set_wallet (set_unlockPassword password);;
      r ← try (on_wallet (loadKeys wd));
      match r with
      | Err err =>
          set_wallet (set_unlockPassword []);;
          fail (EWrap "failed to load keys" err)
      | Ok _ => set_wallet (fun w => set_state (encrypted w) false w)
      end.

End wallet.
