(* ===== verification/WalletTx.v ===== *)
(** * The wallet: transactions of wallet/wallet.go

    Building and signing the transactions of the three name operations.  The code of
    btcd's txscript and btcec (scripts of addresses, signature hashes, signatures) is the
    class [TxScript].  The script builders themselves are in Script.v. *)

From S2P Require Import Prelude Config Script Wire Chain Encryption Wallet.

Class TxScript {K : Crypto} {L : KeyLib} := {
  is_AddressPubKeyHash : address -> bool;                 (* the type switch *)
  ScriptAddress : address -> bytes;
  PayToAddrScript : address -> res bytes;
  CalcSignatureHash : bytes -> Z -> MsgTx -> nat -> res bytes;
  ecdsa_Sign : privkey -> bytes -> bytes;                 (* Sign and Serialize *)
  ScriptBuilder : list bytes -> res bytes;                (* NewScriptBuilder, AddData ..., Script *)
}.

(** [wallet.UTXO] *)
Record wUTXO := mkWUTXO {
  wu_TxHash : bytes;
  wu_Vout : Z;
  wu_Value : Z;
  wu_PkScript : bytes;
  wu_Address : bytes;
}.

Definition TxVersion : Z := 1.
Definition MaxTxInSequenceNum : Z := 0xffffffff.
Definition SigHashAll : Z := 1.

(** [wire.NewMsgTx], [AddTxIn] of [NewTxIn(outPoint, nil, nil)], [AddTxOut] *)
Definition NewMsgTx (version : Z) : MsgTx := mkMsgTx version [] [] 0.
Definition AddTxIn (op : OutPoint) (tx : MsgTx) : MsgTx :=
  mkMsgTx (tx_Version tx) (TxIns tx ++ [mkTxIn op [] MaxTxInSequenceNum]) (TxOuts tx) (LockTime tx).
Definition AddTxOut (o : TxOut) (tx : MsgTx) : MsgTx :=
  mkMsgTx (tx_Version tx) (TxIns tx) (TxOuts tx ++ [o]) (LockTime tx).
Definition set_SignatureScript (i : nat) (sigScript : bytes) (tx : MsgTx) : MsgTx :=
  mkMsgTx (tx_Version tx)
    (alter (fun t => mkTxIn (PreviousOutPoint t) sigScript (Sequence t)) i (TxIns tx)) (TxOuts tx) (LockTime tx).

Section tx.
Context {K : Crypto} {L : KeyLib} {G : BtcLib} {S : TxScript}.

Definition wu_outpoint (u : wUTXO) : OutPoint := mkOutPoint (wu_TxHash u) (wu_Vout u).

Definition buildNameTxBase (utxos : list wUTXO) (nameScript : bytes) (nameOutValue : Z) : MsgTx :=
  AddTxOut (mkTxOut nameOutValue nameScript)
    (foldl (fun tx utxo => AddTxIn (wu_outpoint utxo) tx) (NewMsgTx TxVersion) utxos).

Definition addChangeOutput (tx : MsgTx) (changeValue : Z) (changeAddr : address) : res MsgTx :=
  if changeValue >=? DustLimit then
    changeScript ← wrap_err "failed to create change script" (PayToAddrScript changeAddr);
    mret (AddTxOut (mkTxOut changeValue changeScript) tx)
  else mret tx.

(** [for _, utxo := range utxos { totalIn += utxo.Value }] *)
Definition total_in (utxos : list wUTXO) : Z := foldl (fun totalIn utxo => int64 (totalIn + wu_Value utxo)) 0 utxos.

Definition buildNameUpdateTxUnsigned (utxos : list wUTXO) (nameScript : bytes) (feeRate : Z) (changeAddr : address) :
    res MsgTx :=
  let totalIn := total_in utxos in
  let estimatedSize := int64 (10 + Z.of_nat (length utxos) * 148 + Z.of_nat (length nameScript) + 34 + 34) in
  let fee := int64 (feeRate * estimatedSize) in
  let nameOutValue := 1000 in
  let changeValue := int64 (int64 (totalIn - nameOutValue) - fee) in
  if changeValue <? 0 then Err (EMsg "insufficient funds: need %d, have %d")
  else
    let tx := buildNameTxBase utxos nameScript nameOutValue in
    addChangeOutput tx changeValue changeAddr.

Definition buildNameTransaction (utxos : list wUTXO) (nameScript : bytes) (nameOutValue feeRate : Z)
    (ownerAddress : address) (minBurnFee : Z) : res MsgTx :=
  let totalIn := total_in utxos in
  let estimatedSize := int64 (10 + Z.of_nat (length utxos) * 148 + Z.of_nat (length nameScript) + 34) in
  let fee := int64 (feeRate * estimatedSize) in
  let fee := if fee <? minBurnFee then minBurnFee else fee in
  let changeValue := int64 (int64 (totalIn - nameOutValue) - fee) in
  if changeValue <? 0 then Err (EMsg "insufficient funds: need %d, have %d")
  else
    let tx := foldl (fun tx utxo => AddTxIn (wu_outpoint utxo) tx) (NewMsgTx TxVersion) utxos in
    let tx := AddTxOut (mkTxOut nameOutValue nameScript) tx in
    if changeValue >=? DustLimit then
      changeScript ← wrap_err "failed to create change script" (PayToAddrScript ownerAddress);
      mret (AddTxOut (mkTxOut changeValue changeScript) tx)
    else mret tx.

(** The loop body of [signTransactionInputs]; the transaction is shared with the caller. *)
Definition signInput (w : Wallet) (i : nat) (utxo : wUTXO) : M MsgTx unit :=
  match keys w !! wu_Address utxo with
  | None => fail (EMsg "no key for input address: %s")
  | Some inputKp =>
      tx ← get;
      sigHash ← lift (wrap_err "failed to calculate signature hash"
        (CalcSignatureHash (wu_PkScript utxo) SigHashAll tx i));
      let sigWithHashType := ecdsa_Sign (PrivateKey inputKp) sigHash ++ [byte_of_Z SigHashAll] in
      let pubKeyBytes := SerializeCompressed (PublicKey inputKp) in
      sigScript ← lift (wrap_err "failed to build sig script" (ScriptBuilder [sigWithHashType; pubKeyBytes]));
      if bool_decide (length (TxIns tx) <= i)%nat then fail (EPanic "index out of range")
      else modify (set_SignatureScript i sigScript)
  end.

Fixpoint signFrom (w : Wallet) (i : nat) (utxos : list wUTXO) : M MsgTx unit :=
  match utxos with
  | [] => mret tt
  | utxo :: utxos => signInput w i utxo;; signFrom w (Datatypes.S i) utxos
  end.

Definition signTransactionInputs (w : Wallet) (utxos : list wUTXO) : M MsgTx unit := signFrom w 0 utxos.

(** The signed transaction, or the error. *)
Definition signed (w : Wallet) (utxos : list wUTXO) (tx : MsgTx) : res MsgTx :=
  match signTransactionInputs w utxos tx with
  | (Ok _, tx) => Ok tx
  | (Err e, _) => Err e
  end.

Definition SignTransaction (w : Wallet) (utxos : list wUTXO) : M MsgTx unit :=
  tx ← get;
  if bool_decide (length (TxIns tx) <> length utxos) then
    fail (EMsg "UTXO count mismatch: tx has %d inputs, got %d UTXOs")
  else signTransactionInputs w utxos.

Definition extractPubKeyHash (addr : address) : res bytes :=
  if is_AddressPubKeyHash addr then Ok (ScriptAddress addr) else Err (EMsg "unsupported address type: %T").

(** [utxos[i]]: the callers have checked the index. *)
Definition index_ok (i : Z) (utxos : list wUTXO) : bool := negb ((i <? 0) || (i >=? Z.of_nat (length utxos))).

(** [destAddress] is [None] when nil. *)
Definition CreateNameUpdateTx (w : Wallet) (name newValue : bytes) (utxos : list wUTXO) (nameUtxoIndex feeRate : Z)
    (destAddress : option address) : res MsgTx :=
  if feeRate <? 0 then Err (EMsg "feeRate cannot be negative: %d")
  else match (if index_ok nameUtxoIndex utxos then utxos !! Z.to_nat nameUtxoIndex else None) with
  | None => Err (EMsg "invalid name UTXO index: %d")
  | Some nameUtxo =>
      match keys w !! wu_Address nameUtxo with
      | None => Err (EMsg "no key for name owner address: %s")
      | Some kp =>
          pubKeyHash ←
            match destAddress with
            | Some addr =>
                if is_AddressPubKeyHash addr then Ok (ScriptAddress addr)
                else Err (EMsg "unsupported destination address type: %T")
            | None => Ok (Hash160 (SerializeCompressed (PublicKey kp)))
            end;
          let changeAddr := kp_Address kp in
          nameScript ← wrap_err "failed to build name script" (BuildNameUpdateScript name newValue pubKeyHash);
          tx ← buildNameUpdateTxUnsigned utxos nameScript feeRate changeAddr;
          signed w utxos tx
      end
  end.

(** Nil addresses are [None]; the type switch refuses a nil destination. *)
Definition CreateNameUpdateTxRaw (name newValue : bytes) (destAddress changeAddress : option address)
    (utxos : list wUTXO) (feeRate : Z) : res MsgTx :=
  if feeRate <? 0 then Err (EMsg "feeRate cannot be negative: %d")
  else match changeAddress with
  | None => Err (EMsg "changeAddress must not be nil")
  | Some changeAddress =>
      pubKeyHash ←
        match destAddress with
        | Some addr => if is_AddressPubKeyHash addr then Ok (ScriptAddress addr) else Err (EMsg "unsupported address type: %T")
        | None => Err (EMsg "unsupported address type: %T")
        end;
      nameScript ← wrap_err "failed to build name script" (BuildNameUpdateScript name newValue pubKeyHash);
      buildNameUpdateTxUnsigned utxos nameScript feeRate changeAddress
  end.

Definition validateNameNewInputs (name randBytes : bytes) (utxos : list wUTXO) : res unit :=
  if (blen name =? 0) || (blen name >? 255) then Err (EMsg "invalid name length: %d (must be 1-255)")
  else if blen randBytes =? 0 then Err (EMsg "random bytes cannot be empty")
  else if bool_decide (utxos = []) then Err (EMsg "no UTXOs provided")
  else Ok tt.

Definition CreateNameNewTx (w : Wallet) (randBytes name : bytes) (utxos : list wUTXO) (feeRate : Z)
    (ownerAddress : address) : res (MsgTx * bytes) :=
  if feeRate <? 0 then Err (EMsg "feeRate cannot be negative: %d")
  else
    _ ← validateNameNewInputs name randBytes utxos;
    pubKeyHash ← extractPubKeyHash ownerAddress;
    let commitHash := ComputeNameNewHash Hash160 randBytes name in
    nameScript ← wrap_err "failed to build NAME_NEW script" (BuildNameNewScript commitHash pubKeyHash);
    let nameOutValue := 1000 in
    tx ← buildNameTransaction utxos nameScript nameOutValue feeRate ownerAddress 0;
    tx ← signed w utxos tx;
    mret (tx, randBytes).

Definition validateNameFirstUpdateInputs (name randHex value : bytes) (utxos : list wUTXO) (nameNewUtxoIndex : Z) :
    res unit :=
  if (blen name =? 0) || (blen name >? 255) then Err (EMsg "invalid name length: %d (must be 1-255)")
  else if blen randHex =? 0 then Err (EMsg "randHex cannot be empty")
  else
    _ ← wrap_err "invalid randHex: must be valid hex string" (hex_DecodeString randHex);
    if blen value >? MaxValueLengthUI then Err (EMsg "value too large: %d bytes (max %d)")
    else if negb (index_ok nameNewUtxoIndex utxos) then Err (EMsg "invalid NAME_NEW UTXO index: %d")
    else Ok tt.

Definition CreateNameFirstUpdateTx (w : Wallet) (name randHex value : bytes) (utxos : list wUTXO)
    (nameNewUtxoIndex feeRate : Z) (ownerAddress : address) : res MsgTx :=
  if feeRate <? 0 then Err (EMsg "feeRate cannot be negative: %d")
  else
    _ ← validateNameFirstUpdateInputs name randHex value utxos nameNewUtxoIndex;
    nameNewUtxo ← option_res (EPanic "index out of range") (utxos !! Z.to_nat nameNewUtxoIndex);
    nameNewKp ← option_res (EMsg "no key for NAME_NEW address: %s") (keys w !! wu_Address nameNewUtxo);
    pubKeyHash ← extractPubKeyHash ownerAddress;
    nameScript ← wrap_err "failed to build NAME_FIRSTUPDATE script" (BuildNameFirstUpdateScript name randHex value pubKeyHash);
    let nameOutValue := 1000 in
    let changeAddr := kp_Address nameNewKp in
    tx ← buildNameTransaction utxos nameScript nameOutValue feeRate changeAddr MinNameOperationFee;
    signed w utxos tx.

(** A salt of 20 random bytes. *)
Definition GenerateRand : M rng bytes := wrapM "failed to generate random bytes" (rand_Read 20).

End tx.
