(* ===== verification/ChainSpec.v ===== *)
(** * What the checks of a block decide

    The specification of Chain.v: on a well-formed name database each check accepts
    exactly the values its predicate describes ([inputs_sum], [outputs_sum],
    [pays_fee], [in_window], [output_ok], ...), and leaves the stored buckets as
    they were.  [n0] is the database before the check; the predicates are about its
    names, commitments and outputs. *)

From S2P Require Import Prelude Bolt Lru Record NameDB NamesSpec ExpirySpec Utxo UtxoSpec.
From S2P Require Import Config Script Wire AuxPow Chain.

Definition Zsum (l : list Z) : Z := foldr Z.add 0 l.

Lemma Zsum_cons v l : Zsum (v :: l) = v + Zsum l.
Proof. done. Qed.

Lemma Zsum_nonneg l : Forall (fun v => 0 <= v) l -> 0 <= Zsum l.
Proof. induction 1; unfold Zsum in *; simpl; lia. Qed.

Lemma determineBlockHeight_nonneg bc block h : determineBlockHeight bc block = Ok h -> 0 <= h.
Proof.
  unfold determineBlockHeight. cbv zeta.
  set (x := if negb (chain_nil bc) && _ then _ else -1).
  destruct (Z.ltb_spec x 0); [destruct (Z.ltb_spec (blk_Height block) 0); [done|]|]; by intros <-%Ok_inj.
Qed.

Section spec.
Context {B : Bolt} {L : BoltLaws B} {W : Wire} {G : BtcLib} {R : MapRange}.

(** A check leaves the buckets; it may fill the cache. *)
Definition keeps (n n' : NameDatabase) : Prop := same_store n n' /\ ndb_wf n'.

Lemma keeps_bkt n n' b : keeps n n' -> ndb_bkt n' b = ndb_bkt n b.
Proof. intros [[E _] _]. unfold ndb_bkt. by rewrite E. Qed.

Lemma keeps_names n n' : keeps n n' -> ndb_names n' = ndb_names n.
Proof. intros K. unfold ndb_names. by rewrite (keeps_bkt n n'). Qed.

Lemma keeps_utxo_wf n n' : keeps n n' -> ndb_utxo_wf n -> ndb_utxo_wf n'.
Proof.
  intros K [O U]. split; [|by rewrite !(keeps_bkt n n')].
  destruct K as [[E _] _]. unfold ndb_open. by rewrite E.
Qed.

Lemma ndb_wf_open n : ndb_wf n -> ndb_open n.
Proof. by intros []. Qed.

(** The height a commitment was stored with. *)
Definition commitment_height (n : NameDatabase) (h : bytes) : option Z :=
  d ← ndb_commitment n h;
  if bool_decide (length d < 4)%nat then None else Some (int32 (of_le (take 4 d))).

Context (n0 : NameDatabase) (Hn : ndb_wf n0) (Hu : ndb_utxo_wf n0).

(** [m] returns exactly when [P] holds of some value, and then of the value returned. *)
Definition decides {A} (m : M NameDatabase A) (P : A -> Prop) : Prop :=
  forall n, keeps n0 n ->
    wp m (fun a n' => keeps n0 n' /\ P a) (fun _ n' => keeps n0 n' /\ forall a, ~ P a) n.

Lemma keeps_refl : keeps n0 n0.
Proof using Hn. done. Qed.

Lemma decides_bind {A C} (m : M NameDatabase A) (f : A -> M NameDatabase C) P Q :
  decides m P -> (forall a, P a -> decides (f a) (Q a)) ->
  (forall a a', P a -> P a' -> a = a') ->
  decides (m ≫= f) (fun c => exists a, P a /\ Q a c).
Proof using.
  intros Hm Hf U n K. rewrite wp_bind. eapply wp_mono; [by apply Hm| |].
  - intros a n' [K' Ha]. eapply wp_mono; [by apply (Hf a Ha)| |]; simpl.
    + intros c n'' [? ?]. eauto.
    + intros e n'' [? N]. split; [done|]. intros c (a' & Ha' & Hc).
      rewrite (U a' a) in Hc by done. by apply (N c).
  - intros e n' [? N]. split; [done|]. intros c (a & ? & _). by apply (N a).
Qed.

Lemma decides_iff {A} (m : M NameDatabase A) (P Q : A -> Prop) :
  (forall a, P a <-> Q a) -> decides m P -> decides m Q.
Proof using.
  intros E Hm n K. eapply wp_mono; [by apply Hm| |]; simpl.
  - intros a n' [? ?]. split; [done|]. by apply E.
  - intros e n' [? N]. split; [done|]. intros a ?%E. by apply (N a).
Qed.

Lemma decides_lift {A} (r : res A) (P : A -> Prop) :
  (forall a, r = Ok a -> P a) -> (forall e a, r = Err e -> ~ P a) -> decides (lift r) P.
Proof using. intros H1 H2 n K. rewrite wp_lift. destruct r; eauto. Qed.

Lemma decides_wrapM {A} msg (m : M NameDatabase A) P : decides m P -> decides (wrapM msg m) P.
Proof using. intros Hm n K. rewrite wp_wrapM. eapply wp_mono; [by apply Hm|done|done]. Qed.

(** *** The three reads *)

Lemma decides_GetName name Q (k : res NameRecord -> M NameDatabase Q) P :
  (forall r, ndb_names n0 !! name = Some r -> decides (k (Ok r)) P) ->
  (ndb_names n0 !! name = None -> decides (k (Err ErrNameNotFound)) P) ->
  decides (try (GetName name) ≫= k) P.
Proof using Hn.
  intros H1 H2 n K. rewrite wp_bind, wp_try. eapply wp_mono; [apply GetName_correct, K| |]; simpl.
  - intros r n' (W' & S' & E). rewrite (keeps_names n0) in E by done.
    apply (H1 r E). destruct K as [S0 _], S0, S'. split; [|done]. split; congruence.
  - intros e n' (W' & S' & -> & E). rewrite (keeps_names n0) in E by done.
    apply (H2 E). destruct K as [S0 _], S0, S'. split; [|done]. split; congruence.
Qed.

Lemma decides_GetNameNew h Q (k : res NameNewRecord -> M NameDatabase Q) P :
  (forall z, commitment_height n0 h = Some z -> decides (k (Ok (mkNameNewRecord h z))) P) ->
  (forall e, commitment_height n0 h = None -> decides (k (Err e)) P) ->
  decides (try (GetNameNew h) ≫= k) P.
Proof using.
  intros H1 H2 n K. rewrite wp_bind, wp_try.
  assert (commitment_height n h = commitment_height n0 h) as Ec.
  { unfold commitment_height, ndb_commitment. by rewrite (keeps_bkt n0 n). }
  eapply wp_mono; [apply GetNameNew_correct, ndb_wf_open, K| |]; simpl.
  - intros r n' (-> & d & E & Hd & ->). apply H1; [|done]. rewrite <-Ec. unfold commitment_height.
    rewrite E. simpl. by rewrite bool_decide_false by lia.
  - intros e n' (-> & E). apply H2; [|done]. rewrite <-Ec. unfold commitment_height.
    destruct (ndb_commitment n h) as [d|]; [|done]. simpl. rewrite bool_decide_true; [done|by apply E].
Qed.

Definition in_ok (txIn : TxIn) : Prop :=
  outpoint_ok (op_Hash (PreviousOutPoint txIn)) (op_Index (PreviousOutPoint txIn)).

Definition spent_output (txIn : TxIn) : option UTXO :=
  ndb_utxos n0 !! makeUTXOKey (op_Hash (PreviousOutPoint txIn)) (op_Index (PreviousOutPoint txIn)).

Lemma decides_GetUTXO txIn Q (k : res UTXO -> M NameDatabase Q) P : in_ok txIn ->
  (forall u, spent_output txIn = Some u -> is_int64 (u_Value u) -> decides (k (Ok u)) P) ->
  (forall e, spent_output txIn = None -> decides (k (Err e)) P) ->
  decides (try (GetUTXO (Some (op_Hash (PreviousOutPoint txIn)))
                        (op_Index (PreviousOutPoint txIn))) ≫= k) P.
Proof using Hu.
  intros Hi H1 H2 n K. rewrite wp_bind, wp_try.
  assert (ndb_utxos n = ndb_utxos n0) as Ec.
  { unfold ndb_utxos. by rewrite (keeps_bkt n0 n). }
  assert (ndb_utxo_wf n) as Un by (by eapply keeps_utxo_wf).
  eapply wp_mono; [by apply GetUTXO_correct| |]; simpl.
  - intros u n' (-> & E). rewrite Ec in E. apply H1; [done| |done].
    unfold ndb_utxos in E. destruct Hu as [_ Hw].
    destruct (utxos_of_ok _ _ _ _ Hw E) as (O & _). apply O.
  - intros e n' (-> & -> & E). rewrite Ec in E. by apply H2.
Qed.

(** ** Values *)

(** [tx] spends outputs of [n0] of total value [s]. *)
Definition inputs_sum_of (ins : list TxIn) (s : Z) : Prop :=
  exists us, spent_output <$> ins = Some <$> us /\ Forall (fun u => 0 <= u_Value u) us /\
    s = Zsum (u_Value <$> us) /\ s <= MaxInt64.

Definition inputs_sum (tx : MsgTx) (s : Z) : Prop := inputs_sum_of (TxIns tx) s.

Lemma inputs_sum_unique ins s s' : inputs_sum_of ins s -> inputs_sum_of ins s' -> s = s'.
Proof using.
  intros (us & E & _ & -> & _) (us' & E' & _ & -> & _).
  rewrite E in E'. apply (inj (fmap Some)) in E' as ->. done.
Qed.

Lemma sumInputs_decides ins height acc : Forall in_ok ins -> 0 <= height -> 0 <= acc <= MaxInt64 ->
  decides (sumInputs acc ins height) (fun '(t, skip) => skip = false /\ exists s,
    inputs_sum_of ins s /\ t = acc + s /\ t <= MaxInt64).
Proof using Hu.
  intros Hi Hh. revert acc. induction Hi as [|txIn ins Hin Hi IH]; intros acc Ha; cbn [sumInputs].
  { intros n K. rewrite wp_ret. split; [done|]. split; [done|]. exists 0.
    split; [|lia]. exists []. split_and!; try done. }
  apply decides_GetUTXO; [done| |].
  - intros u Eu Hv. destruct (Z.ltb_spec (u_Value u) 0) as [N|N].
    { intros n K. rewrite wp_fail. split; [done|]. intros [t sk] [_ (s & (us & E & F & _) & _)].
      destruct us as [|u' us]; [done|]. cbn in E. rewrite Eu in E. injection E as -> E.
      apply Forall_cons in F as [F _]. lia. }
    assert (forall s t, inputs_sum_of (txIn :: ins) s /\ t = acc + s /\ t <= MaxInt64 <->
      acc + u_Value u <= MaxInt64 /\ exists s', s = u_Value u + s' /\ inputs_sum_of ins s' /\
      t = (acc + u_Value u) + s' /\ t <= MaxInt64) as Eq.
    { intros s t. split.
      - intros ((us & E & F & -> & Hs) & -> & Ht). destruct us as [|u' us]; [done|].
        cbn in E. rewrite Eu in E. injection E as -> E. apply Forall_cons in F as [F0 F].
        assert (0 <= Zsum (u_Value <$> us)) by (apply Zsum_nonneg, Forall_fmap; done).
        unfold Zsum in *. cbn in *.
        split; [lia|]. exists (Zsum (u_Value <$> us)). unfold Zsum. split_and!; try lia.
        exists us. split_and!; try done. unfold Zsum. lia.
      - intros (Hs & s' & -> & (us & E & F & -> & _) & -> & Ht). split; [|lia].
        exists (u :: us). cbn. rewrite Eu, E. split_and!; try done; [by constructor|].
        unfold Zsum in *. lia. }
    assert (int64 (MaxInt64 - u_Value u) = MaxInt64 - u_Value u) as ->
      by (apply int64_id; unfold_int; lia).
    destruct (decide (acc + u_Value u <= MaxInt64)) as [Hle|Hgt].
    + replace ((acc >? 0) && (u_Value u >? 0) && (acc >? MaxInt64 - u_Value u)) with false
        by (symmetry; apply andb_false_iff; right; lia).
      rewrite int64_id by (unfold_int; lia).
      eapply decides_iff; [|apply IH; lia]. intros [t sk]. split; intros [-> (s & H)]; split; try done.
      * exists (u_Value u + s). apply Eq. split; [done|]. exists s. split; [done|]. lia || apply H.
      * apply Eq in H as (_ & s' & _ & H). by exists s'.
    + replace ((acc >? 0) && (u_Value u >? 0) && (acc >? MaxInt64 - u_Value u)) with true
        by (symmetry; rewrite !andb_true_iff; unfold_int; lia).
      intros n K. rewrite wp_fail. split; [done|]. intros [t sk] [_ (s & H)].
      apply Eq in H as [? _]. done.
  - intros e Eu. destruct (Z.ltb_spec height UTXOTrackingStartHeight) as [N|N];
      [unfold UTXOTrackingStartHeight in N; lia|].
    intros n K. rewrite wp_fail. split; [done|]. intros [t sk] [_ (s & (us & E & _) & _)].
    destruct us as [|u us]; [done|]. cbn in E. rewrite Eu in E. done.
Qed.

Lemma sumInputValues_decides tx height : Forall in_ok (TxIns tx) -> 0 <= height ->
  decides (sumInputValues tx height) (fun r => exists s, r = (s, false) /\ inputs_sum tx s).
Proof using Hu.
  intros Hi Hh. eapply decides_iff; [|apply sumInputs_decides; [done|done|unfold MaxInt64; lia]].
  intros [t sk]. split.
  - intros [-> (s & H & -> & _)]. by exists s.
  - intros (s & [= -> ->] & H). split; [done|]. exists s. split; [done|].
    destruct H as (us & ? & ? & ? & ?). lia.
Qed.

(** Outputs of nonnegative value: btcd refuses the others. *)
Definition outs_ok (tx : MsgTx) : Prop :=
  Forall (fun o => 0 <= to_Value o <= MaxInt64) (TxOuts tx).

Definition outputs_sum (tx : MsgTx) : Z := Zsum (to_Value <$> TxOuts tx).

Lemma sumOutputs_spec outs acc : Forall (fun o => 0 <= to_Value o <= MaxInt64) outs ->
  0 <= acc <= MaxInt64 ->
  let s := acc + Zsum (to_Value <$> outs) in
  if decide (s <= MaxInt64) then sumOutputs acc outs = Ok s
  else exists e, sumOutputs acc outs = Err e.
Proof using.
  intros F; revert acc. induction F as [|o outs Ho F IH]; intros acc Ha s.
  { unfold s. simpl. rewrite Z.add_0_r. by rewrite decide_True by lia. }
  cbn [sumOutputs]. assert (0 <= Zsum (to_Value <$> outs)).
  { apply Zsum_nonneg, Forall_fmap. eapply Forall_impl; [exact F|]. simpl. lia. }
  assert (s = acc + to_Value o + Zsum (to_Value <$> outs)) as -> by (unfold s; rewrite fmap_cons, Zsum_cons; lia).
  rewrite (int64_id (MaxInt64 - _)) by (unfold_int; lia).
  destruct (decide (acc + to_Value o <= MaxInt64)) as [Hle|Hgt].
  - replace ((acc >? 0) && (to_Value o >? 0) && (acc >? MaxInt64 - to_Value o)) with false
      by (symmetry; apply andb_false_iff; right; lia).
    rewrite int64_id by (unfold_int; lia). apply IH. lia.
  - rewrite decide_False by lia.
    replace ((acc >? 0) && (to_Value o >? 0) && (acc >? MaxInt64 - to_Value o)) with true
      by (symmetry; rewrite !andb_true_iff; unfold_int; lia).
    eauto.
Qed.

Lemma sumOutputValues_spec tx : outs_ok tx ->
  if decide (outputs_sum tx <= MaxInt64) then sumOutputValues tx = Ok (outputs_sum tx)
  else exists e, sumOutputValues tx = Err e.
Proof using. intros F. apply (sumOutputs_spec _ 0); [done|unfold MaxInt64; lia]. Qed.

Lemma outputs_sum_nonneg tx : outs_ok tx -> 0 <= outputs_sum tx.
Proof using.
  intros F. apply Zsum_nonneg, Forall_fmap. eapply Forall_impl; [exact F|]. simpl. lia.
Qed.

(** ** Fees *)

(** [tx] has inputs, all known, and leaves at least the fee of the operation. *)
Definition pays_fee (tx : MsgTx) (op : NameOperation) : Prop :=
  TxIns tx <> [] /\ exists s, inputs_sum tx s /\ minFeeOf op <= s - outputs_sum tx.

Lemma validateMinFee_iff fee op : is_ok (validateMinFee fee op) = true <-> minFeeOf op <= fee.
Proof using.
  unfold validateMinFee.
  assert (0 < minFeeOf op) by (destruct op; unfold minFeeOf, MinRelayTxFee, MinNameOperationFee; lia).
  destruct (Z.ltb_spec fee 0); simpl; [split; [done|lia]|].
  destruct (Z.ltb_spec fee (minFeeOf op)); simpl; split; try done; lia.
Qed.

Lemma validateTransactionFee_decides tx op height :
  Forall in_ok (TxIns tx) -> outs_ok tx -> 0 <= height ->
  decides (validateTransactionFee tx op height) (fun _ => pays_fee tx op).
Proof using Hu.
  intros Hi Ho Hh. unfold validateTransactionFee. case_bool_decide as Hnil.
  { intros n K. rewrite wp_fail. split; [done|]. intros _ [N _]. done. }
  pose proof (sumOutputValues_spec tx Ho) as So. pose proof (outputs_sum_nonneg tx Ho) as P.
  eapply decides_iff; [|apply decides_bind with
    (P := fun r => exists s, r = (s, false) /\ inputs_sum tx s)
    (Q := fun '(s, _) (_ : unit) => inputs_sum tx s /\ minFeeOf op <= s - outputs_sum tx)].
  - intros []. split.
    + intros ([s sk] & (s' & [= -> ->] & _) & H1 & H2). split; [done|]. by exists s'.
    + intros [_ (s & H1 & H2)]. exists (s, false). split; [by exists s|done].
  - by apply sumInputValues_decides.
  - intros [s sk] (s' & [= -> ->] & Hs). intros n K. rewrite wp_bind, wp_lift.
    assert (0 <= s' <= MaxInt64) as Rs.
    { destruct Hs as (us & _ & F & -> & ?). split; [|done]. by apply Zsum_nonneg, Forall_fmap. }
    assert (0 < minFeeOf op) by (destruct op; unfold minFeeOf, MinRelayTxFee, MinNameOperationFee; lia).
    destruct (decide (outputs_sum tx <= MaxInt64)) as [Hle|Hgt].
    + rewrite So, wp_lift, int64_id by (unfold_int; lia).
      pose proof (validateMinFee_iff (s' - outputs_sum tx) op) as V.
      destruct (validateMinFee _ _); simpl in V; split; try done.
      * split; [done|]. by apply V.
      * intros []. cbn. intros [_ Hv]. apply V in Hv. done.
    + destruct So as [e ->]. split; [done|]. intros []. cbn. intros [_ H1]. lia.
  - intros a a' (s & -> & H1) (s' & -> & H2). f_equal. by eapply inputs_sum_unique.
Qed.

(** ** The coinbase *)

Definition tx_fee (tx : MsgTx) (s : Z) : Z := Z.max 0 (s - outputs_sum tx).

(** The transactions' inputs are all known and their fees add up to [fees]. *)
Definition block_fees (txs : list MsgTx) (fees : Z) : Prop :=
  exists ss, Forall2 inputs_sum txs ss /\ Forall (fun tx => outputs_sum tx <= MaxInt64) txs /\
    fees = Zsum (zip_with tx_fee txs ss).

Lemma block_fees_nil fees : block_fees [] fees <-> fees = 0.
Proof using.
  split; [|intros ->; exists []; done].
  intros (ss & F & _ & ->). by inversion F.
Qed.

Lemma block_fees_cons tx txs fees :
  block_fees (tx :: txs) fees <->
  exists s fees', inputs_sum tx s /\ outputs_sum tx <= MaxInt64 /\ block_fees txs fees' /\
    fees = tx_fee tx s + fees'.
Proof using.
  split.
  - intros (ss & F & F' & ->). inversion F as [|? s ? ss' Hs Hss]; subst.
    apply Forall_cons in F' as [? ?]. exists s, (Zsum (zip_with tx_fee txs ss')).
    split_and!; try done. by exists ss'.
  - intros (s & fees' & Hs & Ho & (ss & F & F' & ->) & ->). exists (s :: ss).
    split_and!; [by constructor|by constructor|done].
Qed.

Lemma block_fees_nonneg txs fees : block_fees txs fees -> 0 <= fees.
Proof using.
  revert fees; induction txs as [|tx txs IH]; intros fees.
  - by intros ->%block_fees_nil.
  - intros (s & fees' & _ & _ & ?%IH & ->)%block_fees_cons. unfold tx_fee. lia.
Qed.

Lemma block_fees_unique txs fees fees' : block_fees txs fees -> block_fees txs fees' -> fees = fees'.
Proof using.
  revert fees fees'; induction txs as [|tx txs IH]; intros fees fees'.
  - by intros ->%block_fees_nil ->%block_fees_nil.
  - intros (s & f & Hs & _ & Hf & ->)%block_fees_cons (s' & f' & Hs' & _ & Hf' & ->)%block_fees_cons.
    by rewrite (inputs_sum_unique (TxIns tx) s s'), (IH f f').
Qed.

Definition txs_ok (txs : list MsgTx) : Prop :=
  Forall (fun tx => Forall in_ok (TxIns tx) /\ outs_ok tx) txs.

(** The fees fit in 64 bits: they do when the spent outputs are part of the supply. *)
Definition fees_fit (txs : list MsgTx) : Prop :=
  forall fees, block_fees txs fees -> fees <= MaxInt64 - InitialBlockSubsidy.

Lemma decides_false {A} (m : M NameDatabase A) (P : A -> Prop) e :
  (forall n, m n = (Err e, n)) -> (forall a, ~ P a) -> decides m P.
Proof using. intros E N n K. unfold wp. rewrite E. done. Qed.

Lemma inputs_sum_range tx s : inputs_sum tx s -> 0 <= s <= MaxInt64.
Proof using.
  intros (us & _ & F & -> & ?). split; [|done]. by apply Zsum_nonneg, Forall_fmap.
Qed.

Lemma sumFees_decides txs height acc : txs_ok txs -> 0 <= height -> is_int64 acc ->
  decides (sumFees acc txs height)
    (fun r => exists fees, r = (int64 (acc + fees), false) /\ block_fees txs fees).
Proof using Hu.
  intros F Hh. revert acc. induction F as [|tx txs [Hi Ho] F IH]; intros acc Ha; cbn [sumFees].
  { intros n K. rewrite wp_ret. split; [done|]. exists 0. rewrite Z.add_0_r, int64_id by done.
    split; [done|]. by apply block_fees_nil. }
  pose proof (sumOutputValues_spec tx Ho) as So. pose proof (outputs_sum_nonneg tx Ho) as P.
  eapply decides_iff; [|apply decides_bind with
    (P := fun r => exists s, r = (s, false) /\ inputs_sum tx s)
    (Q := fun '(s, _) r => outputs_sum tx <= MaxInt64 /\
       exists fees, r = (int64 (acc + tx_fee tx s + fees), false) /\ block_fees txs fees)].
  - intros r. split.
    + intros ([s sk] & (s' & [= -> ->] & Hs) & Hle & fees & -> & Hf).
      exists (tx_fee tx s' + fees). rewrite Z.add_assoc. split; [done|].
      apply block_fees_cons. by exists s', fees.
    + intros (fees & -> & (s & fees' & Hs & Hle & Hf & ->)%block_fees_cons).
      exists (s, false). split; [by exists s|]. split; [done|]. exists fees'. by rewrite Z.add_assoc.
  - by apply sumInputValues_decides.
  - intros [s sk] (s' & [= -> ->] & Hs). pose proof (inputs_sum_range tx s' Hs).
    destruct (decide (outputs_sum tx <= MaxInt64)) as [Hle|Hgt].
    + intros n K. rewrite wp_bind, wp_lift, So, int64_id by (unfold_int; lia).
      assert ((if s' - outputs_sum tx >? 0 then int64 (acc + (s' - outputs_sum tx)) else acc) =
        int64 (acc + tx_fee tx s')) as ->.
      { unfold tx_fee. destruct (Z.gtb_spec (s' - outputs_sum tx) 0); [by rewrite Z.max_r by lia|].
        rewrite Z.max_l, Z.add_0_r, int64_id by (done || lia). done. }
      eapply wp_mono; [apply IH; [apply int64_range|done]| |]; cbn.
      * intros r n' (K' & fees & -> & Hf). split; [done|]. split; [done|]. exists fees.
        by rewrite int64_add_l.
      * intros e n' (K' & N). split; [done|]. intros r (_ & fees & -> & Hf).
        apply (N (int64 (acc + tx_fee tx s' + fees), false)). exists fees. by rewrite int64_add_l.
    + destruct So as [e So]. apply decides_false with e; [by intros n; rewrite So|].
      intros r [? _]. lia.
  - intros a a' (s & -> & H1) (s' & -> & H2). f_equal. by eapply inputs_sum_unique.
Qed.

Lemma computeBlockFees_decides bc txs height : txs_ok txs -> 0 <= height -> nameDB_nil bc = false ->
  decides (computeBlockFees bc txs height)
    (fun r => exists fees, r = (int64 fees, false) /\ block_fees txs fees).
Proof using Hu.
  intros F Hh Hnil. unfold computeBlockFees. rewrite Hnil. simpl. case_bool_decide as E.
  - subst. intros n K. rewrite wp_ret. split; [done|]. exists 0. split; [done|]. by apply block_fees_nil.
  - apply (sumFees_decides txs height 0); [done|done|]. by unfold_int.
Qed.

(** The coinbase pays out at most the subsidy and the fees. *)
Definition subsidy_ok (bc : chain_view) (height : Z) (txs : list MsgTx) : Prop :=
  exists coinbase txs' fees, txs = coinbase :: txs' /\ outputs_sum coinbase <= MaxInt64 /\
    block_fees txs' fees /\
    outputs_sum coinbase <= CalcBlockSubsidy height (chainParams bc) + fees.

Lemma validateBlockSubsidy_decides bc block height :
  nameDB_nil bc = false -> determineBlockHeight bc block = Ok height -> 0 <= height ->
  0 < SubsidyReductionInterval (chainParams bc) ->
  Forall outs_ok (blk_Txs block) -> txs_ok (tail (blk_Txs block)) -> fees_fit (tail (blk_Txs block)) ->
  decides (validateBlockSubsidy bc block) (fun _ => subsidy_ok bc height (blk_Txs block)).
Proof using Hu.
  intros Hnil Hd Hh Hp Fo F Hfit. unfold validateBlockSubsidy, resolveSubsidyHeight, subsidy_ok.
  rewrite Hd. destruct (blk_Txs block) as [|coinbase txs]; simpl in F, Hfit.
  { intros n K. rewrite wp_fail. split; [done|]. intros _ (? & ? & ? & ? & _). done. }
  apply Forall_cons in Fo as [Ho _]. pose proof (sumOutputValues_spec coinbase Ho) as So.
  destruct (Z.ltb_spec height 0); [lia|].
  destruct (decide (outputs_sum coinbase <= MaxInt64)) as [Hle|Hgt].
  - intros n K. rewrite wp_bind, wp_lift, So, wp_bind.
    eapply wp_mono; [by apply computeBlockFees_decides| |]; cbn.
    + intros r n' (K' & fees & -> & Hf). rewrite wp_lift. unfold validateCoinbaseSubsidy.
      pose proof (CalcBlockSubsidy_range height (chainParams bc) Hp) as Rs.
      pose proof (block_fees_nonneg _ _ Hf). pose proof (Hfit _ Hf) as Hx.
      unfold InitialBlockSubsidy, CoinValue in *.
      rewrite (int64_id fees) by (unfold_int; lia). rewrite int64_id by (unfold_int; lia).
      destruct (Z.gtb_spec (outputs_sum coinbase) (CalcBlockSubsidy height (chainParams bc) + fees)).
      * split; [done|]. intros _ (cb & txs' & fees' & [= <- <-] & _ & Hf' & Hc).
        rewrite (block_fees_unique txs fees fees') in * by done. lia.
      * split; [done|]. exists coinbase, txs, fees. split_and!; try done; lia.
    + intros e n' (K' & N). split; [done|].
      intros _ (cb & txs' & fees' & [= <- <-] & _ & Hf' & Hc). apply (N (int64 fees', false)). by exists fees'.
  - destruct So as [e So]. intros n K. rewrite wp_bind, wp_lift, So. split; [done|].
    intros _ (cb & txs' & fees' & [= <- <-] & ? & _). done.
Qed.

End spec.
