(* ===== verification/ChainNames.v ===== *)
(** * What the name checks of a block and of the mempool decide

    [block_names_ok] is the specification of [validateNameOperations]: every name
    output satisfies [output_ok] against the database before the block, no name and
    no commitment occurs twice in the block, and every transaction with name
    operations but the first pays their fees.  [tx_names_ok] is that of the
    mempool's [validateNameOperationsInTx]. *)

From S2P Require Import Prelude Bolt Lru Record NameDB NamesSpec ExpirySpec Utxo UtxoSpec.
From S2P Require Import Config Script Wire AuxPow Chain ChainSpec.

Section names.
Context {B : Bolt} {L : BoltLaws B} {W : Wire} {G : BtcLib} {R : MapRange}.
Context (n0 : NameDatabase) (Hn : ndb_wf n0) (Hu : ndb_utxo_wf n0).

(** ** The predicates *)

Definition name_free (name : bytes) (height : Z) : Prop :=
  forall r, ndb_names n0 !! name = Some r -> ExpiresAt r < height.

(** The commitment was made [MinBlocksBeforeFirstUpdate] to
    [MaxBlocksBeforeFirstUpdate] blocks before. *)
Definition in_window (commitHash : bytes) (height : Z) : Prop :=
  exists z, commitment_height n0 commitHash = Some z /\
    MinBlocksBeforeFirstUpdate <= height - z <= MaxBlocksBeforeFirstUpdate.

(** The name is live and [tx] spends its current output. *)
Definition owner_spends (tx : MsgTx) (name : bytes) (height : Z) : Prop :=
  exists r txIn, ndb_names n0 !! name = Some r /\ height <= ExpiresAt r /\
    txIn ∈ TxIns tx /\ PreviousOutPoint txIn = mkOutPoint (Record.TxHash r) (OutIndex r).

Definition op_ok (tx : MsgTx) (op : NameOperation) (name extra : bytes) (height : Z) : Prop :=
  match op with
  | NameNew => commitment_height n0 extra = None
  | NameFirstUpdate =>
      name_free name height /\ in_window (computeCommitHash Hash160 extra name) height
  | NameUpdate => owner_spends tx name height
  end.

Definition size_ok (op : NameOperation) (name value : bytes) : Prop :=
  op <> NameNew -> 0 < blen name <= MaxNameLength /\ blen value <= MaxValueLength.

Definition output_ok (tx : MsgTx) (height : Z) (txOut : TxOut) : Prop :=
  forall op name value extra, parseNameScriptFull (PkScript txOut) = Ok (op, name, value, extra) ->
    DustLimit <= to_Value txOut /\ op_ok tx op name extra height /\ size_ok op name value.

(** The commitment a NAME_NEW output makes, the name another output is about. *)
Definition out_commit (txOut : TxOut) : option bytes :=
  match parseNameScriptFull (PkScript txOut) with
  | Ok (NameNew, _, _, extra) => Some extra
  | _ => None
  end.
Definition out_name (txOut : TxOut) : option bytes :=
  match parseNameScriptFull (PkScript txOut) with
  | Ok (NameNew, _, _, _) => None
  | Ok (_, name, _, _) => Some name
  | Err _ => None
  end.

Definition ctx_after (txOut : TxOut) (ctx : nameValidationContext) : nameValidationContext :=
  match out_commit txOut, out_name txOut with
  | Some c, _ => add_commit c ctx
  | _, Some nm => add_name nm ctx
  | _, _ => ctx
  end.

Definition fresh_in (ctx : nameValidationContext) (txOut : TxOut) : Prop :=
  (forall c, out_commit txOut = Some c -> c ∉ seenNameNewCommits ctx) /\
  (forall nm, out_name txOut = Some nm -> nm ∉ seenNames ctx).

(** ** The rules for checks with a context *)

Definition vdecides (m : M (NameDatabase * nameValidationContext) unit)
    (ctx : nameValidationContext) (P : Prop) (ctx' : nameValidationContext) : Prop :=
  forall n, keeps n0 n ->
    wp m (fun _ s => keeps n0 s.1 /\ s.2 = ctx' /\ P) (fun _ s => keeps n0 s.1 /\ ~ P) (n, ctx).

Lemma vdecides_bind m k ctx P ctx1 Q ctx2 :
  vdecides m ctx P ctx1 -> (P -> vdecides k ctx1 Q ctx2) -> vdecides (m;; k) ctx (P /\ Q) ctx2.
Proof using.
  intros Hm Hk n K. rewrite wp_bind. eapply wp_mono; [by apply Hm| |]; simpl.
  - intros _ [n' c] (K' & E & HP). simpl in K', E. subst c.
    eapply wp_mono; [by apply Hk| |]; simpl.
    + intros _ s (? & ? & ?). done.
    + intros e s (? & N). split; [done|]. by intros [_ ?].
  - intros e s (? & N). split; [done|]. by intros [? _].
Qed.

Lemma vdecides_iff m ctx P Q ctx' : (P <-> Q) -> vdecides m ctx P ctx' -> vdecides m ctx Q ctx'.
Proof using.
  intros E Hm n K. eapply wp_mono; [by apply Hm| |]; simpl.
  - intros _ s (? & ? & ?%E). done.
  - intros e s (? & N). split; [done|]. by rewrite <-E.
Qed.

Lemma vdecides_ret ctx (P : Prop) : P -> vdecides (mret tt) ctx P ctx.
Proof using. intros HP n K. by rewrite wp_ret. Qed.

Lemma vdecides_fail e ctx (P : Prop) ctx' : ~ P -> vdecides (fail e) ctx P ctx'.
Proof using. intros HP n K. by rewrite wp_fail. Qed.

Lemma vdecides_on_ndb (m : M NameDatabase unit) ctx P :
  decides n0 m (fun _ => P) -> vdecides (on_ndb m) ctx P ctx.
Proof using.
  intros Hm n K. specialize (Hm n K). unfold on_ndb, zoom, wp in *. simpl.
  destruct (m n) as [[a|e] n']; simpl in *; [by destruct Hm|].
  destruct Hm as [? N]. split; [done|]. by intros ?%(N tt).
Qed.

Lemma on_ndb_bind {A C} (m : M NameDatabase A) (k : A -> M NameDatabase C) s :
  on_ndb (m ≫= k) s = (on_ndb m ≫= (fun a => on_ndb (k a))) s.
Proof using.
  destruct s as [n c]. unfold on_ndb, zoom, mbind, M_bind. simpl. destruct (m n) as [[] ?]; done.
Qed.

Lemma on_ndb_try {A} (m : M NameDatabase A) s : try (on_ndb m) s = on_ndb (try m) s.
Proof using.
  destruct s as [n c]. unfold on_ndb, zoom, try. simpl. destruct (m n) as [[] ?]; done.
Qed.

(** A read whose result decides. *)
Lemma vdecides_try {A} (m : M NameDatabase A) (k : res A -> M (NameDatabase * nameValidationContext) unit)
    (k' : res A -> M NameDatabase unit) ctx P :
  (forall r s, k r s = on_ndb (k' r) s) ->
  decides n0 (try m ≫= k') (fun _ => P) ->
  vdecides (try (on_ndb m) ≫= k) ctx P ctx.
Proof using.
  intros Ek Hd n K. pose proof (vdecides_on_ndb _ ctx P Hd n K) as H.
  unfold wp in *. rewrite on_ndb_bind in H. unfold mbind, M_bind in *. rewrite on_ndb_try.
  destruct (on_ndb (try m) (n, ctx)) as [[r|e] s]; [|done]. by rewrite Ek.
Qed.

(** ** The checks of one output *)

(** The checks that blocks and the mempool share take the rest [k] as a parameter. *)
Lemma window_decides h height (kk : res NameNewRecord -> M NameDatabase unit) k P e1 e2 e3 :
  is_int32 height ->
  (forall r, kk (Ok r) = if height <? nn_Height r then fail e1
     else if int32 (height - nn_Height r) <? MinBlocksBeforeFirstUpdate then fail e2
     else if int32 (height - nn_Height r) >? MaxBlocksBeforeFirstUpdate then fail e3 else k) ->
  (forall e, exists e', kk (Err e) = fail e') ->
  decides n0 k (fun _ => P) ->
  decides n0 (try (GetNameNew h) ≫= kk) (fun _ => in_window h height /\ P).
Proof using.
  intros Hh Ek Ee Hk. unfold in_window. apply decides_GetNameNew.
  - intros z Ez n K. rewrite Ek. simpl. assert (is_int32 z).
    { unfold commitment_height in Ez. destruct (ndb_commitment n0 h) as [d|]; [|done].
      simpl in Ez. case_bool_decide; [done|]. injection Ez as <-. apply int32_range. }
    unfold MinBlocksBeforeFirstUpdate, MaxBlocksBeforeFirstUpdate.
    assert ((exists z', commitment_height n0 h = Some z' /\ 12 <= height - z' <= 36000) <->
      12 <= height - z <= 36000) as Ew.
    { split; [|eauto]. intros (z' & Ez' & ?). rewrite Ez in Ez'. by injection Ez' as ->. }
    destruct (Z.ltb_spec height z); [split; [done|intros _ [?%Ew _]; lia]|].
    assert (0 <= height - z <= 2147483647 \/ 2147483647 < height - z) as [Hr|Hr] by lia.
    + rewrite int32_id by (unfold_int; lia).
      destruct (Z.ltb_spec (height - z) 12); [|destruct (Z.gtb_spec (height - z) 36000)];
        [split; [done|intros _ [?%Ew _]; lia]..|].
      eapply wp_mono; [by apply Hk| |]; simpl.
      * intros _ n' [? ?]. split; [done|]. split; [|done]. apply Ew. lia.
      * intros e n' [? N]. split; [done|]. intros _ [_ ?]. by apply (N tt).
    + assert (int32 (height - z) < 12) as Hw by int_lia.
      apply Z.ltb_lt in Hw. rewrite Hw. split; [done|]. intros _ [?%Ew _]. lia.
  - intros e Ez n K. destruct (Ee e) as [e' ->]. split; [done|]. intros _ [(z & Ez' & _) _]. congruence.
Qed.

Lemma decides_true : decides n0 (mret tt) (fun _ => True).
Proof using. intros n K. by rewrite wp_ret. Qed.

Lemma validateFirstUpdateWindow_decides h height : is_int32 height ->
  decides n0 (validateFirstUpdateWindow h height) (fun _ => in_window h height).
Proof using.
  intros Hh. unfold validateFirstUpdateWindow.
  eapply decides_iff; [|eapply window_decides; [done|intros r; reflexivity|by eexists|apply decides_true]].
  intros []. tauto.
Qed.

Lemma ensureNameAvailable_decides name height :
  decides n0 (ensureNameAvailableForFirstUpdate name height) (fun _ => name_free name height).
Proof using Hn.
  unfold ensureNameAvailableForFirstUpdate, name_free. apply decides_GetName; [done|..].
  - intros r Er n K. destruct (Z.geb_spec (ExpiresAt r) height); rewrite ?wp_fail, ?wp_ret; (split; [done|]).
    + intros _ Hf. specialize (Hf r Er). lia.
    + intros r' Er'. assert (r' = r) as -> by congruence. lia.
  - intros Er n K. simpl. rewrite wp_ret. split; [done|]. intros r Er'. congruence.
Qed.

Lemma spends_iff tx h i :
  spends tx h i = true <-> exists txIn, txIn ∈ TxIns tx /\ PreviousOutPoint txIn = mkOutPoint h i.
Proof using.
  unfold spends. rewrite existsb_exists. split.
  - intros (txIn & Hin & H). exists txIn. apply list_elem_of_In in Hin. split; [done|].
    apply andb_true_iff in H as [H1%bool_decide_eq_true H2%Z.eqb_eq].
    destruct (PreviousOutPoint txIn); simpl in *; congruence.
  - intros (txIn & Hin & E). exists txIn. apply list_elem_of_In in Hin. split; [done|].
    rewrite E. simpl. by rewrite bool_decide_true, Z.eqb_refl.
Qed.

Lemma owner_spends_decides tx name height (kk : res NameRecord -> M NameDatabase unit) k P e1 e2 e3 :
  (forall r, kk (Ok r) = if ExpiresAt r <? height then fail e1
     else if negb (spends tx (Record.TxHash r) (OutIndex r)) then fail e2 else k) ->
  kk (Err ErrNameNotFound) = fail e3 ->
  decides n0 k (fun _ => P) ->
  decides n0 (try (GetName name) ≫= kk) (fun _ => owner_spends tx name height /\ P).
Proof using Hn.
  intros Ek Ee Hk. apply decides_GetName; [done|..].
  - intros r Er n K. rewrite Ek.
    assert (owner_spends tx name height <-> height <= ExpiresAt r /\
      spends tx (Record.TxHash r) (OutIndex r) = true) as Eo.
    { rewrite spends_iff. split.
      - intros (r' & txIn & Er' & ? & ? & ?). assert (r' = r) as -> by congruence. eauto.
      - intros (? & txIn & ? & ?). exists r, txIn. done. }
    destruct (Z.ltb_spec (ExpiresAt r) height).
    { split; [done|]. intros _ [[? _]%Eo _]. lia. }
    destruct (spends tx (Record.TxHash r) (OutIndex r)) eqn:Es; simpl.
    + eapply wp_mono; [by apply Hk| |]; simpl.
      * intros _ n' [? ?]. split_and!; try done. by apply Eo.
      * intros e n' [? N]. split; [done|]. intros _ [_ ?]. by apply (N tt).
    + split; [done|]. intros _ [[_ ?]%Eo _]. congruence.
  - intros Er n K. rewrite Ee. split; [done|]. intros _ [(r & ? & Er' & _) _]. congruence.
Qed.

Lemma validateNamedTxOut_decides txOut name ctx :
  vdecides (validateNamedTxOut txOut name) ctx
    (DustLimit <= to_Value txOut /\ name ∉ seenNames ctx) (add_name name ctx).
Proof using.
  unfold validateNamedTxOut. destruct (Z.ltb_spec (to_Value txOut) DustLimit).
  { apply vdecides_fail. intros [? _]. lia. }
  intros n K. unfold get_ctx, set_ctx. rewrite !wp_bind, wp_get, wp_ret. simpl.
  case_bool_decide; rewrite ?wp_fail, ?wp_modify; simpl; [|done].
  split; [done|]. by intros [_ ?].
Qed.

Lemma dispatch_decides tx txOut op name extra height ctx : is_int32 height ->
  vdecides (dispatchNameOpValidation tx txOut op name extra height) ctx
    ((DustLimit <= to_Value txOut /\
      match op with NameNew => extra ∉ seenNameNewCommits ctx | _ => name ∉ seenNames ctx end) /\
     op_ok tx op name extra height)
    (match op with NameNew => add_commit extra ctx | _ => add_name name ctx end).
Proof using Hn.
  intros Hh. destruct op; cbn [dispatchNameOpValidation op_ok].
  - unfold validateNameNewOp. destruct (Z.ltb_spec (to_Value txOut) DustLimit).
    { apply vdecides_fail. intros [[? _] _]. lia. }
    intros n K. unfold get_ctx. rewrite wp_bind, wp_bind, wp_get, wp_ret. simpl.
    case_bool_decide. { rewrite wp_fail. split; [done|]. by intros [[_ ?] _]. }
    rewrite wp_bind. unfold set_ctx. rewrite wp_modify. simpl.
    assert (vdecides (try (on_ndb (GetNameNew extra)) ≫= (fun r => match r with
      | Ok _ => fail (EMsg "name_new commitment already exists (tx: %s)") | Err _ => mret tt end))
      (add_commit extra ctx) (commitment_height n0 extra = None) (add_commit extra ctx)) as Hd.
    { apply vdecides_try with (k' := fun r => match r with
      | Ok _ => fail (EMsg "name_new commitment already exists (tx: %s)") | Err _ => mret tt end).
      - by intros [] [].
      - apply decides_GetNameNew.
        + intros z Ez n' K'. rewrite wp_fail. split; [done|]. intros _ ?. congruence.
        + intros e Ez n' K'. rewrite wp_ret. done. }
    eapply wp_mono; [by apply Hd| |]; simpl.
    + intros _ s (? & ? & ?). split_and!; try done.
    + intros e s (? & N). split; [done|]. by intros [_ ?].
  - unfold validateNameFirstUpdateOp. apply vdecides_bind with (add_name name ctx).
    { apply validateNamedTxOut_decides. }
    intros _. eapply vdecides_bind; [|intros _]; apply vdecides_on_ndb;
      [apply ensureNameAvailable_decides|by apply validateFirstUpdateWindow_decides].
  - unfold validateNameUpdateOp. apply vdecides_bind with (add_name name ctx).
    { apply validateNamedTxOut_decides. }
    intros _. eapply vdecides_try with (k' := fun record => match record with
      | Err err => if is_not_found err then fail _ else fail _
      | Ok record => if ExpiresAt record <? height then fail _
          else if negb (spends tx (Record.TxHash record) (OutIndex record)) then fail _ else mret tt
      end).
    + intros [r|e] []; simpl; [destruct (_ <? _); [reflexivity|destruct (negb _); reflexivity]|].
      destruct (is_not_found e); reflexivity.
    + eapply decides_iff; [|eapply owner_spends_decides; [intros r; reflexivity|reflexivity|apply decides_true]].
      intros []. cbn. tauto.
Qed.

Lemma validateConsensus_size name value :
  is_ok (validateConsensusNameFormat name value) = true <->
  0 < blen name <= MaxNameLength /\ blen value <= MaxValueLength.
Proof using.
  unfold validateConsensusNameFormat.
  assert (0 <= blen name) by (unfold blen; lia).
  destruct (Z.eqb_spec (blen name) 0); destruct (Z.gtb_spec (blen name) MaxNameLength);
    destruct (Z.gtb_spec (blen value) MaxValueLength); simpl; split; try done; lia.
Qed.

Lemma size_decides msg op name value : op <> NameNew ->
  decides n0 (wrapM msg (lift (validateConsensusNameFormat name value))) (fun _ => size_ok op name value).
Proof using.
  intros Hop n K. rewrite wp_wrapM, wp_lift. pose proof (validateConsensus_size name value) as Hv.
  unfold size_ok. destruct (validateConsensusNameFormat name value) as [[]|e]; simpl in Hv.
  - split; [done|]. intros _. by apply Hv.
  - split; [done|]. intros _ H'. by apply Hv in H'.
Qed.

Lemma validateNameOutput_decides tx height txOut ctx : is_int32 height ->
  vdecides (validateNameOutput tx height txOut) ctx
    (output_ok tx height txOut /\ fresh_in ctx txOut) (ctx_after txOut ctx).
Proof using Hn.
  intros Hh. unfold validateNameOutput, output_ok, fresh_in, ctx_after, out_commit, out_name.
  destruct (parseNameScriptFull (PkScript txOut)) as [[[[op name] value] extra]|e] eqn:Ep.
  2:{ apply vdecides_ret. done. }
  eapply vdecides_iff; [|eapply vdecides_bind with (Q := size_ok op name value);
    [by apply dispatch_decides|intros _]].
  - split.
    + intros [[[Hd Hf] Ho] Hs]. split.
      * intros ? ? ? ? [= <- <- <- <-]. done.
      * destruct op; (split; [intros ? [= <-]|intros ? [= <-]]); done.
    + intros [Ho [Hc Hf]]. destruct (Ho _ _ _ _ eq_refl) as (? & ? & ?).
      split_and!; try done. destruct op; [by apply Hc|by apply Hf..].
  - assert (forall c, vdecides (if bool_decide (op <> NameNew) then
        wrapM "%w (name: '%s', tx: %s)" (lift (validateConsensusNameFormat name value)) else mret tt)
        c (size_ok op name value) c) as Hs.
    { intros c. case_bool_decide; [|by apply vdecides_ret].
      intros n K. pose proof (size_decides "%w (name: '%s', tx: %s)" op name value H n K) as Hs.
      unfold wp, wrapM, lift in *. destruct (validateConsensusNameFormat name value) as [[]|e]; simpl in *.
      - by destruct Hs.
      - destruct Hs as [? N]. split; [done|]. by apply (N tt). }
    destruct op; apply Hs.
Qed.

(** ** A whole block *)

Definition ctx_all (outs : list TxOut) (ctx : nameValidationContext) : nameValidationContext :=
  foldl (fun c o => ctx_after o c) ctx outs.

(** The outputs make no commitment twice, name no name twice, and none of [ctx]. *)
Definition fresh_all (ctx : nameValidationContext) (outs : list TxOut) : Prop :=
  (NoDup (omap out_commit outs) /\ forall c, c ∈ omap out_commit outs -> c ∉ seenNameNewCommits ctx) /\
  (NoDup (omap out_name outs) /\ forall nm, nm ∈ omap out_name outs -> nm ∉ seenNames ctx).

Lemma omap_cons' {A C} (f : A -> option C) x l :
  omap f (x :: l) = match f x with Some y => y :: omap f l | None => omap f l end.
Proof. done. Qed.

Lemma fresh_all_nil ctx : fresh_all ctx [].
Proof using.
  split; (split; [constructor|]); intros ? Hx; by apply not_elem_of_nil in Hx.
Qed.

Lemma fresh_list_cons (x : bytes) (l : list bytes) (X : gset bytes) :
  (NoDup (x :: l) /\ (forall c, c ∈ (x :: l) -> c ∉ X)) <->
  (x ∉ X) /\ (NoDup l /\ (forall c, c ∈ l -> c ∉ {[x]} ∪ X)).
Proof using.
  rewrite NoDup_cons. setoid_rewrite elem_of_cons. split.
  - intros [[Nx Nl] H]. split_and!; [apply H; auto|done|]. intros c Hc.
    rewrite not_elem_of_union, not_elem_of_singleton. split; [intros ->; done|apply H; auto].
  - intros (Nx & Nl & H).
    assert (forall c, c ∈ l -> c <> x /\ c ∉ X) as H'.
    { intros c Hc%H. by rewrite not_elem_of_union, not_elem_of_singleton in Hc. }
    split_and!; [intros Hc; by apply H' in Hc as []|done|]. intros c [->|Hc]; [done|by apply H'].
Qed.

Lemma forall_Some {A} (x : A) (P : A -> Prop) : (forall y, Some x = Some y -> P y) <-> P x.
Proof using. split; [auto|]. intros HP y. by intros [= <-]. Qed.
Lemma forall_None {A} (P : A -> Prop) : (forall y, None = Some y -> P y) <-> True.
Proof using. split; [done|]. intros _ y. done. Qed.

Lemma fresh_all_cons ctx o outs :
  fresh_all ctx (o :: outs) <-> fresh_in ctx o /\ fresh_all (ctx_after o ctx) outs.
Proof using.
  unfold fresh_all, fresh_in, ctx_after. rewrite !omap_cons'.
  assert (out_commit o = None \/ out_name o = None) as Hx.
  { unfold out_commit, out_name. destruct (parseNameScriptFull (PkScript o)) as [[[[[] ?] ?] ?]|]; auto. }
  destruct (out_commit o) as [c|], (out_name o) as [nm|]; try (destruct Hx; done); simpl.
  - rewrite fresh_list_cons, forall_Some, forall_None. tauto.
  - rewrite fresh_list_cons, forall_Some, forall_None. tauto.
  - rewrite !forall_None. tauto.
Qed.

Lemma fresh_all_app ctx l1 l2 :
  fresh_all ctx (l1 ++ l2) <-> fresh_all ctx l1 /\ fresh_all (ctx_all l1 ctx) l2.
Proof using.
  revert ctx; induction l1 as [|o l1 IH]; intros ctx; simpl.
  - pose proof (fresh_all_nil ctx). tauto.
  - rewrite !fresh_all_cons, IH. tauto.
Qed.

Lemma validateNameOutputs_decides tx height ctx : is_int32 height ->
  vdecides (validateNameOutputs tx height) ctx
    (Forall (output_ok tx height) (TxOuts tx) /\ fresh_all ctx (TxOuts tx)) (ctx_all (TxOuts tx) ctx).
Proof using Hn.
  intros Hh. unfold validateNameOutputs. revert ctx.
  induction (TxOuts tx) as [|o outs IH]; intros ctx; simpl.
  - apply vdecides_ret. split; [done|]. apply fresh_all_nil.
  - eapply vdecides_iff; [|eapply vdecides_bind; [by apply validateNameOutput_decides|intros _; apply IH]].
    rewrite fresh_all_cons, Forall_cons. tauto.
Qed.

(** The name operations of a transaction. *)
Definition has_op (tx : MsgTx) (op : NameOperation) : Prop :=
  exists txOut name value extra, txOut ∈ TxOuts tx /\
    parseNameScriptFull (PkScript txOut) = Ok (op, name, value, extra).

Lemma collect_lookup tx op : is_Some (collectNameOperationTypes tx !! op) <-> has_op tx op.
Proof using.
  unfold collectNameOperationTypes, has_op.
  assert (forall outs (m : gmap NameOperation unit),
    is_Some (foldl (fun ops txOut => match parseNameScriptFull (PkScript txOut) with
      | Ok (op, _, _, _) => <[op:=tt]> ops | Err _ => ops end) m outs !! op) <->
    is_Some (m !! op) \/ exists txOut name value extra, txOut ∈ outs /\
      parseNameScriptFull (PkScript txOut) = Ok (op, name, value, extra)) as Hg.
  { induction outs as [|o outs IH]; intros m; simpl.
    - split; [by left|]. intros [?|(? & ? & ? & ? & Hx & _)]; [done|]. by apply not_elem_of_nil in Hx.
    - rewrite IH. setoid_rewrite elem_of_cons.
      destruct (parseNameScriptFull (PkScript o)) as [[[[op' nm] v] ex]|e] eqn:Ep.
      + rewrite lookup_insert_is_Some. split.
        * intros [[<-|[_ ?]]|(? & ? & ? & ? & ? & ?)]; [right|by left|right]; eauto 10.
        * intros [?|(? & ? & ? & ? & [->|?] & Ho)].
          -- left. destruct (decide (op' = op)); [by left|by right].
          -- left. left. congruence.
          -- right. eauto 10.
      + split; (intros [?|(? & ? & ? & ? & Hx & Ho)]; [by left|right]); [eauto 10|].
        destruct Hx as [->|?]; [congruence|eauto 10]. }
  rewrite Hg. rewrite lookup_empty. split; [intros [[? ?]|?]|]; try done. by right.
Qed.

Definition fees_ok (tx : MsgTx) : Prop := forall op, has_op tx op -> pays_fee n0 tx op.

Lemma forM_decides {A} (l : list A) (f : A -> M NameDatabase unit) (P : A -> Prop) :
  (forall x, x ∈ l -> decides n0 (f x) (fun _ => P x)) ->
  decides n0 (forM l f) (fun _ => forall x, x ∈ l -> P x).
Proof using.
  induction l as [|x l IH]; intros Hf; simpl.
  - intros n K. rewrite wp_ret. split; [done|]. intros x Hx. by apply not_elem_of_nil in Hx.
  - eapply decides_iff; [|apply decides_bind with (Q := fun _ _ => forall y, y ∈ l -> P y);
      [apply Hf; left| |by intros [] []]].
    + intros []. setoid_rewrite elem_of_cons. split.
      * intros ([] & ? & ?) y [->|?]; auto.
      * intros Hl. exists tt. split; [|intros y ?]; apply Hl; auto.
    + intros _ _. apply IH. intros y ?. apply Hf. by right.
Qed.

Lemma validateNameOpFees_decides tx txIdx height :
  Forall in_ok (TxIns tx) -> outs_ok tx -> 0 <= height ->
  decides n0 (validateNameOpFees tx (collectNameOperationTypes tx) txIdx height)
    (fun _ => txIdx <> 0%nat -> fees_ok tx).
Proof using Hu.
  intros Hi Ho Hh. unfold validateNameOpFees.
  assert (forall op, op ∈ (range (collectNameOperationTypes tx)).*1 <-> has_op tx op) as Hr.
  { intros op. rewrite <-collect_lookup, list_elem_of_fmap. split.
    - intros ([? []] & -> & Hx). rewrite range_perm, elem_of_map_to_list in Hx. by eexists.
    - intros [[] Hx]. exists (op, tt). split; [done|]. by rewrite range_perm, elem_of_map_to_list. }
  destruct (bool_decide (collectNameOperationTypes tx = ∅)) eqn:E0; simpl.
  { apply bool_decide_eq_true in E0. intros n K. rewrite wp_ret. split; [done|]. intros _ op Hop%collect_lookup.
    rewrite E0, lookup_empty in Hop. by destruct Hop. }
  clear E0. case_bool_decide as E1; [intros n K; by rewrite wp_ret|].
  eapply decides_iff; [|apply forM_decides with (P := fun x => pays_fee n0 tx x.1)].
  - intros []. split.
    + intros H _ op (x & -> & Hx)%Hr%list_elem_of_fmap. by apply H.
    + intros H x Hx. apply H; [done|]. apply Hr, list_elem_of_fmap. eauto.
  - intros x _. by apply decides_wrapM, validateTransactionFee_decides.
Qed.

Lemma validateTransactionNameOps_decides tx txIdx height ctx :
  Forall in_ok (TxIns tx) -> outs_ok tx -> 0 <= height -> is_int32 height ->
  vdecides (validateTransactionNameOps tx txIdx height) ctx
    ((txIdx <> 0%nat -> fees_ok tx) /\
     Forall (output_ok tx height) (TxOuts tx) /\ fresh_all ctx (TxOuts tx)) (ctx_all (TxOuts tx) ctx).
Proof using Hn Hu.
  intros. unfold validateTransactionNameOps. eapply vdecides_bind; [|intros _].
  - by apply vdecides_on_ndb, validateNameOpFees_decides.
  - by apply validateNameOutputs_decides.
Qed.

(** The name operations of a block that is valid at a height. *)
Record block_names_ok (height : Z) (txs : list MsgTx) : Prop := {
  bn_fees : Forall fees_ok (tail txs);
  bn_ops : Forall (fun tx => Forall (output_ok tx height) (TxOuts tx)) txs;
  bn_commits : NoDup (omap out_commit (concat (TxOuts <$> txs)));
  bn_names : NoDup (omap out_name (concat (TxOuts <$> txs)));
}.

Lemma blockLoop_decides its height ctx :
  Forall (fun it => Forall in_ok (TxIns it.2) /\ outs_ok it.2) its -> 0 <= height -> is_int32 height ->
  vdecides (forM its (fun it => validateTransactionNameOps it.2 it.1 height)) ctx
    (Forall (fun it => it.1 <> 0%nat -> fees_ok it.2) its /\
     Forall (fun it => Forall (output_ok it.2 height) (TxOuts it.2)) its /\
     fresh_all ctx (concat (TxOuts <$> its.*2)))
    (ctx_all (concat (TxOuts <$> its.*2)) ctx).
Proof using Hn Hu.
  intros F Hh0 Hh. revert ctx. induction F as [|it its [Hi Ho] F IH]; intros ctx; simpl.
  - apply vdecides_ret. split_and!; [done|done|]. apply fresh_all_nil.
  - unfold ctx_all. rewrite foldl_app. eapply vdecides_iff; [|eapply vdecides_bind;
      [by apply validateTransactionNameOps_decides|intros _; apply IH]].
    rewrite fresh_all_app, !Forall_cons. tauto.
Qed.

Lemma indexed_snd {A} (l : list A) : (indexed l).*2 = l.
Proof using. unfold indexed. apply snd_zip. by rewrite length_seq. Qed.

Lemma indexed_cons {A} (x : A) (l : list A) :
  indexed (x :: l) = (0%nat, x) :: zip (List.seq 1 (length l)) l.
Proof. done. Qed.

Lemma Forall_seq_pos {A} (P : A -> Prop) i (l : list A) : (0 < i)%nat ->
  Forall (fun it : nat * A => it.1 <> 0%nat -> P it.2) (zip (List.seq i (length l)) l) <-> Forall P l.
Proof using.
  revert i; induction l as [|x l IH]; intros i Hi; simpl; [done|].
  rewrite !Forall_cons, (IH (S i)) by lia. simpl. intuition lia.
Qed.

Lemma fresh_all_new outs :
  fresh_all newNameValidationContext outs <->
  NoDup (omap out_commit outs) /\ NoDup (omap out_name outs).
Proof using.
  unfold fresh_all. simpl. split; [tauto|]. intros [? ?].
  split; (split; [done|]); intros ? _; apply not_elem_of_empty.
Qed.

Lemma validateNameOperations_decides bc block height :
  determineBlockHeight bc block = Ok height -> 0 <= height -> is_int32 height -> txs_ok (blk_Txs block) ->
  decides n0 (validateNameOperations bc block) (fun _ => block_names_ok height (blk_Txs block)).
Proof using Hn Hu.
  intros Hd Hh0 Hh F n K. unfold validateNameOperations, wp. rewrite Hd.
  assert (Forall (fun it => Forall in_ok (TxIns it.2) /\ outs_ok it.2) (indexed (blk_Txs block))) as F'.
  { unfold txs_ok in F. rewrite <-(indexed_snd (blk_Txs block)), Forall_fmap in F. exact F. }
  pose proof (blockLoop_decides (indexed (blk_Txs block)) height newNameValidationContext F' Hh0 Hh n K) as H.
  rewrite indexed_snd in H. unfold wp in H.
  assert ((Forall (fun it : nat * MsgTx => it.1 <> 0%nat -> fees_ok it.2) (indexed (blk_Txs block)) /\
     Forall (fun it : nat * MsgTx => Forall (output_ok it.2 height) (TxOuts it.2)) (indexed (blk_Txs block)) /\
     fresh_all newNameValidationContext (concat (TxOuts <$> blk_Txs block))) <->
     block_names_ok height (blk_Txs block)) as Eq.
  { rewrite fresh_all_new. 
    assert (Forall (fun it : nat * MsgTx => Forall (output_ok it.2 height) (TxOuts it.2)) (indexed (blk_Txs block)) <->
      Forall (fun tx => Forall (output_ok tx height) (TxOuts tx)) (blk_Txs block)) as ->.
    { rewrite <-(indexed_snd (blk_Txs block)) at 2. by rewrite Forall_fmap. }
    assert (Forall (fun it : nat * MsgTx => it.1 <> 0%nat -> fees_ok it.2) (indexed (blk_Txs block)) <->
      Forall fees_ok (tail (blk_Txs block))) as ->.
    { destruct (blk_Txs block) as [|tx txs]; [done|]. rewrite indexed_cons, Forall_cons.
      rewrite Forall_seq_pos by lia. simpl. intuition done. }
    split; [by intros (? & ? & ? & ?)|by intros []]. }
  destruct (forM _ _ _) as [[[]|e] s].
  - destruct H as (? & _ & H). split; [done|]. by apply Eq.
  - destruct H as (? & H). split; [done|]. by intros _ ?%Eq.
Qed.

(** ** The mempool *)

Definition is_name_out (txOut : TxOut) : bool := is_ok (parseNameScriptFull (PkScript txOut)).

Definition name_outs (outs : list TxOut) : list TxOut := filter (fun o => is_name_out o = true) outs.

(** The name operations of a transaction that the mempool takes at a height. *)
Record tx_names_ok (height : Z) (tx : MsgTx) : Prop := {
  tn_one : (length (name_outs (TxOuts tx)) <= 1)%nat;
  tn_ops : Forall (output_ok tx height) (TxOuts tx);
  tn_fees : fees_ok tx;
}.

Definition regular_ok (tx : MsgTx) : Prop :=
  TxOuts tx <> [] /\ exists txIn ins, TxIns tx = txIn :: ins /\ op_Hash (PreviousOutPoint txIn) <> zero_hash.

Lemma validateNameOperation_decides op name value extra tx height : is_int32 height ->
  decides n0 (validateNameOperation op name value extra tx height)
    (fun _ => op_ok tx op name extra height /\ size_ok op name value).
Proof using Hn.
  intros Hh. destruct op; cbn [validateNameOperation op_ok].
  - unfold validateNameNew. eapply decides_iff; [|apply decides_GetNameNew].
    + intros []. instantiate (1 := fun _ => commitment_height n0 extra = None). cbn. unfold size_ok.
      split; [intros ?; split; [done|]; by intros []|by intros [? _]].
    + intros z Ez n K. split; [done|]. intros _ ?. congruence.
    + intros e Ez n K. done.
  - unfold validateNameFirstUpdate. eapply decides_iff with
      (P := fun _ => name_free name height /\ in_window (computeCommitHash Hash160 extra name) height /\
                     size_ok NameFirstUpdate name value); [intros []; tauto|].
    assert (decides n0 (nameNewRecord ← try (GetNameNew (computeCommitHash Hash160 extra name));
      match nameNewRecord with
      | Err _ => fail (EMsg "no matching name_new found for name: %s")
      | Ok nameNewRecord =>
          if height <? nn_Height nameNewRecord then
            fail (EMsg "name_firstupdate before name_new: block %d < name_new block %d (name: '%s')")
          else
            let blocksSinceNameNew := int32 (height - nn_Height nameNewRecord) in
            if blocksSinceNameNew <? MinBlocksBeforeFirstUpdate then
              fail (EMsg "name_firstupdate too early: must wait %d blocks after name_new (current: %d blocks)")
            else if blocksSinceNameNew >? MaxBlocksBeforeFirstUpdate then
              fail (EMsg "name_firstupdate expired: name_new commitment is too old (must reveal within %d blocks, current: %d blocks)")
            else wrapM "invalid name format" (lift (validateConsensusNameFormat name value))
      end) (fun _ => in_window (computeCommitHash Hash160 extra name) height /\
                     size_ok NameFirstUpdate name value)) as Hw.
    { eapply window_decides; [done|intros r; reflexivity|by eexists|by apply size_decides]. }
    apply decides_GetName; [done|..]; cbn [is_not_found negb].
    + intros r Er n K. unfold name_free. destruct (Z.geb_spec (ExpiresAt r) height).
      * split; [done|]. intros _ [Hf _]. specialize (Hf r Er). lia.
      * eapply wp_mono; [by apply Hw| |]; simpl.
        -- intros _ n' (K' & ? & ?). split; [done|]. split; [|by split].
           intros r' Er'. assert (r' = r) as -> by congruence. lia.
        -- intros e n' [? N]. split; [done|]. intros _ [_ ?]. by apply (N tt).
    + intros Er n K. unfold name_free. eapply wp_mono; [by apply Hw| |]; simpl.
      * intros _ n' (K' & ? & ?). split; [done|]. split; [|by split]. congruence.
      * intros e n' [? N]. split; [done|]. intros _ [_ ?]. by apply (N tt).
  - unfold validateNameUpdate.
    eapply owner_spends_decides; [intros r; reflexivity|reflexivity|by apply size_decides].
Qed.

Definition out_fee_ok (tx : MsgTx) (txOut : TxOut) : Prop :=
  forall op name value extra, parseNameScriptFull (PkScript txOut) = Ok (op, name, value, extra) ->
    pays_fee n0 tx op.

Definition from_spec (tx : MsgTx) (height : Z) (has : bool) (outs : list TxOut) (b : bool) : Prop :=
  b = has || existsb is_name_out outs /\
  ((if has then 1 else 0) + length (name_outs outs) <= 1)%nat /\
  Forall (output_ok tx height) outs /\ Forall (out_fee_ok tx) outs.

Lemma name_outs_cons o outs :
  name_outs (o :: outs) = if is_name_out o then o :: name_outs outs else name_outs outs.
Proof using.
  unfold name_outs. destruct (is_name_out o) eqn:E; [by apply filter_cons_True|].
  apply filter_cons_False. by rewrite E.
Qed.

Lemma from_spec_skip tx height has o outs b e : parseNameScriptFull (PkScript o) = Err e ->
  from_spec tx height has (o :: outs) b <-> from_spec tx height has outs b.
Proof using.
  intros E. unfold from_spec. rewrite name_outs_cons, !Forall_cons. cbn [existsb].
  assert (is_name_out o = is_ok (parseNameScriptFull (PkScript o))) as -> by done.
  unfold output_ok at 1, out_fee_ok at 1. rewrite E. simpl.
  split; [by intros (? & ? & [_ ?] & [_ ?])|].
  intros (? & ? & ? & ?). split_and!; try done; by intros ? ? ? ? [=].
Qed.

Lemma from_spec_name tx height has o outs b op name value extra :
  parseNameScriptFull (PkScript o) = Ok (op, name, value, extra) ->
  from_spec tx height has (o :: outs) b <->
  has = false /\ DustLimit <= to_Value o /\ (op_ok tx op name extra height /\ size_ok op name value) /\
  pays_fee n0 tx op /\ from_spec tx height true outs b.
Proof using.
  intros E. unfold from_spec. rewrite name_outs_cons, !Forall_cons. cbn [existsb].
  assert (is_name_out o = is_ok (parseNameScriptFull (PkScript o))) as -> by done.
  unfold output_ok at 1, out_fee_ok at 1. rewrite E. simpl.
  split.
  - intros (-> & Hl & [Ho ?] & [Hf ?]). destruct (Ho _ _ _ _ eq_refl) as (? & ? & ?).
    specialize (Hf _ _ _ _ eq_refl). destruct has; simpl in Hl; [lia|]. done.
  - intros (-> & ? & [? ?] & ? & -> & Hl & ? & ?). split_and!; try done; by intros ? ? ? ? [= <- <- <- <-].
Qed.

Lemma validateNameOpsFrom_decides has outs tx height :
  Forall in_ok (TxIns tx) -> outs_ok tx -> 0 <= height -> is_int32 height ->
  decides n0 (validateNameOpsFrom has outs tx height) (from_spec tx height has outs).
Proof using Hn Hu.
  intros Hi Ho Hh0 Hh. revert has. induction outs as [|o outs IH]; intros has; cbn [validateNameOpsFrom].
  { intros n K. rewrite wp_ret. split; [done|]. unfold from_spec. simpl. rewrite orb_false_r.
    split_and!; try done. destruct has; simpl; lia. }
  destruct (parseNameScriptFull (PkScript o)) as [[[[op name] value] extra]|e] eqn:E.
  2:{ case_bool_decide; (eapply decides_iff; [|apply IH]; intros b; symmetry; by eapply from_spec_skip). }
  case_bool_decide as Enil; [by rewrite Enil in E|].
  eapply decides_iff; [intros b; symmetry; by eapply from_spec_name|].
  destruct has; [intros n K; split; [done|]; by intros b [? _]|].
  destruct (Z.ltb_spec (to_Value o) DustLimit); [intros n K; split; [done|]; intros b (_ & ? & _); lia|].
  intros n K. rewrite wp_bind. eapply wp_mono; [by apply validateNameOperation_decides| |]; simpl.
  2:{ intros e n' [? N]. split; [done|]. intros b (_ & _ & ? & _). by apply (N tt). }
  intros [] n1 [K1 Hop]. rewrite wp_bind, wp_wrapM.
  eapply wp_mono; [by apply validateTransactionFee_decides| |]; simpl.
  2:{ intros e n' [? N]. split; [done|]. intros b (_ & _ & _ & ? & _). by apply (N tt). }
  intros [] n2 [K2 Hfee]. eapply wp_mono; [by apply IH| |]; simpl.
  - intros b n' [? ?]. done.
  - intros e n' [? N]. split; [done|]. intros b (_ & _ & _ & _ & ?). by apply (N b).
Qed.

Definition has_name_op (tx : MsgTx) : bool := existsb is_name_out (TxOuts tx).

Lemma validateNameOperationsInTx_decides tx height :
  Forall in_ok (TxIns tx) -> outs_ok tx -> 0 <= height -> is_int32 height ->
  decides n0 (validateNameOperationsInTx tx height)
    (fun b => b = has_name_op tx /\ tx_names_ok height tx).
Proof using Hn Hu.
  intros. eapply decides_iff; [|by apply validateNameOpsFrom_decides].
  intros b. unfold from_spec. simpl. rewrite Forall_forall.
  assert (Forall (out_fee_ok tx) (TxOuts tx) <-> fees_ok tx) as ->.
  { rewrite Forall_forall. unfold out_fee_ok, fees_ok, has_op. split.
    - intros Hf op (o & ? & ? & ? & ? & ?). eauto.
    - intros Hf o Ho op ? ? ? ?. apply Hf. eauto 10. }
  rewrite <-Forall_forall. split; [by intros (? & ? & ? & ?)|by intros (? & [])].
Qed.

Lemma validateRegularTransaction_iff tx :
  is_ok (validateRegularTransaction tx) = true <-> regular_ok tx.
Proof using.
  unfold validateRegularTransaction, regular_ok. case_bool_decide; [simpl; split; [done|by intros [? _]]|].
  destruct (TxIns tx) as [|txIn ins]; [simpl; split; [done|by intros (_ & ? & ? & [=] & _)]|].
  case_bool_decide; simpl; split; try done.
  - by intros (_ & ? & ? & [= <- <-] & ?).
  - intros _. split; [done|]. by exists txIn, ins.
Qed.

Lemma ValidateMempoolTransaction_decides tx height :
  Forall in_ok (TxIns tx) -> outs_ok tx -> 0 <= height -> is_int32 height ->
  decides n0 (ValidateMempoolTransaction height (Some tx))
    (fun _ => tx_names_ok height tx /\ (has_name_op tx = false -> regular_ok tx)).
Proof using Hn Hu.
  intros. unfold ValidateMempoolTransaction. intros n K. rewrite wp_bind.
  eapply wp_mono; [by apply validateNameOperationsInTx_decides| |]; simpl.
  - intros b n' (K' & -> & Ht). pose proof (validateRegularTransaction_iff tx) as Hr.
    destruct (has_name_op tx); simpl; [rewrite wp_ret; done|]. rewrite wp_lift.
    destruct (validateRegularTransaction tx) as [[]|e]; simpl in Hr.
    + split_and!; try done. intros _. by apply Hr.
    + split; [done|]. intros _ [_ H']. by apply Hr in H'.
  - intros e n' (K' & N). split; [done|]. intros _ [? _]. by apply (N (has_name_op tx)).
Qed.

(** *** The mempool and the blocks agree at a height *)

Lemma omap_le_filter {A} (f : TxOut -> option A) (outs : list TxOut) :
  (forall o, is_Some (f o) -> is_name_out o = true) -> (length (omap f outs) <= length (name_outs outs))%nat.
Proof using.
  intros Hf. induction outs as [|o outs IH]; [done|]. rewrite omap_cons', name_outs_cons.
  destruct (f o) eqn:E; [rewrite Hf by eauto; simpl; lia|]. destruct (is_name_out o); simpl; lia.
Qed.

Lemma NoDup_le_1 {A} (l : list A) : (length l <= 1)%nat -> NoDup l.
Proof using.
  destruct l as [|x [|? ?]]; simpl; [constructor|intros _; apply NoDup_singleton|lia].
Qed.

(** What the mempool takes, a block of the same height with only it takes. *)
Lemma mempool_block coinbase tx height :
  tx_names_ok height tx -> name_outs (TxOuts coinbase) = [] ->
  block_names_ok height [coinbase; tx].
Proof using.
  intros [Hone Hops Hfees] Hcb.
  assert (forall o, o ∈ TxOuts coinbase -> is_name_out o = false) as Hc.
  { intros o Ho. apply not_true_iff_false. intros E.
    assert (o ∈ name_outs (TxOuts coinbase)) as Hin by by apply list_elem_of_filter.
    rewrite Hcb in Hin. by apply not_elem_of_nil in Hin. }
  assert (name_outs (concat (TxOuts <$> [coinbase; tx])) = name_outs (TxOuts tx)) as En.
  { simpl. rewrite app_nil_r. unfold name_outs in *. by rewrite filter_app, Hcb. }
  assert (forall o, is_Some (out_commit o) -> is_name_out o = true) as H1.
  { intros o [x E]. unfold out_commit, is_name_out in *. by destruct (parseNameScriptFull (PkScript o)). }
  assert (forall o, is_Some (out_name o) -> is_name_out o = true) as H2.
  { intros o [x E]. unfold out_name, is_name_out in *. by destruct (parseNameScriptFull (PkScript o)). }
  split.
  - by apply Forall_singleton.
  - apply Forall_cons; split; [|by apply Forall_singleton]. apply Forall_forall. intros o Ho op name value extra E.
    apply Hc in Ho. unfold is_name_out in Ho. by rewrite E in Ho.
  - apply NoDup_le_1. pose proof (omap_le_filter out_commit (concat (TxOuts <$> [coinbase; tx])) H1) as Hl.
    rewrite En in Hl. lia.
  - apply NoDup_le_1. pose proof (omap_le_filter out_name (concat (TxOuts <$> [coinbase; tx])) H2) as Hl.
    rewrite En in Hl. lia.
Qed.

End names.
