(* ===== verification/MempoolSpec.v ===== *)
(** * What the transaction pool promises

    One lemma for [AddTx], a step relation for a node's pool (its operations, the
    clean-up goroutine, the passing of time and changes of the chain between calls),
    and the invariant of its reachable states.  The chain as the validator is the
    instance at the end. *)

From stdpp Require Import relations.
From S2P Require Import Prelude Clock Bolt Lru Record NameDB NamesSpec Utxo UtxoSpec Config Script Wire.
From S2P Require Import AuxPow Mempool Chain ChainUpdate ChainSpec ChainNames.

Section spec.
Context {W : Wire} {R : MapRange} {V : Type} {T : TxValidator V} {L : TxValidatorLaws V}.

(** Some good state of the validator accepted it. *)
Definition accepted (tx : MsgTx) : Prop := exists v, val_inv v /\ val_acceptable v tx.

(** [AddTx] takes a transaction it does not hold when there is room and the validator
    accepts it. *)
Definition admits (mp : Mempool) (v : V) (tx : MsgTx) : Prop :=
  is_Some (txs mp !! TxHash tx) \/
  Z.of_nat (size (txs mp)) < maxTxs mp /\ (validator mp = true -> val_acceptable v tx).

(** The entry it leaves: a transaction it holds keeps its place and its age. *)
Definition seen (now : Z) (tx : MsgTx) (o : option mempoolTx) : mempoolTx :=
  match o with
  | Some mtx => mkMempoolTx (mp_tx mtx) (addedAt mtx) now
  | None => mkMempoolTx tx now now
  end.

Lemma AddTx_correct now tx mp v : val_inv v -> val_wire tx ->
  wp (AddTx now (Some tx))
    (fun _ s' => admits mp v tx /\ val_inv s'.2 /\
       s'.1 = set_txs (<[TxHash tx := seen now tx (txs mp !! TxHash tx)]> (txs mp)) mp)
    (fun _ s' => ~ admits mp v tx /\ val_inv s'.2 /\ s'.1 = mp) (mp, v).
Proof.
  intros Hv Hw. unfold AddTx, admits. rewrite wp_bind, wp_get.
  destruct (txs mp !! TxHash tx) as [mtx|] eqn:E.
  { unfold on_mp. rewrite wp_zoom, wp_modify. simpl. split_and!; [left; eauto|done|done]. }
  case_match eqn:Es.
  { rewrite wp_fail. simpl. split_and!; [|done|done]. intros [[? ?]|[? _]]; [done|lia]. }
  assert (Z.of_nat (size (txs mp)) < maxTxs mp) by lia.
  rewrite wp_bind. eapply (wp_mono _ (fun _ s' => (validator mp = true -> val_acceptable v tx) /\
    val_inv s'.2 /\ s'.1 = mp)); [| |intros e s' H'; exact H'].
  - destruct (validator mp) eqn:Ev; [|by rewrite wp_ret].
    rewrite wp_wrapM. unfold wp, on_validator, zoom. simpl.
    pose proof (val_spec v tx Hv Hw) as S. unfold wp in S.
    destruct (validator_Validate tx v) as [[[]|e] v']; simpl; destruct S; split_and!; try done.
    intros [[? ?]|[_ Hc]]; [done|auto].
  - intros [] [mp' v'] (Ha & Hi & E'). simpl in E'. subst. unfold on_mp, zoom, modify, wp. simpl. auto.
Qed.

(** ** The pool of a running node *)

Record node := mkNode {
  nd_now : Z;
  nd_swept : Z;      (* when the clean-up last ran *)
  nd_pool : Mempool;
  nd_val : V;
}.

(** The clean-up goroutine runs at most [slack] after its tick is due. *)
Inductive step (slack : Z) : node -> node -> Prop :=
  | step_time d nd :
      0 <= d -> nd_now nd + d <= nd_swept nd + cleanupTick (nd_pool nd) + slack ->
      step slack nd (mkNode (nd_now nd + d) (nd_swept nd) (nd_pool nd) (nd_val nd))
  | step_cleanup nd :
      step slack nd (mkNode (nd_now nd) (nd_now nd) (cleanupExpired (nd_now nd) (nd_pool nd)) (nd_val nd))
  | step_AddTx tx nd r s' :
      val_wire tx -> AddTx (nd_now nd) (Some tx) (nd_pool nd, nd_val nd) = (r, s') ->
      step slack nd (mkNode (nd_now nd) (nd_swept nd) s'.1 s'.2)
  | step_RemoveTx h nd :
      step slack nd (mkNode (nd_now nd) (nd_swept nd) (RemoveTx h (nd_pool nd)) (nd_val nd))
  | step_RemoveTxs hs nd :
      step slack nd (mkNode (nd_now nd) (nd_swept nd) (RemoveTxs hs (nd_pool nd)) (nd_val nd))
  | step_Clear nd :
      step slack nd (mkNode (nd_now nd) (nd_swept nd) (Clear (nd_pool nd)) (nd_val nd))
  | step_chain v' nd :
      val_inv v' -> step slack nd (mkNode (nd_now nd) (nd_swept nd) (nd_pool nd) v').

Definition start (cfg : option MempoolConfig) (t : Z) (v : V) : node :=
  mkNode t t (NewMempoolWithConfig cfg) v.

(** What holds of every entry, by the time and the last clean-up. *)
Record entry_ok (valid : bool) (expiry now swept : Z) (h : bytes) (e : mempoolTx) : Prop := {
  en_keyed : h = TxHash (mp_tx e);
  en_valid : valid = true -> accepted (mp_tx e);
  en_seen : addedAt e <= lastSeen e <= now;
  en_age : swept - addedAt e <= expiry;
}.

Definition same_config (mp mp' : Mempool) : Prop :=
  validator mp' = validator mp /\ maxTxs mp' = maxTxs mp /\ txExpiry mp' = txExpiry mp /\
  cleanupTick mp' = cleanupTick mp.

Record pool_ok (slack : Z) (mp0 : Mempool) (nd : node) : Prop := {
  po_config : same_config mp0 (nd_pool nd);
  po_entries : map_Forall (entry_ok (validator (nd_pool nd)) (txExpiry (nd_pool nd)) (nd_now nd) (nd_swept nd))
    (txs (nd_pool nd));
  po_size : Z.of_nat (size (txs (nd_pool nd))) <= maxTxs (nd_pool nd);
  po_clock : nd_swept nd <= nd_now nd <= nd_swept nd + cleanupTick (nd_pool nd) + slack;
  po_val : val_inv (nd_val nd);
}.

(** Dropping entries keeps the invariant. *)
Lemma pool_ok_shrink slack mp0 nd t' : t' ⊆ txs (nd_pool nd) -> pool_ok slack mp0 nd ->
  pool_ok slack mp0 (mkNode (nd_now nd) (nd_swept nd) (set_txs t' (nd_pool nd)) (nd_val nd)).
Proof.
  intros Hsub [Hc He Hs Hk Hv]. split; simpl; try done.
  - intros h e H. destruct (He h e (lookup_weaken _ _ _ _ H Hsub)) as []. by split.
  - pose proof (map_subseteq_size _ _ Hsub). lia.
Qed.

Lemma RemoveTxs_config hs mp : RemoveTxs hs mp = set_txs (txs (RemoveTxs hs mp)) mp.
Proof. unfold RemoveTxs. case_bool_decide; [by destruct mp|done]. Qed.

Lemma RemoveTxs_subseteq hs mp : txs (RemoveTxs hs mp) ⊆ txs mp.
Proof. apply map_subseteq_spec. intros h e. rewrite RemoveTxs_lookup. by case_match. Qed.

Lemma pool_ok_AddTx slack mp0 nd tx r s' : val_wire tx -> 0 <= txExpiry mp0 ->
  AddTx (nd_now nd) (Some tx) (nd_pool nd, nd_val nd) = (r, s') -> pool_ok slack mp0 nd ->
  pool_ok slack mp0 (mkNode (nd_now nd) (nd_swept nd) s'.1 s'.2).
Proof.
  intros Hw Hx Ea [Hc He Hs Hk Hv].
  pose proof (AddTx_correct (nd_now nd) tx (nd_pool nd) (nd_val nd) Hv Hw) as S.
  unfold wp in S. rewrite Ea in S. destruct r as [u|e].
  2:{ destruct S as (_ & Hv' & ->). by split. }
  destruct S as (Ad & Hv' & ->). split; simpl; try done.
  - apply map_Forall_insert_2; [|exact He].
    destruct (txs (nd_pool nd) !! TxHash tx) as [mtx|] eqn:E.
    + destruct (He _ _ E) as []. split; simpl; try done. lia.
    + destruct Ad as [[? ?]|[_ Ha]]; [congruence|]. destruct Hc as (_ & _ & Hc & _). split; simpl; [done| |lia|lia].
      intros Hval. exists (nd_val nd). auto.
  - destruct (txs (nd_pool nd) !! TxHash tx) as [mtx|] eqn:E.
    + by rewrite map_size_insert_Some by eauto.
    + rewrite map_size_insert_None by done. destruct Ad as [[? ?]|[? _]]; [congruence|lia].
Qed.

Lemma step_pool_ok slack mp0 nd nd' : 0 <= slack -> 0 <= txExpiry mp0 < MaxInt64 ->
  0 <= cleanupTick mp0 ->
  step slack nd nd' -> pool_ok slack mp0 nd -> pool_ok slack mp0 nd'.
Proof.
  intros H0 Hx Ht [d ?|?|tx ? r s' Hw Ea|h ?|hs ?|?|v' ? Hv'] Hok.
  - destruct Hok as [Hc He Hs Hk Hv]. split; simpl; try done; [|lia].
    intros h e E. destruct (He _ _ E) as []. split; try done. lia.
  - pose proof Hok as [Hc He Hs Hk Hv]. pose proof Hc as (_ & _ & Hce & Hct).
    assert (txs (cleanupExpired (nd_now nd0) (nd_pool nd0)) ⊆ txs (nd_pool nd0)) as Hsub.
    { rewrite cleanupExpired_filter. apply map_filter_subseteq. }
    destruct (pool_ok_shrink _ _ _ _ Hsub Hok) as [_ _ Hs' _ _]. split; try done; [|simpl; lia].
    intros h e E. cbn [nd_pool] in E. rewrite cleanupExpired_filter in E. apply map_lookup_filter_Some in E as [E F].
    destruct (He _ _ E) as []. split; simpl in *; try done.
    pose proof (Sub_gt (nd_now nd0) (addedAt e) (txExpiry (nd_pool nd0))) as G.
    unfold MinInt64 in G. rewrite Hce in *. specialize (G ltac:(lia)). lia.
  - eapply pool_ok_AddTx; eauto; lia.
  - apply pool_ok_shrink; [|done]. apply delete_subseteq.
  - rewrite RemoveTxs_config. apply pool_ok_shrink; [apply RemoveTxs_subseteq|done].
  - apply pool_ok_shrink; [|done]. apply map_empty_subseteq.
  - destruct Hok as [Hc He Hs Hk Hv]. by split.
Qed.

Lemma start_ok slack cfg t v : 0 <= slack -> val_inv v ->
  pool_ok slack (NewMempoolWithConfig cfg) (start cfg t v).
Proof.
  intros H0 Hv. split; simpl; try done.
  - rewrite map_size_empty. case_match; lia.
  - case_match; unfold Minute, Second; lia.
Qed.

Lemma NewMempool_durations cfg : 0 <= txExpiry (NewMempoolWithConfig cfg) /\
  0 <= cleanupTick (NewMempoolWithConfig cfg).
Proof. simpl. unfold Hour, Minute, Second. split; case_match; lia. Qed.

Lemma pool_reachable_ok slack cfg t v nd : 0 <= slack -> val_inv v ->
  txExpiry (NewMempoolWithConfig cfg) < MaxInt64 ->
  rtc (step slack) (start cfg t v) nd -> pool_ok slack (NewMempoolWithConfig cfg) nd.
Proof.
  intros H0 Hv Hx Hr. pose proof (NewMempool_durations cfg) as [H1 H2].
  pose proof (start_ok slack cfg t v H0 Hv) as Hok.
  induction Hr as [|? ? ? Hs _ IH]; [done|]. apply IH.
  eapply step_pool_ok; eauto.
Qed.

End spec.

(** ** The chain as the validator

    At the height of its best block the chain accepts a transaction exactly when its
    name output and its fee are valid, or it is regular (ChainNames.v). *)

Section chain.
Context {B : Bolt} {LB : BoltLaws B} {W : Wire} {G : BtcLib} {R : MapRange} {D : Btcd}.

#[export] Instance ChainValidator : TxValidator BlockChain := fun tx => validateMempool (Some tx).

Record chain_ok (bc : BlockChain) : Prop := {
  co_names : ndb_wf (nameDB bc);
  co_utxos : ndb_utxo_wf (nameDB bc);
  co_height : 0 <= btcd_BestHeight (btcd bc) /\ is_int32 (btcd_BestHeight (btcd bc));
}.

(** Input hashes of 32 bytes with 32-bit indexes, outputs that hold money. *)
Definition wire_tx (tx : MsgTx) : Prop := Forall in_ok (TxIns tx) /\ outs_ok tx.

Definition chain_accepts (bc : BlockChain) (tx : MsgTx) : Prop :=
  tx_names_ok (nameDB bc) (btcd_BestHeight (btcd bc)) tx /\
  (has_name_op tx = false -> regular_ok tx).

#[export] Program Instance ChainValidatorLaws : TxValidatorLaws BlockChain :=
  {| val_inv := chain_ok; val_wire := wire_tx; val_acceptable := chain_accepts |}.
Next Obligation.
  intros bc tx [Hn Hu [H0 Hh]] [Hi Ho]. unfold validator_Validate, ChainValidator, validateMempool, in_nameDB.
  rewrite wp_bind, wp_get, wp_zoom.
  assert (forall n', keeps (nameDB bc) n' -> chain_ok (set_nameDB n' bc)) as C.
  { intros n' K. split; simpl; [exact (proj2 K)|by apply (keeps_utxo_wf (nameDB bc))|done]. }
  eapply wp_mono; [apply (ValidateMempoolTransaction_decides (nameDB bc) Hn Hu tx (btcd_BestHeight (btcd bc))
    Hi Ho H0 Hh (nameDB bc) (conj (conj eq_refl eq_refl) Hn))| |]; simpl.
  - intros _ n' [K S]. split; [by apply C|exact S].
  - intros _ n' [K S]. split; [by apply C|exact (S tt)].
Qed.

End chain.
