(* ===== verification/PeerScore.v ===== *)
(** * Scores of peers

    network/peerscore.go.  The manager maps peer addresses to their metrics; every
    method locks the entry, so a method is one step here and [now] is what its calls
    of [time.Now()] read.  Floating-point values are those of Float.v. *)

From S2P Require Import Prelude Clock Float Wire.

Record PeerScore := mkPeerScore {
  connectedAt : Z;
  ps_lastSeen : Z;
  blocksProvided : Z;
  txsProvided : Z;
  failedRequests : Z;
  avgResponseTime : float64;
  lastResponseTimes : list float64;
  consecutiveFailures : Z;
  lastFailure : option Z;     (* None: the zero time *)
  score : float64;
  scoreTime : option Z;
}.

Record PeerScoreManager := mkPeerScoreManager {
  scores : gmap bytes PeerScore;
  maxResponseSamples : Z;
  scoreDecayInterval : Z;
}.

Definition NewPeerScoreManager : PeerScoreManager :=
  {| scores := ∅; maxResponseSamples := 10; scoreDecayInterval := Hour |}.

Definition set_scores (s : gmap bytes PeerScore) (psm : PeerScoreManager) : PeerScoreManager :=
  {| scores := s; maxResponseSamples := maxResponseSamples psm; scoreDecayInterval := scoreDecayInterval psm |}.

(** The entry [GetOrCreateScore] makes. *)
Definition new_score (now : Z) : PeerScore :=
  {| connectedAt := now; ps_lastSeen := now; blocksProvided := 0; txsProvided := 0; failedRequests := 0;
     avgResponseTime := of_int 0; lastResponseTimes := []; consecutiveFailures := 0; lastFailure := None;
     score := of_int 50; scoreTime := Some now |}.

(** The entry and the manager that holds it. *)
Definition GetOrCreateScore (addr : bytes) (now : Z) (psm : PeerScoreManager) : PeerScore * PeerScoreManager :=
  match scores psm !! addr with
  | Some s => (s, psm)
  | None => (new_score now, set_scores (<[addr := new_score now]> (scores psm)) psm)
  end.

(** A method body on the entry of [addr]: [score := psm.GetOrCreateScore(addr)] and
    the assignments through the pointer. *)
Definition on_score (addr : bytes) (now : Z) (f : PeerScore -> PeerScore) (psm : PeerScoreManager) :
    PeerScoreManager :=
  let '(s, psm) := GetOrCreateScore addr now psm in
  set_scores (<[addr := f s]> (scores psm)) psm.

(** ** Metrics *)

Definition recordResponseTime (seconds : float64) (s : PeerScore) : PeerScore :=
  let samples := lastResponseTimes s ++ [seconds] in
  let samples := if bool_decide (10 < length samples)%nat then drop 1 samples else samples in
  let alpha := lit 3 10 in
  let avg :=
    if feq (avgResponseTime s) (of_int 0) then seconds
    else fadd (fmul alpha seconds) (fmul (fsub (of_int 1) alpha) (avgResponseTime s)) in
  {| connectedAt := connectedAt s; ps_lastSeen := ps_lastSeen s; blocksProvided := blocksProvided s;
     txsProvided := txsProvided s; failedRequests := failedRequests s; avgResponseTime := avg;
     lastResponseTimes := samples; consecutiveFailures := consecutiveFailures s;
     lastFailure := lastFailure s; score := score s; scoreTime := scoreTime s |}.

Definition invalidateScore (s : PeerScore) : PeerScore :=
  {| connectedAt := connectedAt s; ps_lastSeen := ps_lastSeen s; blocksProvided := blocksProvided s;
     txsProvided := txsProvided s; failedRequests := failedRequests s; avgResponseTime := avgResponseTime s;
     lastResponseTimes := lastResponseTimes s; consecutiveFailures := consecutiveFailures s;
     lastFailure := lastFailure s; score := score s; scoreTime := None |}.

(** The counters a success sets, and [lastSeen]. *)
Definition count_success (blocks txs : Z) (now : Z) (s : PeerScore) : PeerScore :=
  {| connectedAt := connectedAt s; ps_lastSeen := now; blocksProvided := int64 (blocksProvided s + blocks);
     txsProvided := int64 (txsProvided s + txs); failedRequests := failedRequests s;
     avgResponseTime := avgResponseTime s; lastResponseTimes := lastResponseTimes s; consecutiveFailures := 0;
     lastFailure := lastFailure s; score := score s; scoreTime := scoreTime s |}.

Definition RecordBlockReceived (addr : bytes) (responseTime : Z) (now : Z) : PeerScoreManager -> PeerScoreManager :=
  on_score addr now (fun s => invalidateScore (recordResponseTime (Seconds responseTime) (count_success 1 0 now s))).

Definition RecordTxReceived (addr : bytes) (responseTime : Z) (now : Z) : PeerScoreManager -> PeerScoreManager :=
  on_score addr now (fun s => invalidateScore (recordResponseTime (Seconds responseTime) (count_success 0 1 now s))).

Definition RecordFailure (addr : bytes) (now : Z) : PeerScoreManager -> PeerScoreManager :=
  on_score addr now (fun s => invalidateScore
    {| connectedAt := connectedAt s; ps_lastSeen := ps_lastSeen s; blocksProvided := blocksProvided s;
       txsProvided := txsProvided s; failedRequests := int64 (failedRequests s + 1);
       avgResponseTime := avgResponseTime s; lastResponseTimes := lastResponseTimes s;
       consecutiveFailures := int64 (consecutiveFailures s + 1);
       lastFailure := Some now; score := score s; scoreTime := scoreTime s |}).

Definition RecordPeerSeen (addr : bytes) (now : Z) : PeerScoreManager -> PeerScoreManager :=
  on_score addr now (fun s =>
    {| connectedAt := connectedAt s; ps_lastSeen := now; blocksProvided := blocksProvided s;
       txsProvided := txsProvided s; failedRequests := failedRequests s; avgResponseTime := avgResponseTime s;
       lastResponseTimes := lastResponseTimes s; consecutiveFailures := consecutiveFailures s;
       lastFailure := lastFailure s; score := score s; scoreTime := scoreTime s |}).

Definition RemovePeer (addr : bytes) (psm : PeerScoreManager) : PeerScoreManager :=
  set_scores (delete addr (scores psm)) psm.

(** ** The score *)

(** [maxValues] are the variadic arguments. *)
Definition clampScore (value : float64) (maxValues : list float64) : float64 :=
  let maxVal := match maxValues with [] => of_int 100 | m :: _ => m end in
  if flt value (of_int 0) then of_int 0
  else if flt maxVal value then maxVal
  else value.

Definition calcDataBonus (s : PeerScore) : float64 :=
  clampScore (fmul (of_int (int64 (blocksProvided s + txsProvided s))) (lit 1 2)) [of_int 20].

Definition calcFailurePenalty (s : PeerScore) : float64 :=
  clampScore (fmul (of_int (failedRequests s)) (of_int 2)) [of_int 30].

Definition calcConsecutiveFailurePenalty (s : PeerScore) : float64 :=
  clampScore (fmul (of_int (consecutiveFailures s)) (of_int 5)) [of_int 20].

Definition calcLatencyPenalty (s : PeerScore) : float64 :=
  if flt (of_int 5) (avgResponseTime s) then of_int 15
  else if flt (of_int 1) (avgResponseTime s) then fmul (fsub (avgResponseTime s) (of_int 1)) (of_int 3)
  else of_int 0.

Definition calcLongevityBonus (now : Z) (s : PeerScore) : float64 :=
  clampScore (fmul (Minutes (Sub now (connectedAt s))) (lit 1 10)) [of_int 15].

Definition calcIdlePenalty (now : Z) (s : PeerScore) : float64 :=
  let idleMinutes := Minutes (Sub now (ps_lastSeen s)) in
  if flt (of_int 60) idleMinutes then of_int 20
  else if flt (of_int 10) idleMinutes then fmul (fsub idleMinutes (of_int 10)) (lit 4 10)
  else of_int 0.

Definition calculateScore (now : Z) (s : PeerScore) : PeerScore :=
  let bonuses := fadd (calcDataBonus s) (calcLongevityBonus now s) in
  let penalties := fadd (fadd (fadd (calcFailurePenalty s) (calcConsecutiveFailurePenalty s))
    (calcLatencyPenalty s)) (calcIdlePenalty now s) in
  let finalScore := fsub (fadd (of_int 50) bonuses) penalties in
  {| connectedAt := connectedAt s; ps_lastSeen := ps_lastSeen s; blocksProvided := blocksProvided s;
     txsProvided := txsProvided s; failedRequests := failedRequests s; avgResponseTime := avgResponseTime s;
     lastResponseTimes := lastResponseTimes s; consecutiveFailures := consecutiveFailures s;
     lastFailure := lastFailure s; score := clampScore finalScore []; scoreTime := Some now |}.

(** [time.Since(t)]; the zero time is further away than a Duration reaches. *)
Definition Since (now : Z) (t : option Z) : Z :=
  match t with Some t => Sub now t | None => MaxInt64 end.

Definition GetScore (addr : bytes) (now : Z) (psm : PeerScoreManager) : float64 * PeerScoreManager :=
  match scores psm !! addr with
  | None => (of_int 50, psm)
  | Some s =>
      let isStale := Since now (scoreTime s) >? Minute in
      if negb isStale then (score s, psm)
      else
        let s := calculateScore now s in
        (score s, set_scores (<[addr := s]> (scores psm)) psm)
  end.

(** ** The best peers *)

Section best.
Context {L : PeerLib}.

Record peerWithScore := mkPeerWithScore { pw_peer : Peer; pw_score : float64 }.

Fixpoint scorePeers (peers : list Peer) (now : Z) (psm : PeerScoreManager) :
    list peerWithScore * PeerScoreManager :=
  match peers with
  | [] => ([], psm)
  | p :: peers =>
      let '(sc, psm) := GetScore (Addr p) now psm in
      let '(scored, psm) := scorePeers peers now psm in
      (mkPeerWithScore p sc :: scored, psm)
  end.

Definition limitPeerCount (n max : Z) : Z := if n >? max then max else n.

(** The inner loop of [selectTopPeers]: [fuel] counts the indexes left from [j]. *)
Fixpoint scan_max (scored : list peerWithScore) (maxIdx j : nat) (fuel : nat) : nat :=
  match fuel with
  | O => maxIdx
  | S fuel =>
      match scored !! j, scored !! maxIdx with
      | Some a, Some b => scan_max scored (if flt (pw_score b) (pw_score a) then j else maxIdx) (S j) fuel
      | _, _ => maxIdx
      end
  end.

(** [scored[i], scored[k] = scored[k], scored[i]] *)
Definition swap (i k : nat) (scored : list peerWithScore) : list peerWithScore :=
  match scored !! i, scored !! k with
  | Some a, Some b => <[k := a]> (<[i := b]> scored)
  | _, _ => scored
  end.

(** The outer loop, [n] more rounds from index [i]. *)
Fixpoint selectFrom (i : nat) (n : nat) (scored : list peerWithScore) : list peerWithScore :=
  match n with
  | O => scored
  | S n =>
      let maxIdx := scan_max scored i (S i) (length scored - S i) in
      selectFrom (S i) n (if bool_decide (maxIdx <> i) then swap i maxIdx scored else scored)
  end.

Definition selectTopPeers (scored : list peerWithScore) (n : Z) : list peerWithScore :=
  selectFrom 0 (Z.to_nat n) scored.

Definition extractTopPeers (scored : list peerWithScore) (n : Z) : list Peer :=
  pw_peer <$> take (Z.to_nat n) scored.

Definition GetBestPeers (peers : list Peer) (n : Z) (now : Z) (psm : PeerScoreManager) :
    list Peer * PeerScoreManager :=
  if (n <=? 0) || bool_decide (peers = []) then ([], psm)
  else
    let '(scored, psm) := scorePeers peers now psm in
    let n := limitPeerCount n (Z.of_nat (length scored)) in
    (extractTopPeers (selectTopPeers scored n) n, psm).

End best.
