(* ===== verification/PeerScoreSpec.v ===== *)
(** * Scores of peers: range and selection

    Every score is a number between 0 and 100, whatever the manager was told; the
    selection returns peers whose scores are the greatest. *)

From Stdlib Require Import Floats.SpecFloat.
From S2P Require Import Prelude Clock Float Wire PeerScore.

(** ** Range *)

Definition between (lo hi : Z) (x : float64) : Prop :=
  number x /\ key (of_int lo) <= key x <= key (of_int hi).

Record score_ok (s : PeerScore) : Prop := {
  so_avg : number (avgResponseTime s);
  so_blocks : is_int64 (blocksProvided s);
  so_txs : is_int64 (txsProvided s);
  so_failed : is_int64 (failedRequests s);
  so_consecutive : is_int64 (consecutiveFailures s);
  so_score : between 0 100 (score s);
  so_samples : (length (lastResponseTimes s) <= 10)%nat;
}.

Definition psm_ok (psm : PeerScoreManager) : Prop := map_Forall (fun _ s => score_ok s) (scores psm).

Lemma clampScore_between v m : number v -> number m -> 0 <= key m ->
  number (clampScore v [m]) /\ 0 <= key (clampScore v [m]) <= key m.
Proof.
  intros Nv Nm Hm. unfold clampScore. assert (number (of_int 0)) by done.
  rewrite !flt_key by done. change (key (of_int 0)) with 0.
  destruct (Z.ltb_spec (key v) 0); [by change (key (of_int 0)) with 0|].
  destruct (Z.ltb_spec (key m) (key v)); split; try done; lia.
Qed.

(** A clamped value up to 100 is finite. *)
Lemma clampScore_finite v m : number v -> finite_le (-46) m -> 0 <= key m ->
  finite_le (-46) (clampScore v [m]).
Proof.
  intros Nv Fm Hm. destruct (clampScore_between v m Nv (finite_number _ _ Fm) Hm) as [N K].
  apply (finite_between (-46) (of_int 0) m); [float_const|done|lia|done|].
  change (key (of_int 0)) with 0. lia.
Qed.

Lemma scaled_number z c : is_int64 z -> nonzero c -> number (fmul (of_int z) c).
Proof. intros Hz Hc. apply fmul_number; [by eapply finite_number, of_int_finite|done]. Qed.

Lemma calcLatencyPenalty_finite s : number (avgResponseTime s) -> finite_le (-45) (calcLatencyPenalty s).
Proof.
  intros N. unfold calcLatencyPenalty.
  assert (number (of_int 5) /\ number (of_int 1)) as [N5 N1] by (split; float_const).
  rewrite !flt_key by done. destruct (Z.ltb_spec (key (of_int 5)) (key (avgResponseTime s))); [float_const|].
  destruct (Z.ltb_spec (key (of_int 1)) (key (avgResponseTime s))); [|float_const].
  assert (finite_le (-50) (avgResponseTime s)) as Fa.
  { apply (finite_between (-50) (of_int 1) (of_int 5)); [float_const..|lia|done|lia]. }
  destruct (fsub_finite (-50) (avgResponseTime s) (of_int 1) Fa ltac:(float_const)) as [_ F].
  apply (finite_le_weaken (-48 + -51 + 54)); [lia|].
  apply fmul_finite; [by apply F|float_const|lia..].
Qed.

Lemma calcIdlePenalty_finite now s : finite_le (-45) (calcIdlePenalty now s).
Proof.
  unfold calcIdlePenalty. set (idle := Minutes _).
  assert (number idle) as N by eapply finite_number, Minutes_finite, Sub_int64.
  assert (number (of_int 60) /\ number (of_int 10)) as [N60 N10] by (split; float_const).
  rewrite !flt_key by done. destruct (Z.ltb_spec (key (of_int 60)) (key idle)); [float_const|].
  destruct (Z.ltb_spec (key (of_int 10)) (key idle)); [|float_const].
  assert (finite_le (-47) idle) as Fa.
  { apply (finite_between (-47) (of_int 10) (of_int 60)); [float_const..|lia|done|lia]. }
  destruct (fsub_finite (-47) idle (of_int 10) Fa ltac:(float_const)) as [_ F].
  apply (finite_le_weaken (-45 + -54 + 54)); [lia|].
  apply fmul_finite; [by apply F|float_const|lia..].
Qed.

(** Sums of a few small values stay finite. *)
Lemma small_sum E x y : -46 <= E <= 900 -> finite_le E x -> finite_le E y -> finite_le (E + 2) (fadd x y).
Proof. intros H Fx Fy. apply (fadd_finite E x y Fx Fy). lia. Qed.

Lemma calculateScore_ok now s : score_ok s -> score_ok (calculateScore now s).
Proof.
  intros [Ha Hb Ht Hf Hc Hs Hl]. split; try done. cbn [score calculateScore].
  assert (finite_le (-46) (calcDataBonus s)) as F1.
  { apply clampScore_finite; [|float_const..]. apply scaled_number; [apply int64_range|float_const]. }
  assert (finite_le (-46) (calcLongevityBonus now s)) as F2.
  { apply clampScore_finite; [|float_const..]. apply fmul_number; [|float_const].
    eapply finite_number, Minutes_finite, Sub_int64. }
  assert (finite_le (-46) (calcFailurePenalty s)) as F3.
  { apply clampScore_finite; [|float_const..]. apply scaled_number; [done|float_const]. }
  assert (finite_le (-46) (calcConsecutiveFailurePenalty s)) as F4.
  { apply clampScore_finite; [|float_const..]. apply scaled_number; [done|float_const]. }
  pose proof (calcLatencyPenalty_finite s Ha) as F5. pose proof (calcIdlePenalty_finite now s) as F6.
  pose proof (small_sum (-46) _ _ ltac:(lia) F1 F2) as B.
  pose proof (small_sum (-44) (of_int 50) _ ltac:(lia) ltac:(float_const) B) as F.
  pose proof (small_sum (-46) _ _ ltac:(lia) F3 F4) as P1.
  pose proof (small_sum (-44) _ _ ltac:(lia) P1 (finite_le_weaken (-45) (-44) _ ltac:(lia) F5)) as P2.
  pose proof (small_sum (-42) _ _ ltac:(lia) P2 (finite_le_weaken (-45) (-42) _ ltac:(lia) F6)) as P.
  destruct (fsub_finite (-40) _ _ (finite_le_weaken (-44 + 2) (-40) _ ltac:(lia) F) P) as [N _].
  apply (clampScore_between _ (of_int 100)); [done|float_const..].
Qed.

Lemma recordResponseTime_ok d s : is_int64 d -> score_ok s -> score_ok (recordResponseTime (Seconds d) s).
Proof.
  intros Hd [Ha Hb Ht Hf Hc Hs Hl]. pose proof (Seconds_finite d Hd) as Fd.
  split; try done; cbn [recordResponseTime avgResponseTime lastResponseTimes].
  - case_match; [by eapply finite_number|]. apply fadd_number.
    + apply fmul_number_l; [float_const|by eapply finite_number].
    + apply fmul_number_l; [float_const|done].
    + left. eapply finite_le_finite, (fmul_finite (-54) 38); [float_const|done|lia..].
  - case_bool_decide; rewrite ?length_drop, length_app in *; simpl in *; lia.
Qed.

Lemma new_score_ok now : score_ok (new_score now).
Proof. split; try done; [float_const|simpl; lia]. Qed.

(** ** Reachable managers *)

(** One call of a method; the selection calls [GetScore] for each peer. *)
Inductive psm_step : PeerScoreManager -> PeerScoreManager -> Prop :=
  | step_GetOrCreate addr now psm : psm_step psm (GetOrCreateScore addr now psm).2
  | step_Block addr rt now psm : is_int64 rt -> psm_step psm (RecordBlockReceived addr rt now psm)
  | step_Tx addr rt now psm : is_int64 rt -> psm_step psm (RecordTxReceived addr rt now psm)
  | step_Failure addr now psm : psm_step psm (RecordFailure addr now psm)
  | step_Seen addr now psm : psm_step psm (RecordPeerSeen addr now psm)
  | step_GetScore addr now psm : psm_step psm (GetScore addr now psm).2
  | step_Remove addr psm : psm_step psm (RemovePeer addr psm).

Lemma GetOrCreateScore_ok addr now psm : psm_ok psm ->
  score_ok (GetOrCreateScore addr now psm).1 /\ psm_ok (GetOrCreateScore addr now psm).2.
Proof.
  intros H. unfold GetOrCreateScore. destruct (scores psm !! addr) as [s|] eqn:E; simpl.
  - split; [by apply (H addr)|done].
  - split; [apply new_score_ok|]. apply map_Forall_insert_2; [apply new_score_ok|done].
Qed.

Lemma on_score_ok addr now f psm : (forall s, score_ok s -> score_ok (f s)) -> psm_ok psm ->
  psm_ok (on_score addr now f psm).
Proof.
  intros Hf H. unfold on_score. pose proof (GetOrCreateScore_ok addr now psm H) as [H1 H2].
  destruct (GetOrCreateScore addr now psm) as [s psm']. apply map_Forall_insert_2; [by apply Hf|done].
Qed.

Lemma GetScore_ok addr now psm : psm_ok psm ->
  between 0 100 (GetScore addr now psm).1 /\ psm_ok (GetScore addr now psm).2.
Proof.
  intros H. unfold GetScore. destruct (scores psm !! addr) as [s|] eqn:E; [|split; [float_const|done]].
  pose proof (H _ _ E) as Hs. case_match; simpl; [split; [apply Hs|done]|].
  pose proof (calculateScore_ok now s Hs) as Hc. split; [apply Hc|]. by apply map_Forall_insert_2.
Qed.

Lemma invalidateScore_ok s : score_ok s -> score_ok (invalidateScore s).
Proof. by intros []. Qed.

Lemma count_success_ok b t now s : score_ok s -> score_ok (count_success b t now s).
Proof. intros []. split; try done; apply int64_range. Qed.

Lemma psm_step_ok psm psm' : psm_step psm psm' -> psm_ok psm -> psm_ok psm'.
Proof.
  intros St H. destruct St as [| | | | | |].
  - by apply GetOrCreateScore_ok.
  - apply on_score_ok; [|done]. intros s Hs.
    by apply invalidateScore_ok, recordResponseTime_ok, count_success_ok.
  - apply on_score_ok; [|done]. intros s Hs.
    by apply invalidateScore_ok, recordResponseTime_ok, count_success_ok.
  - apply on_score_ok; [|done]. intros s []. split; try done; apply int64_range.
  - apply on_score_ok; [|done]. by intros s [].
  - by apply GetScore_ok.
  - by apply map_Forall_delete.
Qed.

(** ** Selection *)

(** Asking for a score does not change any score of that instant. *)
Lemma GetScore_stable a b now psm :
  (GetScore a now (GetScore b now psm).2).1 = (GetScore a now psm).1.
Proof.
  unfold GetScore at 2. destruct (scores psm !! b) as [s|] eqn:Eb; [|done].
  destruct (Since now (scoreTime s) >? Minute) eqn:Es; [|done].
  unfold GetScore. cbn [negb snd scores set_scores].
  destruct (decide (a = b)) as [->|].
  2:{ rewrite lookup_insert_ne by done. destruct (scores psm !! a); [by destruct (negb _)|done]. }
  rewrite lookup_insert_eq, Eb, Es. cbn [scoreTime calculateScore Since].
  rewrite Sub_small by (unfold is_int64; lia). rewrite Z.sub_diag. done.
Qed.

Section best.
Context {L : PeerLib}.

Definition score_at (psm : PeerScoreManager) (now : Z) (p : Peer) : float64 := (GetScore (Addr p) now psm).1.

Lemma scorePeers_spec peers now psm : psm_ok psm ->
  (scorePeers peers now psm).1 = (fun p => mkPeerWithScore p (score_at psm now p)) <$> peers /\
  psm_ok (scorePeers peers now psm).2.
Proof.
  revert psm. induction peers as [|p peers IH]; intros psm H; [done|]. simpl.
  pose proof (GetScore_ok (Addr p) now psm H) as [_ H']. unfold score_at at 1.
  pose proof (fun a => GetScore_stable a (Addr p) now psm) as St.
  destruct (GetScore (Addr p) now psm) as [sc psm1]. simpl in *. destruct (IH psm1 H') as [E E'].
  destruct (scorePeers peers now psm1) as [scored psm2]. simpl in *. split; [|done]. f_equal. rewrite E.
  apply list_fmap_ext. intros i q _. unfold score_at. by rewrite St.
Qed.

(** The score at an index, as an integer. *)
Definition kat (l : list peerWithScore) (j : nat) : Z :=
  match l !! j with Some x => key (pw_score x) | None => 0 end.

Lemma scan_max_spec l i m j fuel : Forall (fun x => number (pw_score x)) l ->
  (i <= m < j)%nat -> (j + fuel = length l)%nat ->
  (forall k, (i <= k < j)%nat -> kat l k <= kat l m) ->
  let r := scan_max l m j fuel in
  (i <= r < length l)%nat /\ forall k, (i <= k < length l)%nat -> kat l k <= kat l r.
Proof.
  intros Hn. revert m j. induction fuel as [|fuel IH]; intros m j Hm Hj Hmax; simpl.
  - split; [lia|]. intros k Hk. apply Hmax. lia.
  - destruct (lookup_lt_is_Some_2 l j) as [a Ha]; [lia|].
    destruct (lookup_lt_is_Some_2 l m) as [b Hb]; [lia|]. rewrite Ha, Hb.
    pose proof (Forall_lookup_1 _ _ _ _ Hn Ha) as Na. pose proof (Forall_lookup_1 _ _ _ _ Hn Hb) as Nb.
    rewrite flt_key by done.
    assert (kat l j = key (pw_score a)) as Kj by (unfold kat; by rewrite Ha).
    assert (kat l m = key (pw_score b)) as Km by (unfold kat; by rewrite Hb).
    destruct (Z.ltb_spec (key (pw_score b)) (key (pw_score a))); apply IH; try lia; intros k Hk;
      (destruct (decide (k = j)) as [->|]; [|pose proof (Hmax k ltac:(lia))]); lia.
Qed.

Lemma swap_lookup i k l j : (i < length l)%nat -> (k < length l)%nat ->
  swap i k l !! j = if decide (j = k) then l !! i else if decide (j = i) then l !! k else l !! j.
Proof.
  intros Hi Hk. unfold swap. destruct (lookup_lt_is_Some_2 l i Hi) as [a Ha].
  destruct (lookup_lt_is_Some_2 l k Hk) as [b Hb]. rewrite Ha, Hb.
  destruct (decide (j = k)) as [->|]; [by rewrite list_lookup_insert_eq by by rewrite length_insert|].
  rewrite list_lookup_insert_ne by done.
  destruct (decide (j = i)) as [->|]; [by rewrite list_lookup_insert_eq|]. by rewrite list_lookup_insert_ne.
Qed.

Lemma swap_perm i k l : (i < length l)%nat -> (k < length l)%nat -> swap i k l ≡ₚ l.
Proof.
  intros Hi Hk. destruct (lookup_lt_is_Some_2 l i Hi) as [a Ha].
  destruct (lookup_lt_is_Some_2 l k Hk) as [b Hb]. unfold swap. rewrite Ha, Hb.
  by apply Permutation_insert_swap.
Qed.

(** The first [i] entries are in place: each is at least every later one. *)
Definition selected (i : nat) (l : list peerWithScore) : Prop :=
  forall a b, (a < i)%nat -> (a < b < length l)%nat -> kat l b <= kat l a.

Lemma swap_kat i k l j : (i < length l)%nat -> (k < length l)%nat ->
  kat (swap i k l) j = if decide (j = k) then kat l i else if decide (j = i) then kat l k else kat l j.
Proof. intros Hi Hk. unfold kat. rewrite swap_lookup by done. by repeat case_decide. Qed.

Lemma selectFrom_spec n i l : Forall (fun x => number (pw_score x)) l -> (i + n <= length l)%nat ->
  selected i l -> selectFrom i n l ≡ₚ l /\ selected (i + n) (selectFrom i n l).
Proof.
  revert i l. induction n as [|n IH]; intros i l Hn Hl Hs; simpl; [by rewrite Nat.add_0_r|].
  destruct (scan_max_spec l i i (S i) (length l - S i) Hn) as [Hr Hmax]; [lia..| |].
  { intros k Hk. by replace k with i by lia. }
  set (m := scan_max l i (S i) (length l - S i)) in *. clearbody m.
  set (l' := if bool_decide (m <> i) then swap i m l else l).
  assert (l' ≡ₚ l /\ forall j, kat l' j = if decide (j = m) then kat l i else if decide (j = i) then kat l m else kat l j)
    as [Hp Hk].
  { unfold l'. case_bool_decide as E.
    - split; [apply swap_perm; lia|]. intros j. apply swap_kat; lia.
    - split; [done|]. intros j. repeat case_decide; congruence. }
  assert (length l' = length l) as El by (by rewrite Hp).
  destruct (IH (S i) l') as [Hp' Hs'].
  - by rewrite Hp.
  - lia.
  - intros a b Ha Hb. rewrite El in Hb. rewrite !Hk.
    destruct (decide (a = i)) as [->|Hai].
    + destruct (decide (i = m)) as [Em|]; repeat case_decide; subst; try (apply Hmax; lia).
    + assert (a < i)%nat by lia. rewrite (decide_False (P := a = m)) by lia.
      repeat case_decide; apply Hs; lia.
  - split; [by rewrite Hp'|]. by replace (i + S n)%nat with (S i + n)%nat by lia.
Qed.

(** The peers returned are a part of the peers asked about, in descending order of
    score, and no peer left out scores more than one returned. *)
Lemma GetBestPeers_spec peers n now psm : psm_ok psm ->
  let '(best, psm') := GetBestPeers peers n now psm in
  psm_ok psm' /\ Z.of_nat (length best) = Z.max 0 (Z.min n (Z.of_nat (length peers))) /\
  exists rest, best ++ rest ≡ₚ peers /\
    (forall i j p q, (i < j)%nat -> best !! i = Some p -> (best ++ rest) !! j = Some q ->
       fle (score_at psm now q) (score_at psm now p) = true).
Proof.
  intros H. unfold GetBestPeers. destruct (scorePeers_spec peers now psm H) as [Es Hok].
  destruct (scorePeers peers now psm) as [scored psm']. simpl in Es, Hok.
  destruct ((n <=? 0) || bool_decide (peers = [])) eqn:E.
  { apply orb_true_iff in E. split_and!; [done| |exists peers].
    - destruct E as [E|E]; [|apply bool_decide_eq_true in E; subst]; simpl; lia.
    - split; [done|]. intros i j p q _ Hp. by rewrite lookup_nil in Hp. }
  apply orb_false_iff in E as [En Ep]. apply bool_decide_eq_false in Ep.
  assert (length scored = length peers) as El by (rewrite Es; apply length_fmap).
  assert (limitPeerCount n (Z.of_nat (length scored)) = Z.min n (Z.of_nat (length peers))) as Ec.
  { unfold limitPeerCount. rewrite El. case_match; lia. }
  rewrite Ec. set (c := Z.to_nat (Z.min n (Z.of_nat (length peers)))).
  unfold selectTopPeers, extractTopPeers. fold c.
  assert (forall p, number (score_at psm now p)) as Hnum by (intros p; by apply GetScore_ok).
  assert (Forall (fun x => number (pw_score x)) scored) as Hn.
  { rewrite Es. apply Forall_fmap. apply Forall_true. done. }
  destruct (selectFrom_spec c 0 scored Hn ltac:(lia)) as [Hp Hs]; [intros a b Ha; lia|].
  set (l := selectFrom 0 c scored) in *. simpl in Hs.
  assert (forall x, x ∈ l -> pw_score x = score_at psm now (pw_peer x)) as Hsc.
  { intros x Hx. rewrite Hp, Es in Hx. apply list_elem_of_fmap in Hx as (p & -> & _). done. }
  assert (length l = length peers) as Ell by (by rewrite Hp).
  split_and!; [done|rewrite length_fmap, length_take; lia|]. exists (pw_peer <$> drop c l).
  rewrite <-fmap_app, take_drop. split.
  - rewrite Hp, Es, <-list_fmap_compose. by rewrite list_fmap_id.
  - intros i j p q Hij Hi Hj. rewrite list_lookup_fmap in Hi, Hj.
    apply fmap_Some in Hi as (x & Hx & ->). apply fmap_Some in Hj as (y & Hy & ->).
    apply lookup_take_Some in Hx as [Hx Hic].
    pose proof (lookup_lt_Some _ _ _ Hy). rewrite <-!Hsc by (by eapply list_elem_of_lookup_2).
    assert (number (pw_score x) /\ number (pw_score y)) as [Nx Ny].
    { split; rewrite Hsc by (by eapply list_elem_of_lookup_2); done. }
    rewrite fle_key by done. specialize (Hs i j Hic ltac:(lia)). unfold kat in Hs. rewrite Hx, Hy in Hs. lia.
Qed.
End best.
