(* ===== verification/RateLimit.v ===== *)
(** * Rate limiting

    rpc/ratelimit.go: a token bucket per IP address, the addresses in a list by last
    use.  The list is Go's container/list: elements with an identity, so that the map
    from addresses holds pointers into it. *)

From Stdlib Require Import Floats.SpecFloat.
From S2P Require Import Prelude Clock Float Strings.

(** ** container/list *)

Record List (A : Type) := mkList {
  l_order : list nat;      (* the elements in the list, front first *)
  l_values : gmap nat A;   (* their Value fields *)
  l_next : nat;            (* the next fresh element *)
}.
Arguments mkList {A}. Arguments l_order {A}. Arguments l_values {A}. Arguments l_next {A}.

Section container.
Context {A : Type}.
Implicit Type l : List A.

Definition list_New : List A := mkList [] ∅ 0.
Definition PushFront (v : A) l : nat * List A :=
  (l_next l, mkList (l_next l :: l_order l) (<[l_next l := v]> (l_values l)) (S (l_next l))).
Definition MoveToFront (e : nat) l : List A :=
  if bool_decide (e ∈ l_order l) then mkList (e :: filter (fun x => x <> e) (l_order l)) (l_values l) (l_next l)
  else l.
Definition Back l : option nat := last (l_order l).
Definition Remove (e : nat) l : List A :=
  mkList (filter (fun x => x <> e) (l_order l)) (l_values l) (l_next l).
(** An assignment through the pointer in an element. *)
Definition set_value (e : nat) (v : A) l : List A :=
  mkList (l_order l) (<[e := v]> (l_values l)) (l_next l).
End container.

(** ** The limiter *)

Definition DefaultMaxIPsInRateLimiter : Z := 10000.

Record bucket := mkBucket {
  tokens : float64;
  lastRefill : Z;
  lastUsed : Z;
}.

Record bucketEntry := mkBucketEntry { be_ip : bytes; be_bucket : bucket }.

Record rateLimiter := mkRateLimiter {
  buckets : gmap bytes nat;
  rate : Z;                     (* int: requests per minute *)
  maxSize : Z;
  lruList : List bucketEntry;
}.

Definition set_lists (b : gmap bytes nat) (l : List bucketEntry) (rl : rateLimiter) : rateLimiter :=
  {| buckets := b; rate := rate rl; maxSize := maxSize rl; lruList := l |}.

Definition newBoundedRateLimiter (rate maxSize : Z) : rateLimiter :=
  {| buckets := ∅; rate := rate; maxSize := maxSize; lruList := list_New |}.

Definition newRateLimiter (rate : Z) : rateLimiter :=
  newBoundedRateLimiter rate DefaultMaxIPsInRateLimiter.

Definition evictOldestBucketLocked (rl : rateLimiter) : rateLimiter :=
  match Back (lruList rl) with
  | None => rl
  | Some elem =>
      match l_values (lruList rl) !! elem with
      | Some entry => set_lists (delete (be_ip entry) (buckets rl)) (Remove elem (lruList rl)) rl
      | None => rl
      end
  end.

(** The second half of [allow]: refill the bucket and take a token. *)
Definition take_token (rate now : Z) (bkt : bucket) : bool * bucket :=
  let elapsed := Sub now (lastRefill bkt) in
  let tokensToAdd := fmul (Minutes elapsed) (of_int rate) in
  let tokens :=
    if flt (of_int 0) tokensToAdd then
      let t := fadd (tokens bkt) tokensToAdd in
      if flt (of_int rate) t then of_int rate else t
    else tokens bkt in
  if fle (of_int 1) tokens then (true, mkBucket (fsub tokens (of_int 1)) now now)
  else (false, mkBucket tokens now now).

Definition allow (ip : bytes) (now : Z) (rl : rateLimiter) : bool * rateLimiter :=
  let '(elem, entry, rl) :=
    match buckets rl !! ip with
    | None =>
        let rl := if Z.of_nat (size (buckets rl)) >=? maxSize rl then evictOldestBucketLocked rl else rl in
        let bkt := mkBucket (of_int (rate rl)) now now in
        let entry := mkBucketEntry ip bkt in
        let '(elem, l) := PushFront entry (lruList rl) in
        (elem, entry, set_lists (<[ip := elem]> (buckets rl)) l rl)
    | Some elem =>
        let l := MoveToFront elem (lruList rl) in
        (elem, default (mkBucketEntry [] (mkBucket (of_int 0) 0 0)) (l_values l !! elem), set_lists (buckets rl) l rl)
    end in
  let '(ok, bkt) := take_token (rate rl) now (be_bucket entry) in
  (ok, set_lists (buckets rl) (set_value elem (mkBucketEntry (be_ip entry) bkt) (lruList rl)) rl).

(** The loop reads the successor of an element before it removes the element, so it
    visits the list as it was. *)
Definition sweepLocked (now : Z) (rl : rateLimiter) : rateLimiter :=
  foldl (fun rl elem =>
    match l_values (lruList rl) !! elem with
    | Some entry =>
        if Sub now (lastUsed (be_bucket entry)) >? 10 * Minute then
          set_lists (delete (be_ip entry) (buckets rl)) (Remove elem (lruList rl)) rl
        else rl
    | None => rl
    end) rl (l_order (lruList rl)).

Definition triggerCleanup (now : Z) (rl : rateLimiter) : rateLimiter := sweepLocked now rl.

Definition extractIP (remoteAddr : bytes) : bytes :=
  match SplitHostPort remoteAddr with
  | Err _ => []
  | Ok (host, _) => host
  end.

(** ** What the rate limiter promises

    The limiter implements a list of addresses with their buckets, most recently used
    first: [allow] moves the address to the front and takes a token from its bucket
    alone, and only a full list loses its last address.  Buckets hold between zero and
    [rate] tokens, and at one instant a new address gets exactly [rate] requests. *)

(** ** The specification on a list *)

Abbreviation entries := (list (bytes * bucket)).

Fixpoint find_ip (ip : bytes) (l : entries) : option bucket :=
  match l with
  | [] => None
  | (k, b) :: l => if decide (k = ip) then Some b else find_ip ip l
  end.

Definition without (ip : bytes) (l : entries) : entries := filter (fun e => e.1 <> ip) l.

Definition spec_allow (rate maxSize : Z) (ip : bytes) (now : Z) (l : entries) : bool * entries :=
  let '(b, l) :=
    match find_ip ip l with
    | Some b => (b, without ip l)
    | None => (mkBucket (of_int rate) now now,
        if Z.of_nat (length l) >=? maxSize then take (length l - 1) l else l)
    end in
  let '(ok, b) := take_token rate now b in (ok, (ip, b) :: l).

Definition spec_sweep (now : Z) (l : entries) : entries :=
  filter (fun e => Sub now (lastUsed e.2) <= 10 * Minute) l.

(** ** The representation *)

Definition entry_of (l : List bucketEntry) (e : nat) : bytes * bucket :=
  match l_values l !! e with
  | Some v => (be_ip v, be_bucket v)
  | None => ([], mkBucket (of_int 0) 0 0)
  end.

Definition view (rl : rateLimiter) : entries := entry_of (lruList rl) <$> l_order (lruList rl).

Record rl_wf (rl : rateLimiter) : Prop := {
  wf_nodup : NoDup (l_order (lruList rl));
  wf_values e : e ∈ l_order (lruList rl) -> is_Some (l_values (lruList rl) !! e);
  wf_map ip e : buckets rl !! ip = Some e <->
    e ∈ l_order (lruList rl) /\ (entry_of (lruList rl) e).1 = ip;
  wf_next e : is_Some (l_values (lruList rl) !! e) -> (e < l_next (lruList rl))%nat;
}.

(** The address of an element. *)
Abbreviation ip_of rl e := (entry_of (lruList rl) e).1.

Lemma wf_ip_inj rl e1 e2 : rl_wf rl -> e1 ∈ l_order (lruList rl) -> e2 ∈ l_order (lruList rl) ->
  ip_of rl e1 = ip_of rl e2 -> e1 = e2.
Proof.
  intros Wf H1 H2 E. pose proof (proj2 (wf_map _ Wf (ip_of rl e1) e1) (conj H1 eq_refl)) as M1.
  pose proof (proj2 (wf_map _ Wf (ip_of rl e2) e2) (conj H2 eq_refl)) as M2. congruence.
Qed.

Lemma wf_ips rl : rl_wf rl -> NoDup (view rl).*1.
Proof.
  intros Wf. unfold view. rewrite <-list_fmap_compose. apply NoDup_fmap_2_strong; [|apply Wf].
  intros e1 e2 H1 H2. by apply wf_ip_inj.
Qed.

Lemma wf_size rl : rl_wf rl -> size (buckets rl) = length (view rl).
Proof.
  intros Wf. set (ps := (fun e => (ip_of rl e, e)) <$> l_order (lruList rl)).
  assert (ps.*1 = (view rl).*1) as E1 by (unfold ps, view; by rewrite <-!list_fmap_compose).
  assert (buckets rl = list_to_map ps) as ->.
  { apply map_eq. intros ip. apply option_eq. intros e. rewrite (wf_map _ Wf).
    rewrite <-elem_of_list_to_map by (rewrite E1; by apply wf_ips). unfold ps.
    rewrite list_elem_of_fmap. naive_solver. }
  rewrite map_size_list_to_map by (rewrite E1; by apply wf_ips). unfold ps, view. by rewrite !length_fmap.
Qed.

Lemma find_ip_view rl ip : rl_wf rl -> find_ip ip (view rl) =
  match buckets rl !! ip with Some e => Some (entry_of (lruList rl) e).2 | None => None end.
Proof.
  intros Wf. assert (forall es, (forall e, e ∈ es -> e ∈ l_order (lruList rl)) ->
    (forall e, buckets rl !! ip = Some e -> e ∈ es) ->
    find_ip ip (entry_of (lruList rl) <$> es) =
    match buckets rl !! ip with Some e => Some (entry_of (lruList rl) e).2 | None => None end) as G.
  { induction es as [|e es IH]; intros Hin Hall.
    - destruct (buckets rl !! ip) as [e|]; [|done]. specialize (Hall e eq_refl). set_solver.
    - cbn [fmap list_fmap find_ip]. pose proof (wf_map _ Wf (ip_of rl e) e) as M.
      destruct (entry_of (lruList rl) e) as [k b] eqn:Ee. simpl in M.
      assert (buckets rl !! k = Some e) as Mk by (apply M; split; [apply Hin; set_solver|done]).
      destruct (decide (k = ip)) as [->|Hne]; [by rewrite Mk, Ee|]. apply IH; [set_solver|].
      intros e' He'. specialize (Hall e' He'). apply elem_of_cons in Hall as [->|]; [|done].
      exfalso. apply Hne. apply (wf_map _ Wf) in He' as [_ E]. by rewrite Ee in E. }
  apply G; [done|]. intros e He. by apply (wf_map _ Wf) in He as [? _].
Qed.

Lemma view_without rl ip e : rl_wf rl -> buckets rl !! ip = Some e ->
  without ip (view rl) = entry_of (lruList rl) <$> filter (fun x => x <> e) (l_order (lruList rl)).
Proof.
  intros Wf He. pose proof (proj1 (wf_map _ Wf ip e) He) as [Hin Hip]. unfold without, view.
  apply filter_fmap_strong. intros x Hx. rewrite <-Hip. split; [by intros ? ->|].
  intros Hne E. apply Hne. by apply (wf_ip_inj rl).
Qed.

(** ** Removing an element *)

Definition drop_entry (e : nat) (rl : rateLimiter) : rateLimiter :=
  set_lists (delete (ip_of rl e) (buckets rl)) (Remove e (lruList rl)) rl.

Lemma drop_entry_wf e rl : rl_wf rl -> e ∈ l_order (lruList rl) -> rl_wf (drop_entry e rl).
Proof.
  intros Wf He. pose proof Wf as [Hn Hv Hm Hx]. split; simpl.
  - by apply NoDup_filter.
  - intros x Hx'. apply list_elem_of_filter in Hx' as [_ Hx']. by apply Hv.
  - intros ip x. change (entry_of (Remove e (lruList rl)) x) with (entry_of (lruList rl) x).
    rewrite lookup_delete_Some, Hm, list_elem_of_filter. split.
    + intros (Hne & ? & <-). split_and!; try done. by intros ->.
    + intros ((Hne & Hin) & <-). split_and!; try done. intros E. by apply Hne, (wf_ip_inj rl).
  - done.
Qed.

Lemma drop_entry_view e rl : rl_wf rl -> e ∈ l_order (lruList rl) ->
  view (drop_entry e rl) = without (ip_of rl e) (view rl).
Proof.
  intros Wf He. rewrite (view_without rl _ e); [done|done|]. by apply (wf_map _ Wf).
Qed.

Lemma evictOldest_correct rl : rl_wf rl -> let rl' := evictOldestBucketLocked rl in
  rl_wf rl' /\ view rl' = take (length (view rl) - 1) (view rl) /\
  rate rl' = rate rl /\ maxSize rl' = maxSize rl /\ (forall ip, buckets rl !! ip = None -> buckets rl' !! ip = None).
Proof.
  intros Wf. unfold evictOldestBucketLocked, Back. destruct (last (l_order (lruList rl))) as [e|] eqn:El.
  - assert (e ∈ l_order (lruList rl)) as He.
    { apply last_Some in El as [l' ->]. set_solver. }
    destruct (wf_values _ Wf e He) as [v Ev]. rewrite Ev.
    assert (be_ip v = ip_of rl e) as -> by (unfold entry_of; by rewrite Ev).
    change (set_lists _ _ rl) with (drop_entry e rl). split_and!; try done.
    + by apply drop_entry_wf.
    + unfold view. rewrite length_fmap, <-fmap_take. unfold drop_entry. simpl. f_equal.
      apply filter_last; [apply Wf|done].
    + intros ip Hip. apply lookup_delete_None. by right.
  - apply last_None in El. split_and!; try done. unfold view. by rewrite El.
Qed.

(** Writing a bucket leaves the addresses as they are. *)
Lemma set_value_wf e b ip rl : rl_wf rl -> ip_of rl e = ip -> e ∈ l_order (lruList rl) ->
  rl_wf (set_lists (buckets rl) (set_value e (mkBucketEntry ip b) (lruList rl)) rl).
Proof.
  intros Wf Hip He. pose proof Wf as [Hn Hv Hm Hx].
  assert (forall x, (entry_of (set_value e (mkBucketEntry ip b) (lruList rl)) x).1 = ip_of rl x) as E.
  { intros x. destruct (decide (x = e)) as [->|]; unfold entry_of at 1, set_value; simpl.
    - by rewrite lookup_insert_eq.
    - by rewrite lookup_insert_ne. }
  split; simpl; try done.
  - intros x Hx'. apply lookup_insert_is_Some'. right. by apply Hv.
  - intros k x. by rewrite E, Hm.
  - intros x. rewrite lookup_insert_is_Some'. intros [<-|H]; [|by apply Hx]. by apply Hx, Hv.
Qed.

Lemma set_value_entries e v (es : list nat) l : e ∉ es -> entry_of (set_value e v l) <$> es = entry_of l <$> es.
Proof.
  intros He. apply list_fmap_ext. intros i x Hx. unfold entry_of, set_value. simpl.
  rewrite lookup_insert_ne; [done|]. intros <-. by apply He, (list_elem_of_lookup_2 _ i).
Qed.

Lemma moved_wf e rl : rl_wf rl -> e ∈ l_order (lruList rl) ->
  rl_wf (set_lists (buckets rl) (MoveToFront e (lruList rl)) rl).
Proof.
  intros Wf He. pose proof Wf as [Hn Hv Hm Hx]. unfold MoveToFront. rewrite bool_decide_true by done.
  assert (forall x, x ∈ e :: filter (fun y => y <> e) (l_order (lruList rl)) <-> x ∈ l_order (lruList rl)) as Q.
  { intros x. rewrite elem_of_cons, list_elem_of_filter. destruct (decide (x = e)); naive_solver. }
  split; simpl; [|intros x Hx'; apply Hv; by apply Q| |done].
  - apply NoDup_cons. split; [rewrite list_elem_of_filter; tauto|by apply NoDup_filter].
  - intros k x. by rewrite Q, Hm.
Qed.

Lemma pushed_wf ip b rl : rl_wf rl -> buckets rl !! ip = None ->
  let e := (PushFront (mkBucketEntry ip b) (lruList rl)).1 in
  let rl' := set_lists (<[ip := e]> (buckets rl)) (PushFront (mkBucketEntry ip b) (lruList rl)).2 rl in
  rl_wf rl' /\ view rl' = (ip, b) :: view rl.
Proof.
  intros Wf Hip. pose proof Wf as [Hn Hv Hm Hx]. cbv zeta.
  change (PushFront (mkBucketEntry ip b) (lruList rl)).1 with (l_next (lruList rl)). set (e := l_next (lruList rl)).
  assert (e ∉ l_order (lruList rl)) as Hfresh.
  { intros Hin. pose proof (Hx e (Hv e Hin)). unfold e in *. lia. }
  assert (forall x, entry_of (PushFront (mkBucketEntry ip b) (lruList rl)).2 x =
    if decide (x = e) then (ip, b) else entry_of (lruList rl) x) as E.
  { intros x. unfold entry_of, PushFront. simpl. fold e. destruct (decide (x = e)) as [->|].
    - by rewrite lookup_insert_eq.
    - by rewrite lookup_insert_ne. }
  split; [split; cbn [buckets lruList set_lists]|].
  - apply NoDup_cons. done.
  - intros x Hx'. apply lookup_insert_is_Some'. apply elem_of_cons in Hx' as [->|]; [by left|right; by apply Hv].
  - intros k x. rewrite E. change (l_order (PushFront _ _).2) with (e :: l_order (lruList rl)).
    rewrite lookup_insert_Some, Hm, elem_of_cons.
    destruct (decide (x = e)) as [->|]; simpl; [naive_solver|].
    split; [naive_solver|]. intros [[->|Hin] <-]; [done|]. right. split; [|done].
    intros ->. assert (buckets rl !! ip_of rl x = Some x) by (by apply Hm). congruence.
  - intros x. simpl. rewrite lookup_insert_is_Some'. fold e. intros [<-|H]; [lia|]. pose proof (Hx x H). unfold e. lia.
  - unfold view. cbn [lruList set_lists]. change (l_order (PushFront _ _).2) with (e :: l_order (lruList rl)).
    cbn [fmap list_fmap]. rewrite E, decide_True by done. f_equal. apply list_fmap_ext.
    intros i x Hx'. rewrite E, decide_False; [done|]. intros ->. by apply Hfresh, (list_elem_of_lookup_2 _ i).
Qed.

(** ** allow and sweep *)

Lemma allow_correct ip now rl : rl_wf rl ->
  let '(ok, rl') := allow ip now rl in
  rl_wf rl' /\ rate rl' = rate rl /\ maxSize rl' = maxSize rl /\
  (ok, view rl') = spec_allow (rate rl) (maxSize rl) ip now (view rl).
Proof.
  intros Wf. unfold allow, spec_allow. rewrite find_ip_view by done.
  destruct (buckets rl !! ip) as [e|] eqn:Eb.
  - pose proof (proj1 (wf_map _ Wf ip e) Eb) as [He Hip]. pose proof (moved_wf e rl Wf He) as Wm.
    destruct (wf_values _ Wf e He) as [v Ev].
    assert (l_values (MoveToFront e (lruList rl)) !! e = Some v) as Ev' 
      by (unfold MoveToFront; by rewrite bool_decide_true).
    rewrite Ev'. simpl. assert (entry_of (lruList rl) e = (be_ip v, be_bucket v)) as Ee by (unfold entry_of; by rewrite Ev).
    rewrite Ee in *. simpl in Hip |- *. destruct (take_token (rate rl) now (be_bucket v)) as [ok b].
    assert (l_order (MoveToFront e (lruList rl)) = e :: filter (fun y => y <> e) (l_order (lruList rl))) as Eo.
    { unfold MoveToFront. by rewrite bool_decide_true. }
    split_and!; try done.
    + apply (set_value_wf e b (be_ip v) _ Wm).
      * simpl. unfold entry_of. by rewrite Ev'.
      * simpl. rewrite Eo. set_solver.
    + f_equal. rewrite (view_without rl ip e) by done. unfold view. simpl. rewrite Eo. cbn [fmap list_fmap].
      rewrite set_value_entries by (rewrite list_elem_of_filter; tauto). rewrite Hip. f_equal.
      * unfold entry_of, set_value. simpl. by rewrite lookup_insert_eq.
      * apply list_fmap_ext. intros i x _. unfold entry_of, MoveToFront. by rewrite bool_decide_true.
  - rewrite <-(wf_size rl Wf).
    set (rl1 := if Z.of_nat (size (buckets rl)) >=? maxSize rl then evictOldestBucketLocked rl else rl).
    assert (rl_wf rl1 /\ view rl1 = (if Z.of_nat (size (buckets rl)) >=? maxSize rl
        then take (size (buckets rl) - 1) (view rl) else view rl) /\
      rate rl1 = rate rl /\ maxSize rl1 = maxSize rl /\ buckets rl1 !! ip = None) as (W1 & V1 & R1 & M1 & B1).
    { unfold rl1. destruct (Z.of_nat (size (buckets rl)) >=? maxSize rl); [|done].
      destruct (evictOldest_correct rl Wf) as (? & Ev & ? & ? & Hb). rewrite <-(wf_size rl Wf) in Ev.
      split_and!; try done. by apply Hb. }
    clearbody rl1. rewrite R1. set (b0 := mkBucket (of_int (rate rl)) now now).
    destruct (pushed_wf ip b0 rl1 W1 B1) as [W2 V2].
    destruct (PushFront (mkBucketEntry ip b0) (lruList rl1)) as [e l] eqn:Ep. simpl in W2, V2 |- *.
    rewrite R1. destruct (take_token (rate rl) now b0) as [ok b].
    assert ((e ∉ l_order (lruList rl1)) /\ l_order l = e :: l_order (lruList rl1) /\
      l_values l !! e = Some (mkBucketEntry ip b0)) as (Hf & Eo & Ev).
    { unfold PushFront in Ep. injection Ep as <- <-. simpl. rewrite lookup_insert_eq. split_and!; try done.
      intros Hin. pose proof (wf_next _ W1 _ (wf_values _ W1 _ Hin)). lia. }
    split_and!; try done.
    + apply (set_value_wf e b ip _ W2); simpl; [unfold entry_of; by rewrite Ev|rewrite Eo; set_solver].
    + f_equal. transitivity ((ip, b) :: view rl1); [|by f_equal]. clear V1. unfold view in *. simpl in *. rewrite Eo in *. cbn [fmap list_fmap] in *.
      injection V2 as _ V2. rewrite set_value_entries by done. rewrite V2. f_equal.
      unfold entry_of, set_value. simpl. by rewrite lookup_insert_eq.
Qed.

(** One round of the sweep. *)
Definition sweep_one (now : Z) (rl : rateLimiter) (e : nat) : rateLimiter :=
  match l_values (lruList rl) !! e with
  | Some entry =>
      if Sub now (lastUsed (be_bucket entry)) >? 10 * Minute then
        set_lists (delete (be_ip entry) (buckets rl)) (Remove e (lruList rl)) rl
      else rl
  | None => rl
  end.

Lemma sweep_fold now (es : list nat) rl : rl_wf rl -> NoDup es -> (forall e, e ∈ es -> e ∈ l_order (lruList rl)) ->
  let rl' := foldl (sweep_one now) rl es in
  rl_wf rl' /\ rate rl' = rate rl /\ maxSize rl' = maxSize rl /\
  view rl' = entry_of (lruList rl) <$> filter (fun e => e ∈ es ->
    Sub now (lastUsed (entry_of (lruList rl) e).2) <= 10 * Minute) (l_order (lruList rl)).
Proof.
  revert rl. induction es as [|e es IH]; intros rl Wf Hn Hin.
  - simpl. split_and!; try done. unfold view. f_equal. symmetry. apply filter_all. set_solver.
  - apply NoDup_cons in Hn as [Hne Hn]. cbn [foldl].
    pose proof (Hin e ltac:(set_solver)) as He. destruct (wf_values _ Wf e He) as [v Ev].
    assert (entry_of (lruList rl) e = (be_ip v, be_bucket v)) as Ee by (unfold entry_of; by rewrite Ev).
    assert (sweep_one now rl e = if Sub now (lastUsed (be_bucket v)) >? 10 * Minute then drop_entry e rl else rl) as ->.
    { unfold sweep_one, drop_entry. by rewrite Ev, Ee. }
    destruct (Sub now (lastUsed (be_bucket v)) >? 10 * Minute) eqn:Eo.
    + destruct (IH (drop_entry e rl)) as (W' & R' & M' & V').
      * by apply drop_entry_wf.
      * done.
      * intros x Hx. simpl. apply list_elem_of_filter. split; [set_solver|]. apply Hin. set_solver.
      * split_and!; try done. rewrite V'. simpl.
        change (entry_of (Remove e (lruList rl))) with (entry_of (lruList rl)). f_equal.
        rewrite list_filter_filter. apply filter_strong. intros x Hx. split.
        -- intros [H1 H2] Hxin. apply elem_of_cons in Hxin as [->|]; [done|auto].
        -- intros H. split; [intros ?; apply H; by right|]. intros ->.
           specialize (H ltac:(by left)). rewrite Ee in H. simpl in H. lia.
    + destruct (IH rl Wf Hn ltac:(set_solver)) as (W' & R' & M' & V'). split_and!; try done.
      rewrite V'. f_equal. apply filter_strong. intros x Hx.
      split; [|intros H ?; apply H; by right]. intros H Hxin. apply elem_of_cons in Hxin as [->|]; [rewrite Ee; simpl; lia|auto].
Qed.

Lemma sweep_correct now rl : rl_wf rl -> let rl' := sweepLocked now rl in
  rl_wf rl' /\ rate rl' = rate rl /\ maxSize rl' = maxSize rl /\ view rl' = spec_sweep now (view rl).
Proof.
  intros Wf. destruct (sweep_fold now (l_order (lruList rl)) rl Wf (wf_nodup _ Wf) (fun _ H => H))
    as (W' & R' & M' & V'). split_and!; try done. unfold sweepLocked.
  change (foldl _ rl _) with (foldl (sweep_one now) rl (l_order (lruList rl))). rewrite V'.
  unfold spec_sweep, view. symmetry. apply filter_fmap_strong. naive_solver.
Qed.

Lemma newBoundedRateLimiter_wf rate maxSize : rl_wf (newBoundedRateLimiter rate maxSize).
Proof.
  split; simpl.
  - apply NoDup_nil_2.
  - set_solver.
  - intros ip e. rewrite lookup_empty. set_solver.
  - intros e. rewrite lookup_empty. by intros [].
Qed.

(** ** Tokens *)

Definition token_ok (rate : Z) (b : bucket) : Prop :=
  number (tokens b) /\ 0 <= key (tokens b) <= key (of_int rate).

Lemma take_token_ok rate now b : 0 <= rate -> is_int64 rate -> token_ok rate b ->
  token_ok rate (take_token rate now b).2.
Proof.
  intros H0 Hr [Nt Kt]. unfold take_token.
  set (add := fmul (Minutes (Sub now (lastRefill b))) (of_int rate)).
  pose proof (Minutes_finite _ (Sub_int64 now (lastRefill b))) as Fm.
  pose proof (of_int_finite rate Hr) as Fr. pose proof (finite_number _ _ Fr) as Nr.
  assert (finite_le 104 add) as Fa by (apply (fmul_finite 38 12); [done|done|lia|lia]).
  pose proof (finite_number _ _ Fa) as Na. assert (number (of_int 0)) as N0 by float_const.
  set (t := if flt (of_int 0) add then _ else _).
  assert (number t /\ 0 <= key t <= key (of_int rate)) as [N K].
  { unfold t. rewrite (flt_key _ _ N0 Na). change (key (of_int 0)) with 0.
    destruct (Z.ltb_spec 0 (key add)); [|done].
    assert (number (fadd (tokens b) add)) as Ns.
    { apply fadd_number; [done..|]. right. by apply (finite_le_finite 104). }
    rewrite (flt_key _ _ Nr Ns). destruct (Z.ltb_spec (key (of_int rate)) (key (fadd (tokens b) add))).
    - split; [done|]. lia.
    - split; [done|]. split; [|done]. apply fadd_nonneg; try done; lia. }
  clearbody t. assert (number (of_int 1)) as N1 by float_const. rewrite (fle_key _ _ N1 N).
  destruct (Z.leb_spec (key (of_int 1)) (key t)); [|by split].
  assert (finite t) as Ft.
  { apply (finite_le_finite 12), (finite_between 12 (of_int 0) (of_int rate)); try done; float_const || lia. }
  destruct (fsub_between t (of_int 1) N N1 Ft) as [Nd Kd].
  - split; [|done]. by vm_compute.
  - split; [exact Nd|]. simpl. lia.
Qed.

Lemma new_bucket_ok rate now : 0 <= rate -> is_int64 rate -> token_ok rate (mkBucket (of_int rate) now now).
Proof.
  intros H0 Hr. split; [by eapply finite_number, of_int_finite|]. simpl.
  pose proof (of_int_nonneg rate H0 Hr). lia.
Qed.

(** ** Reachable limiters *)

Inductive rl_step : rateLimiter -> rateLimiter -> Prop :=
  | step_allow ip now rl : rl_step rl (allow ip now rl).2
  | step_sweep now rl : rl_step rl (sweepLocked now rl).

Record rl_ok (rate0 maxSize0 : Z) (rl : rateLimiter) : Prop := {
  ok_wf : rl_wf rl;
  ok_rate : rate rl = rate0;
  ok_max : maxSize rl = maxSize0;
  ok_size : Z.of_nat (length (view rl)) <= Z.max 1 maxSize0;
  ok_tokens : Forall (fun e => token_ok rate0 e.2) (view rl);
}.

Lemma find_ip_ok (P : bucket -> Prop) ip l b : Forall (fun e : bytes * bucket => P e.2) l -> find_ip ip l = Some b -> P b.
Proof.
  induction 1 as [|[k b'] l Hb _ IH]; simpl; [done|]. case_decide; [|done]. by intros [= <-].
Qed.

Lemma find_ip_length ip (l : entries) b : find_ip ip l = Some b -> (length (without ip l) < length l)%nat.
Proof.
  unfold without. induction l as [|[k b'] l IH]; cbn [find_ip]; [done|]. rewrite filter_cons. cbn [fst].
  destruct (decide (k = ip)) as [->|Hk].
  - intros _. rewrite decide_False by tauto. pose proof (length_filter (fun e : bytes * bucket => e.1 <> ip) l). simpl. lia.
  - intros H. rewrite decide_True by done. specialize (IH H). simpl. lia.
Qed.

Lemma rl_step_ok r m rl rl' : 0 <= r -> is_int64 r -> rl_step rl rl' -> rl_ok r m rl -> rl_ok r m rl'.
Proof.
  intros H0 Hr St [Wf Er Em Hs Ht]. destruct St as [ip now rl|now rl].
  - pose proof (allow_correct ip now rl Wf) as A. destruct (allow ip now rl) as [ok rl1].
    destruct A as (W1 & R1 & M1 & V). unfold spec_allow in V. rewrite Er, Em in V. simpl.
    destruct (find_ip ip (view rl)) as [b|] eqn:Ef.
    + pose proof (take_token_ok r now b H0 Hr (find_ip_ok _ _ _ _ Ht Ef)) as Hb.
      destruct (take_token r now b) as [ok' b']. injection V as _ V.
      split; [done|congruence|congruence| |]; rewrite V.
      * pose proof (find_ip_length ip _ b Ef). simpl. lia.
      * constructor; [done|]. by apply Forall_filter_2.
    + pose proof (take_token_ok r now _ H0 Hr (new_bucket_ok r now H0 Hr)) as Hb.
      destruct (take_token r now (mkBucket (of_int r) now now)) as [ok' b']. injection V as _ V.
      split; [done|congruence|congruence| |]; rewrite V.
      * simpl. destruct (Z.of_nat (length (view rl)) >=? m) eqn:E; rewrite ?length_take; lia.
      * constructor; [done|]. case_match; [by apply Forall_take|done].
  - destruct (sweep_correct now rl Wf) as (W1 & R1 & M1 & V). split; [done|congruence|congruence| |]; rewrite V.
    + pose proof (length_filter (fun e : bytes * bucket => Sub now (lastUsed e.2) <= 10 * Minute) (view rl)).
      unfold spec_sweep. lia.
    + by apply Forall_filter_2.
Qed.

Lemma limiter_reachable_ok r m rl : 0 <= r -> is_int64 r ->
  rtc rl_step (newBoundedRateLimiter r m) rl -> rl_ok r m rl.
Proof.
  intros H0 Hr Hs. assert (rl_ok r m (newBoundedRateLimiter r m)) as Hi.
  { split; try done; [apply newBoundedRateLimiter_wf|simpl; lia]. }
  induction Hs as [|? ? ? St _ IH]; [done|]. apply IH. by eapply rl_step_ok.
Qed.

(** ** A burst *)

(** Requests of one address at one instant. *)
Fixpoint burst (ip : bytes) (now : Z) (n : nat) (rl : rateLimiter) : list bool :=
  match n with
  | O => []
  | S n => let '(ok, rl) := allow ip now rl in ok :: burst ip now n rl
  end.

Lemma take_token_instant r now z : 0 <= z < 2 ^ 53 -> is_int64 r ->
  take_token r now (mkBucket (of_int z) now now) =
  (1 <=? z, mkBucket (of_int (if 1 <=? z then z - 1 else z)) now now).
Proof.
  intros Hz Hr. unfold take_token. cbn [lastRefill tokens].
  assert (Sub now now = 0) as ->. { rewrite Sub_small; unfold is_int64; lia. }
  assert (fmul (Minutes 0) (of_int r) = S754_zero false \/ fmul (Minutes 0) (of_int r) = S754_zero true) as Ez.
  { change (Minutes 0) with (S754_zero false). pose proof (of_int_finite r Hr) as [_ F].
    destruct (of_int r) as [[]| | |[] m e]; simpl; try done; by (left + right). }
  assert (flt (of_int 0) (fmul (Minutes 0) (of_int r)) = false) as ->. { by destruct Ez as [-> | ->]. }
  assert (number (of_int z)) as N. { eapply finite_number, of_int_finite. unfold is_int64. lia. }
  rewrite (fle_key (of_int 1) (of_int z) ltac:(float_const) N).
  destruct (decide (z = 0)) as [->|Hz0]; [done|].
  assert ((key (of_int 1) <=? key (of_int z)) = true) as ->.
  { apply Z.leb_le. destruct (of_int_exact z ltac:(lia)) as (q & -> & Eq & (_ & He & Hc) & Hd).
    change (key (of_int 1)) with (1 * ((-52 + 1074) * 2 ^ 53 + 4503599627370496)). cbn [key].
    destruct Hc as [|Hc]; [lia|]. lia. }
  rewrite (proj2 (Z.leb_le 1 z)) by lia. by rewrite of_int_pred by lia.
Qed.

Lemma burst_from ip now n rl z : rl_wf rl -> is_int64 (rate rl) -> 0 <= z < 2 ^ 53 ->
  find_ip ip (view rl) = Some (mkBucket (of_int z) now now) ->
  burst ip now n rl = (fun i => Z.of_nat i <? z) <$> seq 0 n.
Proof.
  revert rl z. induction n as [|n IH]; intros rl z Wf Hr Hz Hf; [done|]. cbn [burst].
  pose proof (allow_correct ip now rl Wf) as A. destruct (allow ip now rl) as [ok rl1].
  destruct A as (W1 & R1 & M1 & V). unfold spec_allow in V. rewrite Hf, take_token_instant in V by done.
  injection V as -> V.
  rewrite (IH rl1 (if 1 <=? z then z - 1 else z)); [|done|by rewrite R1|case_match; lia|].
  - cbn [seq fmap list_fmap]. f_equal; [destruct (Z.leb_spec 1 z), (Z.ltb_spec (Z.of_nat 0) z); done || lia|].
    rewrite <-(fmap_S_seq 0 n), <-list_fmap_compose. apply list_fmap_ext. intros i x _. simpl.
    destruct (Z.leb_spec 1 z); apply eq_true_iff_eq; rewrite !Z.ltb_lt; lia.
  - rewrite V. simpl. by rewrite decide_True.
Qed.

Lemma burst_fresh ip now n rl : rl_wf rl -> 0 <= rate rl < 2 ^ 53 -> find_ip ip (view rl) = None ->
  burst ip now n rl = (fun i => Z.of_nat i <? rate rl) <$> seq 0 n.
Proof.
  intros Wf Hr Hf. assert (is_int64 (rate rl)) as Hi by (unfold is_int64; lia).
  destruct n as [|n]; [done|]. cbn [burst].
  pose proof (allow_correct ip now rl Wf) as A. destruct (allow ip now rl) as [ok rl1].
  destruct A as (W1 & R1 & M1 & V). unfold spec_allow in V. rewrite Hf, take_token_instant in V by done.
  injection V as -> V.
  rewrite (burst_from ip now n rl1 (if 1 <=? rate rl then rate rl - 1 else rate rl));
    [|done|by rewrite R1|case_match; lia|].
  - cbn [seq fmap list_fmap]. f_equal; [destruct (Z.leb_spec 1 (rate rl)), (Z.ltb_spec (Z.of_nat 0) (rate rl)); done || lia|].
    rewrite <-(fmap_S_seq 0 n), <-list_fmap_compose. apply list_fmap_ext. intros i x _. simpl.
    destruct (Z.leb_spec 1 (rate rl)); apply eq_true_iff_eq; rewrite !Z.ltb_lt; lia.
  - rewrite V. simpl. by rewrite decide_True.
Qed.
