(* ===== verification/Network.v ===== *)
(** * The peer manager and the block synchronisation

    network/peermgr.go and network/sync.go.  The handlers of btcd's messages are
    functions on the state of the peer manager; a message queued for a peer is
    appended to [sent].  The chain is the interface [NodeChain].  Handlers run
    concurrently in Go; each takes the locks of what it touches, and is one step
    here, except that the handlers of blocks and transactions are sequences of the
    steps of the chain and the pool. *)

From S2P Require Import Prelude Clock Wire Config AuxPow Chain Mempool.

(** What the network asks of the chain: btcd's queries, which [chain.BlockChain]
    passes on, and its own [ProcessBlock] and [SetBlockAuxPowFromBytes]. *)
Class NodeChain (C : Type) := {
  BestHeight : C -> Z;                                   (* BestSnapshot().Height *)
  BestHash : C -> bytes;
  LatestBlockLocator : C -> res (list bytes);
  BlockByHash : C -> bytes -> res MsgBlock;
  LocateHeaders : C -> list bytes -> bytes -> list BlockHeader;
  LocateBlocks : C -> list bytes -> bytes -> Z -> list bytes;
  chain_SetBlockAuxPowFromBytes : bytes -> bytes -> M C unit;
  chain_ProcessBlock : btcBlock -> Z -> M C (bool * bool * option error);
  chain_validator :: TxValidator C;
}.

Section network.
Context {W : Wire} {R : MapRange} {P : PeerLib} {C : Type} {N : NodeChain C}.

(** ** sync.go *)

Record SyncManager := mkSync {
  syncPeer : option Peer;
  headersFirstMode : bool;
  requestedBlocks : gmap bytes Z;
  bestHeight : Z;
  bestPeer : option Peer;
  peerHeights : gmap Peer Z;
}.

Definition NewSyncManager : SyncManager :=
  {| syncPeer := None; headersFirstMode := true; requestedBlocks := ∅; bestHeight := 0; bestPeer := None;
     peerHeights := ∅ |}.

Record PeerManager := mkPM {
  peers : gmap Z Peer;
  blockchain : C;
  mempool : Mempool;
  syncManager : SyncManager;
  maxPeers : Z;
  sent : list (Peer * Message);    (* the messages queued so far *)
}.

Definition NewPeerManager (c : C) (maxPeers : Z) : PeerManager :=
  {| peers := ∅; blockchain := c;
     mempool := NewMempoolWithConfig (Some (mkMempoolConfig true 5000 (24 * Hour) (10 * Minute)));
     syncManager := NewSyncManager; maxPeers := maxPeers; sent := [] |}.

Definition set_peers (f : gmap Z Peer -> gmap Z Peer) (pm : PeerManager) : PeerManager :=
  {| peers := f (peers pm); blockchain := blockchain pm; mempool := mempool pm;
     syncManager := syncManager pm; maxPeers := maxPeers pm; sent := sent pm |}.
Definition set_mempool (f : Mempool -> Mempool) (pm : PeerManager) : PeerManager :=
  {| peers := peers pm; blockchain := blockchain pm; mempool := f (mempool pm);
     syncManager := syncManager pm; maxPeers := maxPeers pm; sent := sent pm |}.
Definition set_chain (c : C) (pm : PeerManager) : PeerManager :=
  {| peers := peers pm; blockchain := c; mempool := mempool pm;
     syncManager := syncManager pm; maxPeers := maxPeers pm; sent := sent pm |}.
Definition set_sync (f : SyncManager -> SyncManager) (pm : PeerManager) : PeerManager :=
  {| peers := peers pm; blockchain := blockchain pm; mempool := mempool pm;
     syncManager := f (syncManager pm); maxPeers := maxPeers pm; sent := sent pm |}.
Definition QueueMessage (p : Peer) (m : Message) (pm : PeerManager) : PeerManager :=
  {| peers := peers pm; blockchain := blockchain pm; mempool := mempool pm;
     syncManager := syncManager pm; maxPeers := maxPeers pm; sent := sent pm ++ [(p, m)] |}.

Definition set_syncPeer (p : option Peer) (sm : SyncManager) : SyncManager :=
  {| syncPeer := p; headersFirstMode := headersFirstMode sm; requestedBlocks := requestedBlocks sm;
     bestHeight := bestHeight sm; bestPeer := bestPeer sm; peerHeights := peerHeights sm |}.
Definition set_requested (r : gmap bytes Z) (sm : SyncManager) : SyncManager :=
  {| syncPeer := syncPeer sm; headersFirstMode := headersFirstMode sm; requestedBlocks := r;
     bestHeight := bestHeight sm; bestPeer := bestPeer sm; peerHeights := peerHeights sm |}.
Definition set_best (h : Z) (p : option Peer) (sm : SyncManager) : SyncManager :=
  {| syncPeer := syncPeer sm; headersFirstMode := headersFirstMode sm; requestedBlocks := requestedBlocks sm;
     bestHeight := h; bestPeer := p; peerHeights := peerHeights sm |}.
Definition set_heights (h : gmap Peer Z) (sm : SyncManager) : SyncManager :=
  {| syncPeer := syncPeer sm; headersFirstMode := headersFirstMode sm; requestedBlocks := requestedBlocks sm;
     bestHeight := bestHeight sm; bestPeer := bestPeer sm; peerHeights := h |}.
Definition leave_headersFirst (sm : SyncManager) : SyncManager :=
  {| syncPeer := None; headersFirstMode := false; requestedBlocks := requestedBlocks sm;
     bestHeight := bestHeight sm; bestPeer := bestPeer sm; peerHeights := peerHeights sm |}.

(** [None] is a nil peer; the chain is not nil. *)
Definition requestHeaders (p : option Peer) (pm : PeerManager) : PeerManager :=
  match p with
  | None => pm
  | Some p =>
      match LatestBlockLocator (blockchain pm) with
      | Err _ => pm
      | Ok locator => QueueMessage p (MsgGetHeaders locator zero_hash) pm
      end
  end.

Definition startSync (p : option Peer) (pm : PeerManager) : PeerManager :=
  match p with
  | None => pm
  | Some _ => requestHeaders p (set_sync (set_syncPeer p) pm)
  end.

(** The loop over the connected peers, in the order of the map. *)
Definition pick (heights : gmap Peer Z) (disconnected : option Peer)
    (acc : option Peer * option Peer * Z) (candidate : Peer) : option Peer * option Peer * Z :=
  let '(fallback, replacement, best) := acc in
  if bool_decide (disconnected = Some candidate) then acc
  else
    let fallback := match fallback with None => Some candidate | _ => fallback end in
    match heights !! candidate with
    | Some height => if height >? best then (fallback, Some candidate, height) else (fallback, replacement, best)
    | None => (fallback, replacement, best)
    end.

Definition findReplacementPeer (disconnected : option Peer) (ps : gmap Z Peer) (sm : SyncManager) : option Peer :=
  let '(fallback, replacement, _) :=
    foldl (pick (peerHeights sm) disconnected) (None, None, -1) (snd <$> range ps) in
  match replacement with Some _ => replacement | None => fallback end.

Definition maxPeerHeightLocked (sm : SyncManager) : Z :=
  foldl (fun maxHeight '(_, height) => if height >? maxHeight then height else maxHeight) 0
    (range (peerHeights sm)).

Definition cleanupOldRequestsLocked (now : Z) (sm : SyncManager) : SyncManager :=
  set_requested (foldl (fun m '(hash, requestTime) =>
    if Sub now requestTime >? 2 * Minute then delete hash m else m)
    (requestedBlocks sm) (range (requestedBlocks sm))) sm.

Definition cleanupOldRequests (now : Z) (pm : PeerManager) : PeerManager :=
  set_sync (cleanupOldRequestsLocked now) pm.

(** The part of [syncTick] under the lock: the peer to ask for headers. *)
Definition tick_select (ourHeight now : Z) (ps : gmap Z Peer) (sm : SyncManager) : option Peer * SyncManager :=
  let '(peerToSync, sm) :=
    if bestHeight sm >? ourHeight then
      match syncPeer sm with
      | Some _ => (None, sm)
      | None =>
          let sm := match bestPeer sm with
                    | None => set_best (bestHeight sm) (findReplacementPeer None ps sm) sm
                    | Some _ => sm
                    end in
          match bestPeer sm with
          | Some p => (Some p, set_syncPeer (Some p) sm)
          | None => (None, sm)
          end
      end
    else if headersFirstMode sm then (None, leave_headersFirst sm)
    else (None, sm) in
  (peerToSync, cleanupOldRequestsLocked now sm).

Definition syncTick (now : Z) (pm : PeerManager) : PeerManager :=
  let '(peerToSync, sm) := tick_select (BestHeight (blockchain pm)) now (peers pm) (syncManager pm) in
  let pm := set_sync (fun _ => sm) pm in
  match peerToSync with
  | Some p => requestHeaders (Some p) pm
  | None => pm
  end.

Definition acceptsHeadersFromPeer (p : Peer) (sm : SyncManager) : bool :=
  if negb (headersFirstMode sm) then true
  else match syncPeer sm with
       | None => false
       | Some q => bool_decide (Addr p = Addr q)
       end.

(** A peer that is nil, or that the mode excludes: [None]. *)
Definition prepareHeaders (p : option Peer) (headers : list BlockHeader) (pm : PeerManager) :
    option (Peer * list BlockHeader) :=
  match p with
  | None => None
  | Some p => if acceptsHeadersFromPeer p (syncManager pm) then Some (p, headers) else None
  end.

Definition shouldRequestBlock (blockHash : bytes) (pm : PeerManager) : bool :=
  match requestedBlocks (syncManager pm) !! blockHash with
  | Some _ => false
  | None => negb (is_ok (BlockByHash (blockchain pm) blockHash))
  end.

(** A message with one vector is never too long. *)
Definition getdata_one (hash : bytes) : Message :=
  MsgGetData (default [] (match AddInvVect [] (mkInvVect InvTypeBlock hash) with Ok l => Some l | Err _ => None end)).

Definition requestBlock (now : Z) (p : Peer) (hash : bytes) (pm : PeerManager) : PeerManager :=
  match requestedBlocks (syncManager pm) !! hash with
  | Some _ => pm
  | None =>
      QueueMessage p (getdata_one hash)
        (set_sync (fun sm => set_requested (<[hash := now]> (requestedBlocks sm)) sm) pm)
  end.

Definition requestMissingHeaderBlocks (now : Z) (p : Peer) (headers : list BlockHeader) (pm : PeerManager) :
    PeerManager :=
  foldl (fun pm header =>
    let blockHash := BlockHash header in
    if shouldRequestBlock blockHash pm then requestBlock now p blockHash pm else pm) pm headers.

Definition HandleHeaders (now : Z) (p : option Peer) (headers : list BlockHeader) (pm : PeerManager) : PeerManager :=
  let headerCount := Z.of_nat (length headers) in
  if headerCount =? 0 then pm
  else match prepareHeaders p headers pm with
  | None => pm
  | Some (q, headers) =>
      let pm := requestMissingHeaderBlocks now q headers pm in
      if headerCount =? MaxBlockHeadersPerMsg then requestHeaders (Some q) pm else pm
  end.

Definition UpdatePeerHeight (p : option Peer) (height : Z) (sm : SyncManager) : SyncManager :=
  let sm := match p with Some q => set_heights (<[q := height]> (peerHeights sm)) sm | None => sm end in
  if height >? bestHeight sm then set_best height p sm else sm.

Definition IsSyncing (sm : SyncManager) : bool := bool_decide (is_Some (syncPeer sm)).

Definition OnPeerDisconnected (p : option Peer) (sm : SyncManager) : SyncManager :=
  match p with
  | None => sm
  | Some q =>
      let sm := if bool_decide (syncPeer sm = Some q) then set_syncPeer None sm else sm in
      let sm := set_heights (delete q (peerHeights sm)) sm in
      if bool_decide (bestPeer sm = Some q) then set_best (maxPeerHeightLocked sm) None sm else sm
  end.

Definition BlockReceived (hash : bytes) (sm : SyncManager) : SyncManager :=
  set_requested (delete hash (requestedBlocks sm)) sm.

(** ** peermgr.go: peers *)

(** The section under the lock of [handleInboundPeer] and [ConnectPeer]. *)
Definition addPeer (p : Peer) (pm : PeerManager) : res PeerManager :=
  if (maxPeers pm >? 0) && (Z.of_nat (size (peers pm)) >=? maxPeers pm) then
    Err (EMsg "max peers limit (%d) reached")
  else Ok (set_peers <[ID p := p]> pm).

(** An inbound peer that is refused: its connection is closed. *)
Definition handleInboundPeer (p : Peer) (pm : PeerManager) : PeerManager :=
  match addPeer p pm with Ok pm' => pm' | Err _ => pm end.

(** [ConnectPeer] after dialing. *)
Definition ConnectPeer (p : Peer) : M PeerManager unit := fun pm =>
  match addPeer p pm with Ok pm' => (Ok tt, pm') | Err e => (Err e, pm) end.

(** What both do after [WaitForDisconnect]. *)
Definition peerDisconnected (p : Peer) (pm : PeerManager) : PeerManager :=
  set_sync (OnPeerDisconnected (Some p)) (set_peers (delete (ID p)) pm).

(** [conn] is [Connected()] of the peers. *)
Definition collectConnectedPeers (conn : Peer -> bool) (excludePeer : option Peer) (pm : PeerManager) : list Peer :=
  filter (fun p => conn p = true /\ excludePeer <> Some p) (snd <$> range (peers pm)).

(** ** peermgr.go: messages *)

Definition onVersion (p : option Peer) (LastBlock : Z) (pm : PeerManager) : PeerManager :=
  set_sync (UpdatePeerHeight p LastBlock) pm.

(** The [break] on a full message leaves the switch, not the loop. *)
Definition onInv (p : option Peer) (InvList : list InvVect) (pm : PeerManager) : PeerManager :=
  match p with
  | None => pm
  | Some q =>
      let gd := foldl (fun gd inv =>
        if (inv_Type inv =? InvTypeBlock) || (inv_Type inv =? InvTypeTx) then
          if (inv_Type inv =? InvTypeTx) && HasTx (inv_Hash inv) (mempool pm) then gd
          else match AddInvVect gd inv with Ok gd' => gd' | Err _ => gd end
        else gd) [] InvList in
      if bool_decide (gd = []) then pm else QueueMessage q (MsgGetData gd) pm
  end.

Definition in_chain {A} (m : M C A) : M PeerManager A := zoom blockchain set_chain m.

Definition parseAuxPowIfPresent (blockHash : bytes) (msg : MsgBlock) (buf : bytes) : M PeerManager unit :=
  if bool_decide (buf = []) then mret tt
  else
    r ← try (in_chain (chain_SetBlockAuxPowFromBytes blockHash buf));
    match r with
    | Ok _ => mret tt
    | Err err =>
        if negb (Z.land (hdr_Version (mb_Header msg)) AuxPowVersionBit =? 0) then
          fail (EWrap "AuxPow parse failed for block %s" err)
        else mret tt
    end.

Definition removeConfirmedTransactions (msg : MsgBlock) (pm : PeerManager) : PeerManager :=
  set_mempool (RemoveTxs (TxHash <$> mb_Transactions msg)) pm.

(** [btcutil.NewBlock]: the height is unknown. *)
Definition NewBtcBlock (msg : MsgBlock) : btcBlock :=
  {| blk_Header := mb_Header msg; blk_Height := -1; blk_Txs := mb_Transactions msg |}.

Definition BFNone : Z := 0.

(** Errors are logged; the state is what is left. *)
Definition onBlock (msg : MsgBlock) (buf : bytes) : M PeerManager unit :=
  let blockHash := BlockHash (mb_Header msg) in
  r ← try (parseAuxPowIfPresent blockHash msg buf);
  match r with
  | Err _ => mret tt
  | Ok _ =>
      '(isMainChain, _, err) ← in_chain (chain_ProcessBlock (NewBtcBlock msg) BFNone);
      match err with
      | Some _ => mret tt
      | None =>
          modify (set_sync (BlockReceived blockHash));;
          if isMainChain : bool then modify (removeConfirmedTransactions msg) else mret tt
      end
  end.

(** [pm.mempool.AddTx] on the pool and the chain of the manager. *)
Definition pool_AddTx (now : Z) (tx : option MsgTx) : M PeerManager unit :=
  zoom (fun pm => (mempool pm, blockchain pm))
    (fun s pm => set_mempool (fun _ => s.1) (set_chain s.2 pm)) (AddTx now tx).

Definition send_all (targets : list Peer) (m : Message) (pm : PeerManager) : PeerManager :=
  foldl (fun pm p => QueueMessage p m pm) pm targets.

Definition inv_one (ty : Z) (hash : bytes) : Message :=
  MsgInv (default [] (match AddInvVect [] (mkInvVect ty hash) with Ok l => Some l | Err _ => None end)).

Definition relayTransaction (conn : Peer -> bool) (tx : MsgTx) (excludePeer : option Peer) (pm : PeerManager) :
    PeerManager :=
  send_all (collectConnectedPeers conn excludePeer pm) (inv_one InvTypeTx (TxHash tx)) pm.

Definition onTx (conn : Peer -> bool) (now : Z) (p : option Peer) (msg : option MsgTx) : M PeerManager unit :=
  match msg with
  | None => mret tt
  | Some tx =>
      pm ← get;
      if HasTx (TxHash tx) (mempool pm) then mret tt
      else
        r ← try (pool_AddTx now (Some tx));
        match r with
        | Err _ => mret tt
        | Ok _ => modify (relayTransaction conn tx p)
        end
  end.

Definition serveBlock (p : Peer) (hash : bytes) (pm : PeerManager) : PeerManager :=
  match BlockByHash (blockchain pm) hash with
  | Err _ => pm
  | Ok block => QueueMessage p (MsgBlockData block) pm
  end.

Definition onGetData (p : option Peer) (InvList : list InvVect) (pm : PeerManager) : PeerManager :=
  match p with
  | None => pm
  | Some q =>
      foldl (fun pm inv =>
        if inv_Type inv =? InvTypeBlock then serveBlock q (inv_Hash inv) pm
        else if inv_Type inv =? InvTypeTx then
          match GetTx (inv_Hash inv) (mempool pm) with
          | Some tx => QueueMessage q (MsgTransaction tx) pm
          | None => pm
          end
        else pm) pm InvList
  end.

Definition onHeaders (now : Z) (p : option Peer) (headers : list BlockHeader) (pm : PeerManager) : PeerManager :=
  HandleHeaders now p headers pm.

(** The error of a full message is dropped, and the header with it. *)
Definition onGetHeaders (p : Peer) (locator : list bytes) (stop : bytes) (pm : PeerManager) : PeerManager :=
  let headers := LocateHeaders (blockchain pm) locator stop in
  let msg := foldl (fun l h => match AddBlockHeader l h with Ok l' => l' | Err _ => l end) [] headers in
  QueueMessage p (MsgHeaders msg) pm.

(** The loop of [onGetBlocks] stops at a full message. *)
Fixpoint add_invs (l : list InvVect) (hashes : list bytes) : list InvVect :=
  match hashes with
  | [] => l
  | h :: hashes =>
      match AddInvVect l (mkInvVect InvTypeBlock h) with
      | Ok l' => add_invs l' hashes
      | Err _ => l
      end
  end.

Definition onGetBlocks (p : Peer) (locator : list bytes) (stop : bytes) (pm : PeerManager) : PeerManager :=
  QueueMessage p (MsgInv (add_invs [] (LocateBlocks (blockchain pm) locator stop MaxBlocksPerMsg))) pm.

Definition BroadcastBlock (conn : Peer -> bool) (block : MsgBlock) (pm : PeerManager) : PeerManager :=
  send_all (collectConnectedPeers conn None pm) (inv_one InvTypeBlock (BlockHash (mb_Header block))) pm.

Definition ErrNoPeers : error := EMsg "no peers connected, transaction not relayed".

Definition BroadcastTx (conn : Peer -> bool) (now : Z) (tx : option MsgTx) : M PeerManager unit :=
  match tx with
  | None => fail (EMsg "cannot broadcast nil transaction")
  | Some t =>
      wrapM "failed to add transaction to mempool" (pool_AddTx now tx);;
      pm ← get;
      let targets := collectConnectedPeers conn None pm in
      if bool_decide (targets = []) then fail ErrNoPeers
      else modify (send_all targets (inv_one InvTypeTx (TxHash t)))
  end.

Definition GetConnectedPeers (pm : PeerManager) : Z := Z.of_nat (size (peers pm)).

Record PeerInfo := mkPeerInfo { pi_Addr : bytes; pi_Connected : bool; pi_Inbound : bool }.

Definition GetPeerInfo (conn : Peer -> bool) (pm : PeerManager) : list PeerInfo :=
  (fun ip => mkPeerInfo (Addr ip.2) (conn ip.2) (Inbound ip.2)) <$> range (peers pm).

Definition pm_IsSyncing (pm : PeerManager) : bool := IsSyncing (syncManager pm).

Definition SyncBlocks (conn : Peer -> bool) (pm : PeerManager) : PeerManager :=
  send_all (collectConnectedPeers conn None pm) (MsgGetHeaders [BestHash (blockchain pm)] zero_hash) pm.

End network.
