(* ===== verification/NetworkSpec.v ===== *)
(** * What the peer manager promises

    The messages it sends and the state it keeps: which blocks it asks for, whom it
    relays to, which peer it synchronises with, and the invariant of its reachable
    states, of which the transaction pool's part is the pool's own (MempoolSpec.v). *)

From stdpp Require Import relations.
From S2P Require Import Prelude Clock Bolt NameDB Wire Config AuxPow Chain ChainUpdate Mempool MempoolSpec Network.

Section spec.
Context {W : Wire} {R : MapRange} {P : PeerLib} {C : Type} {N : NodeChain C}.
Abbreviation PM := (@PeerManager P C).
Implicit Types (pm : PM) (sm : @SyncManager P).

(** ** Asking for blocks *)

(** The hashes of a headers message that are neither known nor asked for, each once. *)
Fixpoint missing (c : C) (requested : gset bytes) (hashes : list bytes) : list bytes :=
  match hashes with
  | [] => []
  | h :: hashes =>
      if bool_decide (h ∈ requested) || is_ok (BlockByHash c h) then missing c requested hashes
      else h :: missing c ({[h]} ∪ requested) hashes
  end.

Lemma missing_new c req hs : Forall (fun h => (h ∉ req) /\ is_ok (BlockByHash c h) = false) (missing c req hs).
Proof.
  revert req. induction hs as [|h hs IH]; intros req; simpl; [done|].
  destruct (bool_decide (h ∈ req) || is_ok (BlockByHash c h)) eqn:E; [done|].
  apply orb_false_iff in E as [E1 E2]. apply bool_decide_eq_false in E1. constructor; [done|].
  eapply Forall_impl; [apply IH|]. intros x [Hx ?]. split; [set_solver|done].
Qed.

Lemma missing_nodup c req hs : NoDup (missing c req hs).
Proof.
  revert req. induction hs as [|h hs IH]; intros req; simpl; [constructor|].
  destruct (bool_decide (h ∈ req) || is_ok (BlockByHash c h)); [done|]. constructor; [|done].
  intros Hin. pose proof (missing_new c ({[h]} ∪ req) hs) as F. rewrite Forall_forall in F.
  destruct (F h Hin) as [F' _]. set_solver.
Qed.

Lemma missing_complete c req hs h : h ∈ hs -> h ∉ req -> is_ok (BlockByHash c h) = false ->
  h ∈ missing c req hs.
Proof.
  revert req. induction hs as [|k hs IH]; intros req Hin Hr Hk; [set_solver|]. simpl.
  destruct (bool_decide (k ∈ req) || is_ok (BlockByHash c k)) eqn:E.
  - apply elem_of_cons in Hin as [->|]; [|by apply IH]. rewrite Hk, orb_false_r in E.
    by apply bool_decide_eq_true in E.
  - destruct (decide (h = k)) as [->|]; [by left|]. right. apply IH; set_solver.
Qed.

(** Which parts of the state an operation leaves alone. *)
Definition only_sync pm pm' : Prop :=
  peers pm' = peers pm /\ blockchain pm' = blockchain pm /\ mempool pm' = mempool pm /\ maxPeers pm' = maxPeers pm.

Lemma requestMissing_spec now p hs pm :
  let pm' := requestMissingHeaderBlocks now p hs pm in
  let new := missing (blockchain pm) (dom (requestedBlocks (syncManager pm))) (BlockHash <$> hs) in
  only_sync pm pm' /\ sent pm' = sent pm ++ ((fun h => (p, MsgGetData [mkInvVect InvTypeBlock h])) <$> new) /\
  requestedBlocks (syncManager pm') = foldl (fun m h => <[h := now]> m) (requestedBlocks (syncManager pm)) new /\
  set_requested (requestedBlocks (syncManager pm)) (syncManager pm') = syncManager pm.
Proof.
  unfold requestMissingHeaderBlocks. revert pm. induction hs as [|hd hs IH]; intros pm; cbn [foldl fmap list_fmap missing].
  { split_and!; try done; [by rewrite app_nil_r|by destruct (syncManager pm)]. }
  set (st := if shouldRequestBlock (BlockHash hd) pm then _ else pm).
  assert (bool_decide (BlockHash hd ∈ dom (requestedBlocks (syncManager pm))) =
    match requestedBlocks (syncManager pm) !! BlockHash hd with Some _ => true | None => false end) as ->.
  { destruct (requestedBlocks (syncManager pm) !! BlockHash hd) eqn:E.
    - apply bool_decide_eq_true. apply elem_of_dom. eauto.
    - apply bool_decide_eq_false. by apply not_elem_of_dom. }
  unfold shouldRequestBlock, requestBlock in st.
  destruct (requestedBlocks (syncManager pm) !! BlockHash hd) as [t|] eqn:E; cbn [orb]; [by apply IH|].
  destruct (is_ok (BlockByHash (blockchain pm) (BlockHash hd))); cbn [negb] in st; [by apply IH|].
  subst st. destruct (IH (QueueMessage p (getdata_one (BlockHash hd))
    (set_sync (fun sm => set_requested (<[BlockHash hd := now]> (requestedBlocks sm)) sm) pm))) as (H1 & H2 & H3 & H4).
  set (pm' := foldl _ _ hs) in *. clearbody pm'.
  cbn [QueueMessage set_sync syncManager blockchain sent peers mempool maxPeers set_requested requestedBlocks] in *.
  rewrite dom_insert_L in H2, H3. split_and!; [exact H1| |exact H3|].
  - rewrite H2, <-app_assoc. done.
  - destruct (syncManager pm), (syncManager pm'). unfold set_requested in *. simpl in *. by injection H4 as -> -> -> -> ->.
Qed.

(** A headers message that is taken: one request per missing block, in order, and,
    after a full message, the next headers. *)
Lemma HandleHeaders_spec now p hs pm : hs <> [] -> acceptsHeadersFromPeer p (syncManager pm) = true ->
  let pm' := HandleHeaders now (Some p) hs pm in
  let new := missing (blockchain pm) (dom (requestedBlocks (syncManager pm))) (BlockHash <$> hs) in
  only_sync pm pm' /\
  sent pm' = sent pm ++ ((fun h => (p, MsgGetData [mkInvVect InvTypeBlock h])) <$> new) ++
    match LatestBlockLocator (blockchain pm) with
    | Ok locator => if Z.of_nat (length hs) =? MaxBlockHeadersPerMsg then [(p, MsgGetHeaders locator zero_hash)] else []
    | Err _ => []
    end.
Proof.
  intros Hne Hacc. unfold HandleHeaders. cbv zeta.
  rewrite (proj2 (Z.eqb_neq (Z.of_nat (length hs)) 0)) by (destruct hs; simpl; [done|lia]).
  unfold prepareHeaders. rewrite Hacc.
  destruct (requestMissing_spec now p hs pm) as (H1 & H2 & _ & _). set (pm1 := requestMissingHeaderBlocks now p hs pm) in *.
  destruct (Z.of_nat (length hs) =? MaxBlockHeadersPerMsg).
  - unfold requestHeaders. pose proof H1 as (_ & Eb & _). rewrite Eb.
    destruct (LatestBlockLocator (blockchain pm)); simpl.
    + split; [done|]. by rewrite H2, app_assoc.
    + split; [done|]. by rewrite app_nil_r.
  - split; [done|]. rewrite H2. f_equal. destruct (LatestBlockLocator (blockchain pm)); by rewrite app_nil_r.
Qed.

Lemma HandleHeaders_ignored now p hs pm :
  hs = [] \/ p = None \/ (exists q, p = Some q /\ acceptsHeadersFromPeer q (syncManager pm) = false) ->
  HandleHeaders now p hs pm = pm.
Proof.
  intros [-> |[-> |(q & -> & E)]]; unfold HandleHeaders, prepareHeaders; [done| |]; cbv zeta; case_match; try done.
  by rewrite E in *.
Qed.

(** ** Choosing a peer *)

(** The height a peer reported; none, or a negative one, counts as -1. *)
Definition height_or (heights : gmap Peer Z) (p : Peer) : Z := Z.max (-1) (default (-1) (heights !! p)).

(** What the loop knows after the peers [l]. *)
Lemma pick_spec heights l :
  let '(fallback, replacement, best) := foldl (pick heights None) (None, None, -1) l in
  -1 <= best /\ (fallback = None -> l = []) /\ (forall p, fallback = Some p -> p ∈ l) /\
  (forall p, p ∈ l -> height_or heights p <= best) /\
  match replacement with
  | Some p => p ∈ l /\ height_or heights p = best
  | None => best = -1
  end.
Proof.
  induction l as [|p l IH] using rev_ind; [simpl; split_and!; try done; set_solver|].
  rewrite foldl_app. destruct (foldl (pick heights None) (None, None, -1) l) as [[fb rp] best].
  destruct IH as (I0 & I1 & I2 & I3 & I4). cbn [foldl pick]. rewrite bool_decide_false by done.
  set (fb' := match fb with None => Some p | _ => fb end).
  assert ((fb' = None -> l ++ [p] = []) /\ (forall q, fb' = Some q -> q ∈ l ++ [p])) as [F1 F2].
  { unfold fb'. destruct fb as [q|]; split; try done.
    - intros q' [= <-]. apply elem_of_app. left. by apply I2.
    - intros q [= <-]. apply elem_of_app. right. by left. }
  assert (forall b, best <= b -> height_or heights p <= b -> forall q, q ∈ l ++ [p] -> height_or heights q <= b) as F3.
  { intros b Hb Hp q Hq. apply elem_of_app in Hq as [Hq|Hq]; [specialize (I3 q Hq); lia|]. set_solver. }
  destruct (heights !! p) as [h|] eqn:E.
  - assert (height_or heights p = Z.max (-1) h) as Eh by (unfold height_or; by rewrite E).
    destruct (h >? best) eqn:Eb; (split; [lia|]); (split; [exact F1|]); (split; [exact F2|]);
      (split; [apply F3; lia|]).
    + split; [set_solver|lia].
    + destruct rp as [q|]; [|done]. destruct I4. split; [set_solver|done].
  - assert (height_or heights p = -1) as Eh by (unfold height_or; by rewrite E).
    split; [done|]. split; [exact F1|]. split; [exact F2|]. split; [apply F3; lia|].
    destruct rp as [q|]; [|done]. destruct I4. split; [set_solver|done].
Qed.

(** A replacement is a connected peer that reports the greatest height; there is
    none exactly when no peer is connected. *)
Lemma findReplacementPeer_spec ps sm :
  match findReplacementPeer None ps sm with
  | Some p => (exists i, ps !! i = Some p) /\
      forall i q, ps !! i = Some q -> height_or (peerHeights sm) q <= height_or (peerHeights sm) p
  | None => ps = ∅
  end.
Proof.
  unfold findReplacementPeer. pose proof (pick_spec (peerHeights sm) (snd <$> range ps)) as S.
  destruct (foldl _ _ _) as [[fb rp] best].
  assert (forall q, q ∈ snd <$> range ps <-> exists i, ps !! i = Some q) as Hin.
  { intros q. rewrite list_elem_of_fmap. split.
    - intros ([i q'] & -> & Hi). rewrite range_perm in Hi. apply elem_of_map_to_list in Hi. eauto.
    - intros (i & Hi). exists (i, q). split; [done|]. rewrite range_perm. by apply elem_of_map_to_list. }
  destruct S as (S0 & S1 & S2 & S3 & S4). destruct rp as [p|].
  - destruct S4 as [Hp Eb]. split; [by apply Hin|]. intros i q Hq. rewrite Eb. apply S3, Hin. eauto.
  - subst best. destruct fb as [p|].
    + split; [by apply Hin, S2|]. intros i q Hq.
      assert (height_or (peerHeights sm) q <= -1) by (apply S3, Hin; eauto). unfold height_or in *. lia.
    + apply map_eq. intros i. rewrite lookup_empty. destruct (ps !! i) as [q|] eqn:E; [|done].
      assert (q ∈ snd <$> range ps) as Hq by (apply Hin; eauto).
      rewrite (S1 eq_refl) in Hq. set_solver.
Qed.

Lemma cleanup_keeps now sm : set_requested (requestedBlocks sm) (cleanupOldRequestsLocked now sm) = sm.
Proof. by destruct sm. Qed.

(** A tick while a peer is being asked does nothing but forget old requests. *)
Lemma syncTick_idle now pm p : syncPeer (syncManager pm) = Some p ->
  headersFirstMode (syncManager pm) = false \/ BestHeight (blockchain pm) < bestHeight (syncManager pm) ->
  syncTick now pm = set_sync (cleanupOldRequestsLocked now) pm.
Proof.
  intros Hs Hm. unfold syncTick, tick_select. rewrite Hs.
  destruct (bestHeight (syncManager pm) >? BestHeight (blockchain pm)) eqn:E; [done|].
  destruct Hm as [->|]; [done|lia].
Qed.

(** A tick that is behind and asks nobody asks the best peer, or a connected one of
    the greatest height, for headers. *)
Lemma syncTick_asks now pm locator : syncPeer (syncManager pm) = None ->
  BestHeight (blockchain pm) < bestHeight (syncManager pm) ->
  LatestBlockLocator (blockchain pm) = Ok locator ->
  bestPeer (syncManager pm) <> None \/ peers pm <> ∅ ->
  let pm' := syncTick now pm in
  exists p, syncPeer (syncManager pm') = Some p /\ sent pm' = sent pm ++ [(p, MsgGetHeaders locator zero_hash)] /\
    (bestPeer (syncManager pm) = Some p \/
     bestPeer (syncManager pm) = None /\ (exists i, peers pm !! i = Some p) /\
     forall i q, peers pm !! i = Some q ->
       height_or (peerHeights (syncManager pm)) q <= height_or (peerHeights (syncManager pm)) p).
Proof.
  intros Hs Hb Hl Hp. unfold syncTick, tick_select. rewrite Hs.
  rewrite (proj2 (Z.gtb_lt _ _)) by lia.
  destruct (bestPeer (syncManager pm)) as [p|] eqn:Ep.
  - rewrite Ep. exists p. unfold requestHeaders. simpl. rewrite Hl. simpl. auto.
  - pose proof (findReplacementPeer_spec (peers pm) (syncManager pm)) as F. simpl.
    destruct (findReplacementPeer None (peers pm) (syncManager pm)) as [p|].
    + exists p. unfold requestHeaders. simpl. rewrite Hl. simpl. split_and!; [done|done|]. by right.
    + destruct Hp; done.
Qed.

(** ** After a disconnection nothing refers to the peer *)

Definition refers sm (p : Peer) : Prop :=
  syncPeer sm = Some p \/ bestPeer sm = Some p \/ is_Some (peerHeights sm !! p).

Lemma OnPeerDisconnected_forgets p sm : ~ refers (OnPeerDisconnected (Some p) sm) p.
Proof.
  unfold refers, OnPeerDisconnected. repeat case_bool_decide; simpl in *; rewrite lookup_delete_eq;
    intros [?|[?|[]]]; done.
Qed.

Lemma foldl_max_ge (l : list (Peer * Z)) a : let m := foldl (fun m '(_, h) => if h >? m then h else m) a l in
  a <= m /\ forall p h, (p, h) ∈ l -> h <= m.
Proof.
  revert a. induction l as [|[q k] l IH]; intros a; simpl; [split; [lia|set_solver]|].
  destruct (IH (if k >? a then k else a)) as [H1 H2]. split; [destruct (k >? a) eqn:E; lia|].
  intros p h Hin. apply elem_of_cons in Hin as [[= -> ->]|Hin]; [destruct (k >? a) eqn:E; lia|by apply (H2 p)].
Qed.

Lemma maxPeerHeight_ge sm : 0 <= maxPeerHeightLocked sm /\
  forall p h, peerHeights sm !! p = Some h -> h <= maxPeerHeightLocked sm.
Proof.
  unfold maxPeerHeightLocked. destruct (foldl_max_ge (range (peerHeights sm)) 0) as [H1 H2]. split; [done|].
  intros p h Hp. apply (H2 p). rewrite range_perm. by apply elem_of_map_to_list.
Qed.

(** ** Relaying *)

Lemma send_all_spec l m pm : let pm' := send_all l m pm in
  sent pm' = sent pm ++ ((fun p => (p, m)) <$> l) /\ peers pm' = peers pm /\ blockchain pm' = blockchain pm /\
  mempool pm' = mempool pm /\ syncManager pm' = syncManager pm /\ maxPeers pm' = maxPeers pm.
Proof.
  unfold send_all. revert pm. induction l as [|p l IH]; intros pm; simpl; [by rewrite app_nil_r|].
  destruct (IH (QueueMessage p m pm)) as (-> & ? & ? & ? & ? & ?). simpl in *. split_and!; try done.
  by rewrite <-app_assoc.
Qed.

Lemma collect_elem conn ex pm p : p ∈ collectConnectedPeers conn ex pm <->
  conn p = true /\ ex <> Some p /\ exists i, peers pm !! i = Some p.
Proof.
  unfold collectConnectedPeers. rewrite list_elem_of_filter, list_elem_of_fmap. split.
  - intros ([? ?] & [i q] & -> & Hi). rewrite range_perm in Hi. apply elem_of_map_to_list in Hi. eauto.
  - intros (? & ? & i & Hi). split; [done|]. exists (i, p). split; [done|]. rewrite range_perm.
    by apply elem_of_map_to_list.
Qed.

Lemma collect_nodup conn ex pm : (forall i p, peers pm !! i = Some p -> i = ID p) ->
  NoDup (collectConnectedPeers conn ex pm).
Proof.
  intros Hid. apply NoDup_filter. apply NoDup_fmap_2_strong.
  - intros [i p] [j q] Hi Hj E. simpl in E. subst q. rewrite range_perm in Hi, Hj.
    apply elem_of_map_to_list in Hi, Hj. by rewrite (Hid i p Hi), (Hid j p Hj).
  - rewrite range_perm. apply NoDup_map_to_list.
Qed.

(** ** Runs of a node *)

Record net := mkNet {
  nt_now : Z;
  nt_swept : Z;      (* the last clean-up of the pool *)
  nt_ticked : Z;     (* the last tick of the synchronisation *)
  nt_pm : PM;
}.

(** What happens to a node: time passes, a ticker fires, a message arrives, the node
    itself broadcasts.  [conn] says which peers are connected at the moment. *)
Inductive event :=
  | EvTime (d : Z)
  | EvSweep
  | EvTick
  | EvVersion (p : option Peer) (LastBlock : Z)
  | EvConnect (p : Peer)
  | EvDisconnect (p : Peer)
  | EvInv (p : option Peer) (l : list InvVect)
  | EvBlock (msg : MsgBlock) (buf : bytes)
  | EvTx (conn : Peer -> bool) (p : option Peer) (tx : option MsgTx)
  | EvGetData (p : option Peer) (l : list InvVect)
  | EvHeaders (p : option Peer) (hs : list BlockHeader)
  | EvGetHeaders (p : Peer) (locator : list bytes) (stop : bytes)
  | EvGetBlocks (p : Peer) (locator : list bytes) (stop : bytes)
  | EvBroadcastTx (conn : Peer -> bool) (tx : option MsgTx)
  | EvBroadcastBlock (conn : Peer -> bool) (block : MsgBlock)
  | EvSyncBlocks (conn : Peer -> bool).

(** The effect of an event on the peer manager. *)
Definition handle (now : Z) (e : event) pm : PM :=
  match e with
  | EvTime _ => pm
  | EvSweep => set_mempool (cleanupExpired now) pm
  | EvTick => syncTick now pm
  | EvVersion p h => onVersion p h pm
  | EvConnect p => handleInboundPeer p pm
  | EvDisconnect p => peerDisconnected p pm
  | EvInv p l => onInv p l pm
  | EvBlock msg buf => (onBlock msg buf pm).2
  | EvTx conn p tx => (onTx conn now p tx pm).2
  | EvGetData p l => onGetData p l pm
  | EvHeaders p hs => onHeaders now p hs pm
  | EvGetHeaders p loc stop => onGetHeaders p loc stop pm
  | EvGetBlocks p loc stop => onGetBlocks p loc stop pm
  | EvBroadcastTx conn tx => (BroadcastTx conn now tx pm).2
  | EvBroadcastBlock conn b => BroadcastBlock conn b pm
  | EvSyncBlocks conn => SyncBlocks conn pm
  end.

Definition after (e : event) (n : net) : net :=
  mkNet (match e with EvTime d => nt_now n + d | _ => nt_now n end)
    (match e with EvSweep => nt_now n | _ => nt_swept n end)
    (match e with EvTick => nt_now n | _ => nt_ticked n end)
    (handle (nt_now n) e (nt_pm n)).

(** The period of [syncLoop]. *)
Definition syncInterval : Z := 10 * Second.

(** Both tickers are served at most [slack] late. *)
Inductive net_step (slack : Z) : net -> net -> Prop :=
  | net_step_event e n :
      match e with
      | EvTime d => 0 <= d /\ nt_now n + d <= nt_swept n + cleanupTick (mempool (nt_pm n)) + slack /\
          nt_now n + d <= nt_ticked n + syncInterval + slack
      | _ => True
      end ->
      net_step slack n (after e n).

Definition net_start (c : C) (maxPeers t : Z) : net := mkNet t t t (NewPeerManager c maxPeers).

End spec.
