(* ===== verification/NetworkReach.v ===== *)
(** * Reachable states of a node

    Whatever messages arrive, in whatever order: the pool keeps its own invariant, the
    peers stay within their limit, the heights that were reported stay below the best
    one, requests for blocks are forgotten in time, and every message sent respects
    the limits of the protocol. *)

From stdpp Require Import relations.
From S2P Require Import Prelude Clock Bolt NameDB Wire Config AuxPow Chain ChainUpdate Mempool MempoolSpec.
From S2P Require Import Network NetworkSpec.

(** Any validator, with what it accepts as its own specification. *)
Section any.
Context {V : Type} {T : TxValidator V}.

Definition some_validate (v : V) (tx : MsgTx) : Prop := exists v', validator_Validate tx v = (Ok tt, v').

Program Definition any_laws : TxValidatorLaws V :=
  {| val_inv _ := True; val_wire _ := True; val_acceptable := some_validate |}.
Next Obligation.
  intros v tx _ _. unfold wp, some_validate. destruct (validator_Validate tx v) as [[[]|e] v'] eqn:E; split; eauto.
  intros (? & ?). congruence.
Qed.
End any.

Section reach.
Context {W : Wire} {R : MapRange} {P : PeerLib} {PL : PeerLaws P} {C : Type} {N : NodeChain C}.
Abbreviation PM := (@PeerManager P C).
Implicit Types (pm : PM) (sm : @SyncManager P) (n : @net P C).

#[local] Existing Instance any_laws.

(** ** Messages within the limits *)

Definition msg_ok (m : Message) : Prop :=
  match m with
  | MsgInv l => Z.of_nat (length l) <= MaxInvPerMsg
  | MsgGetData l => l <> [] /\ Z.of_nat (length l) <= MaxInvPerMsg
  | MsgHeaders l => Z.of_nat (length l) <= MaxBlockHeadersPerMsg
  | _ => True
  end.

(** More messages, all within the limits. *)
Definition extends pm pm' : Prop :=
  exists l, sent pm' = sent pm ++ l /\ Forall (fun x => msg_ok x.2) l.

#[export] Instance extends_preorder : PreOrder extends.
Proof.
  split.
  - intros pm. exists []. by rewrite app_nil_r.
  - intros a b c (l1 & E1 & F1) (l2 & E2 & F2). exists (l1 ++ l2). rewrite E2, E1, <-app_assoc.
    split; [done|]. by apply Forall_app.
Qed.

Lemma extends_eq pm pm' : sent pm' = sent pm -> extends pm pm'.
Proof. intros E. exists []. by rewrite E, app_nil_r. Qed.

Definition only_sent pm pm' : Prop :=
  only_sync pm pm' /\ syncManager pm' = syncManager pm /\ extends pm pm'.

#[export] Instance only_sent_preorder : PreOrder only_sent.
Proof.
  split.
  - intros pm. split_and!; done.
  - intros a b c ((H1 & H2 & H3 & H4) & H5 & H6) ((K1 & K2 & K3 & K4) & K5 & K6).
    split; [split_and!; congruence|]. split; [congruence|]. by transitivity b.
Qed.

Lemma QueueMessage_sent p m pm : msg_ok m -> only_sent pm (QueueMessage p m pm).
Proof. intros Hm. split; [done|]. split; [done|]. exists [(p, m)]. split; [done|]. by constructor. Qed.

Lemma send_all_sent l m pm : msg_ok m -> only_sent pm (send_all l m pm).
Proof.
  intros Hm. destruct (send_all_spec l m pm) as (H1 & H2 & H3 & H4 & H5 & H6).
  split; [done|]. split; [done|]. exists ((fun p => (p, m)) <$> l). split; [done|].
  apply Forall_fmap, Forall_true. done.
Qed.

Lemma requestHeaders_sent p pm : only_sent pm (requestHeaders p pm).
Proof. unfold requestHeaders. repeat case_match; try done. by apply QueueMessage_sent. Qed.

Lemma AddInvVect_length l iv l' : AddInvVect l iv = Ok l' ->
  l' <> [] /\ Z.of_nat (length l') <= MaxInvPerMsg.
Proof.
  unfold AddInvVect. case_match; [done|]. intros [= <-]. rewrite length_app. simpl.
  split; [by destruct l|lia].
Qed.

Lemma onInv_sent p l pm : only_sent pm (onInv p l pm).
Proof.
  unfold onInv. destruct p as [q|]; [|done].
  set (f := fun (gd : list InvVect) (inv : InvVect) => _).
  assert (forall l gd, Z.of_nat (length gd) <= MaxInvPerMsg -> Z.of_nat (length (foldl f gd l)) <= MaxInvPerMsg) as F.
  { clear. induction l as [|iv l IH]; intros gd Hg; [done|]. cbn [foldl]. apply IH. unfold f.
    repeat case_match; try done. by eapply AddInvVect_length. }
  case_bool_decide as E; [done|]. apply QueueMessage_sent. split; [done|]. by apply F.
Qed.

Lemma onGetData_sent p l pm : only_sent pm (onGetData p l pm).
Proof.
  unfold onGetData. destruct p as [q|]; [|done]. revert pm. induction l as [|iv l IH]; intros pm; [done|].
  cbn [foldl]. etransitivity; [|apply IH]. unfold serveBlock.
  repeat case_match; try done; by apply QueueMessage_sent.
Qed.

Lemma onGetHeaders_sent p loc stop pm : only_sent pm (onGetHeaders p loc stop pm).
Proof.
  apply QueueMessage_sent. simpl. set (hs := LocateHeaders _ _ _). clearbody hs.
  assert (forall acc : list BlockHeader, Z.of_nat (length acc) <= MaxBlockHeadersPerMsg ->
    Z.of_nat (length (foldl (fun l h => match AddBlockHeader l h with Ok l' => l' | Err _ => l end) acc hs)) <=
      MaxBlockHeadersPerMsg) as F.
  { induction hs as [|h hs IH]; intros acc Ha; [done|]. cbn [foldl]. apply IH. unfold AddBlockHeader.
    destruct (Z.of_nat (length acc) + 1 >? MaxBlockHeadersPerMsg) eqn:E; [done|].
    rewrite length_app. simpl. lia. }
  by apply F.
Qed.

Lemma onGetBlocks_sent p loc stop pm : only_sent pm (onGetBlocks p loc stop pm).
Proof.
  apply QueueMessage_sent. simpl. set (hs := LocateBlocks _ _ _ _). clearbody hs.
  assert (forall acc : list InvVect, Z.of_nat (length acc) <= MaxInvPerMsg ->
    Z.of_nat (length (add_invs acc hs)) <= MaxInvPerMsg) as F.
  { induction hs as [|h hs IH]; intros acc Ha; simpl; [done|].
    destruct (AddInvVect acc (mkInvVect InvTypeBlock h)) eqn:E; [|done]. apply IH. by eapply AddInvVect_length. }
  by apply F.
Qed.

(** ** The synchronisation *)

Record sync_ok (now ticked : Z) sm : Prop := {
  sk_best : 0 <= bestHeight sm;
  sk_heights : map_Forall (fun _ h => h <= bestHeight sm) (peerHeights sm);
  sk_requests : map_Forall (fun _ t => t <= now /\ ticked - t <= 2 * Minute) (requestedBlocks sm);
}.

Lemma cleanup_requests now sm : requestedBlocks (cleanupOldRequestsLocked now sm) =
  filter (fun p => Sub now p.2 <= 2 * Minute) (requestedBlocks sm).
Proof.
  unfold cleanupOldRequestsLocked. simpl.
  rewrite (foldl_delete_range (fun t => Sub now t >? 2 * Minute)).
  apply map_filter_ext. intros h t _. cbn [snd]. lia.
Qed.

Lemma tick_select_ok ourHeight now ticked ps sm : ticked <= now -> sync_ok now ticked sm ->
  sync_ok now now (tick_select ourHeight now ps sm).2.
Proof.
  intros Ht [Hb Hh Hr]. unfold tick_select.
  set (x := if bestHeight sm >? ourHeight then _ else _).
  assert (bestHeight x.2 = bestHeight sm /\ peerHeights x.2 = peerHeights sm /\ requestedBlocks x.2 = requestedBlocks sm)
    as (E1 & E2 & E3).
  { unfold x. repeat case_match; done. }
  destruct x as [q sm1]. simpl in *. split; [simpl; lia|simpl; by rewrite E1, E2|].
  intros h t Hl. rewrite cleanup_requests, E3 in Hl. apply map_lookup_filter_Some in Hl as [Hl Hs].
  simpl in Hs. destruct (Hr h t Hl) as [H1 H2]. split; [done|].
  pose proof (Sub_gt now t (2 * Minute) ltac:(done)). lia.
Qed.

Lemma foldl_insert_lookup (now : Z) (new : list bytes) (m : gmap bytes Z) h t :
  foldl (fun m h => <[h := now]> m) m new !! h = Some t -> t = now \/ m !! h = Some t.
Proof.
  revert m. induction new as [|k new IH]; intros m; simpl; [by right|]. intros H.
  apply IH in H as [H|H]; [by left|]. apply lookup_insert_Some in H as [[_ H]|[_ H]]; [left; congruence|by right].
Qed.

Lemma HandleHeaders_ok now ticked p hs pm : ticked <= now -> sync_ok now ticked (syncManager pm) ->
  only_sync pm (HandleHeaders now p hs pm) /\ extends pm (HandleHeaders now p hs pm) /\
  sync_ok now ticked (syncManager (HandleHeaders now p hs pm)).
Proof.
  intros Ht Hok. unfold HandleHeaders. cbv zeta.
  destruct (Z.of_nat (length hs) =? 0); [done|]. unfold prepareHeaders. destruct p as [q|]; [|done].
  destruct (acceptsHeadersFromPeer q (syncManager pm)); [|done].
  destruct (requestMissing_spec now q hs pm) as (H1 & H2 & H3 & H4).
  set (pm1 := requestMissingHeaderBlocks now q hs pm) in *.
  assert (extends pm pm1) as Hx.
  { eexists. split; [exact H2|]. apply Forall_fmap, Forall_true. intros h. simpl. split; [done|]. unfold MaxInvPerMsg. lia. }
  assert (sync_ok now ticked (syncManager pm1)) as Hok1.
  { destruct Hok as [Hb Hh Hr]. set (r1 := requestedBlocks (syncManager pm1)) in *.
    destruct (syncManager pm), (syncManager pm1). unfold set_requested in H4. simpl in *.
    injection H4 as -> -> -> -> ->. split; simpl; try done.
    intros h t Hl. subst r1. rewrite H3 in Hl. apply foldl_insert_lookup in Hl as [->|Hl]; [|by apply (Hr h)].
    unfold Minute, Second. lia. }
  destruct (Z.of_nat (length hs) =? MaxBlockHeadersPerMsg); [|done].
  destruct (requestHeaders_sent (Some q) pm1) as ((K1 & K2 & K3 & K4) & K5 & K6). destruct H1 as (J1 & J2 & J3 & J4).
  split; [split_and!; congruence|]. split; [by transitivity pm1|]. by rewrite K5.
Qed.

Lemma UpdatePeerHeight_ok now ticked p h sm : sync_ok now ticked sm -> sync_ok now ticked (UpdatePeerHeight p h sm).
Proof.
  intros [Hb Hh Hr]. unfold UpdatePeerHeight.
  assert (map_Forall (fun _ k => k <= Z.max h (bestHeight sm))
    (peerHeights (match p with Some q => set_heights (<[q := h]> (peerHeights sm)) sm | None => sm end))) as F.
  { destruct p as [q|]; simpl.
    - apply map_Forall_insert_2; [lia|]. eapply map_Forall_impl; [exact Hh|]. simpl. lia.
    - eapply map_Forall_impl; [exact Hh|]. simpl. lia. }
  assert (bestHeight (match p with Some q => set_heights (<[q := h]> (peerHeights sm)) sm | None => sm end) =
    bestHeight sm) as -> by (by destruct p).
  destruct (h >? bestHeight sm) eqn:E; (split; simpl; [|eapply map_Forall_impl; [exact F|]|]); try (intros; lia).
  - destruct p; simpl; lia.
  - by destruct p.
  - destruct p; simpl; lia.
  - intros q k. simpl. destruct p; simpl; lia.
  - by destruct p.
Qed.

Lemma OnPeerDisconnected_ok now ticked p sm : sync_ok now ticked sm -> sync_ok now ticked (OnPeerDisconnected p sm).
Proof.
  intros [Hb Hh Hr]. destruct p as [q|]; [|done]. unfold OnPeerDisconnected.
  set (sm1 := if bool_decide (syncPeer sm = Some q) then set_syncPeer None sm else sm).
  assert (bestHeight sm1 = bestHeight sm /\ peerHeights sm1 = peerHeights sm /\ requestedBlocks sm1 = requestedBlocks sm /\
    bestPeer sm1 = bestPeer sm) as (E1 & E2 & E3 & E4) by (unfold sm1; by case_match).
  clearbody sm1. set (sm2 := set_heights (delete q (peerHeights sm1)) sm1).
  destruct (maxPeerHeight_ge sm2) as [M1 M2].
  case_bool_decide; split; simpl; try (by rewrite E3).
  - done.
  - intros p h Hp. by apply (M2 p).
  - by rewrite E1.
  - rewrite E1, E2. intros p h Hp. apply lookup_delete_Some in Hp as [_ Hp]. by apply (Hh p).
Qed.

(** ** The invariant *)

Record peers_ok pm : Prop := {
  pk_ids : forall i p, peers pm !! i = Some p -> i = ID p;
  pk_limit : maxPeers pm > 0 -> Z.of_nat (size (peers pm)) <= maxPeers pm;
}.

Record net_ok (slack : Z) n : Prop := {
  nk_peers : peers_ok (nt_pm n);
  nk_sync : sync_ok (nt_now n) (nt_ticked n) (syncManager (nt_pm n));
  nk_ticked : nt_ticked n <= nt_now n <= nt_ticked n + syncInterval + slack;
  nk_sent : Forall (fun x => msg_ok x.2) (sent (nt_pm n));
}.

(** The pool and the chain of a node. *)
Definition as_node n : node := mkNode (nt_now n) (nt_swept n) (mempool (nt_pm n)) (blockchain (nt_pm n)).

(** The effect of an event on the parts. *)
Definition same_pool pm pm' : Prop := mempool pm' = mempool pm /\ blockchain pm' = blockchain pm.

Record effect (now : Z) (ticked ticked' : Z) pm pm' : Prop := {
  ef_pool slack swept : rtc (step slack) (mkNode now swept (mempool pm) (blockchain pm))
    (mkNode now swept (mempool pm') (blockchain pm'));
  ef_peers : peers_ok pm -> peers_ok pm';
  ef_sync : sync_ok now ticked (syncManager pm) -> sync_ok now ticked' (syncManager pm');
  ef_sent : extends pm pm';
}.

Lemma effect_sent now ticked pm pm' : only_sent pm pm' -> effect now ticked ticked pm pm'.
Proof.
  intros ((H1 & H2 & H3 & H4) & H5 & H6). split; [|intros [? ?]|by rewrite H5|done].
  - intros. rewrite H2, H3. apply rtc_refl.
  - split; rewrite H1; [done|by rewrite H4].
Qed.

Lemma effect_trans now t1 t2 t3 a b c : effect now t1 t2 a b -> effect now t2 t3 b c -> effect now t1 t3 a c.
Proof.
  intros [P1 Q1 R1 S1] [P2 Q2 R2 S2]. split; [|tauto|tauto|by transitivity b].
  intros slack swept. eapply rtc_trans; [apply P1|apply P2].
Qed.

Lemma effect_sync now ticked pm f : (sync_ok now ticked (syncManager pm) -> sync_ok now ticked (f (syncManager pm))) ->
  effect now ticked ticked pm (set_sync f pm).
Proof. intros H. split; [intros; apply rtc_refl|by intros []|done|by apply extends_eq]. Qed.

Lemma effect_chain now ticked pm c : effect now ticked ticked pm (set_chain c pm).
Proof. split; [|by intros []|done|by apply extends_eq]. intros. apply rtc_once. by apply (step_chain slack c). Qed.

Lemma effect_RemoveTxs now ticked pm hs : effect now ticked ticked pm (set_mempool (RemoveTxs hs) pm).
Proof. split; [|by intros []|done|by apply extends_eq]. intros. apply rtc_once. by apply (step_RemoveTxs slack hs). Qed.

Lemma effect_AddTx now ticked pm tx : effect now ticked ticked pm (pool_AddTx now (Some tx) pm).2.
Proof.
  unfold pool_AddTx, zoom. destruct (AddTx now (Some tx) (mempool pm, blockchain pm)) as [r s] eqn:E.
  split; [|by intros []|done|by apply extends_eq]. intros. apply rtc_once.
  apply (step_AddTx slack tx (mkNode now swept (mempool pm) (blockchain pm)) r s); done.
Qed.

Lemma handleInboundPeer_effect now ticked p pm : effect now ticked ticked pm (handleInboundPeer p pm).
Proof.
  unfold handleInboundPeer, addPeer. destruct ((maxPeers pm >? 0) && _) eqn:E; [by apply effect_sent|].
  split; [intros; apply rtc_refl| |done|by apply extends_eq]. intros [Hi Hl]. split; simpl.
  - intros i q. rewrite lookup_insert_Some. intros [[<- <-]|[_ H]]; [done|by apply Hi].
  - intros Hm. apply andb_false_iff in E as [E|E]; [lia|].
    specialize (Hl Hm). destruct (peers pm !! ID p) as [q|] eqn:Eq;
      [rewrite map_size_insert_Some by eauto; lia|rewrite map_size_insert_None by done; lia].
Qed.

Lemma peerDisconnected_effect now ticked p pm : effect now ticked ticked pm (peerDisconnected p pm).
Proof.
  split; [intros; apply rtc_refl| |intros H; by apply OnPeerDisconnected_ok|by apply extends_eq]. intros [Hi Hl]. split; simpl.
  - intros i q H. apply lookup_delete_Some in H as [_ H]. by apply Hi.
  - intros Hm. specialize (Hl Hm). pose proof (map_subseteq_size _ _ (delete_subseteq (peers pm) (ID p))). lia.
Qed.

Lemma syncTick_effect now ticked pm : ticked <= now -> effect now ticked now pm (syncTick now pm).
Proof.
  intros Ht. unfold syncTick. pose proof (tick_select_ok (BestHeight (blockchain pm)) now ticked (peers pm) (syncManager pm) Ht) as S.
  destruct (tick_select _ _ _ _) as [q sm]. simpl in S.
  assert (effect now ticked now pm (set_sync (fun _ => sm) pm)) as E.
  { split; [intros; apply rtc_refl|by intros []|done|by apply extends_eq]. }
  destruct q as [p|]; [|done]. eapply effect_trans; [exact E|]. apply effect_sent, requestHeaders_sent.
Qed.

Lemma HandleHeaders_effect now ticked p hs pm : ticked <= now -> sync_ok now ticked (syncManager pm) ->
  effect now ticked ticked pm (HandleHeaders now p hs pm).
Proof.
  intros Ht Hok. destruct (HandleHeaders_ok now ticked p hs pm Ht Hok) as ((H1 & H2 & H3 & H4) & Hx & Hs).
  split; [|intros [? ?]|done|done].
  - intros. rewrite H2, H3. apply rtc_refl.
  - split; rewrite H1; [done|by rewrite H4].
Qed.

Lemma onBlock_effect now ticked msg buf pm : effect now ticked ticked pm (onBlock msg buf pm).2.
Proof.
  unfold onBlock. set (h := BlockHash (mb_Header msg)).
  assert (effect now ticked ticked pm (parseAuxPowIfPresent h msg buf pm).2) as E1.
  { unfold parseAuxPowIfPresent. case_bool_decide; [by apply effect_sent|].
    unfold in_chain, zoom, try, mbind, M_bind.
    destruct (chain_SetBlockAuxPowFromBytes h buf (blockchain pm)) as [[[]|e] c]; [apply effect_chain|].
    case_match; apply effect_chain. }
  unfold try, mbind, M_bind. destruct (parseAuxPowIfPresent h msg buf pm) as [[[]|e] pm1]; [|exact E1].
  eapply effect_trans; [exact E1|]. clear E1. unfold in_chain, zoom.
  destruct (chain_ProcessBlock (NewBtcBlock msg) BFNone (blockchain pm1)) as [[[[main orphan] err]|e] c]; [|apply effect_chain].
  eapply effect_trans; [apply (effect_chain now ticked pm1 c)|].
  destruct err as [e|]; [by apply effect_sent|]. unfold modify.
  eapply effect_trans; [apply (effect_sync now ticked _ (BlockReceived h))|].
  - intros [Hb Hh Hr]. split; simpl; try done. by apply map_Forall_delete.
  - destruct main; [apply effect_RemoveTxs|by apply effect_sent].
Qed.

Lemma onTx_effect conn now ticked p tx pm : effect now ticked ticked pm (onTx conn now p tx pm).2.
Proof.
  unfold onTx. destruct tx as [tx|]; [|by apply effect_sent]. unfold mbind, M_bind, get, try, modify.
  case_match; [by apply effect_sent|]. pose proof (effect_AddTx now ticked pm tx) as E.
  destruct (pool_AddTx now (Some tx) pm) as [[u|e] pm1]; [|exact E].
  eapply effect_trans; [exact E|]. apply effect_sent. by apply send_all_sent.
Qed.

Lemma BroadcastTx_effect conn now ticked tx pm : effect now ticked ticked pm (BroadcastTx conn now tx pm).2.
Proof.
  unfold BroadcastTx. destruct tx as [tx|]; [|by apply effect_sent]. unfold mbind, M_bind, get, wrapM, modify.
  pose proof (effect_AddTx now ticked pm tx) as E.
  destruct (pool_AddTx now (Some tx) pm) as [[u|e] pm1]; [|exact E]. simpl. case_bool_decide; [exact E|].
  eapply effect_trans; [exact E|]. apply effect_sent. by apply send_all_sent.
Qed.

(** An event other than time and the two tickers. *)
Lemma handle_effect now ticked e pm : ticked <= now -> sync_ok now ticked (syncManager pm) ->
  match e with EvTime _ | EvSweep | EvTick => False | _ => True end ->
  effect now ticked ticked pm (handle now e pm).
Proof.
  intros Ht Hok He. destruct e; try done; simpl.
  - apply effect_sync. apply UpdatePeerHeight_ok.
  - apply handleInboundPeer_effect.
  - apply peerDisconnected_effect.
  - apply effect_sent, onInv_sent.
  - apply onBlock_effect.
  - apply onTx_effect.
  - apply effect_sent, onGetData_sent.
  - by apply HandleHeaders_effect.
  - apply effect_sent, onGetHeaders_sent.
  - apply effect_sent, onGetBlocks_sent.
  - apply BroadcastTx_effect.
  - apply effect_sent. by apply send_all_sent.
  - apply effect_sent. by apply send_all_sent.
Qed.

Lemma extends_ok pm pm' : extends pm pm' -> Forall (fun x => msg_ok x.2) (sent pm) ->
  Forall (fun x => msg_ok x.2) (sent pm').
Proof. intros (l & -> & Hl) Hs. by apply Forall_app. Qed.

Lemma net_step_ok slack n n' : 0 <= slack -> net_step slack n n' -> net_ok slack n ->
  net_ok slack n' /\ rtc (step slack) (as_node n) (as_node n').
Proof.
  intros H0 St [Hp Hs Ht Hm]. destruct St as [e n He]. 
  assert ((match e with EvTime _ | EvSweep | EvTick => False | _ => True end) \/
    (exists d, e = EvTime d) \/ e = EvSweep \/ e = EvTick) as [m|Hspecial] by (destruct e; naive_solver).
  - assert (after e n = mkNet (nt_now n) (nt_swept n) (nt_ticked n) (handle (nt_now n) e (nt_pm n))) as ->
      by (by destruct e).
    destruct (handle_effect (nt_now n) (nt_ticked n) e (nt_pm n) ltac:(lia) Hs m) as [E1 E2 E3 E4].
    split; [|apply E1]. split; simpl; auto. by eapply extends_ok.
  - destruct Hspecial as [[d ->]|[-> | ->]]; unfold after; simpl.
    + destruct He as (Hd & H1 & H2). split.
      * split; simpl; try done; [|lia]. destruct Hs as [Hb Hh Hr]. split; try done.
        intros h t Hl. destruct (Hr h t Hl). lia.
      * apply rtc_once. by apply (step_time slack d (as_node n)).
    + split; [destruct Hp; split; try done; by split|]. apply rtc_once. apply (step_cleanup slack (as_node n)).
    + destruct (syncTick_effect (nt_now n) (nt_ticked n) (nt_pm n) ltac:(lia)) as [E1 E2 E3 E4].
      split; [|apply E1]. split; simpl; auto; [|by eapply extends_ok].
      unfold syncInterval, Second. lia.
Qed.

Lemma net_reachable slack c max t n : 0 <= slack -> rtc (net_step slack) (net_start c max t) n ->
  net_ok slack n /\ rtc (step slack) (as_node (net_start c max t)) (as_node n).
Proof.
  intros H0 Hr. assert (net_ok slack (net_start c max t)) as Hi.
  { split; simpl.
    - split; [intros i p; simpl; by rewrite lookup_empty|]. simpl. rewrite map_size_empty. lia.
    - split; simpl; [done|apply map_Forall_empty|apply map_Forall_empty].
    - unfold syncInterval, Second. lia.
    - constructor. }
  induction Hr as [n|n1 n2 n3 St _ IH]; [done|].
  destruct (net_step_ok slack n1 n2 H0 St Hi) as [H1 H2]. destruct (IH H1) as [H3 H4].
  split; [done|]. by etransitivity.
Qed.

(** ** A second synchronisation

    Outside the initial download nothing but the peer's disconnection ends a
    synchronisation. *)

Definition syncing_with (p : Peer) pm : Prop :=
  syncPeer (syncManager pm) = Some p /\ headersFirstMode (syncManager pm) = false.

Lemma HandleHeaders_sync_fields now p hs pm :
  syncPeer (syncManager (HandleHeaders now p hs pm)) = syncPeer (syncManager pm) /\
  headersFirstMode (syncManager (HandleHeaders now p hs pm)) = headersFirstMode (syncManager pm).
Proof.
  unfold HandleHeaders. cbv zeta. case_match; [done|]. unfold prepareHeaders. destruct p as [q|]; [|done].
  destruct (acceptsHeadersFromPeer q (syncManager pm)); [|done].
  destruct (requestMissing_spec now q hs pm) as (_ & _ & _ & H4).
  set (pm1 := requestMissingHeaderBlocks now q hs pm) in *.
  assert (syncPeer (syncManager pm1) = syncPeer (syncManager pm) /\
    headersFirstMode (syncManager pm1) = headersFirstMode (syncManager pm)) as [E1 E2].
  { destruct (syncManager pm), (syncManager pm1). unfold set_requested in H4. simpl in *. by injection H4 as -> -> -> -> ->. }
  case_match; [|done]. destruct (requestHeaders_sent (Some q) pm1) as (_ & K5 & _). by rewrite K5.
Qed.

Lemma onBlock_sync_fields msg buf pm :
  syncPeer (syncManager (onBlock msg buf pm).2) = syncPeer (syncManager pm) /\
  headersFirstMode (syncManager (onBlock msg buf pm).2) = headersFirstMode (syncManager pm).
Proof.
  unfold onBlock. set (h := BlockHash (mb_Header msg)).
  assert (syncManager (parseAuxPowIfPresent h msg buf pm).2 = syncManager pm) as E1.
  { unfold parseAuxPowIfPresent. case_bool_decide; [done|].
    unfold in_chain, zoom, try, mbind, M_bind.
    destruct (chain_SetBlockAuxPowFromBytes h buf (blockchain pm)) as [[[]|e] c]; [done|]. by case_match. }
  unfold try, mbind, M_bind. destruct (parseAuxPowIfPresent h msg buf pm) as [[[]|e] pm1]; simpl in E1; [|by rewrite <-E1].
  rewrite <-E1. unfold in_chain, zoom.
  destruct (chain_ProcessBlock (NewBtcBlock msg) BFNone (blockchain pm1)) as [[[[main orphan] err]|e] c]; [|done].
  destruct err; [done|]. by destruct main.
Qed.

Lemma pool_AddTx_sync now tx pm : syncManager (pool_AddTx now tx pm).2 = syncManager pm.
Proof. unfold pool_AddTx, zoom. by destruct (AddTx _ _ _) as [[]]. Qed.

Lemma send_all_sync l m pm : syncManager (send_all l m pm) = syncManager pm.
Proof. by destruct (send_all_spec l m pm) as (_ & _ & _ & _ & ? & _). Qed.

Lemma handle_syncing now e pm p : (match e with EvDisconnect q => q <> p | _ => True end) ->
  syncing_with p pm -> syncing_with p (handle now e pm).
Proof.
  unfold syncing_with. intros He [H1 H2]. destruct e as [d| | |q h|q|q|q l|msg buf|conn q tx|q l|q hs|q loc stop|q loc stop|conn tx|conn b|conn];
    simpl.
  - done.
  - done.
  - by rewrite (syncTick_idle now pm p) by auto.
  - unfold UpdatePeerHeight. case_match; by destruct q.
  - unfold handleInboundPeer, addPeer. by destruct (_ && _).
  - unfold OnPeerDisconnected. rewrite (bool_decide_false (syncPeer (syncManager pm) = Some q)) by congruence. by case_match.
  - by destruct (onInv_sent q l pm) as (_ & -> & _).
  - by destruct (onBlock_sync_fields msg buf pm) as [-> ->].
  - unfold onTx. destruct tx as [tx|]; [|done]. unfold mbind, M_bind, get, try, modify. case_match; [done|].
    pose proof (pool_AddTx_sync now (Some tx) pm) as E.
    destruct (pool_AddTx now (Some tx) pm) as [[u|x] pm1]; simpl in *; [|by rewrite E].
    unfold relayTransaction. by rewrite send_all_sync, E.
  - by destruct (onGetData_sent q l pm) as (_ & -> & _).
  - unfold onHeaders. by destruct (HandleHeaders_sync_fields now q hs pm) as [-> ->].
  - done.
  - done.
  - unfold BroadcastTx. destruct tx as [tx|]; [|done]. unfold mbind, M_bind, get, wrapM, modify.
    pose proof (pool_AddTx_sync now (Some tx) pm) as E.
    destruct (pool_AddTx now (Some tx) pm) as [[u|x] pm1]; simpl in *; [|by rewrite E].
    case_bool_decide; simpl; [by rewrite E|].
    by rewrite send_all_sync, E.
  - unfold BroadcastBlock. by rewrite send_all_sync.
  - unfold SyncBlocks. by rewrite send_all_sync.
Qed.

(** Any events, at any times, but the disconnection of [p]. *)
Inductive run_without (p : Peer) : PM -> PM -> Prop :=
  | run_nil pm : run_without p pm pm
  | run_cons now e pm pm' :
      (match e with EvDisconnect q => q <> p | _ => True end) ->
      run_without p (handle now e pm) pm' -> run_without p pm pm'.

Lemma run_without_syncing p pm pm' : run_without p pm pm' -> syncing_with p pm -> syncing_with p pm'.
Proof. induction 1 as [|now e pm pm' He _ IH]; [done|]. intros H. by apply IH, handle_syncing. Qed.

End reach.
