(* ===== verification/Node.v ===== *)
(** * The chain of the program as the chain of a node

    What the other components ask of chain/blockchain.go: the queries that it passes on
    to btcd are the class [BtcdQueries], blocks and transactions go to its own checks. *)

From S2P Require Import Prelude Bolt NameDB Config Wire AuxPow Chain ChainUpdate.
From S2P Require Import Mempool MempoolSpec Network.

(** [BestSnapshot], [BlockByHash], [BlockHashByHeight] and the locators of
    btcd's BlockChain. *)
Class BtcdQueries {D : Btcd} := {
  q_BestHash : btcd_state -> bytes;
  q_BestBits : btcd_state -> Z;
  q_LatestBlockLocator : btcd_state -> res (list bytes);
  q_BlockByHash : btcd_state -> bytes -> res MsgBlock;
  q_BlockHashByHeight : btcd_state -> Z -> res bytes;
  q_LocateHeaders : btcd_state -> list bytes -> bytes -> list BlockHeader;
  q_LocateBlocks : btcd_state -> list bytes -> bytes -> Z -> list bytes;
}.

(** The parameters of the network the process runs on. *)
Class NetParams := net_params : Params.

#[export] Instance BlockChainNode {B : Bolt} {W : Wire} {G : BtcLib} {R : MapRange} {D : Btcd} {Q : BtcdQueries}
    {N : NetParams} : NodeChain BlockChain := {|
  BestHeight bc := btcd_BestHeight (btcd bc);
  BestHash bc := q_BestHash (btcd bc);
  LatestBlockLocator bc := q_LatestBlockLocator (btcd bc);
  BlockByHash bc h := q_BlockByHash (btcd bc) h;
  LocateHeaders bc := q_LocateHeaders (btcd bc);
  LocateBlocks bc := q_LocateBlocks (btcd bc);
  chain_SetBlockAuxPowFromBytes := SetBlockAuxPowFromBytes;
  chain_ProcessBlock := ProcessBlock net_params;
  chain_validator := ChainValidator;
|}.
