(* ===== verification/Rpc.v ===== *)
(** * The RPC server: state and helpers

    rpc/server.go, the data and the functions the handlers share.  The server holds
    pointers to the chain, the peer manager and the wallet, any of which may be nil; the
    peer manager works on the same chain.  A handler is a computation [Handler]: it goes on
    with a value, replies (Go's early return of a *Response), or panics.  What the
    program calls of btcd and of Go's crypto packages here is the class [RpcLib]. *)

From S2P Require Import Prelude Clock Float Strings Json Bolt NameDB Config Script Wire Chain ChainUpdate.
From S2P Require Import Mempool MempoolSpec Network Node Encryption Wallet WalletTx RateLimit.

Class RpcLib {K : Crypto} {L : KeyLib} := {
  DecodeAddress : bytes -> Params -> res address;        (* btcutil.DecodeAddress *)
  Hash_String : bytes -> bytes;                          (* chainhash.Hash.String *)
  NewHashFromStr : bytes -> res bytes;                   (* chainhash.NewHashFromStr *)
  block_Bytes : MsgBlock -> res bytes;                   (* btcutil.Block.Bytes *)
  HMAC_SHA256 : bytes -> bytes -> bytes;                 (* of a key: the data written *)
}.

Definition defaultRateLimit : Z := 100.
Definition defaultMaxRequestSize : Z := 1 * 1024 * 1024.

Record Request := mkRequest { Method : bytes; Params_ : option json; ID_ : json }.
Record Error := mkError { Code : Z; Message_ : string }.
Record Response := mkResponse { Result : value; Error_ : option Error; RespID : json }.

Definition errorResponse (id : json) (code : Z) (message : string) : Response :=
  mkResponse VNil (Some (mkError code message)) id.
Definition successResponse (id : json) (result : value) : Response := mkResponse result None id.

(** What a handler does not control: which peers are connected, the clock, and the
    snapshot of the metrics. *)
Record Env {P : PeerLib} := mkEnv { Connected : Peer -> bool; Now : Z; Snapshot : value }.
Arguments mkEnv {_}. Arguments Connected {_}. Arguments Now {_}. Arguments Snapshot {_}.

Section server.
Context {B : Bolt} {W : Wire} {G : BtcLib} {R : MapRange} {D : Btcd} {Q : BtcdQueries} {N : NetParams} {P : PeerLib}.
Context {K : Crypto} {L : KeyLib} {F : Disk} {J : WalletJson} {S : TxScript} {X : RpcLib}.

(** [autoLockTimer] is the deadline and the generation given to the running timer. *)
Record Server := mkServer {
  blockchain_nil : bool;
  peerMgr_nil : bool;
  wallet_nil : bool;
  peerMgr : @PeerManager P BlockChain;
  world : World;
  rpcUser : bytes;
  rpcPassword : bytes;
  authKey : bytes;
  limiter : rateLimiter;
  maxRequestSize : Z;
  autoLockTimer : option (Z * Z);
  autoLockGen : Z;                     (* uint64 *)
}.

Definition srv_chain (s : Server) : BlockChain := blockchain (peerMgr s).
Definition srv_wallet (s : Server) : Wallet := wallet (world s).

Definition set_peerMgr (pm : PeerManager) (s : Server) : Server :=
  {| blockchain_nil := blockchain_nil s; peerMgr_nil := peerMgr_nil s; wallet_nil := wallet_nil s;
     peerMgr := pm; world := world s; rpcUser := rpcUser s; rpcPassword := rpcPassword s; authKey := authKey s;
     limiter := limiter s; maxRequestSize := maxRequestSize s; autoLockTimer := autoLockTimer s;
     autoLockGen := autoLockGen s |}.
Definition set_world (w : World) (s : Server) : Server :=
  {| blockchain_nil := blockchain_nil s; peerMgr_nil := peerMgr_nil s; wallet_nil := wallet_nil s;
     peerMgr := peerMgr s; world := w; rpcUser := rpcUser s; rpcPassword := rpcPassword s; authKey := authKey s;
     limiter := limiter s; maxRequestSize := maxRequestSize s; autoLockTimer := autoLockTimer s;
     autoLockGen := autoLockGen s |}.
Definition set_credentials (user pass key : bytes) (s : Server) : Server :=
  {| blockchain_nil := blockchain_nil s; peerMgr_nil := peerMgr_nil s; wallet_nil := wallet_nil s;
     peerMgr := peerMgr s; world := world s; rpcUser := user; rpcPassword := pass; authKey := key;
     limiter := limiter s; maxRequestSize := maxRequestSize s; autoLockTimer := autoLockTimer s;
     autoLockGen := autoLockGen s |}.
Definition set_limiter (l : rateLimiter) (s : Server) : Server :=
  {| blockchain_nil := blockchain_nil s; peerMgr_nil := peerMgr_nil s; wallet_nil := wallet_nil s;
     peerMgr := peerMgr s; world := world s; rpcUser := rpcUser s; rpcPassword := rpcPassword s; authKey := authKey s;
     limiter := l; maxRequestSize := maxRequestSize s; autoLockTimer := autoLockTimer s;
     autoLockGen := autoLockGen s |}.
Definition set_autoLock (timer : option (Z * Z)) (gen : Z) (s : Server) : Server :=
  {| blockchain_nil := blockchain_nil s; peerMgr_nil := peerMgr_nil s; wallet_nil := wallet_nil s;
     peerMgr := peerMgr s; world := world s; rpcUser := rpcUser s; rpcPassword := rpcPassword s; authKey := authKey s;
     limiter := limiter s; maxRequestSize := maxRequestSize s; autoLockTimer := timer; autoLockGen := gen |}.

(** ** Handlers *)

Inductive flow (A : Type) := Go (a : A) | Reply (r : Response) | Panic (e : error).
Arguments Go {A} a. Arguments Reply {A} r. Arguments Panic {A} e.

Definition Handler (A : Type) : Type := Server -> flow A * Server.

#[export] Instance Handler_ret : MRet Handler := fun A a s => (Go a, s).
#[export] Instance Handler_bind : MBind Handler := fun A C f m s =>
  match m s with
  | (Go a, s') => f a s'
  | (Reply r, s') => (Reply r, s')
  | (Panic e, s') => (Panic e, s')
  end.

Definition reply {A} (r : Response) : Handler A := fun s => (Reply r, s).
Definition reply_error {A} (id : json) (code : Z) (message : string) : Handler A := reply (errorResponse id code message).
Definition reply_value {A} (id : json) (v : value) : Handler A := reply (successResponse id v).
Definition gets {A} (f : Server -> A) : Handler A := fun s => (Go (f s), s).
Definition updates (f : Server -> Server) : Handler unit := fun s => (Go tt, f s).

(** An operation of a component; a panic in it is one of the handler. *)
Definition call {T A} (g : Server -> T) (p : T -> Server -> Server) (m : M T A) : Handler (res A) := fun s =>
  let '(r, t) := m (g s) in
  match r with
  | Err e => if panics e then (Panic e, p t s) else (Go (Err e), p t s)
  | Ok a => (Go (Ok a), p t s)
  end.

Definition on_peerMgr {A} (m : M PeerManager A) : Handler (res A) := call peerMgr set_peerMgr m.
Definition on_world {A} (m : M World A) : Handler (res A) := call world set_world m.
(** A method of the chain that only passes on to its name database. *)
Definition on_nameDB {A} (m : M NameDatabase A) : Handler (res A) := on_peerMgr (in_chain (in_nameDB m)).

(** A value, or an early return. *)
Definition or_error {A} (id : json) (code : Z) (message : string) (r : res A) : Handler A :=
  match r with Ok a => mret a | Err _ => reply_error id code message end.

Definition requireWallet (reqID : json) : Handler unit :=
  b ← gets wallet_nil;
  if b : bool then reply_error reqID (-1) "Wallet not initialized. Start the node with wallet enabled." else mret tt.
Definition requireBlockchain (reqID : json) : Handler unit :=
  b ← gets blockchain_nil;
  if b : bool then reply_error reqID (-32603) "Blockchain not initialized" else mret tt.

(** ** Parameters *)

Definition parseInterfaceParams (params : option json) (reqID : json) (minCount : nat) : Handler (list json) :=
  match Unmarshal_slice params with
  | Err _ => reply_error reqID (-32602) "Invalid params: expected "
  | Ok result =>
      if bool_decide (length result < minCount)%nat then reply_error reqID (-32602) "Invalid params: expected "
      else mret result
  end.

Definition parseStringParams (params : option json) (reqID : json) (minCount : nat) : Handler (list bytes) :=
  match Unmarshal_strings params with
  | Err _ => reply_error reqID (-32602) "Invalid params: expected "
  | Ok result =>
      if bool_decide (length result < minCount)%nat then reply_error reqID (-32602) "Invalid params: expected "
      else mret result
  end.

(** [params[i]]: the callers have checked the length. *)
Definition nth_param {A} (params : list A) (i : nat) : Handler A := fun s =>
  match params !! i with
  | Some p => (Go p, s)
  | None => (Panic (EPanic "index out of range"), s)
  end.

Definition parseHashParam (params : list json) (index : nat) (reqID : json) : Handler bytes :=
  p ← nth_param params index;
  match as_string p with
  | None => reply_error reqID (-32602) "Invalid params: %s must be a string"
  | Some hashStr => or_error reqID (-5) "Invalid %s: %v" (NewHashFromStr hashStr)
  end.

Definition parseVerboseParam (params : list json) (index : nat) (reqID : json) : Handler bool :=
  match params !! index with
  | None => mret false
  | Some p =>
      match as_bool p with
      | Some v => mret v
      | None => reply_error reqID (-32602) "Invalid params: verbose must be a boolean"
      end
  end.

Definition validateNameLength (name : bytes) (reqID : json) : Handler unit :=
  if (blen name =? 0) || (blen name >? 255) then reply_error reqID (-5) "Invalid name length: %d (max 255)" else mret tt.

Definition validateValueSize (v : bytes) (reqID : json) : Handler unit :=
  if blen v >? MaxValueLengthUI then reply_error reqID (-5) "Value too large: %d bytes (max %d)" else mret tt.

(** [errors.Is(err, network.ErrNoPeers)] *)
Fixpoint is_no_peers (e : error) : bool :=
  match e with
  | EMsg m => bool_decide (m = "no peers connected, transaction not relayed"%string)
  | EWrap _ c => is_no_peers c
  | EJoin cs => existsb is_no_peers cs
  | _ => false
  end.

(** [result["warning"] = err.Error()] *)
Definition with_warning (result : list (string * value)) : list (string * value) :=
  result ++ [("warning"%string, VStr (str "no peers connected, transaction not relayed"))].

Definition broadcastAndRespond (env : Env) (tx : MsgTx) (reqID : json) (result : list (string * value)) : Handler Response :=
  b ← gets peerMgr_nil;
  if b : bool then reply_error reqID (-1) "Network not available: peer manager not initialized"
  else
    r ← on_peerMgr (BroadcastTx (Connected env) (Now env) (Some tx));
    match r with
    | Ok _ => mret (successResponse reqID (VMap result))
    | Err err =>
        if is_no_peers err then mret (successResponse reqID (VMap (with_warning result)))
        else mret (errorResponse reqID (-1) "Failed to broadcast transaction: %v")
    end.

(** [BestSnapshot().Height] *)
Definition best_height : Handler Z := gets (fun s => btcd_BestHeight (btcd (srv_chain s))).

(** ** Difficulty *)

(** [big.Rat.FloatString(8)]: the quotient to eight digits, halves away from zero, as a
    number of units of the last digit. *)
Definition FloatString8 (n d : Z) : Z :=
  let q := (2 * Z.abs n * 100000000 + Z.abs d) / (2 * Z.abs d) in
  if (n <? 0) && (0 <? d) || (0 <? n) && (d <? 0) then - q else q.

Definition getDifficultyRatio (bits : Z) (p : Params) : res float64 :=
  let max := CompactToBig (PowLimitBits p) in
  let target := CompactToBig bits in
  if target =? 0 then Err (EPanic "division by zero")
  else Ok (of_ratio (FloatString8 max target) 100000000).

Definition no_panic {A} (r : res A) : Handler A := fun s =>
  match r with Ok a => (Go a, s) | Err e => (Panic e, s) end.

End server.
Arguments Go {A} a.
Arguments Reply {A} r.
Arguments Panic {A} e.
