(* ===== verification/RpcNames.v ===== *)
(** * The RPC server: names

    rpc/name_handlers.go.  Each handler and helper is a definition of the same name; a
    helper that returns a *Response besides its value is a [Handler] that may reply. *)

From S2P Require Import Prelude Float Json Bolt Record NameDB Utxo Config Script Wire Chain ChainUpdate.
From S2P Require Import Mempool MempoolSpec Network Node Encryption Wallet WalletTx RateLimit Rpc.

Section names.
Context {B : Bolt} {W : Wire} {G : BtcLib} {R : MapRange} {D : Btcd} {Q : BtcdQueries} {N : NetParams} {P : PeerLib}.
Context {K : Crypto} {L : KeyLib} {F : Disk} {J : WalletJson} {S : TxScript} {X : RpcLib}.

Abbreviation Handler := (@Handler B D P K L F).

(** ** Reading names *)

Definition parseNameParam (rawParams : option json) (reqID : json) (message : string) : Handler bytes :=
  match Unmarshal_strings rawParams with
  | Ok (name :: _) => mret name
  | _ => reply_error reqID (-32602) message
  end.

Definition buildNameShowResult (record : NameRecord) (bestHeight : Z) : value :=
  let expiresIn := int32 (ExpiresAt record - bestHeight) in
  VMap [("name"%string, VStr (Name record)); ("value"%string, VStr (Value record));
        ("txid"%string, VStr (Hash_String (Record.TxHash record))); ("height"%string, VInt (Height record));
        ("expires_in"%string, VInt expiresIn); ("expired"%string, VBool (expiresIn <? 0));
        ("address"%string, VStr (Address record))].

Definition nameShow (req : Request) : Handler Response :=
  requireBlockchain (ID_ req);;
  name ← parseNameParam (Params_ req) (ID_ req) "Invalid params";
  validateNameLength name (ID_ req);;
  r ← on_nameDB (GetName name);
  record ← or_error (ID_ req) (-5) "Name not found: %s" r;
  h ← best_height;
  mret (successResponse (ID_ req) (buildNameShowResult record h)).

(** [name_list] builds the same maps in its own loop. *)
Definition formatNameRecords (names : list NameRecord) (currentHeight : Z) : value :=
  VList ((fun record => buildNameShowResult record currentHeight) <$> names).

Definition nameList (req : Request) : Handler Response :=
  requireBlockchain (ID_ req);;
  r ← on_nameDB ListNames;
  names ← or_error (ID_ req) (-1) "Failed to list names: %v" r;
  h ← best_height;
  mret (successResponse (ID_ req) (formatNameRecords names h)).

Definition formatNameHistory (history : list NameRecord) : value :=
  VList ((fun record =>
    VMap [("name"%string, VStr (Name record)); ("value"%string, VStr (Value record));
          ("txid"%string, VStr (Hash_String (Record.TxHash record))); ("height"%string, VInt (Height record));
          ("expires_at"%string, VInt (ExpiresAt record)); ("address"%string, VStr (Address record))]) <$> history).

Definition nameHistory (req : Request) : Handler Response :=
  requireBlockchain (ID_ req);;
  name ← parseNameParam (Params_ req) (ID_ req) "Invalid params: expected ['name']";
  r ← on_nameDB (GetHistory name);
  history ← or_error (ID_ req) (-1) "Failed to get name history: %v" r;
  mret (successResponse (ID_ req) (formatNameHistory history)).

(** Parameters that are missing or not an array give the defaults. *)
Definition parseNameScanParams (rawParams : option json) (reqID : json) : Handler (bytes * Z) :=
  match Unmarshal_slice rawParams with
  | Err _ | Ok [] => mret ([], 500)
  | Ok (p0 :: rest) =>
      match as_string p0 with
      | None => reply_error reqID (-32602) "start must be a string"
      | Some start =>
          match rest with
          | [] => mret (start, 500)
          | p1 :: _ =>
              match as_float p1 with
              | None => reply_error reqID (-32602) "count must be a number"
              | Some countFloat =>
                  if negb (feq countFloat (Trunc countFloat)) then
                    reply_error reqID (-32602) "count must be an integer"
                  else if flt countFloat (of_int 1) || flt (of_int 10000) countFloat then
                    reply_error reqID (-32602) "count must be between 1 and 10000"
                  else mret (start, int_of_float countFloat)
              end
          end
      end
  end.

Definition nameScan (req : Request) : Handler Response :=
  requireBlockchain (ID_ req);;
  '(start, count) ← parseNameScanParams (Params_ req) (ID_ req);
  r ← on_nameDB (ScanNames start count);
  names ← or_error (ID_ req) (-32603) "Failed to scan names: %v" r;
  h ← best_height;
  mret (successResponse (ID_ req) (formatNameRecords names h)).

(** ** Pending operations *)

Definition parseNamePendingFilter (raw : option json) : bytes :=
  match Unmarshal_slice raw with
  | Ok (p0 :: _) => default [] (as_string p0)
  | _ => []
  end.

(** [OpType.String()] *)
Definition op_String (o : NameOperation) : bytes :=
  match o with
  | NameNew => str "NAME_NEW"
  | NameFirstUpdate => str "NAME_FIRSTUPDATE"
  | NameUpdate => str "NAME_UPDATE"
  end.

Definition buildPendingNameOpResult (op : NameOperationInfo) : value :=
  VMap ([("name"%string, VStr (oi_Name op)); ("txid"%string, VStr (Hash_String (oi_TxHash op)));
         ("vout"%string, VInt (Z.of_nat (oi_OutputIndex op))); ("op"%string, VStr (op_String (oi_OpType op)));
         ("ismine"%string, VBool false)] ++
        (if bool_decide (oi_OpType op <> NameNew) then [("value"%string, VStr (oi_Value op))] else [])).

Definition appendPendingNameOps (result : list value) (nameOps : list NameOperationInfo) (nameFilter : bytes) :
    list value :=
  foldl (fun result op =>
    if negb (bool_decide (nameFilter = [])) && negb (bool_decide (oi_Name op = nameFilter)) then result
    else result ++ [buildPendingNameOpResult op]) result nameOps.

Definition namePending (req : Request) : Handler Response :=
  s ← gets id;
  if peerMgr_nil s then mret (successResponse (ID_ req) (VList []))
  else
    let nameFilter := parseNamePendingFilter (Params_ req) in
    let result := foldl (fun result tx => appendPendingNameOps result (ParseNameOperationsFromTx tx) nameFilter)
                    [] (GetAll (mempool (peerMgr s))) in
    mret (successResponse (ID_ req) (VList result)).

(** ** Building transactions *)

Definition prepareNameWalletRequest (req : Request) (minParams : nat) : Handler (list bytes) :=
  requireWallet (ID_ req);;
  requireBlockchain (ID_ req);;
  parseStringParams (Params_ req) (ID_ req) minParams.

(** [None] is a nil address. *)
Definition parseOptionalDestAddress (params : list bytes) (reqID : json) : Handler (option address) :=
  match params !! 2%nat with
  | None | Some [] => mret None
  | Some p =>
      addr ← or_error reqID (-5) "Invalid destination address: %v" (DecodeAddress p net_params);
      if is_AddressPubKeyHash addr then mret (Some addr)
      else reply_error reqID (-5) "Destination address must be P2PKH, got: %T"
  end.

Definition validateNameUpdateRequest (name newValue : bytes) (reqID : json) : Handler unit :=
  validateNameLength name reqID;; validateValueSize newValue reqID.

Definition lookupActiveNameRecord (name : bytes) (reqID : json) : Handler NameRecord :=
  r ← on_nameDB (GetName name);
  record ← or_error reqID (-4) "Name not found: %s" r;
  bestHeight ← best_height;
  if ExpiresAt record <? bestHeight then reply_error reqID (-4) "Name expired at block %d (current: %d)"
  else mret record.

Definition verifyNameOwnership (record : NameRecord) (reqID : json) : Handler unit :=
  w ← gets srv_wallet;
  if negb (HasKey (Address record) w) then
    reply_error reqID (-13) "Wallet does not have the private key for address: %s"
  else mret tt.

Definition wallet_utxo (u : UTXO) : wUTXO :=
  mkWUTXO (u_TxHash u) (u_OutIndex u) (u_Value u) (u_PkScript u) (u_Address u).

(** The last match wins; -1 when there is none. *)
Definition convertAndFindNameUTXO (dbUTXOs : list UTXO) (nameHash : bytes) (nameOutIndex : Z) : list wUTXO * Z :=
  foldl (fun '(utxos, nameUtxoIndex) dbUTXO =>
    let nameUtxoIndex :=
      if bool_decide (u_TxHash dbUTXO = nameHash) && (u_OutIndex dbUTXO =? nameOutIndex)
      then Z.of_nat (length utxos) else nameUtxoIndex in
    (utxos ++ [wallet_utxo dbUTXO], nameUtxoIndex)) ([], -1) dbUTXOs.

Definition collectNameUpdateUTXOs (name : bytes) (record : NameRecord) (reqID : json) : Handler (list wUTXO * Z) :=
  r ← on_nameDB (GetNameUTXO name);
  nameUTXO ← or_error reqID (-1) "Failed to get name UTXO: %v" r;
  r ← on_nameDB (GetUTXOsForAddress (Address record));
  walletUTXOs ← or_error reqID (-1) "Failed to get wallet UTXOs: %v" r;
  let '(utxos, nameUtxoIndex) := convertAndFindNameUTXO walletUTXOs (u_TxHash nameUTXO) (u_OutIndex nameUTXO) in
  if nameUtxoIndex =? -1 then reply_error reqID (-1) "Name UTXO not found in wallet UTXOs"
  else mret (utxos, nameUtxoIndex).

(** A result of the wallet that reads its keys only. *)
Definition ask_wallet {A} (f : Wallet -> res A) : Handler (res A) :=
  on_world (w ← get_wallet; lift (f w)).

Definition buildNameUpdateTx (name newValue : bytes) (destAddress : option address) (reqID : json) : Handler MsgTx :=
  record ← lookupActiveNameRecord name reqID;
  verifyNameOwnership record reqID;;
  '(utxos, nameUtxoIndex) ← collectNameUpdateUTXOs name record reqID;
  r ← ask_wallet (fun w => CreateNameUpdateTx w name newValue utxos nameUtxoIndex 1 destAddress);
  or_error reqID (-1) "Failed to create transaction: %v" r.

Definition txid_field (tx : MsgTx) : string * value := ("txid"%string, VStr (Hash_String (TxHash tx))).
Definition broadcasted : string * value := ("status"%string, VStr (str "broadcasted")).

Definition buildNameUpdateResult (tx : MsgTx) (name newValue : bytes) (destAddress : option address) :
    list (string * value) :=
  [txid_field tx; ("name"%string, VStr name); ("value"%string, VStr newValue); broadcasted] ++
  match destAddress with Some a => [("address"%string, VStr (EncodeAddress a))] | None => [] end.

Definition nameUpdate (env : Env) (req : Request) : Handler Response :=
  params ← prepareNameWalletRequest req 2;
  name ← nth_param params 0;
  newValue ← nth_param params 1;
  destAddress ← parseOptionalDestAddress params (ID_ req);
  validateNameUpdateRequest name newValue (ID_ req);;
  tx ← buildNameUpdateTx name newValue destAddress (ID_ req);
  broadcastAndRespond env tx (ID_ req) (buildNameUpdateResult tx name newValue destAddress).

Definition primaryWalletAddress (reqID : json) : Handler bytes :=
  w ← gets srv_wallet;
  match GetAddresses w with
  | [] => reply_error reqID (-1) "No addresses in wallet. Create an address first using getnewaddress."
  | a :: _ => mret a
  end.

Definition decodeWalletAddress (ownerAddress : bytes) (reqID : json) : Handler address :=
  or_error reqID (-5) "Invalid address: %v" (DecodeAddress ownerAddress net_params).

Definition convertNamedbUTXOs (walletUTXOs : list UTXO) : list wUTXO := wallet_utxo <$> walletUTXOs.

Definition loadWalletFundingUTXOs (ownerAddress : bytes) (reqID : json) : Handler (list wUTXO) :=
  r ← on_nameDB (GetUTXOsForAddress ownerAddress);
  walletUTXOs ← or_error reqID (-1) "Failed to get wallet UTXOs: %v" r;
  if bool_decide (walletUTXOs = []) then reply_error reqID (-6) "Insufficient funds. No UTXOs available in wallet."
  else mret (convertNamedbUTXOs walletUTXOs).

Definition getWalletAddressAndUTXOs (reqID : json) : Handler (address * list wUTXO) :=
  ownerAddress ← primaryWalletAddress reqID;
  addr ← decodeWalletAddress ownerAddress reqID;
  utxos ← loadWalletFundingUTXOs ownerAddress reqID;
  mret (addr, utxos).

Definition checkNameNotActive (name : bytes) (reqID : json) : Handler unit :=
  r ← on_nameDB (GetName name);
  match r with
  | Err _ => mret tt
  | Ok existingRecord =>
      bestHeight ← best_height;
      if ExpiresAt existingRecord >=? bestHeight then
        reply_error reqID (-25) "Name already exists and is not expired (expires at block %d, current: %d)"
      else mret tt
  end.

Definition nameNew (env : Env) (req : Request) : Handler Response :=
  params ← prepareNameWalletRequest req 1;
  name ← nth_param params 0;
  validateNameLength name (ID_ req);;
  checkNameNotActive name (ID_ req);;
  '(addr, utxos) ← getWalletAddressAndUTXOs (ID_ req);
  r ← on_world (on_rng GenerateRand);
  randBytes ← or_error (ID_ req) (-1) "Failed to generate random salt for NAME_NEW: %v" r;
  r ← ask_wallet (fun w => CreateNameNewTx w randBytes name utxos 1 addr);
  '(tx, randBytesReturned) ← or_error (ID_ req) (-1) "Failed to create NAME_NEW transaction: %v" r;
  broadcastAndRespond env tx (ID_ req)
    [txid_field tx; ("name"%string, VStr name);
     ("rand"%string, VStr (hex_EncodeToString randBytesReturned)); broadcasted].

Definition validateFirstUpdateRequest (name v : bytes) (reqID : json) : Handler unit :=
  validateNameLength name reqID;; validateValueSize v reqID.

Definition decodeFirstUpdateRand (randHex : bytes) (reqID : json) : Handler bytes :=
  or_error reqID (-5) "Invalid rand hex: %v" (hex_DecodeString randHex).

Definition validateNameNewCommitment (randBytes name : bytes) (reqID : json) : Handler unit :=
  let commitHash := ComputeNameNewHash Hash160 randBytes name in
  r ← on_nameDB (GetNameNew commitHash);
  nameNewRecord ← or_error reqID (-25)
    "NAME_NEW commitment not found. You must call name_new first and wait for confirmation." r;
  bestHeight ← best_height;
  let blocksSinceNameNew := int32 (bestHeight - nn_Height nameNewRecord) in
  if blocksSinceNameNew <? 12 then
    reply_error reqID (-25) "NAME_NEW not confirmed enough. Need 12 blocks, only %d blocks have passed."
  else if blocksSinceNameNew >? 36000 then
    reply_error reqID (-25) "NAME_NEW commitment expired. Maximum window is 36,000 blocks, but %d blocks have passed."
  else mret tt.

Fixpoint findFrom (i : Z) (utxos : list wUTXO) : Z :=
  match utxos with
  | [] => -1
  | utxo :: utxos =>
      if bool_decide (22 < length (wu_PkScript utxo))%nat && (at_ (wu_PkScript utxo) 0 =? opNameNew) then i
      else findFrom (i + 1) utxos
  end.

Definition findNameNewUTXOIndex (utxos : list wUTXO) : Z := findFrom 0 utxos.

Definition requireNameNewUTXOIndex (utxos : list wUTXO) (reqID : json) : Handler Z :=
  let nameNewUtxoIndex := findNameNewUTXOIndex utxos in
  if nameNewUtxoIndex <? 0 then
    reply_error reqID (-1) "No NAME_NEW UTXO found in wallet. Did you run name_new first?"
  else mret nameNewUtxoIndex.

Definition nameFirstUpdate (env : Env) (req : Request) : Handler Response :=
  params ← prepareNameWalletRequest req 3;
  name ← nth_param params 0;
  randHex ← nth_param params 1;
  v ← nth_param params 2;
  validateFirstUpdateRequest name v (ID_ req);;
  randBytes ← decodeFirstUpdateRand randHex (ID_ req);
  validateNameNewCommitment randBytes name (ID_ req);;
  '(addr, utxos) ← getWalletAddressAndUTXOs (ID_ req);
  nameNewUtxoIndex ← requireNameNewUTXOIndex utxos (ID_ req);
  r ← ask_wallet (fun w => CreateNameFirstUpdateTx w name randHex v utxos nameNewUtxoIndex 1 addr);
  tx ← or_error (ID_ req) (-1) "Failed to create NAME_FIRSTUPDATE transaction: %v" r;
  broadcastAndRespond env tx (ID_ req)
    [txid_field tx; ("name"%string, VStr name); ("value"%string, VStr v); broadcasted].

End names.
