(* ===== verification/RpcWallet.v ===== *)
(** * The RPC server: the wallet

    rpc/wallet_handlers.go.  The timer of the automatic lock is the deadline and the
    generation that [scheduleAutoLock] gave it; the goroutine that it starts is
    [runAutoLock], whose check of the generation and whose locking of the wallet are two
    critical sections. *)

From S2P Require Import Prelude Clock Float Json Bolt Record NameDB Utxo Config Script Wire Chain ChainUpdate.
From S2P Require Import Mempool MempoolSpec Network Node Encryption Wallet WalletTx RateLimit Rpc.

Section wallet.
Context {B : Bolt} {W : Wire} {G : BtcLib} {R : MapRange} {D : Btcd} {Q : BtcdQueries} {N : NetParams} {P : PeerLib}.
Context {K : Crypto} {L : KeyLib} {F : Disk} {J : WalletJson} {S : TxScript} {X : RpcLib}.

Abbreviation Handler := (@Handler B D P K L F).
Abbreviation Server := (@Server B D P K L F).

Definition getNewAddress (req : Request) : Handler Response :=
  requireWallet (ID_ req);;
  r ← on_world GenerateKey;
  address ← or_error (ID_ req) (-1) "Failed to generate address: %v" r;
  mret (successResponse (ID_ req) (VStr address)).

Definition listAddresses (req : Request) : Handler Response :=
  requireWallet (ID_ req);;
  w ← gets srv_wallet;
  mret (successResponse (ID_ req) (VList (VStr <$> GetAddresses w))).

(** ** Locking *)

Definition maxTimeout : Z := 31536000.

Definition parsePassphraseTimeout (params : list json) (reqID : json) : Handler Z :=
  match params !! 1%nat with
  | None => mret 60
  | Some p1 =>
      match as_float p1 with
      | None => reply_error reqID (-32602) "Invalid timeout parameter: expected integer"
      | Some timeoutFloat =>
          let timeout := int_of_float timeoutFloat in
          if timeout <=? 0 then reply_error reqID (-32602) "Invalid timeout: must be positive"
          else if timeout >? maxTimeout then reply_error reqID (-32602) "Invalid timeout: must be <= 1 year"
          else mret timeout
      end
  end.

Definition nextAutoLockGeneration (s : Server) : Z := uint64 (autoLockGen s + 1).

(** A timer that is set is stopped; a duration is an int64 of nanoseconds. *)
Definition scheduleAutoLock (now timeout : Z) (s : Server) : Server :=
  let gen := nextAutoLockGeneration s in
  set_autoLock (Some (now + int64 (timeout * Second), gen)) gen s.

(** The first critical section of [runAutoLock]: whether to go on. *)
Definition claimAutoLock (gen : Z) (s : Server) : bool * Server :=
  if bool_decide (autoLockGen s <> gen) then (false, s)
  else (true, set_autoLock None (autoLockGen s) s).

(** The second one; its error is logged. *)
Definition lockWallet (s : Server) : Server := set_world (Lock (world s)).2 s.

Definition runAutoLock (gen : Z) (s : Server) : Server :=
  let '(go, s) := claimAutoLock gen s in
  if go then lockWallet s else s.

(** The checks of [walletPassphrase] up to the unlocking, which gives the timeout. *)
Definition unlockRequest (req : Request) : Handler Z :=
  requireWallet (ID_ req);;
  params ← parseInterfaceParams (Params_ req) (ID_ req) 1;
  p0 ← nth_param params 0;
  match as_string p0 with
  | None => reply_error (ID_ req) (-32602) "Invalid password parameter: expected string"
  | Some password =>
      timeout ← parsePassphraseTimeout params (ID_ req);
      w ← gets srv_wallet;
      if negb (IsEncrypted w) then reply_error (ID_ req) (-13) "Wallet is not encrypted"
      else
        r ← on_world (Unlock password);
        _ ← or_error (ID_ req) (-14) "authentication failed" r;
        mret timeout
  end.

Definition walletPassphrase (env : Env) (req : Request) : Handler Response :=
  timeout ← unlockRequest req;
  updates (scheduleAutoLock (Now env) timeout);;
  mret (successResponse (ID_ req) VNil).

Definition cancelAutoLockTimer (s : Server) : Server := set_autoLock None (uint64 (autoLockGen s + 1)) s.

Definition validateWalletLockState (reqID : json) : Handler unit :=
  requireWallet reqID;;
  w ← gets srv_wallet;
  if negb (IsEncrypted w) then reply_error reqID (-13) "Wallet is not encrypted" else mret tt.

Definition walletLock (req : Request) : Handler Response :=
  validateWalletLockState (ID_ req);;
  updates cancelAutoLockTimer;;
  r ← on_world Lock;
  _ ← or_error (ID_ req) (-1) "Failed to lock wallet: %v" r;
  mret (successResponse (ID_ req) VNil).

Definition encryptWallet (req : Request) : Handler Response :=
  requireWallet (ID_ req);;
  match Unmarshal_slice (Params_ req) with
  | Err _ | Ok [] => reply_error (ID_ req) (-32602) "Invalid params: expected [password]"
  | Ok (p0 :: _) =>
      match as_string p0 with
      | None => reply_error (ID_ req) (-32602) "Invalid password parameter: expected string"
      | Some password =>
          r ← on_world (EncryptWallet password);
          _ ← or_error (ID_ req) (-8) "Failed to encrypt wallet: %v" r;
          mret (successResponse (ID_ req)
            (VStr (str "Wallet encrypted successfully. Please backup your wallet and remember your password.")))
      end
  end.

(** ** Balances *)

Definition validateBalanceState (reqID : json) : Handler unit := requireWallet reqID;; requireBlockchain reqID.

(** [float64(x) / 1e8] *)
Definition satoshisToNMC (totalSatoshis : Z) : float64 := fdiv (of_int totalSatoshis) (of_int 100000000).

(** An address whose outputs cannot be read is skipped. *)
Fixpoint sumWalletBalances (totalSatoshis : Z) (addresses : list bytes) : Handler Z :=
  match addresses with
  | [] => mret totalSatoshis
  | addr :: addresses =>
      r ← on_nameDB (GetUTXOsForAddress addr);
      match r with
      | Err _ => sumWalletBalances totalSatoshis addresses
      | Ok utxos =>
          sumWalletBalances (foldl (fun t utxo => int64 (t + u_Value utxo)) totalSatoshis utxos) addresses
      end
  end.

Definition getBalance (req : Request) : Handler Response :=
  validateBalanceState (ID_ req);;
  w ← gets srv_wallet;
  let addresses := GetAddresses w in
  if bool_decide (addresses = []) then mret (successResponse (ID_ req) (VFloat (of_int 0)))
  else
    total ← sumWalletBalances 0 addresses;
    mret (successResponse (ID_ req) (VFloat (satoshisToNMC total))).

(** ** Unspent outputs *)

Definition extractAddressFilter (param : json) : list bytes :=
  match as_slice param with Some addrs => omap as_string addrs | None => [] end.

(** Parameters of another type keep the defaults. *)
Definition parseListUnspentParams (rawParams : option json) : Z * Z * list bytes :=
  match Unmarshal_slice rawParams with
  | Err _ | Ok [] => (1, 9999999, [])
  | Ok (p0 :: rest) =>
      let minConf := from_option int_of_float 1 (as_float p0) in
      let maxConf := from_option int_of_float 9999999 (p1 ← head rest; as_float p1) in
      let filterAddresses := from_option extractAddressFilter [] (rest !! 1%nat) in
      (minConf, maxConf, filterAddresses)
  end.

Definition resolveTargetAddresses (filterAddresses : list bytes) : Handler (list bytes) :=
  if bool_decide (filterAddresses <> []) then mret filterAddresses
  else w ← gets srv_wallet; mret (GetAddresses w).

Definition calculateConfirmations (utxoHeight bestHeight : Z) : Z :=
  if utxoHeight >=? 0 then int32 (int32 (bestHeight - utxoHeight) + 1) else 0.

Definition buildUTXOResult (utxo : UTXO) (bestHeight minConf maxConf : Z) : option value :=
  let confirmations := calculateConfirmations (u_Height utxo) bestHeight in
  if (confirmations <? minConf) || (confirmations >? maxConf) then None
  else Some (VMap ([
    ("txid"%string, VStr (Hash_String (u_TxHash utxo))); ("vout"%string, VInt (u_OutIndex utxo));
    ("address"%string, VStr (u_Address utxo)); ("amount"%string, VFloat (satoshisToNMC (u_Value utxo)));
    ("confirmations"%string, VInt confirmations); ("spendable"%string, VBool true);
    ("solvable"%string, VBool true); ("safe"%string, VBool true)] ++
    (if bool_decide (u_PkScript utxo <> [])
     then [("scriptPubKey"%string, VStr (hex_EncodeToString (u_PkScript utxo)))] else []))).

Fixpoint collectFilteredUTXOs (addresses : list bytes) (bestHeight minConf maxConf : Z) : Handler (list value) :=
  match addresses with
  | [] => mret []
  | addr :: addresses =>
      r ← on_nameDB (GetUTXOsForAddress addr);
      match r with
      | Err _ => collectFilteredUTXOs addresses bestHeight minConf maxConf
      | Ok utxos =>
          rest ← collectFilteredUTXOs addresses bestHeight minConf maxConf;
          mret (omap (fun utxo => buildUTXOResult utxo bestHeight minConf maxConf) utxos ++ rest)
      end
  end.

Definition listUnspent (req : Request) : Handler Response :=
  validateBalanceState (ID_ req);;
  let '(minConf, maxConf, filterAddrs) := parseListUnspentParams (Params_ req) in
  addresses ← resolveTargetAddresses filterAddrs;
  bestHeight ← best_height;
  utxos ← collectFilteredUTXOs addresses bestHeight minConf maxConf;
  mret (successResponse (ID_ req) (VList utxos)).

End wallet.
