(* ===== verification/RpcChain.v ===== *)
(** * The RPC server: blocks and transactions

    rpc/blockchain_handlers.go. *)

From S2P Require Import Prelude Clock Float Json Bolt Record NameDB Utxo Config Script Wire Chain ChainUpdate.
From S2P Require Import Mempool MempoolSpec Network Node Encryption Wallet WalletTx RateLimit Rpc RpcWallet.

Section chain.
Context {B : Bolt} {W : Wire} {G : BtcLib} {R : MapRange} {D : Btcd} {Q : BtcdQueries} {N : NetParams} {P : PeerLib}.
Context {K : Crypto} {L : KeyLib} {F : Disk} {J : WalletJson} {S : TxScript} {X : RpcLib}.

Abbreviation Handler := (@Handler B D P K L F).

(** [BlockHeightByHash] of an unknown block is an error. *)
Definition height_of (bc : BlockChain) (hash : bytes) : Z := default (-1) (btcd_BlockHeightByHash (btcd bc) hash).

Definition serializeBlockHex (block : MsgBlock) (reqID : json) : Handler Response :=
  blockBytes ← or_error reqID (-1) "Failed to serialize block: %v" (block_Bytes block);
  mret (successResponse reqID (VStr (hex_EncodeToString blockBytes))).

(** [%08x] of a uint32. *)
Definition hex8 (bits : Z) : bytes := hex_EncodeToString (be_bytes 4 bits).

Definition buildVerboseBlockResult (bc : BlockChain) (block : MsgBlock) (hash : bytes) : res value :=
  let header := mb_Header block in
  let best := btcd_BestHeight (btcd bc) in
  let height := height_of bc hash in
  let confirmations := if height >=? 0 then int32 (int32 (best - height) + 1) else 0 in
  let txs := (fun tx => VStr (Hash_String (TxHash tx))) <$> mb_Transactions block in
  difficulty ← getDifficultyRatio (Bits header) net_params;
  let result := [
    ("hash"%string, VStr (Hash_String hash)); ("confirmations"%string, VInt confirmations);
    ("height"%string, VInt height); ("version"%string, VInt (hdr_Version header));
    ("merkleroot"%string, VStr (Hash_String (MerkleRoot header))); ("time"%string, VInt (Timestamp header));
    ("nonce"%string, VInt (Wire.Nonce header)); ("bits"%string, VStr (hex8 (Bits header)));
    ("difficulty"%string, VFloat difficulty); ("previousblockhash"%string, VStr (Hash_String (PrevBlock header)));
    ("tx"%string, VList txs)] in
  let next :=
    if (height >=? 0) && (height <? best) then
      match q_BlockHashByHeight (btcd bc) (int32 (height + 1)) with
      | Ok nextHash => [("nextblockhash"%string, VStr (Hash_String nextHash))]
      | Err _ => []
      end
    else [] in
  mret (VMap (result ++ next)).

Definition getBlock (req : Request) : Handler Response :=
  params ← parseInterfaceParams (Params_ req) (ID_ req) 1;
  hash ← parseHashParam params 0 (ID_ req);
  verbose ← parseVerboseParam params 1 (ID_ req);
  requireBlockchain (ID_ req);;
  bc ← gets srv_chain;
  block ← or_error (ID_ req) (-5) "Block not found: %v" (q_BlockByHash (btcd bc) hash);
  if negb verbose then serializeBlockHex block (ID_ req)
  else
    result ← no_panic (buildVerboseBlockResult bc block hash);
    mret (successResponse (ID_ req) result).

Definition parseBlockHeightParam (param : json) (reqID : json) : Handler Z :=
  match as_float param with
  | Some v =>
      if flt (of_int 2147483647) v || flt v (of_int (-2147483648)) then
        reply_error reqID (-32602) "Invalid params: height out of int32 range: %v"
      else
        let height := default 0 (integer_part v) in
        if height <? 0 then reply_error reqID (-8) "Block height out of range" else mret height
  | None => reply_error reqID (-32602) "Invalid params: height must be a number, got %T"
  end.

Definition getBlockHash (req : Request) : Handler Response :=
  params ← parseInterfaceParams (Params_ req) (ID_ req) 1;
  p0 ← nth_param params 0;
  height ← parseBlockHeightParam p0 (ID_ req);
  requireBlockchain (ID_ req);;
  bc ← gets srv_chain;
  hash ← or_error (ID_ req) (-8) "Block height out of range: %v" (q_BlockHashByHeight (btcd bc) height);
  mret (successResponse (ID_ req) (VStr (Hash_String hash))).

(** The loop from the best block down to [startHeight], for [n] more heights. *)
Fixpoint searchFrom (bc : BlockChain) (txid : bytes) (height : Z) (n : nat) : option (MsgTx * bytes * Z) :=
  match n with
  | O => None
  | Datatypes.S n =>
      let next := searchFrom bc txid (height - 1) n in
      match q_BlockHashByHeight (btcd bc) height with
      | Err _ => next
      | Ok hash =>
          match q_BlockByHash (btcd bc) hash with
          | Err _ => next
          | Ok block =>
              match list_find (fun tx => TxHash tx = txid) (mb_Transactions block) with
              | Some (_, tx) => Some (tx, hash, height)
              | None => next
              end
          end
      end
  end.

Definition searchTransaction (txid : bytes) (reqID : json) : Handler (MsgTx * bytes * Z * Z) :=
  bc ← gets srv_chain;
  let bestHeight := btcd_BestHeight (btcd bc) in
  let startHeight := int32 (bestHeight - 1000) in
  let startHeight := if startHeight <? 0 then 0 else startHeight in
  match searchFrom bc txid bestHeight (Z.to_nat (bestHeight - startHeight + 1)) with
  | Some (tx, hash, height) => mret (tx, hash, height, bestHeight)
  | None => reply_error reqID (-5) "Transaction not found: %s"
  end.

Definition serializeTransactionHex (tx : MsgTx) (reqID : json) : Response :=
  successResponse reqID (VStr (hex_EncodeToString (tx_Serialize tx))).

Definition buildVerboseTransactionResult (tx : MsgTx) (blockHash : bytes) (height bestHeight : Z) : value :=
  VMap [
    ("txid"%string, VStr (Hash_String (TxHash tx))); ("version"%string, VInt (tx_Version tx));
    ("locktime"%string, VInt (LockTime tx)); ("blockhash"%string, VStr (Hash_String blockHash));
    ("blockheight"%string, VInt height);
    ("confirmations"%string, VInt (int32 (int32 (bestHeight - height) + 1)));
    ("vin"%string, VList ((fun txIn => VMap [
       ("txid"%string, VStr (Hash_String (op_Hash (PreviousOutPoint txIn))));
       ("vout"%string, VInt (op_Index (PreviousOutPoint txIn)));
       ("sequence"%string, VInt (Sequence txIn))]) <$> TxIns tx));
    ("vout"%string, VList (imap (fun i txOut => VMap [
       ("value"%string, VFloat (satoshisToNMC (to_Value txOut))); ("n"%string, VInt (Z.of_nat i));
       ("scriptPubKey"%string, VMap [("hex"%string, VStr (hex_EncodeToString (PkScript txOut)))])]) (TxOuts tx)))].

Definition getRawTransaction (req : Request) : Handler Response :=
  params ← parseInterfaceParams (Params_ req) (ID_ req) 1;
  txid ← parseHashParam params 0 (ID_ req);
  verbose ← parseVerboseParam params 1 (ID_ req);
  requireBlockchain (ID_ req);;
  '(foundTx, foundBlockHash, foundHeight, bestHeight) ← searchTransaction txid (ID_ req);
  if negb verbose then mret (serializeTransactionHex foundTx (ID_ req))
  else mret (successResponse (ID_ req) (buildVerboseTransactionResult foundTx foundBlockHash foundHeight bestHeight)).

(** The bytes after the transaction are not looked at. *)
Definition sendRawTransaction (env : Env) (req : Request) : Handler Response :=
  params ← parseInterfaceParams (Params_ req) (ID_ req) 1;
  p0 ← nth_param params 0;
  match as_string p0 with
  | None => reply_error (ID_ req) (-32602) "Invalid params: hexstring must be a string"
  | Some hexStr =>
      txBytes ← or_error (ID_ req) (-22) "TX decode failed: %v" (hex_DecodeString hexStr);
      tx ← or_error (ID_ req) (-22) "TX decode failed: %v" (tx_Deserialize txBytes).1;
      b ← gets peerMgr_nil;
      if b : bool then reply_error (ID_ req) (-1) "Network not available: peer manager not initialized"
      else
        let txHash := VStr (Hash_String (TxHash tx)) in
        r ← on_peerMgr (BroadcastTx (Connected env) (Now env) (Some tx));
        match r with
        | Ok _ => mret (successResponse (ID_ req) txHash)
        | Err err =>
            if is_no_peers err then mret (successResponse (ID_ req) txHash)
            else mret (errorResponse (ID_ req) (-25) "Transaction rejected: %v")
        end
  end.

End chain.
