(* ===== verification/RpcServer.v ===== *)
(** * The RPC server: dispatch and HTTP

    The rest of rpc/server.go: the methods about the node, the dispatch of a request to
    its handler, authentication, and the HTTP handlers around them with their recovery
    from panics.  The JSON text of requests is the class [RequestText]; of net/http,
    [MaxBytesReader] and the parsing of a Basic authorization are modelled. *)

From S2P Require Import Prelude Clock Float Strings Base64 Json Bolt NameDB Config Script Wire Chain ChainUpdate.
From S2P Require Import Mempool MempoolSpec Network Node Encryption Wallet WalletTx RateLimit.
From S2P Require Import Rpc RpcNames RpcWallet RpcChain.

(** [json.NewDecoder(r).Decode(&req)] on the bytes that the reader yields; on an error
    the request holds the members that were decoded. *)
Class RequestText := Decode : bytes -> Request * option error.

Record HttpRequest := mkHttpRequest {
  hr_Method : bytes;
  hr_ContentLength : Z;          (* -1 when unknown *)
  hr_RemoteAddr : bytes;
  hr_Authorization : bytes;      (* the header, empty when absent *)
  hr_Body : bytes;
}.

(** [http.Error] writes a line of text. *)
Inductive Body := Text (s : string) | RpcReply (r : Response) | Health (h : list (string * value)).
Record HttpResponse := mkHttpResponse { hw_Status : Z; hw_Headers : list (string * string); hw_Body : Body }.

Record HealthResponse := mkHealth { Status : string; hl_BlockHeight : Z; hl_Peers : Z; hl_Syncing : bool }.

Section server.
Context {B : Bolt} {W : Wire} {G : BtcLib} {R : MapRange} {D : Btcd} {Q : BtcdQueries} {N : NetParams} {P : PeerLib}.
Context {K : Crypto} {L : KeyLib} {F : Disk} {J : WalletJson} {S : TxScript} {X : RpcLib} {T : RequestText}.

Abbreviation Handler := (@Handler B D P K L F).
Abbreviation Server := (@Server B D P K L F).

(** ** The node *)

Definition connections : Handler Z :=
  gets (fun s => if peerMgr_nil s then 0 else GetConnectedPeers (peerMgr s)).

Definition version_Version : bytes := str "0.1.0".

Definition getInfo (req : Request) : Handler Response :=
  requireBlockchain (ID_ req);;
  bc ← gets srv_chain;
  count ← connections;
  difficulty ← no_panic (getDifficultyRatio (q_BestBits (btcd bc)) net_params);
  mret (successResponse (ID_ req) (VMap [
    ("version"%string, VStr version_Version); ("blocks"%string, VInt (btcd_BestHeight (btcd bc)));
    ("connections"%string, VInt count); ("difficulty"%string, VFloat difficulty)])).

Definition getBlockCount (req : Request) : Handler Response :=
  requireBlockchain (ID_ req);;
  h ← best_height;
  mret (successResponse (ID_ req) (VInt h)).

Definition getBestBlockHash (req : Request) : Handler Response :=
  requireBlockchain (ID_ req);;
  bc ← gets srv_chain;
  mret (successResponse (ID_ req) (VStr (Hash_String (q_BestHash (btcd bc))))).

Definition getConnectionCount (req : Request) : Handler Response :=
  count ← connections;
  mret (successResponse (ID_ req) (VInt count)).

Definition peer_info_value (i : PeerInfo) : value :=
  VMap [("Addr"%string, VStr (pi_Addr i)); ("Connected"%string, VBool (pi_Connected i));
        ("Inbound"%string, VBool (pi_Inbound i))].

Definition getPeerInfo (env : Env) (req : Request) : Handler Response :=
  s ← gets id;
  if peerMgr_nil s then mret (successResponse (ID_ req) (VList []))
  else mret (successResponse (ID_ req) (VList (peer_info_value <$> GetPeerInfo (Connected env) (peerMgr s)))).

Definition getMetrics (env : Env) (req : Request) : Handler Response :=
  mret (successResponse (ID_ req) (Snapshot env)).

(** ** Dispatch *)

Definition handler : Type := Env -> Request -> Handler Response.

(** A [switch] on the method. *)
Fixpoint lookup_method {A} (table : list (string * A)) (method : bytes) : option A :=
  match table with
  | [] => None
  | (m, h) :: table => if bool_decide (method = str m) then Some h else lookup_method table method
  end.

Definition lookupInfoHandler : bytes -> option handler := lookup_method [
  ("getinfo"%string, fun _ => getInfo); ("getblockcount"%string, fun _ => getBlockCount);
  ("getbestblockhash"%string, fun _ => getBestBlockHash); ("getconnectioncount"%string, fun _ => getConnectionCount);
  ("getpeerinfo"%string, getPeerInfo); ("getmetrics"%string, getMetrics)].

Definition lookupNameHandler : bytes -> option handler := lookup_method [
  ("name_show"%string, fun _ => nameShow); ("name_new"%string, nameNew);
  ("name_firstupdate"%string, nameFirstUpdate); ("name_update"%string, nameUpdate);
  ("name_list"%string, fun _ => nameList); ("name_history"%string, fun _ => nameHistory);
  ("name_scan"%string, fun _ => nameScan); ("name_pending"%string, fun _ => namePending)].

Definition lookupWalletHandler : bytes -> option handler := lookup_method [
  ("getnewaddress"%string, fun _ => getNewAddress); ("listaddresses"%string, fun _ => listAddresses);
  ("walletpassphrase"%string, walletPassphrase); ("walletlock"%string, fun _ => walletLock);
  ("encryptwallet"%string, fun _ => encryptWallet); ("getbalance"%string, fun _ => getBalance);
  ("listunspent"%string, fun _ => listUnspent)].

Definition lookupBlockHandler : bytes -> option handler := lookup_method [
  ("getblock"%string, fun _ => getBlock); ("getblockhash"%string, fun _ => getBlockHash);
  ("getrawtransaction"%string, fun _ => getRawTransaction); ("sendrawtransaction"%string, sendRawTransaction)].

Definition methodNotFoundResponse (reqID : json) : Response := errorResponse reqID (-32601) "Method not found".

(** The reply of a handler, or its panic. *)
Definition processRequest (env : Env) (req : Request) : Server -> res Response * Server := fun s =>
  let m : Handler Response :=
    match lookupInfoHandler (Method req) with
    | Some h => h env req
    | None =>
        match lookupNameHandler (Method req) with
        | Some h => h env req
        | None =>
            match lookupWalletHandler (Method req) with
            | Some h => h env req
            | None =>
                match lookupBlockHandler (Method req) with
                | Some h => h env req
                | None => mret (methodNotFoundResponse (ID_ req))
                end
            end
        end
    end in
  match m s with
  | (Go r, s') | (Reply r, s') => (Ok r, s')
  | (Panic e, s') => (Err e, s')
  end.

(** ** Authentication *)

(** net/http's [parseBasicAuth]: the scheme in any case, base64, cut at the first
    colon. *)
Definition BasicAuth (auth : bytes) : option (bytes * bytes) :=
  let prefix := str "Basic " in
  if bool_decide (length auth < length prefix)%nat || negb (bool_decide (ascii_ToLower (take 6 auth) = ascii_ToLower prefix))
  then None
  else match b64_DecodeString (drop 6 auth) with
       | Err _ => None
       | Ok c =>
           match IndexByte c Byte.x3a with
           | None => None
           | Some i => Some (take i c, drop (Datatypes.S i) c)
           end
       end.

Definition isASCII (s : bytes) : bool :=
  forallb (fun b => negb ((Z_of_byte b <? 0x20) || (Z_of_byte b >? 0x7E))) s.

(** The bytes that [writeHMACField] writes. *)
Definition writeHMACField (mac data : bytes) : bytes :=
  mac ++ be_bytes 4 (uint32 (Z.of_nat (length data))) ++ data.

Definition credentials_mac (key user pass : bytes) : bytes :=
  HMAC_SHA256 key (writeHMACField (writeHMACField [] user) pass).

Definition checkAuth (auth : bytes) (s : Server) : bool :=
  match BasicAuth auth with
  | None => false
  | Some (user, pass) =>
      if negb (isASCII user) || negb (isASCII pass) then false
      else bool_decide (credentials_mac (authKey s) (rpcUser s) (rpcPassword s) = credentials_mac (authKey s) user pass)
  end.

Definition authEnabled (s : Server) : bool :=
  negb (bool_decide (rpcUser s = [])) || negb (bool_decide (rpcPassword s = [])).

(** The key comes from crypto/rand, whose state is the wallet's [entropy]; the key in
    use is kept when it fails. *)
Definition SetCredentials (user pass : bytes) : M Server unit :=
  if negb (isASCII user) || negb (isASCII pass) then fail (EMsg "rpc credentials must be printable ASCII")
  else
    r ← try (zoom world set_world (on_rng (rand_Read 32)));
    s ← get;
    let newKey := match r with Ok key => key | Err _ => authKey s end in
    modify (set_credentials user pass newKey).

(** ** HTTP *)

Definition MethodPost : bytes := str "POST".
Definition MethodGet : bytes := str "GET".

Definition resolveRateLimit (rateLimit : Z) : Z := if rateLimit =? 0 then defaultRateLimit else rateLimit.
Definition resolveMaxRequestSize (n : Z) : Z := if n =? 0 then defaultMaxRequestSize else n.

Definition quote : string := String (Ascii.ascii_of_nat 34) EmptyString.

Definition setSecurityHeaders : list (string * string) :=
  [("X-Content-Type-Options", "nosniff"); ("X-Frame-Options", "DENY");
   ("Content-Security-Policy", "default-src 'none'")]%string.

(** The status, headers and text of a refusal; [None] lets the request through. *)
Definition validateHTTPRequest (now : Z) (r : HttpRequest) (s : Server) :
    option (Z * list (string * string) * string) * Server :=
  if negb (bool_decide (hr_Method r = MethodPost)) then (Some (405, [], "Method not allowed"%string), s)
  else if hr_ContentLength r >? maxRequestSize s then (Some (413, [], "Request too large"%string), s)
  else
    let '(ok, l) := allow (extractIP (hr_RemoteAddr r)) now (limiter s) in
    let s := set_limiter l s in
    if negb ok then (Some (429, [], "Rate limit exceeded"%string), s)
    else if authEnabled s && negb (checkAuth (hr_Authorization r) s) then
      (Some (401, [("WWW-Authenticate", "Basic realm=" ++ quote ++ "nmcd RPC" ++ quote)]%string, "Unauthorized"%string), s)
    else (None, s).

Definition json_header : string * string := ("Content-Type", "application/json")%string.

(** The reader yields at most [maxRequestSize] bytes before it fails. *)
Definition handleRequest (env : Env) (r : HttpRequest) (s : Server) : res HttpResponse * Server :=
  match validateHTTPRequest (Now env) r s with
  | (Some (status, headers, text), s) => (Ok (mkHttpResponse status (setSecurityHeaders ++ headers) (Text text)), s)
  | (None, s) =>
      let '(req, err) := Decode (take (Z.to_nat (maxRequestSize s)) (hr_Body r)) in
      match err with
      | Some _ =>
          (Ok (mkHttpResponse 200 (setSecurityHeaders ++ [json_header])
                 (RpcReply (errorResponse (ID_ req) (-32700) "Parse error"))), s)
      | None =>
          match processRequest env req s with
          | (Ok resp, s) => (Ok (mkHttpResponse 200 (setSecurityHeaders ++ [json_header]) (RpcReply resp)), s)
          | (Err e, s) => (Err e, s)
          end
      end
  end.

(** A panic becomes an internal error; the headers that were set stay. *)
Definition withPanicRecovery (handler : HttpRequest -> Server -> res HttpResponse * Server)
    (headers : list (string * string)) (r : HttpRequest) (s : Server) : HttpResponse * Server :=
  match handler r s with
  | (Ok resp, s) => (resp, s)
  | (Err _, s) => (mkHttpResponse 500 headers (Text "Internal server error"), s)
  end.

(** [syncing] is left out when it is false. *)
Definition health_value (h : HealthResponse) : list (string * value) :=
  [("status"%string, VStr (str (Status h))); ("block_height"%string, VInt (hl_BlockHeight h));
   ("peers"%string, VInt (hl_Peers h))] ++ (if hl_Syncing h then [("syncing"%string, VBool true)] else []).

Definition writeHealthResponse (statusCode : Z) (resp : HealthResponse) : HttpResponse :=
  mkHttpResponse statusCode [json_header] (Health (health_value resp)).

Definition handleHealth (r : HttpRequest) (s : Server) : HttpResponse :=
  if negb (bool_decide (hr_Method r = MethodGet)) then mkHttpResponse 405 [] (Text "Method not allowed")
  else if blockchain_nil s then writeHealthResponse 503 (mkHealth "initializing" 0 0 false)
  else
    let peers := if peerMgr_nil s then 0 else GetConnectedPeers (peerMgr s) in
    writeHealthResponse 200 (mkHealth "healthy" (btcd_BestHeight (btcd (srv_chain s))) peers false).

Definition readyPeerState (s : Server) : Z * bool :=
  if peerMgr_nil s then (0, false) else (GetConnectedPeers (peerMgr s), pm_IsSyncing (peerMgr s)).

Definition readyStatus (s : Server) : Z * HealthResponse :=
  if blockchain_nil s then (503, mkHealth "initializing" 0 0 true)
  else
    let best := btcd_BestHeight (btcd (srv_chain s)) in
    let '(peers, syncing) := readyPeerState s in
    if syncing then (503, mkHealth "syncing" best peers true)
    else (200, mkHealth "ready" best peers false).

Definition handleReady (r : HttpRequest) (s : Server) : HttpResponse :=
  if negb (bool_decide (hr_Method r = MethodGet)) then mkHttpResponse 405 [] (Text "Method not allowed")
  else let '(statusCode, resp) := readyStatus s in writeHealthResponse statusCode resp.

(** The routes of [newRPCMux], by the path of the request. *)
Definition newRPCMux (env : Env) (path : bytes) (r : HttpRequest) (s : Server) : HttpResponse * Server :=
  if bool_decide (path = str "/health") then
    withPanicRecovery (fun r s => (Ok (handleHealth r s), s)) [] r s
  else if bool_decide (path = str "/ready") then
    withPanicRecovery (fun r s => (Ok (handleReady r s), s)) [] r s
  else withPanicRecovery (handleRequest env) setSecurityHeaders r s.

(** [NewServer] after the listener is open and the key is drawn. *)
Definition NewServer (no_chain no_peerMgr no_wallet : bool) (pm : PeerManager) (w : World) (user pass key : bytes)
    (rateLimit maxSize : Z) : Server :=
  {| blockchain_nil := no_chain; peerMgr_nil := no_peerMgr; wallet_nil := no_wallet; peerMgr := pm; world := w;
     rpcUser := user; rpcPassword := pass; authKey := key;
     limiter := newRateLimiter (resolveRateLimit rateLimit); maxRequestSize := resolveMaxRequestSize maxSize;
     autoLockTimer := None; autoLockGen := 0 |}.

End server.
