(* ===== verification/Client.v ===== *)
(** * The embedded client

    client/types.go and client/embedded.go: the client keeps the chain, which the peer
    manager works on too, and the wallet.  A call gets the context's state: whether it is
    done when the call looks, and, while it waits, what the ticker and the context do
    ([wait_event]).  The file system and DNS are the class [ClientOS]. *)

From S2P Require Import Prelude Clock Float Strings Json Bolt Record NameDB Utxo Config Script Wire Chain ChainUpdate.
From S2P Require Import Mempool MempoolSpec Network Node Encryption Wallet WalletTx RateLimit Rpc RpcNames.

(** [BlockByHeight] of btcd's chain: the transactions of the block. *)
Class BtcdBlocks {D : Btcd} := q_BlockByHeight : btcd_state -> Z -> res (list MsgTx).

(** ** Types *)

Record cNameRecord := mkCRecord {
  cr_Name : bytes; cr_Value : bytes; cr_TxHash : bytes; cr_Height : Z; cr_ExpiresAt : Z; cr_ExpiresIn : Z;
  cr_Address : bytes; cr_UpdatedAt : Z;
}.

Record RegisterOpts := mkRegisterOpts {
  FromAddress : bytes; ro_Wait : bool; ro_Confirmations : Z; ro_FeeRate : Z }.
Record UpdateOpts := mkUpdateOpts {
  TransferTo : bytes; uo_Wait : bool; uo_Confirmations : Z; uo_FeeRate : Z }.

Inductive TxStatus := TxStatusPending | TxStatusConfirmed | TxStatusFailed.
Record TxResult := mkTxResult {
  tr_TxHash : bytes; tr_Name : bytes; tr_Status : TxStatus; tr_Confirmations : Z; tr_BlockHeight : Z; tr_BlockHash : bytes }.

Record ListFilter := mkListFilter {
  NamePattern : bytes; Namespace : bytes; lf_Address : bytes; IncludeExpired : bool; Limit : Z; Offset : Z }.

Record NodeInfo := mkNodeInfo {
  ni_Version : bytes; ProtocolVersion : Z; BlockHeight : Z; BestBlockHash : bytes; Connections : Z;
  NetworkName : bytes; ni_Mode : bytes }.

Inductive ClientMode := ModeAuto | ModeEmbedded | ModeDaemon | ModeOther (n : Z).
Record ClientConfig := mkClientConfig {
  Mode : ClientMode; DataDir : bytes; cc_Network : bytes; RPCAddr : bytes; RPCUser : bytes; RPCPassword : bytes;
  MaxPeers : Z; BootstrapPeers : list bytes; DisableWallet : bool }.

Definition ErrNotFound : error := EMsg "name not found".                    (* client.ErrNameNotFound *)
Definition ErrNameExpired : error := EMsg "name has expired".
Definition ErrNameExists : error := EMsg "name already registered".
Definition ErrInvalidName : error := EMsg "invalid name format".
Definition ErrInvalidValue : error := EMsg "invalid value format".
Definition ErrInsufficientFunds : error := EMsg "insufficient funds for operation".
Definition ErrNoWallet : error := EMsg "wallet not initialized".
Definition ErrDaemonUnavailable : error := EMsg "daemon unavailable".
Definition ErrContextCanceled : error := EMsg "context canceled".

(** ** The state *)

Section client.
Context {B : Bolt} {W : Wire} {G : BtcLib} {R : MapRange} {D : Btcd} {Q : BtcdQueries} {BB : BtcdBlocks}.
Context {N : NetParams} {P : PeerLib} {K : Crypto} {L : KeyLib} {F : Disk} {J : WalletJson} {S : TxScript} {X : RpcLib}.

Record EmbeddedClient := mkEmbedded {
  ec_peerMgr : @PeerManager P BlockChain;
  ec_no_peerMgr : bool;
  ec_world : World;
  ec_no_wallet : bool;
  ec_network : bytes;
  ec_closed : bool;
}.

Definition set_ec_peerMgr (pm : PeerManager) (c : EmbeddedClient) : EmbeddedClient :=
  mkEmbedded pm (ec_no_peerMgr c) (ec_world c) (ec_no_wallet c) (ec_network c) (ec_closed c).
Definition set_ec_world (w : World) (c : EmbeddedClient) : EmbeddedClient :=
  mkEmbedded (ec_peerMgr c) (ec_no_peerMgr c) w (ec_no_wallet c) (ec_network c) (ec_closed c).
Definition set_ec_closed (b : bool) (c : EmbeddedClient) : EmbeddedClient :=
  mkEmbedded (ec_peerMgr c) (ec_no_peerMgr c) (ec_world c) (ec_no_wallet c) (ec_network c) b.

Definition ec_chain (c : EmbeddedClient) : BlockChain := blockchain (ec_peerMgr c).
Definition ec_wallet (c : EmbeddedClient) : Wallet := wallet (ec_world c).

Abbreviation C := (M EmbeddedClient).

Definition asks {A} (f : EmbeddedClient -> A) : C A := c ← get; mret (f c).
Definition on_db {A} (m : M NameDatabase A) : C A := zoom ec_peerMgr set_ec_peerMgr (in_chain (in_nameDB m)).
Definition on_ec_world {A} (m : M World A) : C A := zoom ec_world set_ec_world m.
Definition ask_ec_wallet {A} (f : Wallet -> res A) : C A := w ← asks ec_wallet; lift (f w).
Definition bestHeightOf : C Z := asks (fun c => btcd_BestHeight (btcd (ec_chain c))).

(** An error that the caller looks at; a panic is not one. *)
Definition attempt {A} (m : C A) : C (res A) := fun c =>
  match m c with
  | (Err e, c') => if panics e then (Err e, c') else (Ok (Err e), c')
  | (Ok a, c') => (Ok (Ok a), c')
  end.

(** What a call that waits sees: the ticker, when others have changed the chain and the
    peers, or the context's end. *)
Inductive wait_event := Tick (pm : @PeerManager P BlockChain) | CtxDone.
Record context := mkContext { ctx_done : bool; ctx_events : list wait_event }.
(** A call that is still waiting when the events are over has not returned. *)
Definition Blocked : error := EPanic "has not returned".

(** ** Starting *)

Class ClientOS := {
  UserHomeDir : res bytes;
  os_MkdirAll : bytes -> res unit;
  LookupHost : bytes -> res (list bytes);            (* of one DNS seed, within its timeout *)
}.

Context {OS : ClientOS}.

Definition applyConfigDefaults (cfg : ClientConfig) : res ClientConfig :=
  dataDir ← (if bool_decide (DataDir cfg = [])
             then homeDir ← wrap_err "failed to get home directory" UserHomeDir; mret (filepath_Join [homeDir; str ".nmcd"])
             else mret (DataDir cfg));
  let network := if bool_decide (cc_Network cfg = []) then str "mainnet" else cc_Network cfg in
  let maxPeers := if MaxPeers cfg =? 0 then 8 else MaxPeers cfg in
  _ ← wrap_err "failed to create data directory %q" (os_MkdirAll dataDir);
  mret (mkClientConfig (Mode cfg) dataDir network (RPCAddr cfg) (RPCUser cfg) (RPCPassword cfg) maxPeers
          (BootstrapPeers cfg) (DisableWallet cfg)).

Definition resolveChainParams (network : bytes) : res Params :=
  if bool_decide (network = str "mainnet") then Ok NamecoinMainNetParams
  else if bool_decide (network = str "testnet") then Ok NamecoinTestNetParams
  else if bool_decide (network = str "regtest") then Ok NamecoinRegTestParams
  else Err (EMsg "unknown network: %s").

(** The wallet of the data directory, unless it is disabled. *)
Definition initWallet (cfg : ClientConfig) (p : Params) : M World unit :=
  if DisableWallet cfg then mret tt else wrapM "failed to initialize wallet" (NewWallet p).

(** network/seeds.go: the addresses of the seeds that answer, and the last error. *)
Fixpoint resolve_seeds (defaultPort : bytes) (seeds : list bytes) : list bytes * option error :=
  match seeds with
  | [] => ([], None)
  | seed :: seeds =>
      let '(addresses, lastErr) := resolve_seeds defaultPort seeds in
      match LookupHost seed with
      | Err err => (addresses, Some (default (EWrap "DNS lookup failed for %s" err) lastErr))
      | Ok hosts => (((fun host => JoinHostPort host defaultPort) <$> hosts) ++ addresses, lastErr)
      end
  end.

Definition Resolve (seeds : list bytes) (defaultPort : bytes) : res (list bytes) :=
  let '(addresses, lastErr) := resolve_seeds defaultPort seeds in
  match addresses, lastErr with
  | [], Some err => Err (EWrap "failed to resolve any seed nodes" err)
  | _, _ => Ok addresses
  end.

Definition ResolveSeedNodes (seeds : list bytes) (defaultPort : bytes) : list bytes :=
  match Resolve seeds defaultPort with Ok addresses => addresses | Err _ => [] end.

Definition resolveBootstrapPeers (cfg : ClientConfig) : list bytes :=
  if bool_decide (BootstrapPeers cfg <> []) then BootstrapPeers cfg
  else ResolveSeedNodes (DNSSeeds (cc_Network cfg)) (DefaultPort (cc_Network cfg)).

(** [opened] is what [chain.NewBlockChain] gives for the data directory; the addresses to
    dial are given back with the client. *)
Definition NewEmbeddedClient (cfg : ClientConfig) (opened : bytes -> Params -> res BlockChain) (w : World) :
    res (EmbeddedClient * list bytes) :=
  cfg ← applyConfigDefaults cfg;
  p ← resolveChainParams (cc_Network cfg);
  bc ← wrap_err "failed to create blockchain" (opened (DataDir cfg) p);
  let '(r, w) := initWallet cfg p w in
  _ ← r;
  mret (mkEmbedded (NewPeerManager bc (MaxPeers cfg)) false w (DisableWallet cfg) (cc_Network cfg) false,
        resolveBootstrapPeers cfg).

(** ** Reading *)

Definition checkClientContext (ctx : context) : res unit := check (negb (ctx_done ctx)) ErrContextCanceled.

Definition checkOpenState : C unit :=
  closed ← asks ec_closed; lift (check (negb closed) (EMsg "client is closed")).

Definition checkContextAndState (ctx : context) : C unit := lift (checkClientContext ctx);; checkOpenState.

Definition convertToClientRecord (record : NameRecord) (bestHeight : Z) : cNameRecord :=
  mkCRecord (Name record) (Value record) (Hash_String (Record.TxHash record)) (Height record) (ExpiresAt record)
    (int32 (ExpiresAt record - bestHeight)) (Address record) (UpdatedAt record).

Definition ResolveName (ctx : context) (name : bytes) : C cNameRecord :=
  checkContextAndState ctx;;
  if bool_decide (name = []) then fail ErrInvalidName
  else
    r ← attempt (on_db (GetName name));
    match r with
    | Err err => if is_not_found err then fail ErrNotFound else fail (EWrap "failed to get name" err)
    | Ok record =>
        bestHeight ← bestHeightOf;
        if ExpiresAt record <? bestHeight then fail ErrNameExpired
        else mret (convertToClientRecord record bestHeight)
    end.

Definition normalizeListFilter (filter : option ListFilter) : ListFilter :=
  match filter with
  | None => mkListFilter [] [] [] false 100 0
  | Some f =>
      let limit := if Limit f <=? 0 then 100 else Limit f in
      let limit := if limit >? 10000 then 10000 else limit in
      mkListFilter (NamePattern f) (Namespace f) (lf_Address f) (IncludeExpired f) limit (Offset f)
  end.

(** [matchesNamespace] and [matchesPattern] are the same test. *)
Definition matchesPattern (name pattern : bytes) : bool :=
  if bool_decide (pattern = []) then true
  else bool_decide (length pattern <= length name)%nat && bool_decide (take (length pattern) name = pattern).

Definition matchesFilter (record : NameRecord) (f : ListFilter) (bestHeight : Z) : bool :=
  if negb (IncludeExpired f) && (ExpiresAt record <? bestHeight) then false
  else if negb (matchesPattern (Name record) (Namespace f)) then false
  else if negb (matchesPattern (Name record) (NamePattern f)) then false
  else if negb (bool_decide (lf_Address f = [])) && negb (bool_decide (Address record = lf_Address f)) then false
  else true.

Definition filterAndConvertRecords (dbRecords : list NameRecord) (f : ListFilter) (bestHeight : Z) : list cNameRecord :=
  omap (fun record => if matchesFilter record f bestHeight then Some (convertToClientRecord record bestHeight) else None)
    dbRecords.

Definition applyPagination (filtered : list cNameRecord) (f : ListFilter) : list cNameRecord :=
  if (Offset f >? 0) && (Offset f >=? Z.of_nat (length filtered)) then []
  else
    let filtered := if Offset f >? 0 then drop (Z.to_nat (Offset f)) filtered else filtered in
    if Z.of_nat (length filtered) >? Limit f then take (Z.to_nat (Limit f)) filtered else filtered.

Definition ec_ListNames (ctx : context) (filter : option ListFilter) : C (list cNameRecord) :=
  checkContextAndState ctx;;
  let f := normalizeListFilter filter in
  dbRecords ← wrapM "failed to list names" (on_db ListNames);
  bestHeight ← bestHeightOf;
  mret (applyPagination (filterAndConvertRecords dbRecords f bestHeight) f).

Definition GetNameHistory (ctx : context) (name : bytes) : C (list cNameRecord) :=
  checkContextAndState ctx;;
  if bool_decide (name = []) then fail ErrInvalidName
  else
    dbRecords ← wrapM "failed to get name history" (on_db (GetHistory name));
    bestHeight ← bestHeightOf;
    mret ((fun record => convertToClientRecord record bestHeight) <$> dbRecords).

Definition GetInfo (ctx : context) : C NodeInfo :=
  checkContextAndState ctx;;
  c ← get;
  let bc := ec_chain c in
  mret (mkNodeInfo (str "0.1.0") 70015 (btcd_BestHeight (btcd bc)) (Hash_String (q_BestHash (btcd bc)))
          (if ec_no_peerMgr c then 0 else GetConnectedPeers (ec_peerMgr c)) (ec_network c) (str "embedded")).

(** ** Waiting *)

(** The loop from the best block down, for [n] more heights. *)
Fixpoint findHeight (bc : BlockChain) (txHash : bytes) (height : Z) (n : nat) : option Z :=
  match n with
  | O => None
  | Datatypes.S n =>
      match q_BlockByHeight (btcd bc) height with
      | Err _ => findHeight bc txHash (height - 1) n
      | Ok txs =>
          if existsb (fun tx => bool_decide (TxHash tx = txHash)) txs then Some height
          else findHeight bc txHash (height - 1) n
      end
  end.

Definition getTransactionConfirmationStatus (bc : BlockChain) (txHash : bytes) : res (Z * Z) :=
  let currentHeight := btcd_BestHeight (btcd bc) in
  let startHeight := int32 (currentHeight - 1000) in
  let startHeight := if startHeight <? 0 then 0 else startHeight in
  match findHeight bc txHash currentHeight (Z.to_nat (currentHeight - startHeight + 1)) with
  | Some height => Ok (height, currentHeight)
  | None => Err (EMsg "transaction not found in recent blocks")
  end.

Definition hasEnoughConfirmations (bc : BlockChain) (txHash : bytes) (required : Z) : bool :=
  match getTransactionConfirmationStatus bc txHash with
  | Err _ => false
  | Ok (txHeight, currentHeight) => int32 (int32 (currentHeight - txHeight) + 1) >=? int32 required
  end.

Fixpoint pollForConfirmation (txHash : bytes) (required : Z) (events : list wait_event) : C unit :=
  match events with
  | [] => fail Blocked
  | CtxDone :: _ => fail ErrContextCanceled
  | Tick pm :: events =>
      modify (set_ec_peerMgr pm);;
      bc ← asks ec_chain;
      if hasEnoughConfirmations bc txHash required then mret tt else pollForConfirmation txHash required events
  end.

Definition WaitForConfirmation (ctx : context) (txHash : bytes) (confirmations : Z) : C unit :=
  checkContextAndState ctx;;
  if confirmations <? 1 then fail (EMsg "confirmations must be at least 1, got %d")
  else
    txHashBytes ← lift (wrap_err "invalid transaction hash" (NewHashFromStr txHash));
    bc ← asks ec_chain;
    if hasEnoughConfirmations bc txHashBytes confirmations then mret tt
    else pollForConfirmation txHashBytes confirmations (ctx_events ctx).

(** ** Registering and updating *)

Definition checkClientState (ctx : context) : C unit :=
  lift (checkClientContext ctx);;
  c ← get;
  if ec_closed c then fail (EMsg "client is closed")
  else if ec_no_wallet c then fail ErrNoWallet
  else mret tt.

Definition validateRegistrationInputs (name value : bytes) : res unit :=
  if (blen name =? 0) || (blen name >? 255) then Err (EWrap "%w: length %d (must be 1-255)" ErrInvalidName)
  else if blen value >? MaxValueLengthUI then Err (EWrap "%w: length %d (max %d)" ErrInvalidValue)
  else Ok tt.

Definition resolveOwnerAddress (fromAddress : bytes) : C bytes :=
  w ← asks ec_wallet;
  if negb (bool_decide (fromAddress = [])) then
    if negb (HasKey fromAddress w) then fail (EMsg "wallet does not have key for address: %s") else mret fromAddress
  else match GetAddresses w with
       | addr :: _ => mret addr
       | [] => wrapM "failed to generate wallet address" (on_ec_world GenerateKey)
       end.

(** [convertToWalletUTXOs] is [convertNamedbUTXOs]. *)
Fixpoint find_utxo (i : Z) (p : UTXO -> bool) (utxos : list UTXO) : option Z :=
  match utxos with
  | [] => None
  | utxo :: utxos => if p utxo then Some i else find_utxo (i + 1) p utxos
  end.

Definition findNameNewUTXO (utxos : list UTXO) (txHash : bytes) : res Z :=
  option_res (EMsg "NAME_NEW UTXO not found for NAME_FIRSTUPDATE")
    (find_utxo 0 (fun utxo => bool_decide (Hash_String (u_TxHash utxo) = Hash_String txHash) && (u_OutIndex utxo =? 0)) utxos).

Definition findNameUTXO (utxos : list UTXO) (txHash : bytes) (outIndex : Z) : res Z :=
  option_res (EMsg "name UTXO not found in available UTXOs (expected tx %s, output %d)")
    (find_utxo 0 (fun utxo => bool_decide (u_TxHash utxo = txHash) && (u_OutIndex utxo =? outIndex)) utxos).

Definition checkNameAvailability (name : bytes) : C unit :=
  r ← attempt (on_db (GetName name));
  match r with
  | Err _ => mret tt
  | Ok existing =>
      bestHeight ← bestHeightOf;
      if ExpiresAt existing >=? bestHeight then fail (EWrap "%w: %s" ErrNameExists) else mret tt
  end.

Definition normalizeRegisterOpts (opts : option RegisterOpts) : RegisterOpts :=
  let o := default (mkRegisterOpts [] false 1 1) opts in
  mkRegisterOpts (FromAddress o) (ro_Wait o) (if ro_Confirmations o =? 0 then 1 else ro_Confirmations o)
    (if ro_FeeRate o =? 0 then 1 else ro_FeeRate o).

Definition normalizeUpdateOpts (opts : option UpdateOpts) : UpdateOpts :=
  let o := default (mkUpdateOpts [] false 1 1) opts in
  mkUpdateOpts (TransferTo o) (uo_Wait o) (if uo_Confirmations o =? 0 then 1 else uo_Confirmations o)
    (if uo_FeeRate o =? 0 then 1 else uo_FeeRate o).

Definition prepareWalletResources (fromAddress : bytes) : C (bytes * list wUTXO * KeyPair) :=
  ownerAddr ← resolveOwnerAddress fromAddress;
  utxos ← wrapM "failed to get UTXOs" (on_db (GetUTXOsForAddress ownerAddr));
  if bool_decide (utxos = []) then fail (EWrap "%w: no UTXOs available for address %s" ErrInsufficientFunds)
  else
    ownerBtcAddr ← wrapM "failed to get owner key" (ask_ec_wallet (GetKey ownerAddr));
    mret (ownerAddr, convertNamedbUTXOs utxos, ownerBtcAddr).

(** A broadcast that fails is logged. *)
Definition broadcast_logged (env : Env) (tx : MsgTx) : C unit :=
  no_pm ← asks ec_no_peerMgr;
  if no_pm : bool then mret tt
  else
    _ ← attempt (zoom ec_peerMgr set_ec_peerMgr (BroadcastTx (Connected env) (Now env) (Some tx)));
    mret tt.

Definition createAndBroadcastNameNew (env : Env) (name : bytes) (walletUTXOs : list wUTXO) (feeRate : Z)
    (ownerBtcAddr : KeyPair) : C (MsgTx * bytes) :=
  randBytes ← wrapM "failed to generate random bytes" (on_ec_world (on_rng GenerateRand));
  '(nameNewTx, randUsed) ← wrapM "failed to create NAME_NEW transaction"
    (ask_ec_wallet (fun w => CreateNameNewTx w randBytes name walletUTXOs feeRate (kp_Address ownerBtcAddr)));
  broadcast_logged env nameNewTx;;
  mret (nameNewTx, randUsed).

Definition createNameFirstUpdate (name value nameNewTxHash randUsed ownerAddr : bytes) (ownerBtcAddr : KeyPair)
    (feeRate : Z) : C MsgTx :=
  utxos ← wrapM "failed to get UTXOs for NAME_FIRSTUPDATE" (on_db (GetUTXOsForAddress ownerAddr));
  nameNewUtxoIndex ← lift (findNameNewUTXO utxos nameNewTxHash);
  wrapM "failed to create NAME_FIRSTUPDATE transaction"
    (ask_ec_wallet (fun w => CreateNameFirstUpdateTx w name (hex_EncodeToString randUsed) value (convertNamedbUTXOs utxos)
                               nameNewUtxoIndex feeRate (kp_Address ownerBtcAddr))).

Definition completeRegistration (env : Env) (ctx : context) (name value nameNewTxHash randUsed ownerAddr : bytes)
    (ownerBtcAddr : KeyPair) (opts : RegisterOpts) (result : TxResult) : C TxResult :=
  let confirmations := if ro_Confirmations opts <? 12 then 12 else ro_Confirmations opts in
  wrapM "failed to wait for NAME_NEW confirmation"
    (WaitForConfirmation ctx (Hash_String nameNewTxHash) confirmations);;
  tx ← createNameFirstUpdate name value nameNewTxHash randUsed ownerAddr ownerBtcAddr (ro_FeeRate opts);
  broadcast_logged env tx;;
  mret (mkTxResult (Hash_String (TxHash tx)) (tr_Name result) TxStatusPending 0 (tr_BlockHeight result) (tr_BlockHash result)).

Definition RegisterName (env : Env) (ctx : context) (name value : bytes) (opts : option RegisterOpts) : C TxResult :=
  checkClientState ctx;;
  lift (validateRegistrationInputs name value);;
  checkNameAvailability name;;
  let opts := normalizeRegisterOpts opts in
  '(ownerAddr, walletUTXOs, ownerBtcAddr) ← prepareWalletResources (FromAddress opts);
  '(nameNewTx, randUsed) ← createAndBroadcastNameNew env name walletUTXOs (ro_FeeRate opts) ownerBtcAddr;
  let result := mkTxResult (Hash_String (TxHash nameNewTx)) name TxStatusPending 0 0 [] in
  if negb (ro_Wait opts) then mret result
  else completeRegistration env ctx name value (TxHash nameNewTx) randUsed ownerAddr ownerBtcAddr opts result.

Definition getAndValidateNameRecord (name : bytes) : C NameRecord :=
  r ← attempt (on_db (GetName name));
  match r with
  | Err err =>
      if is_not_found err then fail (EWrap "%w: %s" ErrNotFound) else fail (EWrap "failed to get name record" err)
  | Ok nameRecord =>
      bestHeight ← bestHeightOf;
      if ExpiresAt nameRecord <? bestHeight then
        fail (EWrap "%w: %s (expired at height %d, current height %d)" ErrNameExpired)
      else mret nameRecord
  end.

Definition parseTransferAddress (transferTo currentOwner : bytes) : res (option address) :=
  if bool_decide (transferTo = []) then Ok None
  else if bool_decide (transferTo = currentOwner) then Ok None
  else destAddr ← wrap_err "invalid TransferTo address %q" (DecodeAddress transferTo net_params); mret (Some destAddr).

Definition createUpdateTransaction (name value : bytes) (nameRecord : NameRecord) (opts : UpdateOpts) : C MsgTx :=
  utxos ← wrapM "failed to get UTXOs" (on_db (GetUTXOsForAddress (Address nameRecord)));
  if bool_decide (utxos = []) then fail (EWrap "%w: no UTXOs available for address %s" ErrInsufficientFunds)
  else
    nameUTXOIndex ← lift (findNameUTXO utxos (Record.TxHash nameRecord) (OutIndex nameRecord));
    destAddr ← lift (parseTransferAddress (TransferTo opts) (Address nameRecord));
    wrapM "failed to create NAME_UPDATE transaction"
      (ask_ec_wallet (fun w => CreateNameUpdateTx w name value (convertNamedbUTXOs utxos) nameUTXOIndex (uo_FeeRate opts) destAddr)).

Definition waitForUpdateConfirmation (ctx : context) (txHash : bytes) (confirmations : Z) (result : TxResult) : C TxResult :=
  let confirmations := if confirmations =? 0 then 1 else confirmations in
  wrapM "failed to wait for NAME_UPDATE confirmation" (WaitForConfirmation ctx txHash confirmations);;
  mret (mkTxResult (tr_TxHash result) (tr_Name result) TxStatusConfirmed confirmations (tr_BlockHeight result)
          (tr_BlockHash result)).

Definition UpdateName (env : Env) (ctx : context) (name value : bytes) (opts : option UpdateOpts) : C TxResult :=
  checkClientState ctx;;
  lift (validateRegistrationInputs name value);;
  nameRecord ← getAndValidateNameRecord name;
  w ← asks ec_wallet;
  if negb (HasKey (Address nameRecord) w) then fail (EMsg "wallet does not have key for name owner address: %s")
  else
    let opts := normalizeUpdateOpts opts in
    updateTx ← createUpdateTransaction name value nameRecord opts;
    broadcast_logged env updateTx;;
    let txHash := Hash_String (TxHash updateTx) in
    let result := mkTxResult txHash name TxStatusPending 0 0 [] in
    if negb (uo_Wait opts) then mret result
    else waitForUpdateConfirmation ctx txHash (uo_Confirmations opts) result.

(** The errors with which the two databases close; a client that could not close them is
    closed all the same. *)
Definition ec_Close (close_names close_blocks : option error) : C unit :=
  closed ← asks ec_closed;
  if closed : bool then mret tt
  else
    r ← try (on_db (NameDB.Close close_names));
    modify (set_ec_closed true);;
    match r, close_blocks with
    | Ok _, None => mret tt
    | _, _ => fail (EWrap "failed to close blockchain" (EMsg "failed to close blockchain resources:"))
    end.

End client.
