(* ===== verification/Settings.v ===== *)
(** * Settings of the daemon

    config/config.go ([Config]), config/configfile.go and the command line of
    cmd/nmcd/main.go.  The host is the class [Host]: the environment, [os.Stat], and the
    settings that the TOML package decodes from a file.  [log] and the exit status are
    dropped: an error of [parseFlags] is an exit of the process. *)

From S2P Require Import Prelude Strings Config Client.

(** ** Package flag

    A [FlagSet] is a table: the name of each flag and what its [Set] does to the
    variables, a value of [V]. *)

Fixpoint find_flag {A} (name : bytes) (table : list (bytes * A)) : option A :=
  match table with
  | [] => None
  | (n, set) :: table => if bool_decide (n = name) then Some set else find_flag name table
  end.

(** An argument, without its minuses, as a name and the value after '='. *)
Definition flag_name (arg : bytes) : bytes * option bytes :=
  match IndexByte (tail arg) Byte.x3d with
  | Some i => (take (Datatypes.S i) arg, Some (drop (Datatypes.S (Datatypes.S i)) arg))
  | None => (arg, None)
  end.

Definition ErrHelp : error := EMsg "flag: help requested".

Section flags.
Context {V : Type} (table : V -> list (bytes * (bytes -> res V))).

(** [Parse] and its [parseOne]: flags up to the first other argument or "--"; the other
    arguments are given back.  No flag is boolean. *)
Fixpoint flag_Parse (args : list bytes) (f : V) : res (V * list bytes) :=
  match args with
  | (Byte.x2d :: (b :: rest) as s) :: args' =>
      if decide (b = Byte.x2d /\ rest = []) then Ok (f, args')
      else
        let name := if decide (b = Byte.x2d) then rest else b :: rest in
        match name with
        | [] | Byte.x2d :: _ | Byte.x3d :: _ => Err (EMsg "bad flag syntax: %s")
        | _ =>
            let '(name, value) := flag_name name in
            match find_flag name (table f) with
            | None =>
                if bool_decide (name = str "help" \/ name = str "h") then Err ErrHelp
                else Err (EMsg "flag provided but not defined: -%s")
            | Some set =>
                match value, args' with
                | Some v, _ => f ← set v; flag_Parse args' f
                | None, v :: args' => f ← set v; flag_Parse args' f
                | None, [] => Err (EMsg "flag needs an argument: -%s")
                end
            end
        end
  | _ => Ok (f, args)
  end.

End flags.

(** ** Settings and the file *)

Record Settings := mkSettings {     (* config.Config *)
  cfg_DataDir : bytes; cfg_Network : bytes; cfg_RPCAddr : bytes; cfg_RPCUser : bytes; cfg_RPCPassword : bytes;
  cfg_PrometheusAddr : bytes; cfg_ListenAddrs : list bytes; cfg_MaxPeers : Z; cfg_AddPeers : list bytes;
  cfg_LogLevel : bytes; cfg_LogFormat : bytes; cfg_LogOutput : bytes; cfg_LogRotation : bool; cfg_LogMaxSizeMB : Z;
}.

Record RPCConfig := mkRPCConfig { fc_User : bytes; fc_Password : bytes; fc_Addr : bytes }.
Record NetworkConfig := mkNetworkConfig { fc_Type : bytes; fc_Listen : list bytes; fc_AddPeer : list bytes }.
Record FileConfig := mkFileConfig {
  fc_RPC : RPCConfig; fc_Network : NetworkConfig; fc_DataDir : bytes; fc_PrometheusAddr : bytes; fc_MaxPeers : Z }.

Definition no_file : FileConfig := mkFileConfig (mkRPCConfig [] [] []) (mkNetworkConfig [] [] []) [] [] 0.

(** What [os.Stat] finds: nothing, an error, or a file with its permission bits. *)
Inductive stat := NotExist | StatError (err : error) | FileMode (perm : Z).

Class Host := {
  host_os :: ClientOS;
  Getenv : bytes -> bytes;
  os_Stat : bytes -> stat;
  DecodeFile : bytes -> res FileConfig;     (* toml.DecodeFile *)
}.

Section settings.
Context {H : Host}.

(** The error of [os.UserHomeDir] is dropped. *)
Definition DefaultConfig : Settings :=
  let homeDir := match UserHomeDir with Ok h => h | Err _ => [] end in
  {| cfg_DataDir := filepath_Join [homeDir; str ".nmcd"]; cfg_Network := str "mainnet";
     cfg_RPCAddr := str "127.0.0.1:8336"; cfg_RPCUser := []; cfg_RPCPassword := []; cfg_PrometheusAddr := [];
     cfg_ListenAddrs := [str "0.0.0.0:8334"]; cfg_MaxPeers := 125; cfg_AddPeers := []; cfg_LogLevel := str "INFO";
     cfg_LogFormat := str "text"; cfg_LogOutput := str "stdout"; cfg_LogRotation := false; cfg_LogMaxSizeMB := 100 |}.

Definition NameDBPath (c : Settings) : bytes := filepath_Join [cfg_DataDir c; str "names.db"].
Definition ConfigPath (dataDir : bytes) : bytes := filepath_Join [dataDir; str "nmcd.conf"].

(** A file that does not exist is an empty one. *)
Definition LoadConfigFile (path : bytes) : res FileConfig :=
  match os_Stat path with
  | NotExist => Ok no_file
  | StatError err => Err (EWrap "failed to stat config file %s" err)
  | FileMode mode =>
      cfg ← wrap_err "failed to parse config file %s" (DecodeFile path);
      if bool_decide (fc_Password (fc_RPC cfg) <> []) && negb (Z.land mode 4 =? 0) then
        Err (EMsg "config file %s contains RPC password but has world-readable permissions (%04o); set mode to 0600")
      else Ok cfg
  end.

Definition applyString (dst value : bytes) : bytes := if bool_decide (value <> []) then value else dst.
Definition applyStringSlice (dst value : list bytes) : list bytes := if bool_decide (value <> []) then value else dst.
Definition applyPositiveInt (dst value : Z) : Z := if value >? 0 then value else dst.

Definition ApplyFileConfig (fc : FileConfig) (c : Settings) : Settings :=
  {| cfg_RPCUser := applyString (cfg_RPCUser c) (fc_User (fc_RPC fc));
     cfg_RPCPassword := applyString (cfg_RPCPassword c) (fc_Password (fc_RPC fc));
     cfg_RPCAddr := applyString (cfg_RPCAddr c) (fc_Addr (fc_RPC fc));
     cfg_Network := applyString (cfg_Network c) (fc_Type (fc_Network fc));
     cfg_ListenAddrs := applyStringSlice (cfg_ListenAddrs c) (fc_Listen (fc_Network fc));
     cfg_AddPeers := applyStringSlice (cfg_AddPeers c) (fc_AddPeer (fc_Network fc));
     cfg_DataDir := applyString (cfg_DataDir c) (fc_DataDir fc);
     cfg_PrometheusAddr := applyString (cfg_PrometheusAddr c) (fc_PrometheusAddr fc);
     cfg_MaxPeers := applyPositiveInt (cfg_MaxPeers c) (fc_MaxPeers fc);
     cfg_LogLevel := cfg_LogLevel c; cfg_LogFormat := cfg_LogFormat c; cfg_LogOutput := cfg_LogOutput c;
     cfg_LogRotation := cfg_LogRotation c; cfg_LogMaxSizeMB := cfg_LogMaxSizeMB c |}.

Definition ApplyEnvironmentVariables (c : Settings) : Settings :=
  {| cfg_RPCUser := applyString (cfg_RPCUser c) (Getenv (str "NMCD_RPC_USER"));
     cfg_RPCPassword := applyString (cfg_RPCPassword c) (Getenv (str "NMCD_RPC_PASSWORD"));
     cfg_RPCAddr := applyString (cfg_RPCAddr c) (Getenv (str "NMCD_RPC_ADDR"));
     cfg_PrometheusAddr := applyString (cfg_PrometheusAddr c) (Getenv (str "NMCD_PROMETHEUS_ADDR"));
     cfg_Network := applyString (cfg_Network c) (Getenv (str "NMCD_NETWORK"));
     cfg_DataDir := applyString (cfg_DataDir c) (Getenv (str "NMCD_DATADIR"));
     cfg_ListenAddrs := cfg_ListenAddrs c; cfg_AddPeers := cfg_AddPeers c; cfg_MaxPeers := cfg_MaxPeers c;
     cfg_LogLevel := cfg_LogLevel c; cfg_LogFormat := cfg_LogFormat c; cfg_LogOutput := cfg_LogOutput c;
     cfg_LogRotation := cfg_LogRotation c; cfg_LogMaxSizeMB := cfg_LogMaxSizeMB c |}.

(** ** The command line *)

Record cliFlags := mkFlags {
  f_dataDir : bytes; f_configFile : bytes; f_network : bytes; f_rpcAddr : bytes; f_rpcUser : bytes;
  f_rpcPassword : bytes; f_prometheusAddr : bytes; f_listenAddrs : bytes; f_addPeers : bytes; f_maxPeers : Z;
  f_logLevel : bytes; f_logFormat : bytes; f_logOutput : bytes;
}.

(** The default of each flag ... *)
Definition registerFlags (cfg : Settings) : cliFlags :=
  mkFlags (cfg_DataDir cfg) [] [] [] [] [] [] [] [] 0 [] [] [].

(** ... and what setting it by its name does; [None] when no flag has the name. *)
Definition flag_table (f : cliFlags) : list (bytes * (bytes -> res cliFlags)) :=
  let '(mkFlags d c n a u p m l ad mx lv fm o) := f in
  [ (str "datadir", fun v => Ok (mkFlags v c n a u p m l ad mx lv fm o));
    (str "config", fun v => Ok (mkFlags d v n a u p m l ad mx lv fm o));
    (str "network", fun v => Ok (mkFlags d c v a u p m l ad mx lv fm o));
    (str "rpcaddr", fun v => Ok (mkFlags d c n v u p m l ad mx lv fm o));
    (str "rpcuser", fun v => Ok (mkFlags d c n a v p m l ad mx lv fm o));
    (str "rpcpassword", fun v => Ok (mkFlags d c n a u v m l ad mx lv fm o));
    (str "prometheusaddr", fun v => Ok (mkFlags d c n a u p v l ad mx lv fm o));
    (str "listen", fun v => Ok (mkFlags d c n a u p m v ad mx lv fm o));
    (str "addpeer", fun v => Ok (mkFlags d c n a u p m l v mx lv fm o));
    (str "maxpeers", fun v => match ParseInt0 v with
                              | Some i => Ok (mkFlags d c n a u p m l ad i lv fm o)
                              | None => Err (EMsg "invalid value %q for flag -%s: %v")
                              end);
    (str "loglevel", fun v => Ok (mkFlags d c n a u p m l ad mx v fm o));
    (str "logformat", fun v => Ok (mkFlags d c n a u p m l ad mx lv v o));
    (str "logoutput", fun v => Ok (mkFlags d c n a u p m l ad mx lv fm v)) ].

(** internal/server: the elements of a list, without those that are blank. *)
Definition SplitAndTrim (s : bytes) : list bytes :=
  foldl (fun result part => let trimmed := TrimSpace part in
    if bool_decide (trimmed <> []) then result ++ [trimmed] else result) [] (Split s Byte.x2c).

Definition set_DataDir (dir : bytes) (c : Settings) : Settings :=
  {| cfg_DataDir := dir; cfg_Network := cfg_Network c; cfg_RPCAddr := cfg_RPCAddr c; cfg_RPCUser := cfg_RPCUser c;
     cfg_RPCPassword := cfg_RPCPassword c; cfg_PrometheusAddr := cfg_PrometheusAddr c;
     cfg_ListenAddrs := cfg_ListenAddrs c; cfg_MaxPeers := cfg_MaxPeers c; cfg_AddPeers := cfg_AddPeers c;
     cfg_LogLevel := cfg_LogLevel c; cfg_LogFormat := cfg_LogFormat c; cfg_LogOutput := cfg_LogOutput c;
     cfg_LogRotation := cfg_LogRotation c; cfg_LogMaxSizeMB := cfg_LogMaxSizeMB c |}.

Definition applyDataDir (f : cliFlags) (c : Settings) : Settings :=
  if bool_decide (f_dataDir f <> [] /\ f_dataDir f <> cfg_DataDir c) then set_DataDir (f_dataDir f) c else c.

(** A file that cannot be loaded is reported and passed over. *)
Definition loadAndApplyConfigFile (configFileFlag : bytes) (c : Settings) : Settings :=
  let configPath := if bool_decide (configFileFlag = []) then ConfigPath (cfg_DataDir c) else configFileFlag in
  match LoadConfigFile configPath with
  | Err _ => c
  | Ok fileConfig => ApplyFileConfig fileConfig c
  end.

Definition applyStringFlagOverrides (f : cliFlags) (c : Settings) : Settings :=
  {| cfg_Network := applyString (cfg_Network c) (f_network f);
     cfg_RPCAddr := applyString (cfg_RPCAddr c) (f_rpcAddr f);
     cfg_RPCUser := applyString (cfg_RPCUser c) (f_rpcUser f);
     cfg_RPCPassword := applyString (cfg_RPCPassword c) (f_rpcPassword f);
     cfg_PrometheusAddr := applyString (cfg_PrometheusAddr c) (f_prometheusAddr f);
     cfg_LogLevel := applyString (cfg_LogLevel c) (f_logLevel f);
     cfg_LogFormat := applyString (cfg_LogFormat c) (f_logFormat f);
     cfg_LogOutput := applyString (cfg_LogOutput c) (f_logOutput f);
     cfg_ListenAddrs := if bool_decide (f_listenAddrs f <> []) then SplitAndTrim (f_listenAddrs f) else cfg_ListenAddrs c;
     cfg_AddPeers := if bool_decide (f_addPeers f <> []) then SplitAndTrim (f_addPeers f) else cfg_AddPeers c;
     cfg_DataDir := cfg_DataDir c; cfg_MaxPeers := cfg_MaxPeers c;
     cfg_LogRotation := cfg_LogRotation c; cfg_LogMaxSizeMB := cfg_LogMaxSizeMB c |}.

Definition applyFlagOverrides (f : cliFlags) (c : Settings) : Settings :=
  let c := applyStringFlagOverrides f c in
  {| cfg_DataDir := cfg_DataDir c; cfg_Network := cfg_Network c; cfg_RPCAddr := cfg_RPCAddr c;
     cfg_RPCUser := cfg_RPCUser c; cfg_RPCPassword := cfg_RPCPassword c; cfg_PrometheusAddr := cfg_PrometheusAddr c;
     cfg_ListenAddrs := cfg_ListenAddrs c; cfg_MaxPeers := applyPositiveInt (cfg_MaxPeers c) (f_maxPeers f);
     cfg_AddPeers := cfg_AddPeers c; cfg_LogLevel := cfg_LogLevel c; cfg_LogFormat := cfg_LogFormat c;
     cfg_LogOutput := cfg_LogOutput c; cfg_LogRotation := cfg_LogRotation c; cfg_LogMaxSizeMB := cfg_LogMaxSizeMB c |}.

Definition parseFlags (args : list bytes) : res Settings :=
  let cfg := DefaultConfig in
  '(flags, _) ← flag_Parse flag_table args (registerFlags cfg);
  let cfg := applyDataDir flags cfg in
  let cfg := loadAndApplyConfigFile (f_configFile flags) cfg in
  let cfg := ApplyEnvironmentVariables cfg in
  mret (applyFlagOverrides flags cfg).

End settings.
