(* ===== verification/Startup.v ===== *)
(** * Starting and stopping the daemon

    internal/server/server.go, with what it opens and closes: [NewBlockChain] and [Close]
    of chain/blockchain.go, the listeners and connections of network/peermgr.go, and
    [NewServer] and [Stop] of rpc/server.go.  The operating system is the state [Machine],
    the handles that are open; whether the n-th call succeeds, what the opened files hold
    and the peer that btcd makes for a connection are the class [System].  A handle is the
    number of the call that opened it.  Closing one releases it, whatever error is returned. *)

From S2P Require Import Prelude Clock Strings Bolt Lru NameDB Config Wire AuxPow Chain ChainUpdate.
From S2P Require Import Mempool MempoolSpec Network Node Encryption Wallet WalletTx RateLimit.
From S2P Require Import Rpc RpcServer Client Settings.

Inductive Handle :=
  | NamesFile (path : bytes)                  (* bbolt.Open *)
  | BlocksFile (net : Z) (path : bytes)       (* database.Create, database.Open *)
  | Listening (addr : bytes)                  (* net.Listen *)
  | Conn (addr : bytes)                       (* net.DialTimeout, Accept *)
  | LogFile (path : bytes).                   (* os.OpenFile, of package logging *)

(** The networks of btcd's wire package that name a block database. *)
Definition wire_MainNet : Z := 0xd9b4bef9.
Definition wire_TestNet : Z := 0xdab5bffa.
Definition wire_TestNet3 : Z := 0x0709110b.

Definition Blocked : error := EPanic "has not returned".

Section startup.
Context {B : Bolt} {W : Wire} {G : BtcLib} {R : MapRange} {D : Btcd} {P : PeerLib}.
Context {K : Crypto} {L : KeyLib} {F : Disk} {J : WalletJson} {S : TxScript} {X : RpcLib}.
Context {H : Host}.

Class System := {
  outcome : nat -> option error;
  names_at : bytes -> Tx;                               (* the buckets of the file *)
  chain_at : Z -> bytes -> Params -> btcd_state;        (* what blockchain.New reads *)
  new_peer : nat -> bytes -> bool -> Peer;              (* of a connection, inbound or not *)
}.
Context {Sys : System}.

Record Machine := mkMachine { ncalls : nat; live : gmap nat Handle; disk : World }.

Definition call : M Machine unit := fun m =>
  (match outcome (ncalls m) with Some e => Err e | None => Ok tt end,
   mkMachine (Datatypes.S (ncalls m)) (live m) (disk m)).

Definition open (h : Handle) : M Machine nat := fun m =>
  match outcome (ncalls m) with
  | Some e => (Err e, mkMachine (Datatypes.S (ncalls m)) (live m) (disk m))
  | None => (Ok (ncalls m), mkMachine (Datatypes.S (ncalls m)) (<[ncalls m := h]> (live m)) (disk m))
  end.

Definition close (n : nat) : M Machine unit := fun m =>
  (match outcome (ncalls m) with Some e => Err e | None => Ok tt end,
   mkMachine (Datatypes.S (ncalls m)) (delete n (live m)) (disk m)).

(** A close whose error is logged or dropped. *)
Definition close_quietly (n : nat) : M Machine unit := _ ← try (close n); mret tt.

Definition on_disk {A} (m : M World A) : M Machine A :=
  zoom disk (fun w s => mkMachine (ncalls s) (live s) w) m.

(** ** The chain *)

Definition OpenNameDatabase (dbPath : bytes) : M Machine (nat * NameDatabase) :=
  names ← wrapM "failed to open database" (open (NamesFile dbPath));
  match NewNameDatabase (Ok (names_at dbPath)) with
  | Err err => close_quietly names;; fail err
  | Ok ndb => mret (names, ndb)
  end.

Definition db_net (p : Params) : Z :=
  if Net p =? Net NamecoinMainNetParams then wire_MainNet
  else if Net p =? Net NamecoinTestNetParams then wire_TestNet3
  else if Net p =? Net NamecoinRegTestParams then wire_TestNet
  else wire_MainNet.

Record ChainConfig := mkChainConfig {      (* chain.Config *)
  chc_Params : Params; chc_NameDBPath : bytes; chc_DataDir : bytes; chc_BlockDBPath : bytes }.

Definition block_path (cfg : ChainConfig) : bytes :=
  if bool_decide (chc_BlockDBPath cfg = []) then filepath_Join [chc_DataDir cfg; str "blocks.db"]
  else chc_BlockDBPath cfg.

(** [database.Create], and [database.Open] when that fails. *)
Definition open_blocks (net : Z) (path : bytes) : M Machine nat :=
  r ← try (open (BlocksFile net path));
  match r with
  | Ok blocks => mret blocks
  | Err _ => open (BlocksFile net path)
  end.

(** The handles of the two databases and the chain; [blockchain.New] is a call. *)
Definition NewBlockChain (cfg : ChainConfig) : M Machine (nat * nat * BlockChain) :=
  '(names, ndb) ← wrapM "failed to create name database" (OpenNameDatabase (chc_NameDBPath cfg));
  let net := db_net (chc_Params cfg) in
  r ← try (open_blocks net (block_path cfg));
  match r with
  | Err err => close_quietly names;; fail (EWrap "failed to create/open block database" err)
  | Ok blocks =>
      r ← try call;
      match r with
      | Err err =>
          close_quietly blocks;; close_quietly names;; fail (EWrap "failed to create blockchain" err)
      | Ok _ =>
          mret (names, blocks,
                {| nameDB := ndb; auxPowCache := newLRUCache DefaultAuxPowCacheSize DefaultAuxPowCacheSize;
                   btcd := chain_at net (block_path cfg) (chc_Params cfg) |})
      end
  end.

(** [BlockChain.Close] of a chain that is open. *)
Definition chain_Close (names blocks : nat) : M Machine unit :=
  r1 ← try (close names);
  r2 ← try (close blocks);
  match r1, r2 with
  | Ok _, Ok _ => mret tt
  | _, _ => fail (EMsg "%s")
  end.

(** ** The listeners of the peer manager *)

Definition close_all (ids : list nat) : M Machine unit := forM ids close_quietly.

(** [NewPeerManager]: on an error [Stop] closes the listeners that are open, in [opened]. *)
Fixpoint listen_all (opened : list (nat * bytes)) (addrs : list bytes) : M Machine (list (nat * bytes)) :=
  match addrs with
  | [] => mret opened
  | addr :: addrs =>
      r ← try (open (Listening addr));
      match r with
      | Err err => close_all opened.*1;; fail (EWrap "failed to listen on %s" err)
      | Ok listener => listen_all (opened ++ [(listener, addr)]) addrs
      end
  end.

(** ** The server *)

Record DServer := mkDServer {        (* server.Server *)
  config : Settings;
  sv_names : nat;
  sv_blocks : nat;
  listeners : list (nat * bytes);
  rpcListener : nat;
  prometheusHTTP : bool;
  promListener : option nat;
  rpcServer : Server;                 (* with the chain, the peer manager and the wallet *)
  conns : gmap Z (nat * bytes);       (* the connection of each peer, by the peer's ID *)
  pending : list (nat * bytes);       (* accepted, before the peer is added *)
}.

Definition set_rpc (r : Server) (s : DServer) : DServer :=
  mkDServer (config s) (sv_names s) (sv_blocks s) (listeners s) (rpcListener s) (prometheusHTTP s) (promListener s)
    r (conns s) (pending s).
Definition set_conns (c : gmap Z (nat * bytes)) (s : DServer) : DServer :=
  mkDServer (config s) (sv_names s) (sv_blocks s) (listeners s) (rpcListener s) (prometheusHTTP s) (promListener s)
    (rpcServer s) c (pending s).
Definition set_pending (l : list (nat * bytes)) (s : DServer) : DServer :=
  mkDServer (config s) (sv_names s) (sv_blocks s) (listeners s) (rpcListener s) (prometheusHTTP s) (promListener s)
    (rpcServer s) (conns s) l.
Definition set_promListener (l : option nat) (s : DServer) : DServer :=
  mkDServer (config s) (sv_names s) (sv_blocks s) (listeners s) (rpcListener s) (prometheusHTTP s) l
    (rpcServer s) (conns s) (pending s).

Definition initBlockChain (cfg : Settings) : M Machine (nat * nat * BlockChain) :=
  wrapM "failed to create blockchain"
    (NewBlockChain (mkChainConfig (ChainParams (cfg_Network cfg)) (NameDBPath cfg) (cfg_DataDir cfg) [])).

Definition initPeerManager (cfg : Settings) (names blocks : nat) (bc : BlockChain) :
    M Machine (list (nat * bytes) * @PeerManager P BlockChain) :=
  r ← try (listen_all [] (cfg_ListenAddrs cfg));
  match r with
  | Err err =>
      r ← try (chain_Close names blocks);
      match r with
      | Err _ => fail (EWrap "failed to create peer manager: %w (additionally failed to close blockchain: %v)" err)
      | Ok _ => fail (EWrap "failed to create peer manager" err)
      end
  | Ok ls => mret (ls, NewPeerManager bc (cfg_MaxPeers cfg))
  end.

(** Whether there is no wallet. *)
Definition initOptionalWallet (cfg : Settings) : M Machine bool :=
  r ← try (on_disk (NewWallet (ChainParams (cfg_Network cfg))));
  mret (negb (is_ok r)).

(** [rpc.NewServer]: the listener first, then the key. *)
Definition rpc_NewServer (cfg : Settings) (no_wallet : bool) (pm : PeerManager) : M Machine (nat * Server) :=
  listener ← wrapM "failed to listen on %s" (open (Listening (cfg_RPCAddr cfg)));
  r ← try (wrapM "failed to generate auth key" (on_disk (on_rng (rand_Read 32))));
  match r with
  | Err err => close_quietly listener;; fail err
  | Ok authKey =>
      m ← get;
      mret (listener, RpcServer.NewServer false false no_wallet pm (disk m) (cfg_RPCUser cfg) (cfg_RPCPassword cfg)
                        authKey 0 0)
  end.

Definition initRPCServer (cfg : Settings) (no_wallet : bool) (pm : PeerManager) : M Machine (nat * Server) :=
  wrapM "failed to create RPC server" (rpc_NewServer cfg no_wallet pm).

(** Registering the collector may fail; nothing is opened yet. *)
Definition initPrometheus (cfg : Settings) : M Machine bool :=
  if bool_decide (cfg_PrometheusAddr cfg = []) then mret false
  else r ← try call; mret (is_ok r).

Definition NewServer (cfg : Settings) : M Machine DServer :=
  wrapM "failed to create data directory" call;;            (* EnsureDataDir *)
  '(names, blocks, bc) ← initBlockChain cfg;
  '(ls, pm) ← initPeerManager cfg names blocks bc;
  no_wallet ← initOptionalWallet cfg;
  r ← try (initRPCServer cfg no_wallet pm);
  match r with
  | Err err =>
      close_all ls.*1;;                                       (* peerMgr.Stop *)
      r ← try (chain_Close names blocks);
      match r with
      | Err _ => fail (EWrap "failed to initialize RPC server: %w (additionally failed to close blockchain: %v)" err)
      | Ok _ => fail err
      end
  | Ok (listener, rpc) =>
      prom ← initPrometheus cfg;
      mret (mkDServer cfg names blocks ls listener prom None rpc ∅ [])
  end.

(** ** Peers *)

Definition Proc : Type := Machine * DServer.
Definition on_machine {A} (m : M Machine A) : M Proc A := zoom fst (fun m p => (m, p.2)) m.
Definition update (f : DServer -> DServer) : M Proc unit := modify (fun p => (p.1, f p.2)).
Definition sv_pm (s : DServer) : @PeerManager P BlockChain := peerMgr (rpcServer s).
Definition set_pm (pm : PeerManager) (s : DServer) : DServer := set_rpc (set_peerMgr pm (rpcServer s)) s.

(** The section under the lock of [ConnectPeer] and [handleInboundPeer]: a peer over the
    limit is refused and its connection closed. *)
Definition register (conn : nat) (addr : bytes) (inbound : bool) : M Proc unit :=
  p ← get;
  let peer := new_peer conn addr inbound in
  match addPeer peer (sv_pm p.2) with
  | Err err => on_machine (close_quietly conn);; fail err
  | Ok pm => update (fun s => set_conns (<[ID peer := (conn, addr)]> (conns s)) (set_pm pm s))
  end.

(** [ConnectPeer]; [peer.NewOutboundPeer] is a call. *)
Definition dialPeer (addr : bytes) : M Proc unit :=
  conn ← on_machine (wrapM "failed to connect to %s" (open (Conn addr)));
  r ← on_machine (try call);
  match r with
  | Err err => on_machine (close_quietly conn);; fail (EWrap "failed to create outbound peer" err)
  | Ok _ => register conn addr false
  end.

(** [acceptConnections] and [dispatchConnections]: a goroutine has the connection. *)
Definition acceptConnection (addr : bytes) : M Proc unit :=
  conn ← on_machine (open (Conn addr));
  update (fun s => set_pending (pending s ++ [(conn, addr)]) s).

(** The first part of [handleInboundPeer], by the goroutine of the i-th of [pending]. *)
Definition inboundPeer (i : nat) : M Proc unit :=
  p ← get;
  match pending p.2 !! i with
  | None => mret tt
  | Some (conn, addr) =>
      update (fun s => set_pending (delete i (pending s)) s);;
      _ ← try (register conn addr true); mret tt
  end.

(** The connection of a peer ends: what both do after [WaitForDisconnect]. *)
Definition disconnectPeer (peer : Peer) : M Proc unit :=
  p ← get;
  match conns p.2 !! ID peer with
  | None => mret tt
  | Some (conn, _) =>
      on_machine (close_quietly conn);;
      update (fun s => set_conns (delete (ID peer) (conns s)) (set_pm (peerDisconnected peer (sv_pm s)) s))
  end.

(** ** Start and Stop *)

Definition discoverInitialPeers (cfg : Settings) : list bytes :=
  if bool_decide (cfg_AddPeers cfg <> []) then cfg_AddPeers cfg
  else
    let seeds := DNSSeeds (cfg_Network cfg) in
    if bool_decide (seeds = []) then [] else ResolveSeedNodes seeds (DefaultPort (cfg_Network cfg)).

Definition connectPeers (addrs : list bytes) : M Proc unit := forM addrs (fun addr => _ ← try (dialPeer addr); mret tt).

(** The goroutine that serves the metrics opens its own listener. *)
Definition startPrometheusServer : M Proc unit :=
  p ← get;
  if prometheusHTTP p.2 then
    r ← on_machine (try (open (Listening (cfg_PrometheusAddr (config p.2)))));
    match r with
    | Ok l => update (set_promListener (Some l))
    | Err _ => mret tt
    end
  else mret tt.

Definition Start : M Proc unit :=
  p ← get;
  connectPeers (discoverInitialPeers (config p.2));;
  startPrometheusServer.

(** [PeerManager.Stop]: the listeners and the peers are closed, then the goroutines are
    waited for; those that still hold a connection add their peer only now, and it is
    not disconnected. *)
Definition peerMgr_Stop : M Proc unit :=
  p ← get;
  on_machine (close_all (listeners p.2).*1);;
  forM (range (peers (sv_pm p.2))).*2 disconnectPeer;;
  forM (pending p.2) (fun _ => inboundPeer 0);;
  p ← get;
  if bool_decide (peers (sv_pm p.2) = ∅) then mret tt else fail Blocked.

Definition Stop : M Proc unit :=
  p ← get;
  on_machine (match promListener p.2 with Some l => close_quietly l | None => mret tt end);;
  on_machine (close_quietly (rpcListener p.2);; close_quietly (rpcListener p.2));;
  peerMgr_Stop;;
  wrapM "failed to close blockchain" (on_machine (chain_Close (sv_names p.2) (sv_blocks p.2))).

(** ** What happens between the two *)

Inductive server_step : Proc -> Proc -> Prop :=
  | step_dial p addr : server_step p (dialPeer addr p).2
  | step_accept p addr : server_step p (acceptConnection addr p).2
  | step_inbound p i : server_step p (inboundPeer i p).2
  | step_disconnect p peer : server_step p (disconnectPeer peer p).2
  (* a message, a request or a timer *)
  | step_other m s rpc : peers (peerMgr rpc) = peers (sv_pm s) -> server_step (m, s) (m, set_rpc rpc s).

End startup.
