(* ===== verification/StartupSpec.v ===== *)
(** * What the daemon holds open

    [own before held m]: the open handles of the machine are those of [before] and the
    list [held].  Every operation of Startup.v has a rule for it: what it opens is added,
    what it closes is taken away, on each of its paths. *)

From stdpp Require Import relations.
From S2P Require Import Prelude Clock Strings Bolt Lru NameDB Config Wire AuxPow Chain ChainUpdate.
From S2P Require Import Mempool MempoolSpec Network Node Encryption Wallet WalletTx RateLimit.
From S2P Require Import Rpc RpcServer Client Settings Startup.

(** No two connections get the same peer, nor two peers the same number. *)
Class SystemLaws {B : Bolt} {D : Btcd} {P : PeerLib} (Sys : System) := {
  new_peer_inj n a b n' a' b' : new_peer n a b = new_peer n' a' b' -> n = n';
  system_ids :: PeerLaws P;
}.

(** A rule at a state that has the handles. *)
Ltac own_apply l := cbv beta iota in *; eapply l; eassumption.

Ltac wps := cbv beta iota in *; autorewrite with wp.

Section machine.
Context {B : Bolt} {D : Btcd} {P : PeerLib} {K : Crypto} {L : KeyLib} {F : Disk} {J : WalletJson} {Sys : System}.

Record own (before : gmap nat Handle) (held : list (nat * Handle)) (m : Machine) : Prop := {
  own_live : map_to_list (live m) ≡ₚ held ++ map_to_list before;
  own_fresh : forall n, is_Some (live m !! n) -> (n < ncalls m)%nat;
}.

Lemma own_perm before held held' m : held ≡ₚ held' -> own before held m -> own before held' m.
Proof. intros E [H Hf]. split; [by rewrite <-E|done]. Qed.

Lemma own_nil before m : own before [] m -> live m = before.
Proof. intros [H _]. by apply map_to_list_inj. Qed.

Lemma own_none before held n m : own before held m -> live m !! n = None -> n ∉ held.*1.
Proof.
  intros [H _] Hn Hi. apply list_elem_of_fmap in Hi as ([k h] & -> & Hi).
  assert ((k, h) ∈ map_to_list (live m)) as Hin by (rewrite H; set_solver).
  apply elem_of_map_to_list in Hin. simpl in Hn. congruence.
Qed.

Lemma own_call before held m : own before held m ->
  own before held (mkMachine (Datatypes.S (ncalls m)) (live m) (disk m)).
Proof. intros [H Hf]. split; [done|]. cbn. intros n Hn. apply Hf in Hn. lia. Qed.

Lemma wp_call before held m : own before held m ->
  wp call (fun _ => own before held) (fun _ => own before held) m.
Proof. intros Ho%own_call. unfold wp, call. by destruct (outcome (ncalls m)). Qed.

Lemma wp_open before held h m : own before held m ->
  wp (open h) (fun n m' => own before ((n, h) :: held) m' /\ n ∉ held.*1) (fun _ => own before held) m.
Proof.
  intros Ho. unfold wp, open. destruct (outcome (ncalls m)); [by apply own_call in Ho|].
  assert (live m !! ncalls m = None) as Hn.
  { destruct (live m !! ncalls m) eqn:E; [|done]. destruct Ho as [_ Hf]. specialize (Hf (ncalls m) ltac:(eauto)). lia. }
  split; [|by eapply own_none]. destruct Ho as [H Hf]. split; cbn.
  - rewrite map_to_list_insert by done. by rewrite H.
  - intros n [h' E]. apply lookup_insert_Some in E as [[<- _]|[_ E]]; [lia|]. specialize (Hf n ltac:(eauto)). lia.
Qed.

Lemma own_delete before held n h m : own before ((n, h) :: held) m ->
  own before held (mkMachine (Datatypes.S (ncalls m)) (delete n (live m)) (disk m)) /\ live m !! n = Some h.
Proof.
  intros [H Hf].
  assert (live m !! n = Some h) as Hn by (apply elem_of_map_to_list; rewrite H; set_solver).
  split; [|done]. split; cbn.
  - rewrite <-(map_to_list_delete _ _ _ Hn) in H. cbn in H. by apply Permutation.Permutation_cons_inv in H.
  - intros k [h' E]. apply lookup_delete_Some in E as [_ E]. specialize (Hf k ltac:(eauto)). lia.
Qed.

Lemma wp_close before held n h m : own before ((n, h) :: held) m ->
  wp (close n) (fun _ m' => own before held m' /\ live m' !! n = None) (fun _ m' => own before held m' /\ live m' !! n = None) m.
Proof.
  intros [Ho _]%own_delete. assert (delete n (live m) !! n = None) by apply lookup_delete_eq.
  unfold wp, close. by destruct (outcome (ncalls m)).
Qed.

Lemma wp_close_quietly before held n h m (Q : unit -> Machine -> Prop) E :
  own before ((n, h) :: held) m -> (forall m', own before held m' -> live m' !! n = None -> Q tt m') ->
  wp (close_quietly n) Q E m.
Proof.
  intros Ho HQ. unfold close_quietly. autorewrite with wp.
  eapply wp_mono; [own_apply wp_close| |]; intros ? m' [??]; autorewrite with wp; by apply HQ.
Qed.

(** A handle that is closed already. *)
Lemma wp_close_again before held n m (Q : unit -> Machine -> Prop) E :
  own before held m -> live m !! n = None -> (forall m', own before held m' -> Q tt m') ->
  wp (close_quietly n) Q E m.
Proof.
  intros Ho Hn HQ. unfold close_quietly, wp, try, close, mbind, M_bind. cbn.
  rewrite delete_id by done. apply HQ. by apply own_call in Ho.
Qed.

Lemma wp_close_all {A} before (g : nat * A -> nat * Handle) (ids : list (nat * A)) held m (Q : unit -> Machine -> Prop) E :
  (forall x, (g x).1 = x.1) -> own before ((g <$> ids) ++ held) m -> (forall m', own before held m' -> Q tt m') ->
  wp (close_all ids.*1) Q E m.
Proof.
  intros Hg Ho HQ. unfold close_all. revert m Ho. induction ids as [|x ids IH]; intros m Ho; [by apply HQ|].
  cbn [fmap list_fmap forM]. autorewrite with wp. rewrite <-Hg.
  eapply (wp_close_quietly before ((g <$> ids) ++ held) (g x).1 (g x).2).
  - rewrite <-surjective_pairing. exact Ho.
  - intros m' Ho' _. by apply IH.
Qed.

Lemma wp_on_disk {A} before held (w : M World A) m : own before held m ->
  wp (on_disk w) (fun _ => own before held) (fun _ => own before held) m.
Proof.
  intros [Hl Hf]. unfold on_disk, wp, zoom. destruct (w (disk m)) as [[] ?]; by split.
Qed.

End machine.

Section startup.
Context {B : Bolt} {W : Wire} {G : BtcLib} {R : MapRange} {D : Btcd} {P : PeerLib}.
Context {K : Crypto} {L : KeyLib} {F : Disk} {J : WalletJson} {S : TxScript} {X : RpcLib}.
Context {H : Host} {Sys : System}.

(** ** The chain *)

Lemma wp_OpenNameDatabase before held path m : own before held m ->
  wp (OpenNameDatabase path) (fun r => own before ((r.1, NamesFile path) :: held)) (fun _ => own before held) m.
Proof.
  intros Ho. unfold OpenNameDatabase. wps.
  eapply wp_mono; [own_apply wp_open| |done]. intros names m' [Ho' _].
  destruct (NewNameDatabase _); wps; [done|].
  eapply wp_close_quietly; [done|]. intros m'' ? _. by wps.
Qed.

Lemma wp_open_blocks before held net path m : own before held m ->
  wp (open_blocks net path) (fun n m' => own before ((n, BlocksFile net path) :: held) m')
    (fun _ => own before held) m.
Proof.
  intros Ho. unfold open_blocks. wps. eapply wp_mono; [own_apply wp_open| |].
  - intros n m' [? _]. by wps.
  - intros e m' Ho'. eapply wp_mono; [own_apply wp_open| |done]. by intros n m'' [? _].
Qed.

(** The handles of a chain. *)
Definition chain_handles (cfg : ChainConfig) (names blocks : nat) : list (nat * Handle) :=
  [(names, NamesFile (chc_NameDBPath cfg)); (blocks, BlocksFile (db_net (chc_Params cfg)) (block_path cfg))].

Lemma wp_NewBlockChain before held cfg m : own before held m ->
  wp (NewBlockChain cfg) (fun r => own before (chain_handles cfg r.1.1 r.1.2 ++ held)) (fun _ => own before held) m.
Proof.
  intros Ho. unfold NewBlockChain. wps.
  eapply wp_mono; [own_apply wp_OpenNameDatabase| |done]. intros [names ndb] m1 Ho1. wps.
  eapply wp_mono; [own_apply wp_open_blocks| |].
  - intros blocks m2 Ho2. wps. eapply wp_mono; [own_apply wp_call| |].
    + intros ? m3 Ho3. wps. eapply own_perm; [|done]. apply Permutation.perm_swap.
    + intros e m3 Ho3. wps. eapply wp_close_quietly; [done|].
      intros m4 Ho4 _. wps. eapply wp_close_quietly; [done|].
      intros m5 ? _. by wps.
  - intros e m2 Ho2. wps. eapply wp_close_quietly; [done|].
    intros m3 ? _. by wps.
Qed.

Lemma wp_chain_Close before held cfg names blocks m : own before (chain_handles cfg names blocks ++ held) m ->
  wp (chain_Close names blocks) (fun _ => own before held) (fun _ => own before held) m.
Proof.
  intros Ho. unfold chain_Close. unfold chain_handles in Ho. cbn [app] in Ho. wps.
  eapply wp_mono; [own_apply wp_close| |]; intros ? m1 [Ho1 _]; wps;
    (eapply wp_mono; [own_apply wp_close| |]; intros ? m2 [Ho2 _]; by wps).
Qed.

(** ** The listeners *)

Definition listening (l : nat * bytes) : nat * Handle := (l.1, Listening l.2).

Lemma wp_listen_all before held addrs : forall opened m,
  own before ((listening <$> opened) ++ held) m ->
  wp (listen_all opened addrs)
    (fun r m' => r.*2 = opened.*2 ++ addrs /\ own before ((listening <$> r) ++ held) m')
    (fun _ => own before held) m.
Proof.
  induction addrs as [|addr addrs IH]; intros opened m Ho; cbn [listen_all].
  { wps. by rewrite app_nil_r. }
  wps. eapply wp_mono; [own_apply wp_open| |].
  - intros l m1 [Ho1 _]. eapply wp_mono; [apply IH| |done].
    + eapply own_perm; [|done]. rewrite fmap_app, <-app_assoc. by rewrite Permutation.Permutation_middle.
    + intros r m2 [E Ho2]. split; [|done]. rewrite E, fmap_app. by rewrite <-app_assoc.
  - intros e m1 Ho1. wps.
    eapply (wp_close_all before listening); [done..|]. intros m2 Ho2. by wps.
Qed.

(** ** The server *)

Definition chain_config (cfg : Settings) : ChainConfig :=
  mkChainConfig (ChainParams (cfg_Network cfg)) (NameDBPath cfg) (cfg_DataDir cfg) [].

(** What a server that is starting or running holds open. *)
Definition files (s : DServer) : list (nat * Handle) :=
  chain_handles (chain_config (config s)) (sv_names s) (sv_blocks s).
Definition rpc_handle (s : DServer) : nat * Handle := (rpcListener s, Listening (cfg_RPCAddr (config s))).
Definition prom_handle (s : DServer) : list (nat * Handle) :=
  match promListener s with Some l => [(l, Listening (cfg_PrometheusAddr (config s)))] | None => [] end.
Definition connection (c : nat * bytes) : nat * Handle := (c.1, Conn c.2).
Definition conn_handles (s : DServer) : list (nat * Handle) :=
  (connection <$> pending s) ++ (connection <$> (map_to_list (conns s)).*2).
Definition handles (s : DServer) : list (nat * Handle) :=
  files s ++ (listening <$> listeners s) ++ rpc_handle s :: prom_handle s ++ conn_handles s.

Lemma wp_initPeerManager before held cfg names blocks bc m :
  own before (chain_handles (chain_config cfg) names blocks ++ held) m ->
  wp (initPeerManager cfg names blocks bc)
    (fun r m' => r.1.*2 = cfg_ListenAddrs cfg /\ r.2 = NewPeerManager bc (cfg_MaxPeers cfg) /\
       own before ((listening <$> r.1) ++ chain_handles (chain_config cfg) names blocks ++ held) m')
    (fun _ => own before held) m.
Proof.
  intros Ho. unfold initPeerManager. wps.
  eapply wp_mono; [apply (wp_listen_all _ _ _ [] m Ho)| |].
  - intros ls m1 [E Ho1]. by wps.
  - intros e m1 Ho1. wps.
    eapply wp_mono; [own_apply wp_chain_Close| |]; intros ? m2 ?; by wps.
Qed.

Lemma wp_initRPCServer before held cfg no_wallet pm m : own before held m ->
  wp (initRPCServer cfg no_wallet pm)
    (fun r m' => own before ((r.1, Listening (cfg_RPCAddr cfg)) :: held) m' /\
       peerMgr r.2 = pm /\ wallet_nil r.2 = no_wallet /\ rpcUser r.2 = cfg_RPCUser cfg /\
       rpcPassword r.2 = cfg_RPCPassword cfg)
    (fun _ => own before held) m.
Proof.
  intros Ho. unfold initRPCServer, rpc_NewServer. wps.
  eapply wp_mono; [own_apply wp_open| |done]. intros l m1 [Ho1 _]. wps.
  eapply wp_mono; [cbv beta iota in *; by eapply wp_on_disk| |].
  - intros key m2 Ho2. by wps.
  - intros e m2 Ho2. wps. eapply wp_close_quietly; [done|].
    intros m3 ? _. by wps.
Qed.

Lemma wp_initPrometheus before held cfg m (Q : bool -> Machine -> Prop) E : own before held m ->
  (forall b m', own before held m' -> Q b m') -> wp (initPrometheus cfg) Q E m.
Proof.
  intros Ho HQ. unfold initPrometheus. case_bool_decide; wps; [by apply HQ|].
  eapply wp_mono; [own_apply wp_call| |]; intros ? m' ?; wps; by apply HQ.
Qed.

Lemma wp_initOptionalWallet before held cfg m (Q : bool -> Machine -> Prop) E : own before held m ->
  (forall b m', own before held m' -> Q b m') -> wp (initOptionalWallet cfg) Q E m.
Proof.
  intros Ho HQ. unfold initOptionalWallet. wps.
  eapply wp_mono; [cbv beta iota in *; by eapply wp_on_disk| |]; intros ? m' ?; wps; by apply HQ.
Qed.

(** A new server and its machine. *)
Definition started (cfg : Settings) (before : gmap nat Handle) (s : DServer) (m : Machine) : Prop :=
  own before (handles s) m /\ config s = cfg /\ (listeners s).*2 = cfg_ListenAddrs cfg /\
  conns s = ∅ /\ pending s = [] /\ promListener s = None /\ peers (sv_pm s) = ∅ /\
  maxPeers (sv_pm s) = cfg_MaxPeers cfg /\
  rpcUser (rpcServer s) = cfg_RPCUser cfg /\ rpcPassword (rpcServer s) = cfg_RPCPassword cfg.

Lemma wp_NewServer before cfg m : own before [] m ->
  wp (NewServer cfg) (fun s => started cfg before s) (fun _ => own before []) m.
Proof.
  intros Ho. unfold NewServer. wps.
  eapply wp_mono; [own_apply wp_call| |done]. intros ? m1 Ho1.
  unfold initBlockChain. wps.
  eapply wp_mono; [by apply (wp_NewBlockChain before [] (chain_config cfg))| |done].
  intros [[names blocks] bc] m2 Ho2. wps.
  eapply wp_mono; [by apply (wp_initPeerManager before [])| |done].
  intros [ls pm] m3 (Els & Epm & Ho3). cbn [fst snd] in Els, Epm, Ho3. wps.
  eapply wp_initOptionalWallet; [done|]. intros no_wallet m4 Ho4. wps.
  eapply wp_mono; [cbv beta iota in *; by eapply wp_initRPCServer| |].
  - intros [l rpc] m5 (Ho5 & Erpc & _ & Eu & Ep). cbn [fst snd] in *. wps.
    eapply wp_initPrometheus; [done|]. intros prom m6 Ho6. wps.
    unfold started, sv_pm. cbn. rewrite Erpc, Epm. split_and!; try done.
    eapply own_perm; [|exact Ho6]. unfold handles, conn_handles, prom_handle, rpc_handle, files. cbn -[chain_handles].
    rewrite map_to_list_empty. cbn -[chain_handles]. rewrite app_nil_r. solve_Permutation.
  - intros e m5 Ho5. wps.
    eapply (wp_close_all before listening); [done..|]. intros m6 Ho6. wps.
    eapply wp_mono; [own_apply wp_chain_Close| |]; intros ? m7 ?; by wps.
Qed.

(** ** Peers *)

Context {SL : SystemLaws Sys}.

(** The fields that no step changes once the server runs. *)
Definition fixed (s : DServer) := (config s, sv_names s, sv_blocks s, listeners s, rpcListener s, promListener s).

Record tables (s : DServer) : Prop := {
  tab_conns : forall i x, conns s !! i = Some x -> exists b, i = ID (new_peer x.1 x.2 b);
  tab_peers : forall i q, peers (sv_pm s) !! i = Some q -> ID q = i;
  tab_dom : forall i, is_Some (conns s !! i) <-> is_Some (peers (sv_pm s) !! i);
}.

(** The connections of the server are open, beside [hs]. *)
Definition good (before : gmap nat Handle) (hs : list (nat * Handle)) (p : Proc) : Prop :=
  own before (hs ++ conn_handles p.2) p.1 /\ tables p.2.

Lemma own_NoDup before held m : own before held m -> NoDup held.*1.
Proof using All.
  intros [Hl _]. pose proof (NoDup_fst_map_to_list (live m)) as Hn. rewrite Hl, fmap_app in Hn.
  by apply NoDup_app in Hn as [? _].
Qed.

Lemma conn_handles_insert i x s : conns s !! i = None ->
  forall pm, conn_handles (set_conns (<[i := x]> (conns s)) (set_pm pm s)) ≡ₚ connection x :: conn_handles s.
Proof.
  intros Hi pm. unfold conn_handles. cbn. rewrite map_to_list_insert by done. cbn. solve_Permutation.
Qed.

Lemma conn_handles_delete i x s : conns s !! i = Some x ->
  forall pm, conn_handles s ≡ₚ connection x :: conn_handles (set_conns (delete i (conns s)) (set_pm pm s)).
Proof.
  intros Hi pm. unfold conn_handles. cbn. rewrite <-(map_to_list_delete _ _ _ Hi). cbn. solve_Permutation.
Qed.

Lemma addPeer_ok (q : Peer) (pm pm' : @PeerManager P BlockChain) : addPeer q pm = Ok pm' -> peers pm' = <[ID q := q]> (peers pm).
Proof. unfold addPeer. destruct (_ && _); [done|]. by intros <-%Ok_inj. Qed.

Lemma wp_register before hs conn addr b m s :
  own before ((conn, Conn addr) :: hs ++ conn_handles s) m -> tables s ->
  wp (register conn addr b) (fun _ => good before hs) (fun _ => good before hs) (m, s).
Proof using All.
  intros Ho Ht. unfold register. wps.
  destruct (addPeer (new_peer conn addr b) (sv_pm s)) as [pm|e] eqn:Ea; cbn [snd]; rewrite Ea; unfold on_machine, update; wps.
  - assert (conns s !! ID (new_peer conn addr b) = None) as Hn.
    { destruct (conns s !! ID (new_peer conn addr b)) as [x|] eqn:E; [|done]. exfalso.
      destruct (tab_conns _ Ht _ _ E) as [b' Eid]. apply ID_inj, new_peer_inj in Eid.
      apply own_NoDup in Ho. cbn in Ho. apply NoDup_cons in Ho as [Ho _]. apply Ho.
      apply list_elem_of_fmap. exists (connection x). split; [done|]. apply elem_of_app. right.
      unfold conn_handles. apply elem_of_app. right. apply list_elem_of_fmap. exists x. split; [done|].
      apply list_elem_of_fmap. exists (ID (new_peer conn addr b), x). split; [done|]. by apply elem_of_map_to_list. }
    apply addPeer_ok in Ea. split; cbn [fst snd].
    + eapply own_perm; [|exact Ho]. rewrite (conn_handles_insert _ (conn, addr)) by done. cbn. solve_Permutation.
    + split; cbn; unfold sv_pm in *; cbn; rewrite ?Ea.
      * intros i x Hi. apply lookup_insert_Some in Hi as [[<- <-]|[_ Hi]]; [by exists b|by eapply tab_conns].
      * intros i q Hi. apply lookup_insert_Some in Hi as [[<- <-]|[_ Hi]]; [done|by eapply tab_peers].
      * intros i. rewrite !lookup_insert_is_Some. pose proof (tab_dom _ Ht i) as E. unfold sv_pm in E. tauto.
  - eapply wp_close_quietly; [exact Ho|]. intros m' ? _. by split.
Qed.

Lemma wp_dialPeer before hs addr p : good before hs p ->
  wp (dialPeer addr) (fun _ => good before hs) (fun _ => good before hs) p.
Proof using All.
  destruct p as [m s]. intros [Ho Ht]. unfold dialPeer, on_machine. wps.
  eapply wp_mono; [own_apply wp_open| |]; [|intros e m1 Ho1; by split].
  intros conn m1 [Ho1 _]. wps. cbn [fst snd].
  eapply wp_mono; [own_apply wp_call| |]; intros ? m2 Ho2; wps.
  - by apply wp_register.
  - eapply wp_close_quietly; [exact Ho2|]. intros m3 ? _. wps. by split.
Qed.

Lemma wp_acceptConnection before hs addr p : good before hs p ->
  wp (acceptConnection addr) (fun _ => good before hs) (fun _ => good before hs) p.
Proof using All.
  destruct p as [m s]. intros [Ho Ht]. unfold acceptConnection, on_machine, update. wps.
  eapply wp_mono; [own_apply wp_open| |]; [|intros e m1 Ho1; by split].
  intros conn m1 [Ho1 _]. wps. split; cbn [fst snd].
  - eapply own_perm; [|exact Ho1]. unfold conn_handles. cbn. rewrite fmap_app. cbn. solve_Permutation.
  - by destruct Ht; split.
Qed.

Lemma wp_inboundPeer before hs i p E : good before hs p -> wp (inboundPeer i) (fun _ => good before hs) E p.
Proof using All.
  destruct p as [m s]. intros [Ho Ht]. unfold inboundPeer, update. wps. cbn [fst snd].
  destruct (pending s !! i) as [[conn addr]|] eqn:Ep; wps; [|by split]. cbn [fst snd].
  eapply wp_mono; [apply (wp_register before hs)| |].
  - eapply own_perm; [|exact Ho]. cbn [fst snd]. unfold conn_handles. cbn.
    rewrite (delete_Permutation _ _ _ Ep) at 1. cbn. solve_Permutation.
  - by destruct Ht; split.
  - intros. by wps.
  - intros. by wps.
Qed.

Lemma wp_disconnectPeer before hs q p (Q : unit -> Proc -> Prop) E : good before hs p ->
  (forall p', good before hs p' -> peers (sv_pm p'.2) = delete (ID q) (peers (sv_pm p.2)) ->
     pending p'.2 = pending p.2 -> Q tt p') ->
  wp (disconnectPeer q) Q E p.
Proof using All.
  destruct p as [m s]. intros [Ho Ht] HQ. unfold disconnectPeer, on_machine, update. wps. cbn [fst snd] in *.
  destruct (conns s !! ID q) as [[conn addr]|] eqn:Ec; wps.
  - eapply (wp_close_quietly before (hs ++ conn_handles (set_conns (delete (ID q) (conns s)) (set_pm (peerDisconnected q (sv_pm s)) s))) conn (Conn addr)).
    { eapply own_perm; [|exact Ho]. rewrite (conn_handles_delete _ _ s Ec (peerDisconnected q (sv_pm s))). cbn. solve_Permutation. }
    intros m' Ho' _. wps. apply HQ; [|done|done]. split; [exact Ho'|]. split; cbn.
    + intros i x [_ Hi]%lookup_delete_Some. by eapply tab_conns.
    + intros i q' [_ Hi]%lookup_delete_Some. by eapply tab_peers.
    + intros i. unfold sv_pm in *. cbn. rewrite !lookup_delete_is_Some. pose proof (tab_dom _ Ht i) as Ei.
      unfold sv_pm in Ei. tauto.
  - apply HQ; [by split| |done]. symmetry. apply delete_id. cbn.
    destruct (peers (sv_pm s) !! ID q) eqn:Eq; [|done].
    destruct (proj2 (tab_dom _ Ht (ID q)) ltac:(eauto)) as [? E']. congruence.
Qed.

(** ** Runs *)

Lemma wp_state {A} (m : M Proc A) (I : Proc -> Prop) p :
  wp m (fun _ => I) (fun _ => I) p -> I (m p).2.
Proof. unfold wp. by destruct (m p) as [[]]. Qed.

Lemma step_good before hs p p' : server_step p p' -> good before hs p -> good before hs p'.
Proof using All.
  intros Hs Hg. destruct Hs as [p addr|p addr|p i|p q|m s rpc Hp].
  - by apply wp_state, wp_dialPeer.
  - by apply wp_state, wp_acceptConnection.
  - by apply wp_state, wp_inboundPeer.
  - apply wp_state. by apply (wp_disconnectPeer before hs).
  - destruct Hg as [Ho Ht]. split; [exact Ho|]. unfold sv_pm in *. destruct Ht as [? ? ?].
    split; unfold sv_pm in *; cbn in *; rewrite ?Hp; done.
Qed.

(** A part of the server that is neither its peers nor their connections. *)
Section beside.
Context {T : Type} (f : DServer -> T) (Hf : forall c pm s, f (set_conns c (set_pm pm s)) = f s).

Lemma keeps_register conn addr b : keeps (fun p : Proc => f p.2) (register conn addr b).
Proof using Hf.
  unfold register. apply keeps_bind; [apply keeps_get|]. intros p.
  destruct (addPeer _ (sv_pm p.2)) as [pm|e]; [apply keeps_modify; intros; apply Hf|].
  apply keeps_bind; [by apply keeps_zoom|]. intros _. apply keeps_fail.
Qed.

Lemma keeps_dialPeer addr : keeps (fun p : Proc => f p.2) (dialPeer addr).
Proof using Hf.
  unfold dialPeer. apply keeps_bind; [by apply keeps_zoom|]. intros conn.
  apply keeps_bind; [by apply keeps_zoom|]. intros [?|e]; [apply keeps_register|].
  apply keeps_bind; [by apply keeps_zoom|]. intros _. apply keeps_fail.
Qed.

End beside.

Lemma fixed_dialPeer addr : keeps (fun p : Proc => fixed p.2) (dialPeer addr).
Proof. by apply keeps_dialPeer. Qed.
Lemma pending_dialPeer addr : keeps (fun p : Proc => pending p.2) (dialPeer addr).
Proof. by apply keeps_dialPeer. Qed.

Lemma fixed_step p p' : server_step p p' -> fixed p'.2 = fixed p.2.
Proof using All.
  intros [q addr|q addr|q i|q peer|m s rpc Hp].
  - apply fixed_dialPeer.
  - refine ((_ : keeps (fun p : Proc => fixed p.2) (acceptConnection addr)) q).
    apply keeps_bind; [by apply keeps_zoom|]. intros conn. by apply keeps_modify.
  - refine ((_ : keeps (fun p : Proc => fixed p.2) (inboundPeer i)) q).
    unfold inboundPeer. apply keeps_bind; [apply keeps_get|]. intros p0.
    destruct (pending p0.2 !! i) as [[conn addr]|]; [|apply keeps_ret].
    apply keeps_bind; [by apply keeps_modify|]. intros _.
    apply keeps_bind; [by apply keeps_try, keeps_register|]. intros _. apply keeps_ret.
  - refine ((_ : keeps (fun p : Proc => fixed p.2) (disconnectPeer peer)) q).
    unfold disconnectPeer. apply keeps_bind; [apply keeps_get|]. intros p0.
    destruct (conns p0.2 !! ID peer) as [[conn addr]|]; [|apply keeps_ret].
    apply keeps_bind; [by apply keeps_zoom|]. intros _. by apply keeps_modify.
  - done.
Qed.

(** The handles other than connections, by the fields that are fixed. *)
Definition base (s : DServer) : list (nat * Handle) :=
  files s ++ (listening <$> listeners s) ++ rpc_handle s :: prom_handle s.

Lemma handles_base s : handles s ≡ₚ base s ++ conn_handles s.
Proof. unfold handles, base. solve_Permutation. Qed.

Lemma base_fixed s s' : fixed s = fixed s' -> base s = base s'.
Proof.
  intros [= E1 E2 E3 E4 E5 E6]. unfold base, files, rpc_handle, prom_handle. by rewrite E1, E2, E3, E4, E5, E6.
Qed.

(** A server that runs: [Start] has returned. *)
Definition running (before : gmap nat Handle) (p : Proc) : Prop := good before (base p.2) p.

Lemma running_own before p : running before p -> own before (handles p.2) p.1.
Proof using All. intros [Ho _]. eapply own_perm; [|exact Ho]. symmetry. apply handles_base. Qed.

Lemma started_running cfg before s m : started cfg before s m -> running before (m, s).
Proof using All.
  intros (Ho & _ & _ & Ec & _ & _ & Ep & _). split; cbn.
  - eapply own_perm; [|exact Ho]. apply handles_base.
  - split; rewrite ?Ec, ?Ep; intros i; rewrite ?lookup_empty; done.
Qed.

Lemma wp_connectPeers before hs fx addrs p (Q : unit -> Proc -> Prop) E : good before hs p -> fixed p.2 = fx ->
  (forall p', good before hs p' -> fixed p'.2 = fx -> Q tt p') -> wp (connectPeers addrs) Q E p.
Proof using All.
  unfold connectPeers. revert p. induction addrs as [|addr addrs IH]; intros p Hg Hf HQ; [by apply HQ|].
  cbn [forM]. wps. pose proof (fixed_dialPeer addr p) as Hk.
  assert (wp (dialPeer addr) (fun _ p' => good before hs p' /\ fixed p'.2 = fx)
            (fun _ p' => good before hs p' /\ fixed p'.2 = fx) p) as Hd.
  { pose proof (wp_dialPeer before hs addr p Hg) as Hw. unfold wp in *.
    destruct (dialPeer addr p) as [[] p']; cbn in Hk; by rewrite Hk. }
  eapply wp_mono; [exact Hd| |]; intros ? p' [??]; wps; by apply IH.
Qed.

Lemma wp_Start before p : running before p -> promListener p.2 = None ->
  wp Start (fun _ => running before) (fun _ _ => False) p.
Proof using All.
  intros Hr Hn. unfold Start. wps.
  eapply (wp_connectPeers before (base p.2) (fixed p.2)); [exact Hr|done|]. intros p' [Ho Ht] Hf.
  assert (base p.2 = base p'.2) as Eb by (symmetry; by apply base_fixed).
  assert (promListener p'.2 = None) as Hn' by (injection Hf as _ _ _ _ _ ->; done).
  unfold startPrometheusServer. wps. destruct p' as [m s]. cbn [fst snd] in *. rewrite Eb in Ho.
  destruct (prometheusHTTP s); wps; [|by split].
  unfold on_machine, update. wps. eapply wp_mono; [own_apply wp_open| |].
  - intros l m' [Ho' _]. wps. split; cbn [fst snd]; [|by destruct Ht; split].
    eapply own_perm; [|exact Ho']. unfold base, prom_handle, rpc_handle, files. cbn -[chain_handles]. rewrite Hn'.
    solve_Permutation.
  - intros e m' Ho'. wps. by split.
Qed.

Lemma rtc_running before p q : rtc server_step p q -> running before p -> running before q.
Proof using All.
  induction 1 as [|p q r Hs _ IH]; [done|]. intros Hr. apply IH. unfold running in *.
  rewrite (base_fixed q.2 p.2) by by apply fixed_step. by eapply step_good.
Qed.

(** ** Stop *)

Lemma wp_disconnectAll before hs p (Q : unit -> Proc -> Prop) E : good before hs p ->
  (forall p', good before hs p' -> peers (sv_pm p'.2) = ∅ -> pending p'.2 = pending p.2 -> Q tt p') ->
  wp (forM (range (peers (sv_pm p.2))).*2 disconnectPeer) Q E p.
Proof using All.
  intros Hg HQ. set (ps := peers (sv_pm p.2)).
  eapply wp_mono; [apply (wp_forM (fun done p' => good before hs p' /\ pending p'.2 = pending p.2 /\
    forall i q, peers (sv_pm p'.2) !! i = Some q -> ps !! i = Some q /\ q ∉ done))| |].
  - intros don q rest p1 _ (Hg1 & Hp1 & Hq1). apply (wp_disconnectPeer before hs); [exact Hg1|].
    intros p2 Hg2 Eq2 Hp2. split; [exact Hg2|]. split; [by rewrite Hp2|]. intros i q'. rewrite Eq2.
    intros [Hi Hl]%lookup_delete_Some. destruct (Hq1 _ _ Hl) as [Hps Hd]. split; [done|].
    rewrite elem_of_app, list_elem_of_singleton. intros [?| ->]; [done|].
    destruct Hg1 as [_ Ht]. by rewrite (tab_peers _ Ht _ _ Hl) in Hi.
  - split; [exact Hg|]. split; [done|]. intros i q Hi. split; [exact Hi|]. apply not_elem_of_nil.
  - cbv beta. intros [] p' (Hg' & Hp' & Hq'). apply HQ; [done| |done].
    apply map_eq. intros i. rewrite lookup_empty. destruct (peers (sv_pm p'.2) !! i) as [q|] eqn:Ei; [|done].
    exfalso. destruct (Hq' _ _ Ei) as [Hps Hd]. apply Hd. apply list_elem_of_fmap. exists (i, q). split; [done|].
    rewrite range_perm. by apply elem_of_map_to_list.
  - by intros.
Qed.

Lemma wp_err {A T} (m : M T A) Q (E E' : error -> T -> Prop) s : wp m Q E s ->
  (forall e, (m s).1 = Err e -> E' e (m s).2) -> wp m Q (fun e s' => E e s' /\ E' e s') s.
Proof. unfold wp. destruct (m s) as [[] ?]; cbn; auto. Qed.

Lemma chain_Close_err names blocks m e : (chain_Close names blocks m).1 = Err e -> panics e = false.
Proof.
  unfold chain_Close, try, close, mbind, M_bind. cbn.
  destruct (outcome (ncalls m)), (outcome (Datatypes.S (ncalls m))); cbn; by intros [= <-].
Qed.

(** Everything but the two databases and the peers is closed. *)
Lemma wp_Stop_listeners before p (k : M Proc unit) Q E : running before p ->
  (forall m, good before (files p.2) (m, p.2) ->
     wp (forM (range (peers (sv_pm p.2))).*2 disconnectPeer;;
         forM (pending p.2) (fun _ => inboundPeer 0);;
         p ← get; if bool_decide (peers (sv_pm p.2) = ∅) then mret tt else fail Blocked)
       (fun _ => wp k Q E) E (m, p.2)) ->
  wp (on_machine (match promListener p.2 with Some l => close_quietly l | None => mret tt end);;
      on_machine (close_quietly (rpcListener p.2);; close_quietly (rpcListener p.2));;
      peerMgr_Stop;; k) Q E p.
Proof using All.
  destruct p as [m s]. intros [Ho Ht] HQ. cbn [fst snd] in *. unfold on_machine. wps. cbn [fst snd].
  assert (forall m, own before (rpc_handle s :: (listening <$> listeners s) ++ files s ++ conn_handles s) m ->
    wp (on_machine (close_quietly (rpcListener s);; close_quietly (rpcListener s));; peerMgr_Stop;; k) Q E (m, s)) as Hrpc.
  { clear m Ho. intros m Ho. unfold on_machine. wps. cbn [fst snd].
    eapply wp_close_quietly; [exact Ho|]. intros m1 Ho1 Hn. wps.
    eapply wp_close_again; [exact Ho1|exact Hn|]. intros m2 Ho2. wps.
    unfold peerMgr_Stop, on_machine. wps. cbn [fst snd].
    eapply (wp_close_all before listening); [done|exact Ho2|]. intros m3 Ho3. wps.
    specialize (HQ m3 (conj Ho3 Ht)). autorewrite with wp in HQ. exact HQ. }
  unfold base, prom_handle in Ho. unfold on_machine in Hrpc. autorewrite with wp in Hrpc.
  destruct (promListener s) as [l|]; wps.
  - eapply (wp_close_quietly before (rpc_handle s :: (listening <$> listeners s) ++ files s ++ conn_handles s)).
    { eapply own_perm; [|exact Ho]. rewrite <-!app_assoc. solve_Permutation. }
    intros m1 Ho1 _. wps. by apply Hrpc.
  - apply Hrpc. eapply own_perm; [|exact Ho]. solve_Permutation.
Qed.

Lemma good_idle before hs p : good before hs p -> peers (sv_pm p.2) = ∅ -> pending p.2 = [] -> own before hs p.1.
Proof using All.
  intros [Ho Ht] Hp Hq. unfold conn_handles in Ho. rewrite Hq in Ho.
  assert (conns p.2 = ∅) as Hc.
  { apply map_eq. intros i. rewrite lookup_empty. destruct (conns p.2 !! i) as [x|] eqn:Ei; [|done].
    destruct (proj1 (tab_dom _ Ht i) ltac:(eauto)) as [q E]. by rewrite Hp, lookup_empty in E. }
  rewrite Hc, map_to_list_empty in Ho. cbn in Ho. by rewrite app_nil_r in Ho.
Qed.

Lemma wp_Stop before p : running before p -> pending p.2 = [] ->
  wp Stop (fun _ p' => live p'.1 = before) (fun e p' => live p'.1 = before /\ panics e = false) p.
Proof using All.
  intros Hr Hp. unfold Stop. apply wp_bind, wp_get. apply (wp_Stop_listeners before); [done|].
  intros m Hg. autorewrite with wp. eapply (wp_disconnectAll before _ _ _ _ Hg). intros p1 Hg1 Hn Hp1.
  cbn [snd] in Hp1. rewrite Hp in *. cbn [forM]. autorewrite with wp. rewrite bool_decide_eq_true_2 by done.
  unfold on_machine. autorewrite with wp. cbv beta.
  eapply wp_mono; [apply (wp_err _ (fun _ => own before []) (fun _ => own before []) (fun e _ => panics e = false))| |].
  - eapply wp_chain_Close. rewrite app_nil_r. by eapply good_idle.
  - intros e. apply chain_Close_err.
  - intros ? m2 Ho2. by apply own_nil.
  - intros e m2 [Ho2 He]. split; [by apply own_nil|done].
Qed.

(** A connection whose goroutine has not added its peer yet. *)
Lemma inboundPeer_peers i p : peers (sv_pm p.2) <> ∅ \/ is_Some (pending p.2 !! i) ->
  peers (sv_pm (inboundPeer i p).2.2) <> ∅.
Proof.
  destruct p as [m s]. unfold inboundPeer, update, mbind, M_bind, get, modify, try. cbn -[register].
  destruct (pending s !! i) as [[conn addr]|] eqn:Ep; [|intros [?|[]]; done].
  intros Hne. cbn -[register]. unfold register, mbind, M_bind, get. cbn.
  destruct (addPeer _ _) as [pm|e] eqn:Ea.
  - cbn. apply addPeer_ok in Ea. unfold sv_pm in *. cbn. rewrite Ea. apply insert_non_empty.
  - cbn. unfold on_machine, zoom, close_quietly, try, close, mbind, M_bind. cbn.
    assert (peers (sv_pm s) <> ∅); [|by destruct (outcome (ncalls m))].
    destruct Hne as [Hne|_]; [exact Hne|]. intros E. unfold addPeer, sv_pm in *. cbn in Ea. rewrite E in Ea.
    destruct (maxPeers _ >? 0) eqn:E1; [|done]. destruct (_ >=? _) eqn:E2; [|done].
    rewrite map_size_empty in E2. apply Z.gtb_lt in E1. apply Z.geb_le in E2. lia.
Qed.

Lemma Stop_blocks before p : running before p -> pending p.2 <> [] -> (Stop p).1 = Err Blocked.
Proof using All.
  intros Hr Hp. cut (wp Stop (fun _ _ => False) (fun e _ => e = Blocked) p).
  { unfold wp. destruct (Stop p) as [[] ?]; [done|]. by intros ->. }
  unfold Stop. apply wp_bind, wp_get. apply (wp_Stop_listeners before); [done|].
  intros m Hg. autorewrite with wp. eapply (wp_disconnectAll before _ _ _ _ Hg). intros p1 Hg1 Hn Hp1.
  autorewrite with wp. cbn [snd] in Hp1. rewrite <-Hp1 in *.
  assert (forall l q E, (l <> [] /\ is_Some (pending q.2 !! 0%nat)) \/ peers (sv_pm q.2) <> ∅ ->
    wp (forM l (fun _ : nat * bytes => inboundPeer 0)) (fun _ q' => peers (sv_pm q'.2) <> ∅) E q) as Hl.
  { induction l as [|x l IH]; intros q E Hq; cbn [forM].
    - destruct Hq as [[]|]; [done|]. by apply wp_ret.
    - apply wp_bind. pose proof (inboundPeer_peers 0 q) as Hi.
      assert (peers (sv_pm (inboundPeer 0 q).2.2) <> ∅) as Hi' by (apply Hi; tauto).
      pose proof (wp_inboundPeer before (files p.2) 0 q (fun _ _ => True)) as Hw.
      unfold wp in Hw |- *. destruct (inboundPeer 0 q) as [[] q'] eqn:Eq; cbn in Hi'; [apply IH; tauto|].
      exfalso. unfold inboundPeer, mbind, M_bind, get, update, modify, try in Eq. cbn -[register] in Eq.
      destruct (pending q.2 !! 0%nat) as [[]|]; [|done]. destruct (register _ _ _ _); done. }
  eapply wp_mono; [apply (Hl (pending p1.2) p1 (fun _ _ => False))| |done].
  - left. split; [done|]. destruct (pending p1.2); [done|]. by eexists.
  - intros [] q Hq. autorewrite with wp. rewrite bool_decide_eq_false_2 by done. by autorewrite with wp.
Qed.

End startup.
