(* ===== verification/Logging.v ===== *)
(** * Logging, and the daemon's main

    internal/logging/logger.go and [main] of cmd/nmcd/main.go.  The handlers of log/slog are
    modelled by the fields of the lines they write, in order; the text or JSON of a line is
    not.  A log file is a handle of the machine of Startup.v. *)

From stdpp Require Import relations.
From S2P Require Import Prelude Clock Strings Bolt Lru NameDB Config Wire AuxPow Chain ChainUpdate.
From S2P Require Import Mempool MempoolSpec Network Node Encryption Wallet WalletTx RateLimit.
From S2P Require Import Rpc RpcServer Client Settings Startup.

(** ** Package log/slog *)

Inductive attr_value := AString (s : bytes) | AInt64 (n : Z) | AError (err : option error).
Definition attr : Type := bytes * attr_value.

Definition slog_LevelDebug : Z := -4.
Definition slog_LevelInfo : Z := 0.
Definition slog_LevelWarn : Z := 4.
Definition slog_LevelError : Z := 8.

Inductive Writer := Stdout | Stderr | FileWriter (n : nat).
Inductive slog_format := JSONHandler | TextHandler | defaultHandler.

(** A handler: its options, the groups opened so far and the attributes added so far, each
    with the groups it is in. *)
Record slog_Handler := mkHandler {
  h_format : slog_format; h_writer : Writer; h_level : Z; h_groups : list bytes; h_attrs : list (list bytes * attr) }.

Record Line := mkLine {
  ln_writer : Writer; ln_format : slog_format; ln_time : Z; ln_level : Z; ln_msg : bytes;
  ln_fields : list (list bytes * attr) }.

Definition slog_Enabled (level : Z) (h : slog_Handler) : bool := h_level h <=? level.

Definition slog_WithAttrs (attrs : list attr) (h : slog_Handler) : slog_Handler :=
  mkHandler (h_format h) (h_writer h) (h_level h) (h_groups h) (h_attrs h ++ (pair (h_groups h) <$> attrs)).

Definition slog_WithGroup (name : bytes) (h : slog_Handler) : slog_Handler :=
  if bool_decide (name = []) then h
  else mkHandler (h_format h) (h_writer h) (h_level h) (h_groups h ++ [name]) (h_attrs h).

Definition slog_Handle (now level : Z) (msg : bytes) (attrs : list attr) (h : slog_Handler) : Line :=
  mkLine (h_writer h) (h_format h) now level msg (h_attrs h ++ (pair (h_groups h) <$> attrs)).

(** ** Configuration *)

Definition LevelDebug : bytes := str "DEBUG".
Definition LevelInfo : bytes := str "INFO".
Definition LevelWarn : bytes := str "WARN".
Definition LevelError : bytes := str "ERROR".

Record LogConfig := mkLogConfig {          (* logging.Config *)
  lc_Level : bytes; lc_Format : bytes; lc_Output : bytes; lc_Component : bytes; lc_EnableRotation : bool;
  lc_MaxSizeMB : Z; lc_MaxBackups : Z; lc_MaxAgeDays : Z; lc_CompressBackups : bool }.

Definition log_DefaultConfig : LogConfig :=
  mkLogConfig LevelInfo (str "text") (str "stdout") (str "nmcd") false 100 10 30 true.

Definition resolveSlogLevel (level : bytes) : Z :=
  if bool_decide (level = LevelDebug) then slog_LevelDebug
  else if bool_decide (level = LevelWarn) then slog_LevelWarn
  else if bool_decide (level = LevelError) then slog_LevelError
  else slog_LevelInfo.

(** ** Handlers *)

(** [None] is slog's own default, which has no component. *)
Record componentHandler := mkComponent { ch_Handler : slog_Handler; ch_component : option bytes }.

Definition ch_Handle (now level : Z) (msg : bytes) (attrs : list attr) (h : componentHandler) : Line :=
  slog_Handle now level msg
    (match ch_component h with Some c => (str "component", AString c) :: attrs | None => attrs end) (ch_Handler h).

Definition ch_WithAttrs (attrs : list attr) (h : componentHandler) : componentHandler :=
  mkComponent (slog_WithAttrs attrs (ch_Handler h)) (ch_component h).

Definition ch_WithGroup (name : bytes) (h : componentHandler) : componentHandler :=
  mkComponent (slog_WithGroup name (ch_Handler h)) (ch_component h).

Definition newComponentHandler (cfg : LogConfig) (writer : Writer) : componentHandler :=
  let format := if bool_decide (lc_Format cfg = str "json") then JSONHandler else TextHandler in
  mkComponent (mkHandler format writer (resolveSlogLevel (lc_Level cfg)) [] []) (Some (lc_Component cfg)).

(** ** Loggers *)

Record Logger := mkLogger { lg_handler : componentHandler; lg_config : LogConfig; lg_closer : option nat }.

(** [slog.Logger]'s [With], and a call at a level: [None] when it writes nothing. *)
Definition With (a : attr) (l : Logger) : Logger := mkLogger (ch_WithAttrs [a] (lg_handler l)) (lg_config l) None.

Definition Log (level now : Z) (msg : bytes) (attrs : list attr) (l : Logger) : option Line :=
  if slog_Enabled level (ch_Handler (lg_handler l)) then Some (ch_Handle now level msg attrs (lg_handler l)) else None.

Definition WithComponent (component : bytes) : Logger -> Logger := With (str "component", AString component).
Definition WithOperation (operation : bytes) : Logger -> Logger := With (str "operation", AString operation).
Definition WithBlockHeight (height : Z) : Logger -> Logger := With (str "block_height", AInt64 height).
Definition WithPeerID (peerID : bytes) : Logger -> Logger := With (str "peer_id", AString peerID).
Definition WithTxHash (txHash : bytes) : Logger -> Logger := With (str "tx_hash", AString txHash).
Definition WithError (err : option error) : Logger -> Logger := With (str "error", AError err).

Definition Milliseconds (d : Z) : Z := Z.quot d 1000000.

Definition LogBlockProcessed (now : Z) (l : Logger) (height : Z) (hash : bytes) (duration : Z) : option Line :=
  Log slog_LevelInfo now (str "block processed")
    [(str "block_height", AInt64 height); (str "block_hash", AString hash);
     (str "duration_ms", AInt64 (Milliseconds duration))] l.

Definition LogNameOperation (now : Z) (l : Logger) (operation name txHash : bytes) : option Line :=
  Log slog_LevelInfo now (str "name operation")
    [(str "operation", AString operation); (str "name", AString name); (str "tx_hash", AString txHash)] l.

Definition LogPeerConnected (now : Z) (l : Logger) (peerID addr : bytes) : option Line :=
  Log slog_LevelInfo now (str "peer connected") [(str "peer_id", AString peerID); (str "address", AString addr)] l.

Definition LogPeerDisconnected (now : Z) (l : Logger) (peerID reason : bytes) : option Line :=
  Log slog_LevelInfo now (str "peer disconnected") [(str "peer_id", AString peerID); (str "reason", AString reason)] l.

Definition LogRPCRequest (now : Z) (l : Logger) (method clientIP : bytes) : option Line :=
  Log slog_LevelDebug now (str "rpc request") [(str "method", AString method); (str "client_ip", AString clientIP)] l.

Definition LogRPCResponse (now : Z) (l : Logger) (method : bytes) (duration : Z) (err : option error) : option Line :=
  match err with
  | Some _ => Log slog_LevelWarn now (str "rpc error")
      [(str "method", AString method); (str "duration_ms", AInt64 (Milliseconds duration)); (str "error", AError err)] l
  | None => Log slog_LevelDebug now (str "rpc response")
      [(str "method", AString method); (str "duration_ms", AInt64 (Milliseconds duration))] l
  end.

Section logging.
Context {B : Bolt} {W : Wire} {G : BtcLib} {R : MapRange} {D : Btcd} {P : PeerLib}.
Context {K : Crypto} {L : KeyLib} {F : Disk} {J : WalletJson} {S : TxScript} {X : RpcLib}.
Context {H : Host} {Sys : System}.

(** ** Outputs *)

Definition openLogFile (path : bytes) : M Machine (Writer * option nat) :=
  let logDir := filepath_Dir path in
  wrapM "failed to create log directory %s" call;;
  (if bool_decide (logDir <> str ".") then wrapM "failed to set permissions on log directory %s" call else mret tt);;
  f ← wrapM "failed to open log file %s" (open (LogFile path));
  r ← try call;
  match r with
  | Err err => close_quietly f;; fail (EWrap "failed to set permissions on log file %s" err)
  | Ok _ => mret (FileWriter f, Some f)
  end.

Definition openLogOutput (cfg : LogConfig) : M Machine (Writer * option nat) :=
  if bool_decide (lc_Output cfg = str "stdout") then mret (Stdout, None)
  else if bool_decide (lc_Output cfg = str "stderr") then mret (Stderr, None)
  else openLogFile (lc_Output cfg).

(** [Init]; [None] is a nil configuration. *)
Definition Init (cfg : option LogConfig) : M Machine Logger :=
  let cfg := default log_DefaultConfig cfg in
  '(writer, closer) ← openLogOutput cfg;
  mret (mkLogger (newComponentHandler cfg writer) cfg closer).

(** [Logger.Close] *)
Definition log_Close (l : Logger) : M Machine unit :=
  match lg_closer l with Some f => close f | None => mret tt end.

(** ** The default logger *)

Record Globals := mkGlobals { defaultLogger : option Logger; once : bool }.

Definition slog_Default : Logger :=
  mkLogger (mkComponent (mkHandler defaultHandler Stderr slog_LevelInfo [] []) None) log_DefaultConfig None.

Definition on_os {A} (m : M Machine A) : M (Machine * Globals) A := zoom fst (fun m p => (m, p.2)) m.
Definition set_globals (g : Globals) : M (Machine * Globals) unit := modify (fun p => (p.1, g)).

Definition SetDefault (l : Logger) : M (Machine * Globals) unit :=
  p ← get;
  set_globals (mkGlobals (Some l) (once p.2)).

Definition GetDefault : M (Machine * Globals) (option Logger) :=
  p ← get;
  (if once p.2 then mret tt
   else
     r ← try (on_os (Init (Some log_DefaultConfig)));
     set_globals (mkGlobals (Some (match r with Ok l => l | Err _ => slog_Default end)) true));;
  p ← get;
  mret (defaultLogger p.2).

(** What network, rpc and client start with. *)
Definition component_logger (component : bytes) : M (Machine * Globals) (option Logger) :=
  l ← GetDefault;
  mret (WithComponent component <$> l).

(** ** main *)

Definition log_config (cfg : Settings) : LogConfig :=
  mkLogConfig (cfg_LogLevel cfg) (cfg_LogFormat cfg) (cfg_LogOutput cfg) (str "nmcd") (cfg_LogRotation cfg)
    (cfg_LogMaxSizeMB cfg) (lc_MaxBackups log_DefaultConfig) (lc_MaxAgeDays log_DefaultConfig)
    (lc_CompressBackups log_DefaultConfig).

(** [main] up to the server; an error ends the process. *)
Definition main_init (args : list bytes) : M (Machine * Globals) (Logger * DServer) :=
  cfg ← lift (parseFlags args);
  logger ← on_os (wrapM "Failed to initialize logger: %v" (Init (Some (log_config cfg))));
  SetDefault logger;;
  s ← on_os (NewServer cfg);
  mret (logger, s).

(** Its deferred calls, after a signal or an error of the RPC server. *)
Definition main_exit (logger : Logger) : M Proc unit :=
  _ ← try Stop;
  on_machine (log_Close logger).

End logging.
