(* ===== verification/Daemon.v ===== *)
(** * The daemon client

    client/daemon.go and client/client.go: a client that sends JSON-RPC requests over
    HTTP.  What the network, the context and the clock do is the class [Transport] over a
    state of the world; a method is a computation over the client and that state.  An
    error keeps what the code looks at: the code and message of an RPC error, or the text
    that decides whether it is transient. *)

From Stdlib Require Import Floats.SpecFloat.
From S2P Require Import Prelude Clock Float Strings Base64 Json Record Config Script Client.

(** ** The world *)

(** A POST of JSON, with the header of SetBasicAuth. *)
Record HttpCall := mkCall { hc_URL : bytes; hc_Authorization : bytes; hc_Body : bytes }.
(** The status, its line, the bytes of the body and the text of an error in reading it. *)
Record HttpReply := mkReply { hp_Status : Z; hp_Line : bytes; hp_Body : bytes; hp_ReadError : option bytes }.

(** [Do] gives a reply or the text of an error.  A select between the context and a timer
    or a ticker gives whether the context was taken. *)
Class Transport (T : Type) := {
  NewRequest_error : bytes -> option bytes;                (* of a URL *)
  Do : HttpCall -> T -> (HttpReply + bytes) * T;
  CtxDone : T -> bool;                                     (* a select with a default *)
  SelectAfter : Z -> T -> bool * T;
  SelectTick : T -> bool * T;
}.

(** ** Errors *)

Inductive derror :=
  | RpcErr (code : Z) (message : bytes)                    (* *rpcError *)
  | Plain (text : bytes)
  | Sentinel (e : error)
  | Wrapped (m : string) (e : derror).

Inductive outcome (A : Type) := Got (a : A) | Failed (e : derror).
Arguments Got {A} a. Arguments Failed {A} e.

(** ** The client *)

Record RetryConfig := mkRetry { MaxAttempts : Z; InitialDelay : Z; MaxDelay : Z; Multiplier : float64 }.

Record DaemonClient := mkDaemon {
  dc_baseURL : bytes;
  dc_auth : option (bytes * bytes);
  dc_retryConfig : RetryConfig;
  dc_closed : bool;
}.

Definition Millisecond : Z := 1000000.

Definition defaultRetryConfig : RetryConfig :=
  mkRetry 3 (100 * Millisecond) (5 * Second) (lit 2 1).

(** [None] is a nil configuration. *)
Definition default_addr : bytes := str "http://localhost:8336".
Definition resolveDaemonConfig (cfg : option ClientConfig) : ClientConfig :=
  match cfg with
  | None => mkClientConfig ModeAuto [] [] default_addr [] [] 0 [] false
  | Some cfg =>
      if bool_decide (RPCAddr cfg = [])
      then mkClientConfig (Mode cfg) (DataDir cfg) (cc_Network cfg) default_addr (RPCUser cfg) (RPCPassword cfg)
             (MaxPeers cfg) (BootstrapPeers cfg) (DisableWallet cfg)
      else cfg
  end.

Definition validateDaemonAuthConfig (cfg : ClientConfig) : res unit :=
  let hasUser := negb (bool_decide (RPCUser cfg = [])) in
  let hasPassword := negb (bool_decide (RPCPassword cfg = [])) in
  if xorb hasUser hasPassword then
    Err (EMsg "incomplete RPC authentication: both RPCUser and RPCPassword must be provided together, or neither")
  else Ok tt.

Definition applyDaemonAuth (cfg : ClientConfig) : option (bytes * bytes) :=
  if bool_decide (RPCUser cfg = []) then None else Some (RPCUser cfg, RPCPassword cfg).

Definition NewDaemonClient (cfg : option ClientConfig) : res DaemonClient :=
  let cfg := resolveDaemonConfig cfg in
  _ ← validateDaemonAuthConfig cfg;
  mret (mkDaemon (RPCAddr cfg) (applyDaemonAuth cfg) defaultRetryConfig false).

Definition SetRetryConfig (cfg : RetryConfig) (c : DaemonClient) : DaemonClient :=
  let m := Multiplier cfg in
  let bad := flt m (lit 1 1) || negb (feq m m) || negb (finite_float m) in
  mkDaemon (dc_baseURL c) (dc_auth c)
    (mkRetry (if MaxAttempts cfg <=? 0 then 3 else MaxAttempts cfg)
       (if InitialDelay cfg <=? 0 then 100 * Millisecond else InitialDelay cfg)
       (if MaxDelay cfg <=? 0 then 5 * Second else MaxDelay cfg)
       (if bad then lit 2 1 else m)) (dc_closed c).

Definition dc_Close (c : DaemonClient) : DaemonClient := mkDaemon (dc_baseURL c) (dc_auth c) (dc_retryConfig c) true.

(** ** One call *)

Section daemon.
Context {JT : JsonText} {T : Type} {TT : Transport T}.

Definition DM (A : Type) : Type := DaemonClient -> T -> outcome A * T.

#[export] Instance DM_ret : MRet DM := fun A a _ w => (Got a, w).
#[export] Instance DM_bind : MBind DM := fun A C f m c w =>
  match m c w with
  | (Got a, w') => f a c w'
  | (Failed e, w') => (Failed e, w')
  end.
Definition dfail {A} (e : derror) : DM A := fun _ w => (Failed e, w).
Definition dsentinel {A} (e : error) : DM A := dfail (Sentinel e).
(** The two results of a Go call. *)
Definition dtry {A} (m : DM A) : DM (outcome A) := fun c w => let '(r, w') := m c w in (Got r, w').
Definition dwrap {A} (message : string) (m : DM A) : DM A := fun c w =>
  match m c w with
  | (Failed e, w') => (Failed (Wrapped message e), w')
  | r => r
  end.
Definition dasks {A} (f : DaemonClient -> A) : DM A := fun c w => (Got (f c), w).
(** The members of a decoded struct. *)
Definition decoded {A} (message : string) (a : option A) : DM A :=
  match a with Some a => mret a | None => dfail (Wrapped message (Plain (str "json: cannot unmarshal"))) end.

(** [json.Unmarshal] of a raw message: an absent one is the empty text. *)
Definition raw_struct (raw : option value) : option (list (string * value)) := v ← raw; as_struct v.

Definition marshalRPCRequest (method : string) (params : value) : bytes :=
  json_Marshal (VMap [("jsonrpc"%string, VStr (str "2.0")); ("method"%string, VStr (str method));
                      ("params"%string, params); ("id"%string, VInt 1)]).

Definition SetBasicAuth (user pass : bytes) : bytes := str "Basic " ++ b64_EncodeToString (user ++ Byte.x3a :: pass).

Definition newRPCRequest (body : bytes) : DM HttpCall := fun c w =>
  match NewRequest_error (dc_baseURL c) with
  | Some text => (Failed (Plain (str "failed to create request: " ++ text)), w)
  | None =>
      (Got (mkCall (dc_baseURL c)
              (match dc_auth c with Some (user, pass) => SetBasicAuth user pass | None => [] end) body), w)
  end.

Definition validateRPCStatus (resp : HttpReply) : outcome unit :=
  if hp_Status resp =? 401 then Failed (Plain (str "authentication failed: check RPC credentials"))
  else if negb (hp_Status resp =? 200) then Failed (Plain (str "HTTP error: " ++ hp_Line resp))
  else Got tt.

(** The pointer to an error: null resets it, an object is decoded into the same struct. *)
Definition member_error (l : list (string * value)) : option (option (Z * bytes)) :=
  foldl (fun acc v =>
    old ← acc;
    match v with
    | VNil => Some None
    | VMap m =>
        let '(code0, message0) := default (0, []) old in
        code ← member code0 (read_int 64) "code" m;
        message ← member message0 read_string "message" m;
        Some (Some (code, message))
    | _ => None
    end) (Some None) (members "error" l).

(** rpcResponse: its result, absent or raw, and its error. *)
Definition decode_response (v : value) : option (option value * option (Z * bytes)) :=
  l ← as_struct v;
  _ ← member_string "jsonrpc" l;
  e ← member_error l;
  _ ← member_int 64 "id" l;
  Some (last (members "result" l), e).

Definition decodeRPCResponse (resp : HttpReply) : outcome (option value) :=
  match json_Decode (hp_Body resp) (hp_ReadError resp) with
  | inr text => Failed (Plain (str "failed to decode response: " ++ text))
  | inl v =>
      match decode_response v with
      | None => Failed (Plain (str "failed to decode response: json: cannot unmarshal"))
      | Some (_, Some (code, message)) => Failed (RpcErr code message)
      | Some (raw, None) => Got raw
      end
  end.

(** What a reply means. *)
Definition reply_outcome (r : HttpReply + bytes) : outcome (option value) :=
  match r with
  | inr text => Failed (Plain (str "HTTP request failed: " ++ text))
  | inl resp =>
      match validateRPCStatus resp with
      | Failed e => Failed e
      | Got _ => decodeRPCResponse resp
      end
  end.

Definition send (httpReq : HttpCall) : DM (option value) := fun _ w =>
  let '(r, w') := Do httpReq w in (reply_outcome r, w').

Definition doRPCCall (body : bytes) : DM (option value) :=
  httpReq ← newRPCRequest body;
  send httpReq.

(** ** Retries *)

Definition error_text (e : derror) : option bytes := match e with Plain text => Some text | _ => None end.

(** Only the errors of a single call get here, which are an RPC error or a text. *)
Definition isTransientError (err : derror) : bool :=
  match error_text err with
  | None => false
  | Some text =>
      if Contains text (str "authentication failed") then false
      else Contains text (str "connection refused") || Contains text (str "timeout") ||
           Contains text (str "EOF") || Contains text (str "connection reset")
  end.

Definition shouldRetryRPC (attempt : Z) (retryCfg : RetryConfig) (err : derror) : bool :=
  isTransientError err && (attempt <? MaxAttempts retryCfg - 1).

Definition checkRPCCallContext : DM unit := fun c w =>
  if CtxDone w then (Failed (Sentinel ErrContextCanceled), w) else (Got tt, w).

Definition waitAndBackoff (delay : Z) (retryCfg : RetryConfig) : DM Z := fun c w =>
  match SelectAfter delay w with
  | (true, w) => (Got (-1), w)
  | (false, w) =>
      let nextDelay := int_of_float (fmul (of_int delay) (Multiplier retryCfg)) in
      (Got (if nextDelay >? MaxDelay retryCfg then MaxDelay retryCfg else nextDelay), w)
  end.

(** The loop from an attempt on, for the [n] attempts that are left. *)
Fixpoint retryFrom (n : nat) (attempt delay : Z) (body : bytes) (retryCfg : RetryConfig) (lastErr : derror) :
    DM (option value) :=
  match n with
  | O => dfail (Wrapped "RPC call failed after %d attempts" lastErr)
  | S n =>
      checkRPCCallContext;;
      r ← dtry (doRPCCall body);
      match r with
      | Got result => mret result
      | Failed err =>
          if negb (shouldRetryRPC attempt retryCfg err) then dfail err
          else
            delay ← waitAndBackoff delay retryCfg;
            if delay <? 0 then dsentinel ErrContextCanceled
            else retryFrom n (attempt + 1) delay body retryCfg err
      end
  end.

Definition executeWithRetry (body : bytes) (retryCfg : RetryConfig) : DM (option value) :=
  retryFrom (Z.to_nat (MaxAttempts retryCfg)) 0 (InitialDelay retryCfg) body retryCfg (Plain []).

Definition getRetryConfig : DM RetryConfig :=
  closed ← dasks dc_closed;
  if closed : bool then dsentinel (EMsg "client is closed") else dasks dc_retryConfig.

Definition rpcCall (method : string) (params : value) : DM (option value) :=
  retryCfg ← getRetryConfig;
  executeWithRetry (marshalRPCRequest method params) retryCfg.

(** ** Names *)

Definition is_rpc_error (err : derror) (p : Z -> bytes -> bool) : bool :=
  match err with RpcErr code message => p code message | _ => false end.

Definition strings (l : list bytes) : value := VList (VStr <$> l).

Definition wrapResolveNameError (err : derror) : derror :=
  if is_rpc_error err (fun code message => (code =? -5) || Contains message (str "not found"))
  then Sentinel ErrNotFound
  else Wrapped "failed to resolve name" err.

(** The members of name_show and name_list: name, value, txid, height, expires_in,
    address. *)
Definition shown_record (l : list (string * value)) : option cNameRecord :=
  name ← member_string "name" l;
  v ← member_string "value" l;
  txid ← member_string "txid" l;
  height ← member_int 32 "height" l;
  expires_in ← member_int 32 "expires_in" l;
  addr ← member_string "address" l;
  Some (mkCRecord name v txid height 0 expires_in addr zero_time).

Definition parseResolvedName (result : option value) : DM cNameRecord :=
  resp ← decoded "failed to parse name_show response" (raw_struct result ≫= shown_record);
  if cr_ExpiresIn resp <? 0 then dsentinel ErrNameExpired else mret resp.

Definition dc_ResolveName (name : bytes) : DM cNameRecord :=
  if bool_decide (name = []) then dsentinel ErrInvalidName
  else
    r ← dtry (rpcCall "name_show" (strings [name]));
    match r with
    | Failed err => dfail (wrapResolveNameError err)
    | Got result => parseResolvedName result
    end.

(** ** Waiting *)

(** The number of confirmations that getrawtransaction reports. *)
Definition txInfo_confirmations (l : list (string * value)) : option Z :=
  _ ← member_string "txid" l;
  n ← member_int 64 "confirmations" l;
  _ ← member_string "blockhash" l;
  _ ← member_int 32 "blockheight" l;
  Some n.

Definition dc_getRawTransaction (txHash : bytes) : DM Z :=
  result ← dwrap "failed to get transaction" (rpcCall "getrawtransaction" (VList [VStr txHash; VBool true]));
  decoded "failed to parse transaction info" (raw_struct result ≫= txInfo_confirmations).

Definition txHasConfirmations (txHash : bytes) (required : Z) : DM bool :=
  info ← dtry (dc_getRawTransaction txHash);
  mret (match info with Got confirmations => confirmations >=? required | Failed _ => false end).

Definition select_tick : DM bool := fun _ w => let '(b, w') := SelectTick w in (Got b, w').

(** The loop for [n] turns; a call that is still waiting then has not returned. *)
Fixpoint pollDaemonConfirmation (n : nat) (txHash : bytes) (required : Z) : DM unit :=
  match n with
  | O => dsentinel Blocked
  | S n =>
      canceled ← select_tick;
      if canceled : bool then dsentinel ErrContextCanceled
      else
        b ← txHasConfirmations txHash required;
        if b : bool then mret tt else pollDaemonConfirmation n txHash required
  end.

Definition dc_WaitForConfirmation (n : nat) (txHash : bytes) (confirmations : Z) : DM unit :=
  if confirmations <? 1 then dsentinel (EMsg "confirmations must be at least 1, got %d")
  else
    checkRPCCallContext;;
    b ← txHasConfirmations txHash confirmations;
    if b : bool then mret tt else pollDaemonConfirmation n txHash confirmations.

(** ** Registering and updating *)

Definition check_name_value (name v : bytes) : DM unit :=
  if (blen name =? 0) || (blen name >? 255) then dfail (Wrapped "%w: length %d (must be 1-255)" (Sentinel ErrInvalidName))
  else if blen v >? MaxValueLengthUI then dfail (Wrapped "%w: length %d (max %d)" (Sentinel ErrInvalidValue))
  else mret tt.

Definition nameNewMinConfirmations : Z := 12.

Definition parseNameNewResponse (result : option value) : DM (bytes * bytes) :=
  resp ← decoded "failed to parse name_new response"
           (l ← raw_struct result; txid ← member_string "txid" l; rand ← member_string "rand" l; Some (txid, rand));
  if bool_decide (resp.1 = []) then dsentinel (EMsg "name_new response missing txid")
  else if bool_decide (resp.2 = []) then dsentinel (EMsg "name_new response missing rand")
  else mret resp.

Definition completeNameRegistration (n : nat) (name v nameNewTxID rand : bytes) : DM TxResult :=
  dwrap "failed waiting for NAME_NEW confirmation" (dc_WaitForConfirmation n nameNewTxID nameNewMinConfirmations);;
  firstUpdateResult ← dwrap "name_firstupdate failed" (rpcCall "name_firstupdate" (strings [name; rand; v]));
  txid ← decoded "failed to parse name_firstupdate response"
           (l ← raw_struct firstUpdateResult; member_string "txid" l);
  if bool_decide (txid = []) then dsentinel (EMsg "name_firstupdate response missing txid")
  else mret (mkTxResult txid name TxStatusPending 0 0 []).

Definition dc_RegisterName (n : nat) (name v : bytes) (opts : option RegisterOpts) : DM TxResult :=
  check_name_value name v;;
  nameNewResult ← dwrap "name_new failed" (rpcCall "name_new" (strings [name]));
  '(txid, rand) ← parseNameNewResponse nameNewResult;
  if negb (from_option ro_Wait false opts) then mret (mkTxResult txid name TxStatusPending 0 0 [])
  else completeNameRegistration n name v txid rand.

(** The switch falls out of the first case when the message says neither. *)
Definition mapUpdateNameError (err : derror) : derror :=
  match err with
  | RpcErr code message =>
      if (code =? -4) || (code =? -5) then
        if Contains message (str "not found") then Wrapped "%w: %s" (Sentinel ErrNotFound)
        else if Contains message (str "expired") then Wrapped "%w: %s" (Sentinel ErrNameExpired)
        else Wrapped "failed to update name" err
      else if code =? -13 then Plain (str "wallet does not have private key for name owner: " ++ message)
      else Wrapped "failed to update name" err
  | _ => Wrapped "failed to update name" err
  end.

Definition parseUpdateResponse (n : nat) (result : option value) (opts : option UpdateOpts) : DM TxResult :=
  '(txid, name) ← decoded "failed to parse name_update response"
    (l ← raw_struct result;
     txid ← member_string "txid" l; name ← member_string "name" l; _ ← member_string "value" l;
     _ ← member_string "status" l; _ ← member_string "address" l; Some (txid, name));
  match opts with
  | Some o =>
      if uo_Wait o then
        let confirmations := if uo_Confirmations o =? 0 then 1 else uo_Confirmations o in
        dwrap "failed to wait for confirmation" (dc_WaitForConfirmation n txid confirmations);;
        mret (mkTxResult txid name TxStatusConfirmed confirmations 0 [])
      else mret (mkTxResult txid name TxStatusPending 0 0 [])
  | None => mret (mkTxResult txid name TxStatusPending 0 0 [])
  end.

Definition dc_UpdateName (n : nat) (name v : bytes) (opts : option UpdateOpts) : DM TxResult :=
  check_name_value name v;;
  let transferTo := from_option TransferTo [] opts in
  let params := [name; v] ++ (if bool_decide (transferTo = []) then [] else [transferTo]) in
  r ← dtry (rpcCall "name_update" (strings params));
  match r with
  | Failed err => dfail (mapUpdateNameError err)
  | Got result => parseUpdateResponse n result opts
  end.

(** ** Listing *)

Definition dc_normalizeListFilter (filter : option ListFilter) : ListFilter :=
  match filter with
  | None => mkListFilter [] [] [] false 100 0
  | Some f =>
      let limit := if Limit f <=? 0 then 100 else Limit f in
      let limit := if limit >? 10000 then 10000 else limit in
      mkListFilter (NamePattern f) (Namespace f) (lf_Address f) (IncludeExpired f) limit (Offset f)
  end.

Definition matchesListFilter (name addr : bytes) (expired : bool) (f : ListFilter) : bool :=
  if negb (IncludeExpired f) && expired then false
  else if negb (bool_decide (Namespace f = [])) && negb (HasPrefix name (Namespace f)) then false
  else if negb (bool_decide (NamePattern f = [])) && negb (HasPrefix name (NamePattern f)) then false
  else if negb (bool_decide (lf_Address f = [])) && negb (bool_decide (addr = lf_Address f)) then false
  else true.

Definition dc_applyPagination (records : list cNameRecord) (f : ListFilter) : list cNameRecord :=
  if (Offset f >? 0) && (Offset f >=? Z.of_nat (length records)) then []
  else
    let records := if Offset f >? 0 then drop (Z.to_nat (Offset f)) records else records in
    if Z.of_nat (length records) >? Limit f then take (Z.to_nat (Limit f)) records else records.

Definition listed_record (v : value) : option (cNameRecord * bool) :=
  l ← as_struct v;
  r ← shown_record l;
  expired ← member_bool "expired" l;
  Some (r, expired).

Definition dc_ListNames (filter : option ListFilter) : DM (list cNameRecord) :=
  result ← dwrap "failed to list names" (rpcCall "name_list" VNil);
  resp ← decoded "failed to parse name_list response" (result ≫= as_slice_of listed_record);
  let f := dc_normalizeListFilter filter in
  let records := omap (fun item : cNameRecord * bool =>
    if matchesListFilter (cr_Name item.1) (cr_Address item.1) item.2 f then Some item.1 else None) resp in
  mret (dc_applyPagination records f).

Definition history_record (v : value) : option cNameRecord :=
  l ← as_struct v;
  name ← member_string "name" l;
  value ← member_string "value" l;
  txid ← member_string "txid" l;
  height ← member_int 32 "height" l;
  expires_at ← member_int 32 "expires_at" l;
  addr ← member_string "address" l;
  Some (mkCRecord name value txid height expires_at 0 addr zero_time).

Definition dc_GetNameHistory (name : bytes) : DM (list cNameRecord) :=
  if bool_decide (name = []) then dsentinel ErrInvalidName
  else
    result ← dwrap "failed to get name history" (rpcCall "name_history" (strings [name]));
    decoded "failed to parse name_history response" (result ≫= as_slice_of history_record).

(** ** The node *)

(** A string, or null. *)
Definition raw_string (raw : option value) : option bytes :=
  v ← raw; match v with VNil => Some [] | _ => read_string v end.

Definition dc_GetInfo : DM NodeInfo :=
  result ← dwrap "failed to get info" (rpcCall "getinfo" VNil);
  '(version, blocks, connections) ← decoded "failed to parse getinfo response"
    (l ← raw_struct result;
     version ← member_string "version" l; blocks ← member_int 32 "blocks" l;
     connections ← member_int 64 "connections" l; _ ← member_any "difficulty" l; Some (version, blocks, connections));
  hashResult ← dwrap "failed to get best block hash" (rpcCall "getbestblockhash" VNil);
  bestHash ← decoded "failed to parse getbestblockhash response" (raw_string hashResult);
  mret (mkNodeInfo version 70015 blocks bestHash connections (str "mainnet") (str "daemon")).

Definition Ping : DM unit :=
  _ ← dwrap "daemon ping failed" dc_GetInfo;
  mret tt.

Definition GetBlockHash (height : Z) : DM bytes :=
  result ← dwrap "failed to get block hash" (rpcCall "getblockhash" (VList [VInt height]));
  decoded "failed to parse block hash" (raw_string result).

Definition DetectNetwork : DM bytes :=
  genesisHash ← dwrap "failed to get genesis hash" (GetBlockHash 0);
  mret (if bool_decide (genesisHash = str "000000000062b72c5e2ceb45fbc8c80c7b157c0da7e635483dfba2a9f0a9c770")
        then str "mainnet"
        else if bool_decide (genesisHash = str "00000007199508e34a9ff81e6ec0c477a4cccff2a4767a8eee39c11db367b008")
        then str "testnet"
        else str "regtest").

(** ** Choosing a client *)

(** The error of a network that is not the expected one; [Got false] when the daemon
    cannot be used. *)
Definition validateDaemonNetwork (cfg : ClientConfig) : DM bool :=
  r ← dtry DetectNetwork;
  match r with
  | Failed _ => mret false
  | Got detectedNetwork =>
      let expectedNetwork := if bool_decide (cc_Network cfg = []) then str "mainnet" else cc_Network cfg in
      if bool_decide (detectedNetwork <> expectedNetwork)
      then dsentinel (EMsg "network mismatch: daemon is running on %s but client configured for %s (ensure cfg.Network matches daemon's network or use explicit mode)")
      else mret true
  end.

Definition validateDaemonClient (cfg : ClientConfig) : DM bool :=
  r ← dtry Ping;
  match r with
  | Failed _ => mret false
  | Got _ => validateDaemonNetwork cfg
  end.

(** The client, if the daemon answers. *)
Definition tryDaemonClient (cfg : ClientConfig) (w : T) : outcome (option DaemonClient) * T :=
  match NewDaemonClient (Some cfg) with
  | Err _ => (Got None, w)
  | Ok daemonClient =>
      match validateDaemonClient cfg daemonClient w with
      | (Got true, w) => (Got (Some daemonClient), w)
      | (Got false, w) => (Got None, w)
      | (Failed e, w) => (Failed e, w)
      end
  end.

(** [NewDaemonClient] fills in the address of the caller's configuration, which the
    embedded client then gets. *)
Inductive name_client (E : Type) := EmbeddedOne (c : E) | DaemonOne (c : DaemonClient).
Arguments EmbeddedOne {E} c. Arguments DaemonOne {E} c.

Section new.
Context {OS : ClientOS} {E : Type} (NewEmbedded : ClientConfig -> res E).

Definition embedded (cfg : ClientConfig) : outcome (name_client E) :=
  match NewEmbedded cfg with Ok c => Got (EmbeddedOne c) | Err e => Failed (Sentinel e) end.

Definition newAutoClient (cfg : ClientConfig) (w : T) : outcome (name_client E) * T :=
  match tryDaemonClient cfg w with
  | (Failed e, w) => (Failed e, w)
  | (Got (Some daemonClient), w) => (Got (DaemonOne daemonClient), w)
  | (Got None, w) => (embedded (resolveDaemonConfig (Some cfg)), w)
  end.

Definition defaultConfig : ClientConfig :=
  let homeDir := match UserHomeDir with Ok (_ :: _ as h) => h | _ => str "." end in
  mkClientConfig ModeAuto (filepath_Join [homeDir; str ".nmcd"]) (str "mainnet") default_addr [] [] 8 [] false.

Definition resolveClientConfig (cfg : option ClientConfig) : ClientConfig := default defaultConfig cfg.

Definition NewClient (cfg : option ClientConfig) (w : T) : outcome (name_client E) * T :=
  let cfg := resolveClientConfig cfg in
  match Mode cfg with
  | ModeEmbedded => (embedded cfg, w)
  | ModeDaemon =>
      (match NewDaemonClient (Some cfg) with Ok c => Got (DaemonOne c) | Err e => Failed (Sentinel e) end, w)
  | ModeAuto => newAutoClient cfg w
  | ModeOther _ => (Failed (Sentinel (EMsg "invalid client mode: %d")), w)
  end.

End new.

End daemon.
