(* ===== verification/LoadTest.v ===== *)
(** * Load tests

    loadtest/runner.go and loadtest/cmd/main.go: a client that sends requests to a daemon from
    several goroutines, what it reports, and the command around it.  The server, the network and their times are the class [Transport] of
    Daemon.v; a run is a sequence of steps of its workers, in whatever order they happen. *)

From Stdlib Require Import Floats.SpecFloat.
From stdpp Require Import sorting.
From S2P Require Import Prelude Clock Float Strings Base64 Json Client Daemon.

Record TestResult := mkTestResult {
  Name : string; Duration : Z; RequestCount : Z; SuccessCount : Z; FailureCount : Z;
  AvgLatency : Z; P95Latency : Z; P99Latency : Z; ThroughputRPS : float64;
  MemoryStart : Z; MemoryEnd : Z; MemoryGrowth : Z;
  ErrorDetails : list error;     (* whose texts are kept *)
}.

Definition new_result (name : string) : TestResult :=
  mkTestResult name 0 0 0 0 0 0 0 (of_int 0) 0 0 0 [].

Definition set_ErrorDetails (l : list error) (r : TestResult) : TestResult :=
  mkTestResult (Name r) (Duration r) (RequestCount r) (SuccessCount r) (FailureCount r) (AvgLatency r) (P95Latency r)
    (P99Latency r) (ThroughputRPS r) (MemoryStart r) (MemoryEnd r) (MemoryGrowth r) l.

Record RPCClient := mkRPCClient { URL : bytes; Username : bytes; Password : bytes }.

Record LoadTestConfig := mkLoadTestConfig {
  RPCURL : bytes; RPCUser : bytes; RPCPassword : bytes; lt_Duration : Z; Concurrency : Z; RateLimit : Z; WarmupPeriod : Z }.

(** ** Statistics *)

(** [int(math.Ceil(x))], in the range of an int. *)
Definition int_Ceil (x : float64) : Z :=
  let t := default 0 (integer_part x) in
  if flt (of_int t) x then t + 1 else t.

Definition percentileIdx (n : Z) (p : float64) : Z :=
  if n <=? 0 then 0
  else
    let idx := int_Ceil (fmul (of_int n) p) - 1 in
    if idx <? 0 then 0 else if idx >=? n then n - 1 else idx.

Definition p95 : float64 := Eval vm_compute in lit 95 100.
Definition p99 : float64 := Eval vm_compute in lit 99 100.

Record loadTestCounters := mkCounters {
  requestCount : Z;   (* int64 *)
  successCount : Z; failureCount : Z; latencies : list Z }.

Definition new_counters : loadTestCounters := mkCounters 0 0 0 [].

(** [sort.Slice] of the copy, by value. *)
Definition sorted_copy (l : list Z) : list Z := merge_sort Z.le l.

Definition populateLoadTestResult (counters : loadTestCounters) (duration : Z) (r : TestResult) : TestResult :=
  let rps := fdiv (of_int (requestCount counters)) (Seconds duration) in
  let l := latencies counters in
  let n := Z.of_nat (length l) in
  let at_idx p := nth (Z.to_nat (percentileIdx n p)) (sorted_copy l) 0 in
  let avg := if n =? 0 then AvgLatency r else Z.quot (foldl (fun t x => int64 (t + x)) 0 l) n in
  mkTestResult (Name r) duration (requestCount counters) (successCount counters) (failureCount counters) avg
    (if n >=? 20 then at_idx p95 else P95Latency r) (if n >=? 20 then at_idx p99 else P99Latency r)
    rps (MemoryStart r) (MemoryEnd r) (MemoryGrowth r) (ErrorDetails r).

(** ** One request *)

(** The counters and the errors after a call and its latency; errors are kept up to 100,
    latencies up to 10000. *)
Definition record_call {A} (outcome : res A) (latency : Z) (st : loadTestCounters * TestResult) :
    loadTestCounters * TestResult :=
  let '(c, r) := st in
  match outcome with
  | Err err =>
      (mkCounters (int64 (requestCount c + 1)) (successCount c) (int64 (failureCount c + 1)) (latencies c),
       if Z.of_nat (length (ErrorDetails r)) <? 100 then set_ErrorDetails (ErrorDetails r ++ [err]) r else r)
  | Ok _ =>
      (mkCounters (int64 (requestCount c + 1)) (int64 (successCount c + 1)) (failureCount c)
         (if Z.of_nat (length (latencies c)) <? 10000 then latencies c ++ [latency] else latencies c), r)
  end.

(** The same in the loop of the continuous test, which keeps no latencies. *)
Definition record_operation {A} (outcome : res A) (st : loadTestCounters * TestResult) : loadTestCounters * TestResult :=
  let '(c, r) := st in
  match outcome with
  | Err err =>
      (mkCounters (int64 (requestCount c + 1)) (successCount c) (int64 (failureCount c + 1)) (latencies c),
       if Z.of_nat (length (ErrorDetails r)) <? 100 then set_ErrorDetails (ErrorDetails r ++ [err]) r else r)
  | Ok _ => (mkCounters (int64 (requestCount c + 1)) (int64 (successCount c + 1)) (failureCount c) (latencies c), r)
  end.

(** The period of the ticker of each worker; [NewTicker] panics when it is not positive. *)
Definition createRateLimitTickers (config : LoadTestConfig) : res (list Z) :=
  if RateLimit config <=? 0 then Ok []
  else
    let rpw := Z.quot (RateLimit config) (Concurrency config) in
    let rpw := if rpw <? 1 then 1 else rpw in
    let period := Z.quot Second rpw in
    if period <=? 0 then Err (EPanic "non-positive interval for NewTicker")
    else Ok (replicate (Z.to_nat (Concurrency config)) period).

(** An unsigned integer of 64 bits. *)
Definition read_memory (v : value) : option Z :=
  match v with VInt z => if (0 <=? z) && (z <? 2 ^ 64) then Some z else None | _ => None end.

Section loadtest.
Context {JT : JsonText} {T : Type} {TT : Transport T}.

Definition NewRPCClient (url username password : bytes) : RPCClient := mkRPCClient url username password.

Definition Call (c : RPCClient) (method : string) (params : value) : M T (option value) := fun w =>
  let body := json_Marshal (VMap [("id"%string, VInt 1); ("jsonrpc"%string, VStr (str "2.0"));
    ("method"%string, VStr (str method)); ("params"%string, params)]) in
  match NewRequest_error (URL c) with
  | Some _ => (Err (EMsg "failed to create request: %w"), w)
  | None =>
      let auth := if bool_decide (Username c = []) then [] else SetBasicAuth (Username c) (Password c) in
      let '(r, w) := Do (mkCall (URL c) auth body) w in
      (match r with
       | inr _ => Err (EMsg "request failed: %w")
       | inl resp =>
           match hp_ReadError resp with
           | Some _ => Err (EMsg "failed to read response: %w")
           | None =>
               if negb (hp_Status resp =? 200) then Err (EMsg "unexpected status code: %d")
               else
                 match json_Unmarshal (hp_Body resp) with
                 | inr _ => Err (EMsg "failed to unmarshal response: %w")
                 | inl v =>
                     match l ← as_struct v; e ← member_error l; Some (last (members "result" l), e) with
                     | None => Err (EMsg "failed to unmarshal response: %w")
                     | Some (_, Some _) => Err (EMsg "RPC error %d: %s")
                     | Some (raw, None) => Ok raw
                     end
                 end
           end
       end, w)
  end.

(** ** The load test *)

(** What the goroutines share, and the index of the next method of each. *)
Record LoadState := mkLoadState {
  ls_stats : loadTestCounters * TestResult; ls_method : gmap nat nat; ls_world : T }.

Definition load_methods : list string := ["getinfo"; "getblockcount"; "getbestblockhash"]%string.
Definition nth_method (methods : list string) (i : nat) : string := nth (i mod length methods) methods ""%string.

(** One turn of the loop of [runLoadWorker], whose request took [latency]. *)
Definition runLoadWorker (client : RPCClient) (worker : nat) (latency : Z) (s : LoadState) : LoadState :=
  let i := default 0%nat (ls_method s !! worker) in
  let '(r, w) := Call client (nth_method load_methods i) VNil (ls_world s) in
  mkLoadState (record_call r latency (ls_stats s)) (<[worker := Datatypes.S i]> (ls_method s)) w.

(** [RPCLoadTest], of the turns that the workers take until they are stopped, each a
    worker and a latency, and of the time it took. *)
Definition RPCLoadTest (config : LoadTestConfig) (turns : list (nat * Z)) (elapsed : Z) : M T TestResult := fun w =>
  if Concurrency config <=? 0 then (Err (EMsg "concurrency must be > 0"), w)
  else if lt_Duration config <=? 0 then (Err (EMsg "duration must be > 0"), w)
  else
    let client := NewRPCClient (RPCURL config) (RPCUser config) (RPCPassword config) in
    let '(r, w) := Call client "getinfo" VNil w in
    match r with
    | Err err => (Err (EWrap "initial connectivity check failed" err), w)
    | Ok _ =>
        match createRateLimitTickers config with
        | Err err => (Err err, w)
        | Ok _ =>
            let s := foldl (fun s '(worker, latency) => runLoadWorker client worker latency s)
                       (mkLoadState (new_counters, new_result "RPC Load Test") ∅ w) turns in
            let '(counters, result) := ls_stats s in
            (Ok (populateLoadTestResult counters elapsed result), ls_world s)
        end
    end.

(** ** Memory *)

Definition getServerMemory (client : RPCClient) : M T Z :=
  result ← Call client "getinfo" VNil;
  mret (match l ← (v ← result; as_struct v); member 0 read_memory "memory_usage" l with Some m => m | None => 0 end).

(** A tick of the background load, or of the monitor. *)
Inductive memory_tick := LoadTick | MonitorTick.

Definition memory_methods : list string := ["getinfo"; "getblockcount"; "name_list"]%string.

(** The next method, the requests counted and the errors of the monitor. *)
Definition memoryTick (client : RPCClient) (tick : memory_tick) (s : nat * Z * list error * T) : nat * Z * list error * T :=
  let '(idx, n, errs, w) := s in
  match tick with
  | LoadTick =>
      let '(_, w) := Call client (nth_method memory_methods idx) VNil w in (Datatypes.S idx, int64 (n + 1), errs, w)
  | MonitorTick =>
      match getServerMemory client w with
      | (Ok _, w) => (idx, n, errs, w)
      | (Err err, w) => (idx, n, errs ++ [EWrap "memory check failed: %v" err], w)
      end
  end.

(** Of the ticks until the end of the test. *)
Definition MemoryLeakTest (config : LoadTestConfig) (ticks : list memory_tick) (elapsed : Z) : M T TestResult :=
  let client := NewRPCClient (RPCURL config) (RPCUser config) (RPCPassword config) in
  initialMem ← wrapM "failed to get initial memory" (getServerMemory client);
  '(_, n, errs) ← (fun w => let '(s, w) := foldl (fun s t => memoryTick client t s) (0%nat, 0, [], w) ticks in (Ok s, w));
  finalMem ← wrapM "failed to get final memory" (getServerMemory client);
  mret (mkTestResult "Memory Leak Detection" elapsed n 0 0 0 0 0 (of_int 0) initialMem finalMem
          (int64 (int64 finalMem - int64 initialMem)) errs).

(** ** Continuous operation *)

Record ContinuousOperationConfig := mkContinuousConfig {
  co_RPCURL : bytes; co_RPCUser : bytes; co_RPCPassword : bytes; co_Duration : Z; NameCount : Z; CheckInterval : Z }.

Definition operations : list string := ["getinfo"; "getblockcount"; "getbestblockhash"; "name_list"]%string.

(** What happens next: the loop reads the clock, or the health checker has a tick. *)
Inductive continuous_event := ClockReads (now : Z) | HealthTick.

Record ContinuousState := mkContinuous {
  cs_stats : loadTestCounters * TestResult; cs_op : nat; cs_health : list error; cs_world : T }.

Definition healthCheck (client : RPCClient) (s : ContinuousState) : ContinuousState :=
  match Call client "getinfo" VNil (cs_world s) with
  | (Ok _, w) => mkContinuous (cs_stats s) (cs_op s) (cs_health s) w
  | (Err err, w) => mkContinuous (cs_stats s) (cs_op s) (cs_health s ++ [EWrap "[%s] health check failed: %v" err]) w
  end.

(** The loop up to its end: the duration is over, or enough operations have succeeded. *)
Fixpoint runContinuousLoop (client : RPCClient) (config : ContinuousOperationConfig) (endTime : Z)
    (events : list continuous_event) (s : ContinuousState) : ContinuousState :=
  match events with
  | [] => s
  | HealthTick :: events => runContinuousLoop client config endTime events (healthCheck client s)
  | ClockReads now :: events =>
      if negb (Before now endTime) then s
      else
        let '(r, w) := Call client (nth_method operations (cs_op s)) VNil (cs_world s) in
        let s := mkContinuous (record_operation r (cs_stats s)) (Datatypes.S (cs_op s)) (cs_health s) w in
        if (NameCount config >? 0) && (successCount (cs_stats s).1 >=? NameCount config) then s
        else runContinuousLoop client config endTime events s
  end.

Definition ContinuousOperationTest (config : ContinuousOperationConfig) (start : Z) (events : list continuous_event)
    (elapsed : Z) : M T TestResult := fun w =>
  let client := NewRPCClient (co_RPCURL config) (co_RPCUser config) (co_RPCPassword config) in
  let s := runContinuousLoop client config (start + co_Duration config) events
             (mkContinuous (new_counters, new_result "Continuous Operation Test") 0 [] w) in
  let '(c, r) := cs_stats s in
  (Ok (mkTestResult (Name r) elapsed (requestCount c) (successCount c) (failureCount c) 0 0 0
         (fdiv (of_int (requestCount c)) (Seconds elapsed)) 0 0 0 (ErrorDetails r ++ cs_health s)), cs_world s).

End loadtest.

(** ** The command

    loadtest/cmd/main.go, of the values that package flag leaves in its variables.  What it
    prints of a test beyond the result is a [verdict]; the numbers are printed with two
    decimals. *)

Record CmdFlags := mkCmdFlags {
  lf_rpcURL : bytes; lf_rpcUser : bytes; lf_rpcPass : bytes; lf_duration : Z; lf_concurrency : Z; lf_rateLimit : Z;
  lf_testType : bytes; lf_nameCount : Z; lf_showVersion : bool }.

Definition cmd_defaults : CmdFlags :=
  mkCmdFlags (str "http://localhost:8336") [] [] (60 * Second) 10 0 (str "all") 0 false.

Inductive verdict :=
  | LowThroughput (rps : float64)
  | HighFailureRate (percent : float64)
  | MemoryGrows (rate : float64)
  | MemoryAcceptable (rate : float64)
  | LowSuccessRate (percent : float64)
  | SuccessRateMet (percent : float64).

Record Report := mkReport {
  rp_results : list TestResult; rp_verdicts : list verdict; rp_requests : Z; rp_success : Z; rp_failures : Z;
  rp_overall : option float64; rp_exit : Z }.

(** What happens during the tests: the turns of each and how long it takes. *)
Record Course := mkCourse {
  co_turns : list (nat * Z); co_rpc_time : Z; co_ticks : list memory_tick; co_memory_time : Z;
  co_start : Z; co_events : list continuous_event; co_continuous_time : Z }.

(** [Duration.Hours], and a share in percent. *)
Definition Hours (d : Z) : float64 :=
  fadd (of_int (Z.quot d Hour)) (fdiv (of_int (Z.rem d Hour)) (of_int (60 * 60 * 1000000000))).
Definition percent (part total : Z) : float64 := fmul (fdiv (of_int part) (of_int total)) (of_int 100).

Definition rpc_verdicts (r : TestResult) : list verdict :=
  (if flt (ThroughputRPS r) (of_int 1000) then [LowThroughput (ThroughputRPS r)] else []) ++
  (if (RequestCount r >? 0) && (FailureCount r >? Z.quot (RequestCount r) 100)
   then [HighFailureRate (percent (FailureCount r) (RequestCount r))] else []).

(** The period of [MonitorTick]. *)
Definition memCheckInterval (duration : Z) : Z :=
  let i := Z.quot duration 20 in if i <? 10 * Second then 10 * Second else i.

Definition memory_verdicts (r : TestResult) : list verdict :=
  let hours := Hours (Duration r) in
  if fle (of_int 24) hours then
    let rate := fdiv (fdiv (of_int (MemoryGrowth r)) hours) (of_int (1024 * 1024)) in
    [if flt (of_int 10) rate then MemoryGrows rate else MemoryAcceptable rate]
  else [].

Definition continuous_verdicts (r : TestResult) : list verdict :=
  let rate := percent (SuccessCount r) (RequestCount r) in
  [if flt rate (lit 999 10) then LowSuccessRate rate else SuccessRateMet rate].

Definition appendResult (results : list TestResult) (r : option TestResult) : list TestResult :=
  match r with Some r => results ++ [r] | None => results end.

Definition printSummary (results : list TestResult) (verdicts : list verdict) (hasFailure : bool) : Report :=
  let total (f : TestResult -> Z) := foldl (fun t r => int64 (t + f r)) 0 results in
  mkReport results verdicts (total RequestCount) (total SuccessCount) (total FailureCount)
    (if total RequestCount >? 0 then Some (percent (total SuccessCount) (total RequestCount)) else None)
    (if hasFailure then 1 else 0).

Section command.
Context {JT : JsonText} {T : Type} {TT : Transport T}.

(** A test, whether it failed, and its verdicts.  A panic ends the process. *)
Definition Outcome : Type := option TestResult * bool * list verdict.
Definition judged (test : M T TestResult) (judge : TestResult -> list verdict) : M T Outcome := fun w =>
  match test w with
  | (Ok r, w) => (Ok (Some r, false, judge r), w)
  | (Err (EPanic p), w) => (Err (EPanic p), w)
  | (Err _, w) => (Ok (None, true, []), w)
  end.

Definition runRPCTest (cfg : LoadTestConfig) (c : Course) : M T Outcome :=
  judged (RPCLoadTest cfg (co_turns c) (co_rpc_time c)) rpc_verdicts.
Definition runMemoryTest (cfg : LoadTestConfig) (c : Course) : M T Outcome :=
  judged (MemoryLeakTest cfg (co_ticks c) (co_memory_time c)) memory_verdicts.
Definition runContinuousTest (cfg : LoadTestConfig) (names : Z) (c : Course) : M T Outcome :=
  judged (ContinuousOperationTest
            (mkContinuousConfig (RPCURL cfg) (RPCUser cfg) (RPCPassword cfg) (lt_Duration cfg) names (30 * Second))
            (co_start c) (co_events c) (co_continuous_time c)) continuous_verdicts.

Definition selected (f : CmdFlags) (test : string) : bool :=
  bool_decide (lf_testType f = str test) || bool_decide (lf_testType f = str "all").

Definition skipped : Outcome := (None, false, []).

(** No report when only the version is asked for. *)
Definition loadtest_main (f : CmdFlags) (c : Course) : M T (option Report) :=
  if lf_showVersion f then mret None
  else
    let cfg := mkLoadTestConfig (lf_rpcURL f) (lf_rpcUser f) (lf_rpcPass f) (lf_duration f) (lf_concurrency f)
                 (lf_rateLimit f) 0 in
    '(r1, failed1, v1) ← (if selected f "rpc" then runRPCTest cfg c else mret skipped);
    '(r2, failed2, v2) ← (if selected f "memory" then runMemoryTest cfg c else mret skipped);
    '(r3, failed3, v3) ← (if selected f "continuous" then runContinuousTest cfg (lf_nameCount f) c else mret skipped);
    mret (Some (printSummary (appendResult (appendResult (appendResult [] r1) r2) r3) (v1 ++ v2 ++ v3)
                  (failed1 || failed2 || failed3))).

End command.

(** ** Percentiles

    In the range of the samples the float64 product and its ceiling are the exact rank. *)

Fixpoint all_from (count : nat) (n : Z) (f : Z -> bool) : bool :=
  match count with
  | O => true
  | Datatypes.S count => f n && all_from count (n + 1) f
  end.

Lemma all_from_spec count f : forall n i, all_from count n f = true -> n <= i < n + Z.of_nat count -> f i = true.
Proof.
  induction count as [|count IH]; intros n i H Hi; [lia|]. cbn in H. apply andb_prop in H as [H1 H2].
  destruct (decide (i = n)) as [->|]; [done|]. apply (IH (n + 1)); [done|lia].
Qed.

Lemma percentile_rank n : 1 <= n <= 10000 ->
  percentileIdx n p95 = (95 * n + 99) / 100 - 1 /\ percentileIdx n p99 = (99 * n + 99) / 100 - 1.
Proof.
  intros Hn.
  assert (all_from (Z.to_nat 10000) 1 (fun n =>
    (percentileIdx n p95 =? (95 * n + 99) / 100 - 1) && (percentileIdx n p99 =? (99 * n + 99) / 100 - 1)) = true) as H
    by (vm_compute; reflexivity).
  apply (all_from_spec _ _ 1 n) in H; [|lia]. apply andb_prop in H as [H1%Z.eqb_eq H2%Z.eqb_eq]. done.
Qed.

(** [v] is a percentile of the list by the nearest rank: at least so many hundredths of
    the values are at most [v], and fewer are less. *)
Definition nearest_rank (hundredths : Z) (l : list Z) (v : Z) : Prop :=
  v ∈ l /\
  hundredths * Z.of_nat (length l) <= 100 * Z.of_nat (length (filter (fun x => x <= v) l)) /\
  100 * Z.of_nat (length (filter (fun x => x < v) l)) < hundredths * Z.of_nat (length l).

#[local] Instance nearest_rank_perm h : Proper (Permutation ==> eq ==> iff) (nearest_rank h).
Proof. intros l l' E v _ <-. unfold nearest_rank. by setoid_rewrite E. Qed.

Lemma sorted_copy_perm l : sorted_copy l ≡ₚ l.
Proof. apply merge_sort_Permutation. Qed.

Lemma sorted_copy_sorted l : StronglySorted Z.le (sorted_copy l).
Proof. apply Sorted_StronglySorted; [intros ???; lia|]. apply Sorted_merge_sort; intros ??; lia. Qed.

(** The values around the k-th of a sorted list. *)
Lemma sorted_counts (l : list Z) (k : nat) (v : Z) : StronglySorted Z.le l -> l !! k = Some v ->
  (Datatypes.S k <= length (filter (fun x : Z => (x <= v)%Z) l))%nat /\ (length (filter (fun x : Z => (x < v)%Z) l) <= k)%nat.
Proof.
  intros Hs. revert k. induction Hs as [|a l Hs IH Ha]; intros [|k] Hk; [done|done| |]; cbn in Hk.
  - injection Hk as ->. rewrite !filter_cons, decide_True, decide_False by lia. cbn. split; [lia|].
    enough (filter (fun x => x < v) l = []) as -> by done.
    clear - Ha. induction Ha as [|x l Hx _ IH]; [done|]. by rewrite filter_cons, decide_False by lia.
  - destruct (IH k Hk) as [H1 H2]. rewrite !filter_cons.
    assert (a <= v) by (rewrite Forall_forall in Ha; apply Ha; by eapply list_elem_of_lookup_2).
    rewrite (decide_True (P := a <= v)) by done. cbn. case_decide; cbn; lia.
Qed.

Lemma percentile_nearest h p l : 1 <= h <= 100 -> 1 <= Z.of_nat (length l) ->
  percentileIdx (Z.of_nat (length l)) p = (h * Z.of_nat (length l) + 99) / 100 - 1 ->
  nearest_rank h l (nth (Z.to_nat (percentileIdx (Z.of_nat (length l)) p)) (sorted_copy l) 0).
Proof.
  intros Hh Hn ->. set (n := Z.of_nat (length l)) in *. set (k := (h * n + 99) / 100 - 1).
  assert (length (sorted_copy l) = length l) as Hlen by (by rewrite sorted_copy_perm).
  assert (0 <= k < n) as Hk by (subst k; Z.div_mod_to_equations; nia).
  destruct (lookup_lt_is_Some_2 (sorted_copy l) (Z.to_nat k)) as [v Hv]; [lia|].
  rewrite (nth_lookup_Some _ _ _ _ Hv). rewrite <-(sorted_copy_perm l).
  destruct (sorted_counts _ _ _ (sorted_copy_sorted l) Hv) as [H1 H2].
  split; [by eapply list_elem_of_lookup_2|]. rewrite Hlen. fold n. subst k. Z.div_mod_to_equations. lia.
Qed.

(** ** What a load test reports *)

Section results.
Context {JT : JsonText} {T : Type} {TT : Transport T}.

(** The answers to the requests of the turns, in order, with their latencies. *)
Fixpoint turn_outcomes (client : RPCClient) (turns : list (nat * Z)) (s : LoadState (T := T)) :
    list (res (option value) * Z) :=
  match turns with
  | [] => []
  | (worker, latency) :: turns =>
      let i := default 0%nat (ls_method s !! worker) in
      ((Call client (nth_method load_methods i) VNil (ls_world s)).1, latency)
        :: turn_outcomes client turns (runLoadWorker client worker latency s)
  end.

Definition successes (l : list (res (option value) * Z)) : list Z :=
  omap (fun o => match o.1 with Ok _ => Some o.2 | Err _ => None end) l.
Definition failures (l : list (res (option value) * Z)) : list error :=
  omap (fun o => match o.1 with Err e => Some e | Ok _ => None end) l.

Lemma outcomes_split l : (length (successes l) + length (failures l) = length l)%nat.
Proof. unfold successes, failures. induction l as [|[[|] ?] l IH]; cbn; lia. Qed.

(** The statistics of some outcomes. *)
Definition stats_of (name : string) (l : list (res (option value) * Z)) : loadTestCounters * TestResult :=
  (mkCounters (Z.of_nat (length l)) (Z.of_nat (length (successes l))) (Z.of_nat (length (failures l)))
     (take (Z.to_nat 10000) (successes l)),
   set_ErrorDetails (take 100 (failures l)) (new_result name)).

Lemma take_snoc_bound {A} (l : list A) x n :
  take n (l ++ [x]) = if decide (length (take n l) < n)%nat then take n l ++ [x] else take n l.
Proof.
  rewrite length_take. case_decide as H.
  - rewrite !take_ge by (rewrite ?length_app; cbn; lia). done.
  - rewrite take_app_le by lia. done.
Qed.

Lemma record_snoc name l (o : res (option value)) latency : Z.of_nat (length l) + 1 < 2 ^ 63 ->
  record_call o latency (stats_of name l) = stats_of name (l ++ [(o, latency)]).
Proof.
  intros Hl. pose proof (outcomes_split l) as Hs. change (2 ^ 63) with 9223372036854775808 in Hl.
  assert (forall n, 0 <= n <= Z.of_nat (length l) -> int64 (n + 1) = n + 1) as Hi
    by (intros; apply int64_id; unfold is_int64; lia).
  unfold record_call, stats_of. cbn [requestCount successCount failureCount latencies].
  rewrite !Hi by lia. unfold successes, failures in *. rewrite !omap_app, length_app. destruct o as [v|e]; cbn [omap list_omap fst snd].
  - rewrite app_nil_r, length_app, take_snoc_bound. cbn [length]. f_equal. f_equal; [lia|lia|].
    destruct (Z.ltb_spec (Z.of_nat (length (take (Z.to_nat 10000) (omap (fun o : res (option value) * Z =>
      match o.1 with Ok _ => Some o.2 | Err _ => None end) l)))) 10000); case_decide; try done; lia.
  - rewrite app_nil_r, length_app, take_snoc_bound. cbn [length ErrorDetails set_ErrorDetails]. f_equal; [f_equal; lia|].
    destruct (Z.ltb_spec (Z.of_nat (length (take 100 (omap (fun o : res (option value) * Z =>
      match o.1 with Err e => Some e | Ok _ => None end) l)))) 100); case_decide; try done; lia.
Qed.

Lemma run_turns client name turns : forall l s, ls_stats s = stats_of name l ->
  Z.of_nat (length l + length turns) < 2 ^ 63 ->
  ls_stats (foldl (fun s '(worker, latency) => runLoadWorker client worker latency s) s turns) =
  stats_of name (l ++ turn_outcomes client turns s).
Proof.
  induction turns as [|[worker latency] turns IH]; intros l s Hs Hl; cbn [foldl turn_outcomes length] in *; [by rewrite app_nil_r|].
  set (o := (Call client (nth_method load_methods (default 0%nat (ls_method s !! worker))) VNil (ls_world s)).1).
  rewrite (IH (l ++ [(o, latency)])).
  - by rewrite <-app_assoc.
  - unfold runLoadWorker. subst o. destruct (Call _ _ _ _) as [r w]. cbn [ls_stats fst]. rewrite Hs.
    apply record_snoc. lia.
  - rewrite length_app. cbn. lia.
Qed.

Lemma turn_outcomes_length client turns : forall s, length (turn_outcomes client turns s) = length turns.
Proof. induction turns as [|[w l] turns IH]; intros s; cbn; [done|by rewrite IH]. Qed.

(** The report of a load test: every request is counted, as a success or as a failure;
    the first 100 errors and the first 10000 latencies of successful requests are kept; of at
    least 20 of these the two percentiles are those of the nearest rank, of fewer they are
    0; the mean is that of the latencies when their sum fits. *)
Theorem load_results config turns elapsed (w : T) r w' :
  Z.of_nat (length turns) < 2 ^ 63 -> RPCLoadTest config turns elapsed w = (Ok r, w') ->
  let client := NewRPCClient (RPCURL config) (RPCUser config) (RPCPassword config) in
  let s := mkLoadState (new_counters, new_result "RPC Load Test") ∅ (Call client "getinfo" VNil w).2 in
  let outcomes := turn_outcomes client turns s in
  let kept := take (Z.to_nat 10000) (successes outcomes) in
  RequestCount r = Z.of_nat (length turns) /\ RequestCount r = SuccessCount r + FailureCount r /\
  SuccessCount r = Z.of_nat (length (successes outcomes)) /\ ErrorDetails r = take 100 (failures outcomes) /\
  (Z.of_nat (length kept) < 20 -> P95Latency r = 0 /\ P99Latency r = 0) /\
  (20 <= Z.of_nat (length kept) -> nearest_rank 95 kept (P95Latency r) /\ nearest_rank 99 kept (P99Latency r)) /\
  (kept <> [] -> AvgLatency r = Z.quot (foldl (fun t x => int64 (t + x)) 0 kept) (Z.of_nat (length kept))).
Proof.
  intros Hl. unfold RPCLoadTest. cbv zeta.
  destruct (Concurrency config <=? 0); [done|]. destruct (lt_Duration config <=? 0); [done|].
  set (client := NewRPCClient _ _ _). destruct (Call client "getinfo" VNil w) as [[v|e] w1]; [|done].
  destruct (createRateLimitTickers config); [|done]. cbn [snd].
  set (s := mkLoadState _ ∅ w1). pose proof (run_turns client "RPC Load Test" turns [] s eq_refl Hl) as E.
  rewrite E. cbn [app stats_of]. intros [= <- _]. pose proof (outcomes_split (turn_outcomes client turns s)) as Hs.
  pose proof (turn_outcomes_length client turns s) as Hlen. rewrite Hlen in Hs.
  cbn [RequestCount SuccessCount FailureCount ErrorDetails P95Latency P99Latency AvgLatency populateLoadTestResult
       requestCount successCount failureCount latencies set_ErrorDetails new_result].
  set (kept := take (Z.to_nat 10000) (successes (turn_outcomes client turns s))).
  assert (Z.of_nat (length kept) <= 10000) as Hk by (subst kept; rewrite length_take; lia).
  split_and!; [lia|lia|done|done| | |].
  - intros H. rewrite Z.geb_leb. destruct (Z.leb_spec 20 (Z.of_nat (length kept))); [lia|done].
  - intros H. rewrite Z.geb_leb. destruct (Z.leb_spec 20 (Z.of_nat (length kept))); [|lia].
    destruct (percentile_rank (Z.of_nat (length kept))) as [H95 H99]; [lia|].
    split; apply percentile_nearest; try done; lia.
  - intros H. destruct (Z.eqb_spec (Z.of_nat (length kept)) 0) as [H0|]; [|done].
    destruct kept; [done|]. cbn in H0. lia.
Qed.

End results.

(** ** What the command reports *)

Section reports.
Context {JT : JsonText} {T : Type} {TT : Transport T}.

(** The interval is one that [NewTicker] accepts, whatever duration is asked for. *)
Lemma memCheckInterval_least d : 10 * Second <= memCheckInterval d.
Proof. unfold memCheckInterval. cbv zeta. case_match eqn:E; lia. Qed.

Definition is_load (t : memory_tick) : bool := match t with LoadTick => true | MonitorTick => false end.

Lemma memory_loads client ticks : forall idx n errs (w : T),
  0 <= n -> n + Z.of_nat (length ticks) < 2 ^ 63 ->
  (foldl (fun s t => memoryTick client t s) (idx, n, errs, w) ticks).1.1.2 =
  n + Z.of_nat (length (List.filter is_load ticks)).
Proof.
  induction ticks as [|t ticks IH]; intros idx n errs w H0 Hn; cbn [foldl List.filter length] in *; [cbn; lia|].
  change (2 ^ 63) with 9223372036854775808 in *.
  destruct t; unfold memoryTick at 2; cbn [is_load].
  - destruct (Call _ _ _ w). rewrite int64_id by (unfold is_int64; lia). rewrite IH by lia. cbn [length]. lia.
  - destruct (getServerMemory client w) as [[|] ?]; rewrite IH by lia; done.
Qed.

(** The memory test counts its requests as neither: successes and failures of a summary
    need not add up to its requests. *)
Theorem memory_requests_uncounted config ticks elapsed (w : T) r w' :
  Z.of_nat (length ticks) < 2 ^ 63 -> MemoryLeakTest config ticks elapsed w = (Ok r, w') ->
  SuccessCount r = 0 /\ FailureCount r = 0 /\ RequestCount r = Z.of_nat (length (List.filter is_load ticks)).
Proof.
  intros Hl. unfold MemoryLeakTest, wrapM, mbind, M_bind. set (client := NewRPCClient _ _ _).
  destruct (getServerMemory client w) as [[m|e] w1]; cbn; [|done].
  pose proof (memory_loads client ticks 0%nat 0 [] w1 ltac:(lia) ltac:(lia)) as E.
  destruct (foldl _ _ ticks) as [[[idx n] errs] w2]. cbn in E.
  destruct (getServerMemory client w2) as [[m'|e] w3]; cbn; [|done]. intros [= <- _]. cbn. by rewrite E.
Qed.

Lemma judged_failed (test : M T TestResult) judge w o w' : judged test judge w = (Ok o, w') ->
  o.1.2 = bool_decide (o.1.1 = None).
Proof.
  unfold judged. destruct (test w) as [[r|[]] ?]; intros; simplify_eq; done.
Qed.

(** How many tests the type selects. *)
Definition tests_selected (f : CmdFlags) : nat :=
  length (List.filter (selected f) ["rpc"; "memory"; "continuous"]%string).

(** One test of the command: it adds a result, or it fails, or it is not selected. *)
Lemma test_step (b : bool) (test : M T TestResult) judge w r failed v w' l :
  (if b then judged test judge else mret skipped) w = (Ok (r, failed, v), w') ->
  length (appendResult l r) = (length l + if b then if failed then 0 else 1 else 0)%nat /\ (b = false -> failed = false).
Proof.
  destruct b; [|by intros [= <- <- <- <-]; cbn; split; [lia|]].
  intros E. apply judged_failed in E. cbn in E. subst failed. destruct r; cbn; rewrite ?length_app; cbn; split; try done; lia.
Qed.

(** The exit status is 0 or 1, and 0 exactly when every selected test has a result,
    whatever the results are. *)
Theorem loadtest_exit f c (w : T) rep w' : loadtest_main f c w = (Ok (Some rep), w') ->
  (rp_exit rep = 0 <-> length (rp_results rep) = tests_selected f) /\ (rp_exit rep = 0 \/ rp_exit rep = 1).
Proof.
  unfold loadtest_main, mbind, M_bind. destruct (lf_showVersion f); [done|]. cbv zeta.
  unfold runRPCTest, runMemoryTest, runContinuousTest.
  destruct (_ w) as [[[[r1 b1] v1]|] w1] eqn:E1; [|done]. apply (test_step _ _ _ _ _ _ _ _ []) in E1 as [E1 F1].
  destruct (_ w1) as [[[[r2 b2] v2]|] w2] eqn:E2; [|done]. apply (test_step _ _ _ _ _ _ _ _ (appendResult [] r1)) in E2 as [E2 F2].
  destruct (_ w2) as [[[[r3 b3] v3]|] w3] eqn:E3; [|done].
  apply (test_step _ _ _ _ _ _ _ _ (appendResult (appendResult [] r1) r2)) in E3 as [E3 F3].
  intros [= <- _]. cbn [printSummary rp_exit rp_results]. rewrite E3, E2, E1. unfold tests_selected. cbn [List.filter length].
  destruct (selected f "rpc"), (selected f "memory"), (selected f "continuous"), b1, b2, b3; cbn in *;
    try (discriminate F1 || discriminate F2 || discriminate F3; done); split; try lia; naive_solver lia.
Qed.

(** A type that names no test asks the server nothing and passes. *)
Theorem unknown_test_passes f c (w : T) : lf_showVersion f = false ->
  lf_testType f ∉ [str "rpc"; str "memory"; str "continuous"; str "all"] ->
  loadtest_main f c w = (Ok (Some (mkReport [] [] 0 0 0 None 0)), w).
Proof.
  intros Hv Ht. rewrite !not_elem_of_cons in Ht. destruct Ht as (H1 & H2 & H3 & H4 & _).
  unfold loadtest_main, selected. by rewrite Hv, !bool_decide_false.
Qed.

(** The continuous test passes with every server: without any request the share of the
    successes is not a number, which is not below the threshold. *)
Theorem continuous_passes f c (w : T) : lf_showVersion f = false -> lf_testType f = str "continuous" ->
  exists r w', loadtest_main f c w =
    (Ok (Some (printSummary [r] [if flt (percent (SuccessCount r) (RequestCount r)) (lit 999 10)
                                 then LowSuccessRate (percent (SuccessCount r) (RequestCount r))
                                 else SuccessRateMet (percent (SuccessCount r) (RequestCount r))] false)), w') /\
    (co_events c = [] -> SuccessCount r = 0 /\ RequestCount r = 0 /\
                         rp_verdicts (printSummary [r] (continuous_verdicts r) false) = [SuccessRateMet S754_nan]).
Proof.
  intros Hv Ht.
  assert (selected f "rpc" = false /\ selected f "memory" = false /\ selected f "continuous" = true) as (H1 & H2 & H3)
    by (unfold selected; rewrite Ht; vm_compute; done).
  unfold loadtest_main. rewrite Hv, H1, H2, H3.
  unfold mbind, M_bind, runContinuousTest, judged, ContinuousOperationTest. cbn -[percent flt lit].
  set (st := runContinuousLoop _ _ _ _ _). destruct (cs_stats st) as [ct r] eqn:E.
  eexists _, _. split; [reflexivity|]. intros He. subst st. rewrite He in E. cbn in E. injection E as <- <-.
  split; [done|]. split; [done|]. reflexivity.
Qed.

End reports.

(** More workers than requests per second: each still sends one per second. *)
Example rate_limit_exceeded :
  let config := mkLoadTestConfig [] [] [] Second 10 5 0 in
  createRateLimitTickers config = Ok (replicate 10 Second).
Proof. reflexivity. Qed.
