(* ===== verification/RpcSpec.v ===== *)
(** * What the RPC server promises

    Which parts of the state a handler leaves alone ([stable]), and lemmas about the
    handlers, by the specifications of the components they call. *)

From S2P Require Import Prelude Clock Float Strings Json Base64 Bolt Lru Record NameDB NamesSpec.
From S2P Require Import Utxo UtxoSpec Config Script Wire AuxPow Encryption Mempool Chain.
From S2P Require Import ChainUpdate Wallet WalletTx MempoolSpec RateLimit Network Node Rpc.
From S2P Require Import RpcNames RpcWallet RpcChain RpcServer.

(** ** Reading the database *)

Section reads.
Context {B : Bolt} {W : Wire} {G : BtcLib} {R : MapRange}.

(** The store, but not the cache. *)
Definition stored (n : NameDatabase) : option Tx * bool := (db n, closed n).

Lemma keeps_View {A} (m : M Tx A) : keeps stored (View m).
Proof. intros n. unfold View. by destruct (db n). Qed.
#[local] Hint Resolve keeps_View : keeps.

Lemma keeps_GetName name : keeps stored (GetName name).
Proof.
  intros n. unfold GetName. destruct (lru_Get name (cache n)) as [[r|] c]; [done|].
  match goal with |- stored (?m ?s).2 = _ => transitivity (stored s); [|done]; generalize s; change (keeps stored m) end.
  keeps_auto. by apply keeps_modify.
Qed.
#[local] Hint Resolve keeps_GetName : keeps.

Lemma keeps_GetNameNew c : keeps stored (GetNameNew c).
Proof. apply keeps_View. Qed.
Lemma keeps_GetUTXO h i : keeps stored (GetUTXO h i).
Proof. unfold GetUTXO. keeps_auto. Qed.
#[local] Hint Resolve keeps_GetNameNew keeps_GetUTXO : keeps.
Lemma keeps_GetNameUTXO name : keeps stored (GetNameUTXO name).
Proof. unfold GetNameUTXO. keeps_auto. Qed.
Lemma keeps_GetUTXOsForAddress a : keeps stored (GetUTXOsForAddress a).
Proof. unfold GetUTXOsForAddress. keeps_auto. Qed.
Lemma keeps_ListNames : keeps stored ListNames.
Proof. apply keeps_View. Qed.
Lemma keeps_ScanNames p c : keeps stored (ScanNames p c).
Proof. unfold ScanNames. keeps_auto. Qed.
Lemma keeps_GetHistory name : keeps stored (GetHistory name).
Proof. unfold GetHistory. keeps_auto. Qed.

Lemma keeps_sumInputs ins : forall total height, keeps stored (sumInputs total ins height).
Proof. induction ins as [|i ins IH]; intros; cbn [sumInputs]; keeps_auto; apply IH. Qed.

Lemma keeps_validateTransactionFee tx op height : keeps stored (validateTransactionFee tx op height).
Proof. unfold validateTransactionFee, sumInputValues. keeps_auto. apply keeps_sumInputs. Qed.
#[local] Hint Resolve keeps_validateTransactionFee : keeps.

Lemma keeps_validateNameOperation op name value extra tx height :
  keeps stored (validateNameOperation op name value extra tx height).
Proof.
  unfold validateNameOperation, validateNameNew, validateNameFirstUpdate, validateNameUpdate. keeps_auto.
Qed.
#[local] Hint Resolve keeps_validateNameOperation : keeps.

Lemma keeps_validateNameOpsFrom outs : forall seen tx height, keeps stored (validateNameOpsFrom seen outs tx height).
Proof. induction outs as [|o outs IH]; intros; cbn [validateNameOpsFrom]; keeps_auto; apply IH. Qed.
#[local] Hint Resolve keeps_validateNameOpsFrom : keeps.

Lemma keeps_ValidateMempoolTransaction h tx : keeps stored (ValidateMempoolTransaction h tx).
Proof. unfold ValidateMempoolTransaction, validateNameOperationsInTx. keeps_auto. Qed.

End reads.
#[export] Hint Resolve keeps_GetName keeps_GetNameNew keeps_GetNameUTXO keeps_GetUTXOsForAddress keeps_ListNames
  keeps_ScanNames keeps_GetHistory : keeps.

(** ** What a handler leaves alone *)

Section stable.
Context {B : Bolt} {W : Wire} {G : BtcLib} {R : MapRange} {D : Btcd} {Q : BtcdQueries} {N : NetParams} {P : PeerLib}.
Context {K : Crypto} {L : KeyLib} {F : Disk} {J : WalletJson} {S : TxScript} {X : RpcLib}.

Abbreviation Handler := (@Handler B D P K L F).
Abbreviation Server := (@Server B D P K L F).

Definition stable {T A} (f : Server -> T) (h : Handler A) : Prop := forall s, f (h s).2 = f s.

(** The chain and its database; the node's part; the wallet's; the configuration. *)
Definition chain_part (bc : BlockChain) := (stored (nameDB bc), auxPowCache bc, btcd bc).
Definition names_part (s : Server) := chain_part (srv_chain s).
Definition node_part (s : Server) :=
  (peers (peerMgr s), mempool (peerMgr s), syncManager (peerMgr s), maxPeers (peerMgr s), sent (peerMgr s)).
Definition wallet_part (s : Server) := (srv_wallet s, file (world s), autoLockTimer s, autoLockGen s).
Definition config_part (s : Server) :=
  (blockchain_nil s, peerMgr_nil s, wallet_nil s, rpcUser s, rpcPassword s, authKey s, limiter s, maxRequestSize s).

Section rules.
Context {T : Type} (f : Server -> T).

Lemma stable_ret {A} (a : A) : stable f (mret a).
Proof. done. Qed.
Lemma stable_reply {A} r : stable f (@reply B D P K L F A r).
Proof. done. Qed.
Lemma stable_gets {A} (g : Server -> A) : stable f (gets g).
Proof. done. Qed.
Lemma stable_updates g : (forall s, f (g s) = f s) -> stable f (updates g).
Proof. intros H s. apply H. Qed.
Lemma stable_bind {A C} (m : Handler A) (k : A -> Handler C) :
  stable f m -> (forall a, stable f (k a)) -> stable f (m ≫= k).
Proof.
  intros Hm Hk s. specialize (Hm s). unfold mbind, Handler_bind. destruct (m s) as [[a|r|e] s']; [|done..].
  simpl in Hm. by rewrite Hk.
Qed.
Lemma stable_no_panic {A} (r : res A) : stable f (no_panic r).
Proof. intros s. by destruct r. Qed.
Lemma stable_nth {A} (l : list A) i : stable f (nth_param l i).
Proof. intros s. unfold nth_param. by destruct (l !! i). Qed.
Lemma stable_or_error {A} id c msg (r : res A) : stable f (or_error id c msg r).
Proof. by destruct r. Qed.
Lemma stable_call {U A} (g : Server -> U) p (m : M U A) :
  (forall s, f (p (m (g s)).2 s) = f s) -> stable f (call g p m).
Proof. intros H s. specialize (H s). unfold call. destruct (m (g s)) as [[a|e] t]; [done|]. by destruct (panics e). Qed.
End rules.

(** The operations of the components. *)
Lemma stable_on_nameDB_node {A} (m : M NameDatabase A) : stable node_part (on_nameDB m).
Proof. apply stable_call. intros s. unfold in_chain, in_nameDB, zoom. by destruct (m _). Qed.
Lemma stable_on_nameDB_wallet {A} (m : M NameDatabase A) : stable wallet_part (on_nameDB m).
Proof. by apply stable_call. Qed.
Lemma stable_on_nameDB_config {A} (m : M NameDatabase A) : stable config_part (on_nameDB m).
Proof. by apply stable_call. Qed.
Lemma stable_on_nameDB_names {A} (m : M NameDatabase A) : keeps stored m -> stable names_part (on_nameDB m).
Proof.
  intros Hm. apply stable_call. intros s. unfold in_chain, in_nameDB, zoom.
  specialize (Hm (nameDB (srv_chain s))). unfold srv_chain in *. destruct (m _) as [r n]. simpl in *.
  unfold names_part, chain_part, srv_chain. simpl. by rewrite Hm.
Qed.

Lemma stable_on_world_names {A} (m : M World A) : stable names_part (on_world m).
Proof. by apply stable_call. Qed.
Lemma stable_on_world_node {A} (m : M World A) : stable node_part (on_world m).
Proof. by apply stable_call. Qed.
Lemma stable_on_world_config {A} (m : M World A) : stable config_part (on_world m).
Proof. by apply stable_call. Qed.
Lemma stable_ask_wallet {A} (g : Wallet -> res A) : stable wallet_part (ask_wallet g).
Proof. apply stable_call. intros s. unfold get_wallet, lift, get, mbind, M_bind, mret, M_ret. simpl. by destruct (g (wallet (world s))). Qed.
Lemma stable_rand {A} (m : M rng A) : stable wallet_part (on_world (on_rng m)).
Proof. apply stable_call. intros s. unfold on_rng, zoom. by destruct (m (entropy (world s))). Qed.

Lemma stable_Broadcast_wallet conn now tx : stable wallet_part (on_peerMgr (BroadcastTx conn now tx)).
Proof. by apply stable_call. Qed.
Lemma stable_Broadcast_config conn now tx : stable config_part (on_peerMgr (BroadcastTx conn now tx)).
Proof. by apply stable_call. Qed.

Lemma keeps_chain_valid tx : keeps chain_part (validator_Validate (V := BlockChain) tx).
Proof.
  unfold validator_Validate, chain_validator, BlockChainNode, ChainValidator, validateMempool. apply keeps_bind; [auto with keeps|].
  intros bc. apply keeps_zoom. intros s. pose proof (keeps_ValidateMempoolTransaction (btcd_BestHeight (btcd bc)) (Some tx) (nameDB s)) as E.
  unfold chain_part. cbn [nameDB set_nameDB auxPowCache btcd]. by rewrite E.
Qed.

Lemma keeps_AddTx now tx : keeps (fun s : Mempool * BlockChain => chain_part s.2) (AddTx now tx).
Proof.
  unfold AddTx. destruct tx as [tx|]; [|auto with keeps]. keeps_auto.
  all: intros; apply keeps_zoom; intros s; simpl; first [done|apply (keeps_chain_valid tx)].
Qed.

Lemma send_all_chain ts m pm : blockchain (C := BlockChain) (send_all ts m pm) = blockchain pm.
Proof. unfold send_all. revert pm. induction ts as [|t ts IH]; intros pm; [done|]. simpl. by rewrite IH. Qed.

Lemma stable_Broadcast_names conn now tx : stable names_part (on_peerMgr (BroadcastTx conn now tx)).
Proof.
  apply stable_call. intros s.
  cut (keeps (fun pm => chain_part (blockchain pm)) (BroadcastTx (C := BlockChain) conn now tx)); [intros Hk; apply Hk|].
  unfold BroadcastTx. destruct tx as [tx|]; [|auto with keeps]. keeps_auto.
  - apply keeps_zoom. intros pm. apply (keeps_AddTx now (Some tx) (mempool pm, blockchain pm)).
  - apply keeps_modify. intros pm. by rewrite send_all_chain.
Qed.

End stable.

#[export] Hint Resolve stable_ret stable_reply stable_gets stable_no_panic stable_nth stable_or_error
  stable_on_nameDB_node stable_on_nameDB_wallet stable_on_nameDB_config stable_on_nameDB_names
  stable_on_world_names stable_on_world_node stable_on_world_config stable_ask_wallet stable_rand
  stable_Broadcast_wallet stable_Broadcast_config stable_Broadcast_names : keeps.

Ltac stable_auto :=
  repeat (intros; cbv beta iota zeta; first
    [ solve [auto 3 with keeps nocore]
    | apply stable_bind
    | match goal with |- stable _ (match ?x with _ => _ end) => destruct x end ]).

(** ** The effects of a request *)

Section effects.
Context {B : Bolt} {W : Wire} {G : BtcLib} {R : MapRange} {D : Btcd} {Q : BtcdQueries} {N : NetParams} {P : PeerLib}.
Context {K : Crypto} {L : KeyLib} {F : Disk} {J : WalletJson} {S : TxScript} {X : RpcLib}.

Abbreviation Server := (@Server B D P K L F).

(** The helpers, for any part of the state that their database queries keep. *)
Definition queries_keep {T} (f : Server -> T) : Prop :=
  forall A (m : M NameDatabase A), keeps stored m -> stable f (on_nameDB m).
Definition wallet_reads_keep {T} (f : Server -> T) : Prop :=
  (forall A (g : Wallet -> res A), stable f (ask_wallet g)) /\ stable f (on_world (on_rng GenerateRand)).

Section helpers.
Context {T : Type} (f : Server -> T) (Hq : queries_keep f).

Lemma stable_query {A} (m : M NameDatabase A) : keeps stored m -> stable f (on_nameDB m).
Proof using Hq. apply Hq. Qed.
#[local] Hint Resolve stable_query : keeps.

Lemma stable_requireWallet id : stable f (requireWallet id).
Proof. unfold requireWallet, reply_error. stable_auto. Qed.
Lemma stable_requireBlockchain id : stable f (requireBlockchain id).
Proof. unfold requireBlockchain, reply_error. stable_auto. Qed.
Lemma stable_parseInterfaceParams p id n : stable f (parseInterfaceParams p id n).
Proof. unfold parseInterfaceParams, reply_error. stable_auto. Qed.
Lemma stable_parseStringParams p id n : stable f (parseStringParams p id n).
Proof. unfold parseStringParams, reply_error. stable_auto. Qed.
Lemma stable_parseHashParam p i id : stable f (parseHashParam p i id).
Proof. unfold parseHashParam, reply_error. stable_auto. Qed.
Lemma stable_parseVerboseParam p i id : stable f (parseVerboseParam p i id).
Proof. unfold parseVerboseParam, reply_error. stable_auto. Qed.
Lemma stable_parseNameParam p id m : stable f (parseNameParam p id m).
Proof. unfold parseNameParam, reply_error. stable_auto. Qed.
Lemma stable_validateNameLength n id : stable f (validateNameLength n id).
Proof. unfold validateNameLength, reply_error. stable_auto. Qed.
Lemma stable_validateValueSize n id : stable f (validateValueSize n id).
Proof. unfold validateValueSize, reply_error. stable_auto. Qed.
Lemma stable_best_height : stable f best_height.
Proof. apply stable_gets. Qed.
#[local] Hint Resolve stable_requireWallet stable_requireBlockchain stable_parseInterfaceParams
  stable_parseStringParams stable_parseHashParam stable_parseVerboseParam stable_parseNameParam
  stable_validateNameLength stable_validateValueSize stable_best_height : keeps.

(** The handlers that only read. *)
Lemma stable_nameShow req : stable f (nameShow req).
Proof using Hq. unfold nameShow. stable_auto. Qed.
Lemma stable_nameList req : stable f (nameList req).
Proof using Hq. unfold nameList. stable_auto. Qed.
Lemma stable_nameHistory req : stable f (nameHistory req).
Proof using Hq. unfold nameHistory. stable_auto. Qed.
Lemma stable_nameScan req : stable f (nameScan req).
Proof using Hq. unfold nameScan, parseNameScanParams, reply_error. stable_auto. Qed.
Lemma stable_namePending req : stable f (namePending req).
Proof. unfold namePending. stable_auto. Qed.
Lemma stable_listAddresses req : stable f (listAddresses req).
Proof. unfold listAddresses. stable_auto. Qed.

Lemma stable_sumWalletBalances l : forall t, stable f (sumWalletBalances t l).
Proof using Hq. induction l as [|a l IH]; intros t; cbn [sumWalletBalances]; stable_auto; apply IH. Qed.
Lemma stable_getBalance req : stable f (getBalance req).
Proof using Hq. unfold getBalance, validateBalanceState. stable_auto. apply stable_sumWalletBalances. Qed.
Lemma stable_collectFilteredUTXOs l h lo hi : stable f (collectFilteredUTXOs l h lo hi).
Proof using Hq. induction l as [|a l IH]; cbn [collectFilteredUTXOs]; stable_auto; apply IH. Qed.
Lemma stable_listUnspent req : stable f (listUnspent req).
Proof using Hq.
  unfold listUnspent, validateBalanceState, resolveTargetAddresses. stable_auto. apply stable_collectFilteredUTXOs.
Qed.

Lemma stable_getBlock req : stable f (getBlock req).
Proof. unfold getBlock, serializeBlockHex. stable_auto. Qed.
Lemma stable_getBlockHash req : stable f (getBlockHash req).
Proof. unfold getBlockHash, parseBlockHeightParam, reply_error. stable_auto. Qed.
Lemma stable_getRawTransaction req : stable f (getRawTransaction req).
Proof. unfold getRawTransaction, searchTransaction, reply_error. stable_auto. Qed.

Lemma stable_getInfo req : stable f (getInfo req).
Proof. unfold getInfo, connections. stable_auto. Qed.
Lemma stable_getBlockCount req : stable f (getBlockCount req).
Proof. unfold getBlockCount. stable_auto. Qed.
Lemma stable_getBestBlockHash req : stable f (getBestBlockHash req).
Proof. unfold getBestBlockHash. stable_auto. Qed.
Lemma stable_getConnectionCount req : stable f (getConnectionCount req).
Proof. unfold getConnectionCount, connections. stable_auto. Qed.
Lemma stable_getPeerInfo env req : stable f (getPeerInfo env req).
Proof. unfold getPeerInfo. stable_auto. Qed.
Lemma stable_getMetrics env req : stable f (getMetrics env req).
Proof. unfold getMetrics. stable_auto. Qed.

(** The handlers that build or relay a transaction. *)
Section relaying.
Context (Hw : wallet_reads_keep f) (Hb : forall conn now tx, stable f (on_peerMgr (BroadcastTx conn now tx))).

Lemma stable_ask {A} (g : Wallet -> res A) : stable f (ask_wallet g).
Proof using Hw. apply Hw. Qed.
Lemma stable_GenerateRand : stable f (on_world (on_rng GenerateRand)).
Proof using Hw. apply Hw. Qed.
Lemma stable_broadcastAndRespond env tx id r : stable f (broadcastAndRespond env tx id r).
Proof using Hb. unfold broadcastAndRespond, reply_error. stable_auto. Qed.
#[local] Hint Resolve stable_ask stable_GenerateRand stable_broadcastAndRespond : keeps.

Lemma stable_getWalletAddressAndUTXOs id : stable f (getWalletAddressAndUTXOs id).
Proof using Hq.
  unfold getWalletAddressAndUTXOs, primaryWalletAddress, decodeWalletAddress, loadWalletFundingUTXOs, reply_error.
  stable_auto.
Qed.
#[local] Hint Resolve stable_getWalletAddressAndUTXOs : keeps.

Lemma stable_nameNew env req : stable f (nameNew env req).
Proof using Hq Hw Hb. unfold nameNew, prepareNameWalletRequest, checkNameNotActive, reply_error. stable_auto. Qed.
Lemma stable_nameFirstUpdate env req : stable f (nameFirstUpdate env req).
Proof using Hq Hw Hb.
  unfold nameFirstUpdate, prepareNameWalletRequest, validateFirstUpdateRequest, decodeFirstUpdateRand,
    validateNameNewCommitment, requireNameNewUTXOIndex, reply_error. stable_auto.
Qed.
Lemma stable_buildNameUpdateTx name v dest id : stable f (buildNameUpdateTx name v dest id).
Proof using Hq Hw.
  unfold buildNameUpdateTx, lookupActiveNameRecord, verifyNameOwnership, collectNameUpdateUTXOs, reply_error. stable_auto.
Qed.
#[local] Hint Resolve stable_buildNameUpdateTx : keeps.
Lemma stable_nameUpdate env req : stable f (nameUpdate env req).
Proof using Hq Hw Hb.
  unfold nameUpdate, prepareNameWalletRequest, parseOptionalDestAddress, validateNameUpdateRequest, reply_error. stable_auto.
Qed.
Lemma stable_sendRawTransaction env req : stable f (sendRawTransaction env req).
Proof using Hb. unfold sendRawTransaction, reply_error. stable_auto. Qed.
End relaying.

(** The handlers that change the wallet. *)
Section locking.
Context (Hw : forall A (m : M World A), stable f (on_world m)) (Ht : forall t g s, f (set_autoLock t g s) = f s).

Lemma stable_world {A} (m : M World A) : stable f (on_world m).
Proof using Hw. apply Hw. Qed.
#[local] Hint Resolve stable_world : keeps.

Lemma stable_getNewAddress req : stable f (getNewAddress req).
Proof using Hw. unfold getNewAddress. stable_auto. Qed.
Lemma stable_encryptWallet req : stable f (encryptWallet req).
Proof using Hw. unfold encryptWallet, reply_error. stable_auto. Qed.
Lemma stable_unlockRequest req : stable f (unlockRequest req).
Proof using Hw. unfold unlockRequest, parsePassphraseTimeout, reply_error. stable_auto. Qed.
#[local] Hint Resolve stable_unlockRequest : keeps.
Lemma stable_walletPassphrase env req : stable f (walletPassphrase env req).
Proof using Hw Ht. unfold walletPassphrase. stable_auto. apply stable_updates. intros s. apply Ht. Qed.
Lemma stable_walletLock req : stable f (walletLock req).
Proof using Hw Ht.
  unfold walletLock, validateWalletLockState, reply_error. stable_auto. apply stable_updates. intros s. apply Ht.
Qed.
End locking.

End helpers.
End effects.

(** ** The tables of methods *)

Section dispatch.
Context {B : Bolt} {W : Wire} {G : BtcLib} {R : MapRange} {D : Btcd} {Q : BtcdQueries} {N : NetParams} {P : PeerLib}.
Context {K : Crypto} {L : KeyLib} {F : Disk} {J : WalletJson} {S : TxScript} {X : RpcLib}.

Abbreviation Server := (@Server B D P K L F).

Definition is_method (method : bytes) (names : list string) : bool := existsb (fun m => bool_decide (method = str m)) names.

Definition relaying : list string := ["name_new"; "name_firstupdate"; "name_update"; "sendrawtransaction"]%string.
Definition locking : list string := ["getnewaddress"; "walletpassphrase"; "walletlock"; "encryptwallet"]%string.

Lemma lookup_method_in {A} (table : list (string * A)) (Pr : bytes -> A -> Prop) method h :
  Forall (fun p => Pr (str p.1) p.2) table -> lookup_method table method = Some h -> Pr method h.
Proof.
  induction 1 as [|[m k] table Hm _ IH]; [done|]. simpl in *. case_bool_decide; [|done]. intros [= <-]. by subst.
Qed.

(** What holds of the reply and the state after every handler holds after a request. *)
Lemma processRequest_handlers (Pr : bytes -> handler -> Prop) env req s (Post : res Response * Server -> Prop) :
  (forall h, Pr (Method req) h ->
     Post (match h env req s with (Go r, s') | (Reply r, s') => (Ok r, s') | (Panic e, s') => (Err e, s') end)) ->
  (forall method h, lookupInfoHandler method = Some h -> Pr method h) ->
  (forall method h, lookupNameHandler method = Some h -> Pr method h) ->
  (forall method h, lookupWalletHandler method = Some h -> Pr method h) ->
  (forall method h, lookupBlockHandler method = Some h -> Pr method h) ->
  Post (Ok (methodNotFoundResponse (ID_ req)), s) ->
  Post (processRequest env req s).
Proof.
  intros Hp Hi Hn Hw Hb H0. unfold processRequest.
  destruct (lookupInfoHandler (Method req)) eqn:E1; [apply Hp, Hi, E1|].
  destruct (lookupNameHandler (Method req)) eqn:E2; [apply Hp, Hn, E2|].
  destruct (lookupWalletHandler (Method req)) eqn:E3; [apply Hp, Hw, E3|].
  destruct (lookupBlockHandler (Method req)) eqn:E4; [apply Hp, Hb, E4|done].
Qed.

(** A part that the handlers keep, each under the condition on its method. *)
Definition kept {T} (f : Server -> T) (unless : list string) (method : bytes) (h : handler) : Prop :=
  is_method method unless = false -> forall env req, stable f (h env req).

Ltac in_table := cbv [lookupInfoHandler lookupNameHandler lookupWalletHandler lookupBlockHandler];
  intros method h; apply lookup_method_in; repeat apply Forall_cons_2; [..|apply Forall_nil_2]; cbn [fst snd].

(** The relaying handlers need that a broadcast keeps the part, the locking ones that
    the wallet's operations and the timer do. *)
Lemma handlers_keep {T} (f : Server -> T) unless : queries_keep f ->
  unless = relaying \/ (wallet_reads_keep f /\ forall conn now tx, stable f (on_peerMgr (BroadcastTx conn now tx))) ->
  unless = locking \/ ((forall A (m : M World A), stable f (on_world m)) /\ forall t g s, f (set_autoLock t g s) = f s) ->
  forall method h,
  (lookupInfoHandler method = Some h \/ lookupNameHandler method = Some h \/
   lookupWalletHandler method = Some h \/ lookupBlockHandler method = Some h) -> kept f unless method h.
Proof.
  intros Hq Hr Hl method h [H|[H|[H|H]]]; revert method h H; in_table; intros U env req;
    first
    [ solve [eauto using stable_nameShow, stable_nameList, stable_nameHistory, stable_nameScan, stable_namePending,
        stable_listAddresses, stable_getBalance, stable_listUnspent, stable_getBlock, stable_getBlockHash,
        stable_getRawTransaction, stable_getInfo, stable_getBlockCount, stable_getBestBlockHash,
        stable_getConnectionCount, stable_getPeerInfo, stable_getMetrics]
    | destruct Hr as [->|[Hw Hb]]; [vm_compute in U; discriminate U|];
      solve [eauto using stable_nameNew, stable_nameFirstUpdate, stable_nameUpdate, stable_sendRawTransaction]
    | destruct Hl as [->|[Ho Ht]]; [vm_compute in U; discriminate U|];
      solve [eauto using stable_getNewAddress, stable_encryptWallet, stable_walletPassphrase, stable_walletLock] ].
Qed.

(** A request keeps what its handler keeps. *)
Lemma processRequest_keeps {T} (f : Server -> T) unless env req s :
  (forall method h,
    (lookupInfoHandler method = Some h \/ lookupNameHandler method = Some h \/
     lookupWalletHandler method = Some h \/ lookupBlockHandler method = Some h) -> kept f unless method h) ->
  is_method (Method req) unless = false -> f (processRequest env req s).2 = f s.
Proof.
  intros Hk Hm. apply (processRequest_handlers (kept f unless) env req s (fun p => f p.2 = f s)); eauto 6.
  intros h Hh. specialize (Hh Hm env req s). by destruct (h env req s) as [[]].
Qed.

End dispatch.

(** ** Credentials *)

Section auth.
Context {B : Bolt} {W : Wire} {G : BtcLib} {R : MapRange} {D : Btcd} {Q : BtcdQueries} {N : NetParams} {P : PeerLib}.
Context {K : Crypto} {L : KeyLib} {F : Disk} {J : WalletJson} {S : TxScript} {X : RpcLib}.

Definition mac_message (user pass : bytes) : bytes := writeHMACField (writeHMACField [] user) pass.

(** The two fields are determined by what is written, lengths of four bytes each. *)
Lemma mac_message_inj u p u' p' : Z.of_nat (length u' + length p') < 2 ^ 32 ->
  mac_message u p = mac_message u' p' -> u = u' /\ p = p'.
Proof.
  intros Hl E. assert (length u + length p = length u' + length p')%nat as El.
  { apply (f_equal length) in E. unfold mac_message, writeHMACField in E. rewrite !length_app, !length_be_bytes in E. simpl in E. lia. }
  revert E. assert (Z.of_nat (length u) < 2 ^ 32) as Hu by lia. assert (Z.of_nat (length u') < 2 ^ 32) as Hu' by lia.
  assert (Z.of_nat (length p) < 2 ^ 32) as Hp by lia. assert (Z.of_nat (length p') < 2 ^ 32) as Hp' by lia.
  unfold mac_message, writeHMACField. rewrite !app_nil_l, <-!app_assoc.
  assert (forall a b, Z.of_nat (length a) < 2 ^ 32 -> Z.of_nat (length b) < 2 ^ 32 -> forall r r' : bytes,
    be_bytes 4 (uint32 (Z.of_nat (length a))) ++ a ++ r = be_bytes 4 (uint32 (Z.of_nat (length b))) ++ b ++ r' ->
    a = b /\ r = r') as Hf.
  { intros a b Ha Hb r r' E. apply app_inj_1 in E as [E1 E2]; [|by rewrite !length_be_bytes].
    apply (f_equal of_be) in E1. rewrite !of_be_bytes in E1. change (256 ^ Z.of_nat 4) with (2 ^ 32) in E1.
    unfold uint32, wrapU in E1. rewrite !Z.mod_mod, !Z.mod_small in E1 by lia.
    apply app_inj_1 in E2; [done|lia]. }
  intros E. apply Hf in E as [-> E]; [|done..]. split; [done|].
  apply (Hf p p' Hp Hp' [] []). by rewrite !app_nil_r.
Qed.

(** What a client sends: the scheme, and the base64 of the two joined by a colon. *)
Definition basic_header (user pass : bytes) : bytes := str "Basic " ++ b64_EncodeToString (user ++ Byte.x3a :: pass).

Lemma BasicAuth_header user pass : Byte.x3a ∉ user -> BasicAuth (basic_header user pass) = Some (user, pass).
Proof.
  intros Hc. unfold BasicAuth, basic_header. cbv zeta. rewrite bool_decide_false by (rewrite length_app; simpl; lia). simpl orb.
  change (drop 6 (str "Basic " ++ ?x)) with x. change (take 6 (str "Basic " ++ ?x)) with (str "Basic ").
  cbv iota. rewrite b64_roundtrip, IndexByte_app by done.
  by rewrite take_app_length, <-(Nat.add_1_r (length user)), drop_app_add.
Qed.

(** The user that was parsed has no colon. *)
Lemma BasicAuth_user auth user pass : BasicAuth auth = Some (user, pass) -> Byte.x3a ∉ user.
Proof.
  unfold BasicAuth. destruct (_ || _); [done|]. destruct (b64_DecodeString (drop 6 auth)) as [c|]; [|done].
  destruct (IndexByte c Byte.x3a) as [i|] eqn:Ei; [|done]. intros [= <- _]. by apply IndexByte_Some in Ei as [_ ?].
Qed.

End auth.

(** ** The RPC server: what the queries find

    The specifications of the searches of the RPC server: transactions in the last
    blocks, and the outputs of a list of addresses. *)

(** ** Queries of the chain and of the outputs *)

Section queries.
Context {B : Bolt} {LB : BoltLaws B} {W : Wire} {G : BtcLib} {R : MapRange} {D : Btcd} {Q : BtcdQueries} {N : NetParams} {P : PeerLib}.
Context {K : Crypto} {L : KeyLib} {F : Disk} {J : WalletJson} {S : TxScript} {X : RpcLib}.

Abbreviation Server := (@Server B D P K L F).

Definition srv_db (s : Server) : NameDatabase := nameDB (srv_chain s).

Lemma set_same (s : Server) : set_peerMgr (set_chain (set_nameDB (srv_db s) (srv_chain s)) (peerMgr s)) s = s.
Proof. destruct s as [? ? ? [? [] ? ? ? ?] ? ? ? ? ? ? ? ?]. reflexivity. Qed.

(** A query that leaves the database as it is. *)
Lemma on_nameDB_same {A} (m : M NameDatabase A) (s : Server) r : m (srv_db s) = (r, srv_db s) ->
  match r with Err e => panics e = false | _ => True end -> on_nameDB m s = (Go r, s).
Proof.
  intros E Hp. unfold on_nameDB, on_peerMgr, call, in_chain, in_nameDB, zoom.
  unfold srv_db, srv_chain in *. rewrite E.
  pose proof (set_same s) as Es. unfold srv_db, srv_chain in Es. destruct r as [a|e]; [by rewrite Es|]. by rewrite Hp, Es.
Qed.

(** The block of a height holds the transaction. *)
Definition in_block (bc : BlockChain) (h : Z) (tx : MsgTx) : Prop :=
  exists hash block, q_BlockHashByHeight (btcd bc) h = Ok hash /\ q_BlockByHash (btcd bc) hash = Ok block /\
    tx ∈ mb_Transactions block.

Lemma searchFrom_spec bc txid n : forall h,
  match searchFrom bc txid h n with
  | Some (tx, hash, h') => h - Z.of_nat n < h' <= h /\ in_block bc h' tx /\ TxHash tx = txid /\
      forall h2 tx2, h' < h2 <= h -> in_block bc h2 tx2 -> TxHash tx2 <> txid
  | None => forall h2 tx2, h - Z.of_nat n < h2 <= h -> in_block bc h2 tx2 -> TxHash tx2 <> txid
  end.
Proof.
  induction n as [|n IH]; intros h; [simpl; lia|]. cbn [searchFrom]. specialize (IH (h - 1)).
  assert ((forall tx2, in_block bc h tx2 -> TxHash tx2 <> txid) ->
    match searchFrom bc txid (h - 1) n with
    | Some (tx, hash, h') => h - Z.of_nat (Datatypes.S n) < h' <= h /\ in_block bc h' tx /\ TxHash tx = txid /\
        forall h2 tx2, h' < h2 <= h -> in_block bc h2 tx2 -> TxHash tx2 <> txid
    | None => forall h2 tx2, h - Z.of_nat (Datatypes.S n) < h2 <= h -> in_block bc h2 tx2 -> TxHash tx2 <> txid
    end) as Hnext.
  { intros Hh. assert (forall h2, h2 = h \/ h2 <= h - 1 \/ h < h2) as Hc by lia.
    destruct (searchFrom bc txid (h - 1) n) as [[[tx hash] h']|].
    - destruct IH as (I1 & I2 & I3 & I4). split_and!; [lia|lia|done|done|].
      intros h2 tx2 Hr. destruct (Hc h2) as [->|[?|?]]; [apply Hh|apply I4; lia|lia].
    - intros h2 tx2 Hr. destruct (Hc h2) as [->|[?|?]]; [apply Hh|apply IH; lia|lia]. }
  destruct (q_BlockHashByHeight (btcd bc) h) as [hash|e] eqn:E1; [|apply Hnext; intros ? (? & ? & ? & ?); congruence].
  destruct (q_BlockByHash (btcd bc) hash) as [block|e] eqn:E2; [|apply Hnext; intros ? (? & ? & ? & ? & _); congruence].
  destruct (list_find _ _) as [[i tx]|] eqn:E3.
  - apply list_find_Some in E3 as (Hi & Ht & _). split_and!; [lia|lia| |done|lia].
    exists hash, block. split_and!; [done..|by eapply list_elem_of_lookup_2].
  - apply Hnext. intros tx2 (hash2 & block2 & H1 & H2 & H3). rewrite E1 in H1. injection H1 as <-. rewrite E2 in H2. injection H2 as <-.
    apply list_find_None in E3. rewrite Forall_forall in E3. by apply E3.
Qed.

(** ** The outputs of a list of addresses *)

Lemma GetUTXOs_run (s : Server) a : ndb_utxo_wf (srv_db s) ->
  exists r, on_nameDB (GetUTXOsForAddress a) s = (Go r, s) /\
    match r with
    | Ok l => a <> [] /\ NoDup l /\ forall u, u ∈ l <-> ndb_utxos (srv_db s) !! uk u = Some u /\ u_Address u = a
    | Err _ => a = []
    end.
Proof using LB.
  intros Wf. destruct (decide (a = [])) as [->|Ha].
  - exists (Err (EMsg "address cannot be empty")). split; [|done]. by apply on_nameDB_same.
  - pose proof (GetUTXOsForAddress_correct (srv_db s) a Wf Ha) as C. unfold wp in C.
    destruct (GetUTXOsForAddress a (srv_db s)) as [[l|e] n] eqn:E; [|done]. destruct C as (-> & Hn & Hl).
    exists (Ok l). split; [by apply on_nameDB_same|done].
Qed.

(** Exactly the outputs of the addresses, each as often as its address is listed. *)
Definition outputs_of (n : NameDatabase) (addresses : list bytes) (us : list UTXO) : Prop :=
  (forall u, u ∈ us <-> ndb_utxos n !! uk u = Some u /\ u_Address u ∈ addresses /\ u_Address u <> []) /\
  (NoDup addresses -> NoDup us).

Lemma outputs_of_cons n a addresses l us : outputs_of n addresses us ->
  (a <> [] /\ NoDup l /\ forall u, u ∈ l <-> ndb_utxos n !! uk u = Some u /\ u_Address u = a) ->
  outputs_of n (a :: addresses) (l ++ us).
Proof.
  intros [H1 H2] (Ha & Hn & Hl). split.
  - intros u. rewrite elem_of_app, H1, Hl, elem_of_cons. split; [|naive_solver].
    intros [[? <-]|(? & ? & ?)]; auto.
  - intros [Hx Hy]%NoDup_cons. apply NoDup_app. split_and!; [done| |by apply H2].
    intros u (_ & <-)%Hl (_ & Hu & _)%H1. done.
Qed.

Lemma outputs_of_skip n addresses us : outputs_of n addresses us -> outputs_of n ([] :: addresses) us.
Proof.
  intros [H1 H2]. split; [intros u; rewrite H1, elem_of_cons; naive_solver|]. by intros [_ ?]%NoDup_cons; auto.
Qed.

Lemma collect_run (s : Server) addresses : ndb_utxo_wf (srv_db s) ->
  exists us, outputs_of (srv_db s) addresses us /\
    (forall t, sumWalletBalances t addresses s = (Go (foldl (fun t utxo => int64 (t + u_Value utxo)) t us), s)) /\
    forall best lo hi, collectFilteredUTXOs addresses best lo hi s =
      (Go (omap (fun utxo => buildUTXOResult utxo best lo hi) us), s).
Proof using LB.
  intros Wf. induction addresses as [|a addresses (us & Ho & IH1 & IH2)].
  - exists []. split; [|done]. split; [|intros; constructor]. intros u. split; [by intros []%not_elem_of_nil|].
    by intros (_ & []%not_elem_of_nil & _).
  - destruct (GetUTXOs_run s a Wf) as (r & Er & Hr). destruct r as [l|e].
    + exists (l ++ us). split; [by apply outputs_of_cons|]. split.
      * intros t. cbn [sumWalletBalances]. unfold mbind, Handler_bind. rewrite Er, IH1. by rewrite foldl_app.
      * intros best lo hi. cbn [collectFilteredUTXOs]. unfold mbind, Handler_bind. rewrite Er, IH2. unfold mret, Handler_ret.
        by rewrite omap_app.
    + subst a. exists us. split; [by apply outputs_of_skip|]. split.
      * intros t. cbn [sumWalletBalances]. unfold mbind, Handler_bind. by rewrite Er, IH1.
      * intros best lo hi. cbn [collectFilteredUTXOs]. unfold mbind, Handler_bind. by rewrite Er, IH2.
Qed.

(** A wallet lists each address once. *)
Lemma GetAddresses_spec (w : Wallet) : NoDup (GetAddresses w) /\ forall a, a ∈ GetAddresses w <-> is_Some (keys w !! a).
Proof.
  unfold GetAddresses. assert (merge_sort bytes_le (range (keys w)).*1 ≡ₚ (map_to_list (keys w)).*1) as E.
  { rewrite merge_sort_Permutation. by rewrite range_perm. }
  rewrite E. split; [apply NoDup_fst_map_to_list|]. intros a. rewrite E. split.
  - intros ([k v] & -> & H)%list_elem_of_fmap. apply elem_of_map_to_list in H. by exists v.
  - intros [v H]. apply list_elem_of_fmap. exists (a, v). split; [done|]. by apply elem_of_map_to_list.
Qed.

Lemma total_outputs us : forall t, foldl (fun t utxo => int64 (t + u_Value utxo)) (int64 t) us =
  int64 (t + foldr (fun u z => u_Value u + z) 0 us).
Proof.
  induction us as [|u us IH]; intros t; simpl; [by rewrite Z.add_0_r|].
  rewrite int64_add_l, IH. f_equal. lia.
Qed.

End queries.
