(* ===== verification/AutoLock.v ===== *)
(** * The automatic lock as a state machine

    The requests and the timers of rpc/wallet_handlers.go run concurrently.  A state is
    the server, the time, the timers that run, and the goroutines between two of their
    critical sections ([task]), each with the time it got there.  A step is one critical
    section, or time passing: no timer and no goroutine is late by more than [slack]. *)

From stdpp Require Import relations.
From S2P Require Import Prelude Clock Float Strings Json Bolt Lru Record NameDB Utxo Config Script Wire AuxPow Chain ChainUpdate.
From S2P Require Import Mempool MempoolSpec Network Node Encryption Wallet WalletTx RateLimit.
From S2P Require Import Rpc RpcNames RpcWallet RpcChain RpcServer RpcSpec.

(** [walletPassphrase] after [Unlock]; the goroutine of a timer before and after its check
    of the generation; [walletLock] after it has cancelled the timer. *)
Inductive task := Scheduling (timeout : Z) | Fired (gen : Z) | Claimed | Cancelled.

Section autolock.
Context {B : Bolt} {W : Wire} {G : BtcLib} {R : MapRange} {D : Btcd} {Q : BtcdQueries} {N : NetParams} {P : PeerLib}.
Context {K : Crypto} {L : KeyLib} {F : Disk} {J : WalletJson} {S : TxScript} {X : RpcLib}.

Abbreviation Server := (@Server B D P K L F).

Record locker := mkLocker {
  lk_srv : Server;
  lk_now : Z;
  lk_timers : list (Z * Z);     (* deadline, generation *)
  lk_tasks : list (task * Z);   (* since when *)
  lk_due : Z;                   (* the latest deadline asked for by an unlocking under way *)
}.

(** [autoLockTimer.Stop()] *)
Definition stop (s : Server) (timers : list (Z * Z)) : list (Z * Z) :=
  match autoLockTimer s with Some x => filter (fun y => y <> x) timers | None => timers end.

Definition started (s : Server) : list (Z * Z) := from_option (fun x => [x]) [] (autoLockTimer s).

(** The latest deadline asked for by the tasks. *)
Definition due_of (tasks : list (task * Z)) (d : Z) : Z :=
  foldr (fun kt d => match kt.1 with Scheduling timeout => Z.max (kt.2 + timeout * Second) d | _ => d end) d tasks.

Inductive lock_step (slack : Z) : locker -> locker -> Prop :=
  | step_time k now' :
      lk_now k <= now' ->
      (forall d g, (d, g) ∈ lk_timers k -> now' <= d + slack) ->
      (forall t since, (t, since) ∈ lk_tasks k -> now' <= since + slack) ->
      lock_step slack k (mkLocker (lk_srv k) now' (lk_timers k) (lk_tasks k) (lk_due k))
  | step_unlock k req timeout s' :
      unlockRequest req (lk_srv k) = (Go timeout, s') ->
      lock_step slack k (mkLocker s' (lk_now k) (lk_timers k) ((Scheduling timeout, lk_now k) :: lk_tasks k)
        (due_of (lk_tasks k) (lk_now k + timeout * Second)))
  | step_unlock_refused k req r s' :
      unlockRequest req (lk_srv k) = (Reply r, s') ->
      lock_step slack k (mkLocker s' (lk_now k) (lk_timers k) (lk_tasks k) (lk_due k))
  | step_schedule k timeout since l1 l2 :
      lk_tasks k = l1 ++ (Scheduling timeout, since) :: l2 ->
      let s' := scheduleAutoLock (lk_now k) timeout (lk_srv k) in
      lock_step slack k (mkLocker s' (lk_now k) (started s' ++ stop (lk_srv k) (lk_timers k)) (l1 ++ l2) (lk_due k))
  | step_fire k d g l1 l2 :
      lk_timers k = l1 ++ (d, g) :: l2 -> d <= lk_now k ->
      lock_step slack k (mkLocker (lk_srv k) (lk_now k) (l1 ++ l2) ((Fired g, lk_now k) :: lk_tasks k) (lk_due k))
  | step_claim k g since l1 l2 go s' :
      lk_tasks k = l1 ++ (Fired g, since) :: l2 -> claimAutoLock g (lk_srv k) = (go, s') ->
      lock_step slack k (mkLocker s' (lk_now k) (lk_timers k)
        ((if go : bool then [(Claimed, lk_now k)] else []) ++ l1 ++ l2) (lk_due k))
  | step_lock_claimed k since l1 l2 :
      lk_tasks k = l1 ++ (Claimed, since) :: l2 ->
      lock_step slack k (mkLocker (lockWallet (lk_srv k)) (lk_now k) (lk_timers k) (l1 ++ l2) (lk_due k))
  | step_cancel k id s' :
      validateWalletLockState id (lk_srv k) = (Go tt, s') ->
      lock_step slack k (mkLocker (cancelAutoLockTimer s') (lk_now k) (stop s' (lk_timers k))
        ((Cancelled, lk_now k) :: lk_tasks k) (lk_due k))
  | step_lock_cancelled k since l1 l2 :
      lk_tasks k = l1 ++ (Cancelled, since) :: l2 ->
      lock_step slack k (mkLocker (on_world Lock (lk_srv k)).2 (lk_now k) (lk_timers k) (l1 ++ l2) (lk_due k))
  | step_other k env req :
      is_method (Method req) ["walletpassphrase"; "walletlock"]%string = false ->
      lock_step slack k (mkLocker (processRequest env req (lk_srv k)).2 (lk_now k) (lk_timers k) (lk_tasks k) (lk_due k)).

Definition lock_start (s : Server) : locker := mkLocker s 0 [] [] 0.

(** ** The lock of the wallet *)

Definition lock_state (w : World) : bool * bool := (encrypted (wallet w), locked (wallet w)).
Definition is_open (s : Server) : Prop := lock_state (world s) = (true, false).
#[export] Instance is_open_dec s : Decision (is_open s).
Proof. unfold is_open. apply _. Defined.

Lemma keeps_on_wallet {T A} (f : Wallet -> T) (m : M Wallet A) :
  keeps f m -> keeps (fun w : World => f (wallet w)) (on_wallet m).
Proof. intros H. apply keeps_zoom. intros w. apply H. Qed.
Lemma keeps_set_wallet {T} (f : Wallet -> T) g : (forall w, f (g w) = f w) -> keeps (fun w : World => f (wallet w)) (set_wallet g).
Proof. intros H. apply keeps_on_wallet, keeps_modify, H. Qed.

Abbreviation flags := (fun w : Wallet => (encrypted w, locked w)).

Lemma keeps_loadKeys wd : keeps flags (loadKeys wd).
Proof. unfold loadKeys, loadKey. keeps_auto. by apply keeps_modify. Qed.

Lemma keeps_encodeKeys l : keeps lock_state (encodeKeys l).
Proof.
  induction l as [|[a kp] l IH]; cbn [encodeKeys]; unfold encodePrivateKey, get_wallet, on_rng; keeps_auto; try done.
  by apply keeps_zoom.
Qed.

#[local] Hint Resolve keeps_encodeKeys : keeps.

Lemma keeps_save : keeps lock_state save.
Proof. unfold save, get_wallet, on_disk. keeps_auto; by apply keeps_zoom. Qed.
#[local] Hint Resolve keeps_save : keeps.

Lemma GenerateKey_flags : keeps lock_state GenerateKey.
Proof.
  unfold GenerateKey, get_wallet, on_rng. keeps_auto; first [by apply keeps_zoom|by apply (keeps_set_wallet flags)].
Qed.

Lemma EncryptWallet_flags w pw : encrypted (wallet w) = true -> (EncryptWallet pw w).2 = w.
Proof. intros E. unfold EncryptWallet, get_wallet, get, mbind, M_bind, mret, M_ret. simpl. by rewrite E. Qed.

(** Encryption leaves the wallet open. *)
Lemma EncryptWallet_open pw w :
  wp (EncryptWallet pw) (fun _ w' => lock_state w' = (true, false)) (fun _ _ => True) w.
Proof.
  unfold EncryptWallet, get_wallet. autorewrite with wp. destruct (encrypted (wallet w)); [done|].
  unfold set_wallet, on_wallet, on_rng. autorewrite with wp. destruct (wrap_err _ (validatePassword pw)); [|done]. autorewrite with wp.
  eapply wp_mono; [apply wp_true| |done].
  intros salt g _. autorewrite with wp.
  destruct (hashPassword pw salt); [|done].
  autorewrite with wp. eapply (wp_keeps lock_state); [apply keeps_save|..]; cbv beta.
  - intros [] s' E. rewrite wp_ret. by rewrite E.
  - intros e s' E. autorewrite with wp. done.
Qed.

(** Locking leaves an encrypted wallet locked. *)
Lemma Lock_flags w : encrypted (wallet w) = true -> lock_state (Lock w).2 = (true, true).
Proof.
  intros E. unfold Lock, get_wallet, get, mbind, M_bind, mret, M_ret, set_wallet, on_wallet, zoom, modify, lock_state. simpl.
  rewrite E. simpl. destruct (locked (wallet w)) eqn:El; simpl; by rewrite E, ?El.
Qed.

Lemma Unlock_flags pw w r w' : Unlock pw w = (r, w') ->
  match r with
  | Ok _ => lock_state w = (true, true) /\ lock_state w' = (true, false)
  | Err _ => lock_state w' = lock_state w
  end.
Proof.
  unfold Unlock, mbind, M_bind, get. simpl. destruct (encrypted (wallet w)) eqn:Ee; simpl; [|by intros [= <- <-]].
  destruct (locked (wallet w)) eqn:El; simpl; [|by intros [= <- <-]].
  unfold lift. destruct (wrap_err _ (hashPasswordWithVersion _ _ _)) as [h|e]; [|by intros [= <- <-]].
  destruct (bool_decide (h <> _)); [by intros [= <- <-]|].
  destruct (wrap_err _ (ReadFile _)) as [data|e]; [|by intros [= <- <-]].
  destruct (wrap_err _ (Unmarshal data)) as [wd|e]; [|by intros [= <- <-]].
  unfold set_wallet, on_wallet, zoom, modify, try. simpl.
  pose proof (keeps_loadKeys wd (set_unlockPassword pw (wallet w))) as Hk.
  destruct (loadKeys wd _) as [[[]|e] w1]; simpl in Hk; injection Hk as H1 H2; unfold fail, lock_state in *;
    intros [= <- <-]; simpl; by rewrite ?H1, ?H2, ?Ee, ?El.
Qed.

(** ** The requests *)

(** What the automatic lock depends on. *)
Definition locks (s : Server) := (lock_state (world s), autoLockTimer s, autoLockGen s).

Lemma locks_queries : queries_keep (B := B) locks.
Proof. intros A m _. by apply stable_call. Qed.

Lemma unlockRequest_Go req s timeout s' : unlockRequest req s = (Go timeout, s') ->
  0 < timeout <= maxTimeout /\ lock_state (world s) = (true, true) /\ is_open s' /\
  autoLockTimer s' = autoLockTimer s /\ autoLockGen s' = autoLockGen s.
Proof.
  unfold unlockRequest, requireWallet, gets, reply_error, reply, or_error, mbind, Handler_bind, mret, Handler_ret. simpl.
  destruct (wallet_nil s); [done|]. unfold parseInterfaceParams, reply_error, reply. simpl.
  destruct (Unmarshal_slice (Params_ req)) as [ps|]; [|done]. destruct (bool_decide (length ps < 1)%nat); [done|].
  simpl. unfold nth_param. destruct (ps !! 0%nat) as [p0|]; [|done]. destruct (as_string p0) as [pw|]; [|done].
  destruct (parsePassphraseTimeout ps (ID_ req) s) as [[t|r|e] s1] eqn:Et; [|done..].
  assert (s1 = s /\ 0 < t <= maxTimeout) as [-> Ht].
  { revert Et. unfold parsePassphraseTimeout. destruct (ps !! 1%nat) as [p1|]; [|intros [= <- <-]; split; [done|unfold maxTimeout; lia]].
    destruct (as_float p1) as [x|]; [|done].
    destruct (Z.leb_spec (int_of_float x) 0); [done|]. rewrite Z.gtb_ltb. destruct (Z.ltb_spec maxTimeout (int_of_float x)); [done|].
    intros [= <- <-]. split; [done|lia]. }
  simpl. destruct (negb (IsEncrypted (srv_wallet s))); [done|].
  unfold on_world, call. destruct (Unlock pw (world s)) as [[[]|e] w'] eqn:Eu.
  - apply Unlock_flags in Eu as [E1 E2]. intros [= -> <-]. done.
  - destruct (panics e); [done|]. simpl. done.
Qed.

Lemma stable_parsePassphraseTimeout s ps id : (parsePassphraseTimeout (B := B) ps id s).2 = s.
Proof.
  change ((parsePassphraseTimeout ps id s).2 = s) with (Datatypes.id (parsePassphraseTimeout ps id s).2 = Datatypes.id s).
  generalize s. change (stable Datatypes.id (parsePassphraseTimeout ps id)).
  unfold parsePassphraseTimeout, reply_error. stable_auto.
Qed.

Lemma unlockRequest_Reply req s r s' : unlockRequest req s = (Reply r, s') -> locks s' = locks s.
Proof.
  unfold unlockRequest, requireWallet, gets, reply_error, reply, or_error, mbind, Handler_bind, mret, Handler_ret. simpl.
  destruct (wallet_nil s); [by intros [= _ <-]|]. unfold parseInterfaceParams, reply_error, reply. simpl.
  destruct (Unmarshal_slice (Params_ req)) as [ps|]; [|by intros [= _ <-]].
  destruct (bool_decide (length ps < 1)%nat); [by intros [= _ <-]|].
  simpl. unfold nth_param. destruct (ps !! 0%nat) as [p0|]; [|done]. destruct (as_string p0) as [pw|]; [|by intros [= _ <-]].
  pose proof (stable_parsePassphraseTimeout s ps (ID_ req)) as Es.
  destruct (parsePassphraseTimeout ps (ID_ req) s) as [[t|r'|e] s1]; simpl in Es; subst s1; [|by intros [= _ <-]|done].
  simpl. destruct (negb (IsEncrypted (srv_wallet s))); [by intros [= _ <-]|].
  unfold on_world, call. destruct (Unlock pw (world s)) as [[[]|e] w'] eqn:Eu; [done|].
  apply Unlock_flags in Eu. destruct (panics e); [done|]. simpl. intros [= _ <-].
  unfold locks. simpl. by rewrite Eu.
Qed.

(** An open wallet is not unlocked again. *)
Lemma unlock_open req s : is_open s -> exists r, Error_ r <> None /\ unlockRequest req s = (Reply r, s).
Proof.
  intros Ho. unfold unlockRequest, requireWallet, gets, reply_error, reply, or_error, mbind, Handler_bind, mret, Handler_ret. simpl.
  destruct (wallet_nil s); [eexists; split; [|reflexivity]; done|]. unfold parseInterfaceParams, reply_error, reply. simpl.
  destruct (Unmarshal_slice (Params_ req)) as [ps|]; [|eexists; split; [|reflexivity]; done].
  case_bool_decide as Hl; [eexists; split; [|reflexivity]; done|].
  simpl. unfold nth_param. destruct ps as [|p0 ps]; [simpl in Hl; lia|]. simpl.
  destruct (as_string p0) as [pw|]; [|eexists; split; [|reflexivity]; done].
  pose proof (stable_parsePassphraseTimeout s (p0 :: ps) (ID_ req)) as Es.
  assert (match (parsePassphraseTimeout (p0 :: ps) (ID_ req) s).1 with Go _ => True | Reply r => Error_ r <> None | Panic _ => False end) as Hr.
  { unfold parsePassphraseTimeout, reply_error, reply. simpl. destruct ps as [|p1 ps]; [done|]. simpl.
    destruct (as_float p1); [|done]. destruct (_ <=? 0); [done|]. by destruct (_ >? _). }
  destruct (parsePassphraseTimeout (p0 :: ps) (ID_ req) s) as [[t|r|e] s1]; simpl in Es, Hr; subst s1;
    [|eexists; split; [|reflexivity]; done|done].
  injection Ho as He Hk. simpl. unfold IsEncrypted, srv_wallet. rewrite He. simpl. unfold on_world, call, Unlock, get, mbind, M_bind.
  simpl. rewrite He, Hk. simpl. eexists. split; [|destruct s; reflexivity]. done.
Qed.

Lemma other_locks env req s : encrypted (srv_wallet s) = true ->
  is_method (Method req) ["walletpassphrase"; "walletlock"]%string = false ->
  locks (processRequest env req s).2 = locks s.
Proof.
  intros He Hm. destruct (is_method (Method req) locking) eqn:El.
  - assert (Method req = str "getnewaddress" \/ Method req = str "encryptwallet") as Hc.
    { revert El Hm. unfold is_method, locking. cbn [existsb]. repeat case_bool_decide; cbn [orb]; auto; discriminate. }
    unfold processRequest. destruct Hc as [->| ->].
    + change (lookupInfoHandler (str "getnewaddress")) with (@None handler).
      change (lookupNameHandler (str "getnewaddress")) with (@None handler).
      change (lookupWalletHandler (str "getnewaddress")) with (Some (fun (_ : Env) => getNewAddress) : option handler).
      cbv beta iota zeta. assert (stable locks (getNewAddress req)) as Hs.
      { unfold getNewAddress. apply stable_bind; [apply stable_requireWallet|]. intros _.
        apply stable_bind; [|stable_auto]. apply stable_call. intros s0. unfold locks. simpl. by rewrite GenerateKey_flags. }
      specialize (Hs s). by destruct (getNewAddress req s) as [[]].
    + change (lookupInfoHandler (str "encryptwallet")) with (@None handler).
      change (lookupNameHandler (str "encryptwallet")) with (@None handler).
      change (lookupWalletHandler (str "encryptwallet")) with (Some (fun (_ : Env) => encryptWallet) : option handler).
      cbv beta iota zeta. assert (locks (encryptWallet req s).2 = locks s) as Hs; [|by destruct (encryptWallet req s) as [[]]].
      unfold encryptWallet, requireWallet, gets, reply_error, reply, or_error, mbind, Handler_bind, mret, Handler_ret. simpl. destruct (wallet_nil s); [done|]. simpl.
      destruct (Unmarshal_slice (Params_ req)) as [[|p0 ps]|]; [done| |done]. destruct (as_string p0) as [pw|]; [|done].
      unfold on_world, call. pose proof (EncryptWallet_flags (world s) pw He) as Ew.
      destruct (EncryptWallet pw (world s)) as [[[]|e] w']; simpl in Ew; subst w'; simpl; [done|].
      by destruct (panics e).
  - apply (processRequest_keeps locks locking); [|done]. apply handlers_keep; [apply locks_queries| |by left].
    right. split; [|by intros; apply stable_call]. split; intros; apply stable_call; intros s0; unfold locks; simpl.
    + unfold get_wallet, lift, get, mbind, M_bind, mret, M_ret. simpl. by destruct (g (wallet (world s0))).
    + unfold on_rng, zoom. by destruct (GenerateRand (entropy (world s0))).
Qed.

(** ** The invariant *)

(** Something that will lock the open wallet is under way, and since when. *)
Inductive coming (slack : Z) (k : locker) : Prop :=
  | coming_timer d : (d, autoLockGen (lk_srv k)) ∈ lk_timers k -> d <= lk_due k + slack -> coming slack k
  | coming_fired t : (Fired (autoLockGen (lk_srv k)), t) ∈ lk_tasks k -> t <= lk_due k + 2 * slack -> coming slack k
  | coming_claimed t : (Claimed, t) ∈ lk_tasks k -> t <= lk_due k + 3 * slack -> coming slack k
  | coming_schedule timeout t : (Scheduling timeout, t) ∈ lk_tasks k -> coming slack k
  | coming_cancelled t : (Cancelled, t) ∈ lk_tasks k -> t <= lk_due k + 3 * slack -> coming slack k.

Record lock_inv (slack : Z) (k : locker) : Prop := {
  li_encrypted : encrypted (srv_wallet (lk_srv k)) = true;
  li_sched : forall timeout t, (Scheduling timeout, t) ∈ lk_tasks k ->
    0 < timeout <= maxTimeout /\ t + timeout * Second <= lk_due k;
  li_timers : forall d g, (d, g) ∈ lk_timers k -> lk_now k <= d + slack;
  li_tasks : forall x t, (x, t) ∈ lk_tasks k -> lk_now k <= t + slack;
  li_open : is_open (lk_srv k) -> coming slack k;
}.

Lemma elem_of_drop {A} (x y : A) l1 l2 : x ∈ l1 ++ y :: l2 -> x = y \/ x ∈ l1 ++ l2.
Proof. rewrite !elem_of_app, elem_of_cons. tauto. Qed.
Lemma elem_of_add {A} (x y : A) l1 l2 : x ∈ l1 ++ l2 -> x ∈ l1 ++ y :: l2.
Proof. rewrite !elem_of_app, elem_of_cons. tauto. Qed.

Lemma due_of_le tasks d : d <= due_of tasks d /\
  forall timeout t, (Scheduling timeout, t) ∈ tasks -> t + timeout * Second <= due_of tasks d.
Proof.
  induction tasks as [|[x t] l [IH1 IH2]]; [split; [simpl; lia|intros ? ? []%not_elem_of_nil]|].
  assert (due_of l d <= due_of ((x, t) :: l) d) as Hm by (simpl; destruct x; lia).
  split; [lia|]. intros timeout t' [[= <- <-]|H]%elem_of_cons; [simpl; lia|]. specialize (IH2 _ _ H). lia.
Qed.

Lemma encrypted_locks s s' : locks s' = locks s ->
  (encrypted (srv_wallet s) = true -> encrypted (srv_wallet s') = true) /\ (is_open s' -> is_open s) /\
  autoLockGen s' = autoLockGen s.
Proof.
  unfold locks, is_open, lock_state, srv_wallet. intros [= -> -> _ ->]. done.
Qed.

Lemma stop_sub s timers x : x ∈ stop s timers -> x ∈ timers.
Proof. unfold stop. destruct (autoLockTimer s); [|done]. by intros [_ H]%list_elem_of_filter. Qed.

Lemma coming_late slack k : 0 <= slack -> lock_inv slack k -> coming slack k -> lk_now k <= lk_due k + 4 * slack.
Proof.
  intros H0 [_ Hs Ht Hk _] [d H1 H2|t H1 H2|t H1 H2|timeout t H1|t H1 H2].
  - specialize (Ht _ _ H1). lia.
  - specialize (Hk _ _ H1). lia.
  - specialize (Hk _ _ H1). lia.
  - destruct (Hs _ _ H1). specialize (Hk _ _ H1). unfold Second in *. lia.
  - specialize (Hk _ _ H1). lia.
Qed.

(** A change of the server that leaves the locks alone. *)
Lemma inv_same slack k s' : locks s' = locks (lk_srv k) -> lock_inv slack k ->
  lock_inv slack (mkLocker s' (lk_now k) (lk_timers k) (lk_tasks k) (lk_due k)).
Proof.
  intros E [He Hs Ht Hk Ho]. destruct (encrypted_locks _ _ E) as (E1 & E2 & E3). split; simpl; auto.
  intros Hop. destruct (Ho (E2 Hop)) as [d H1 H2|t H1 H2|t H1 H2|timeout t H1|t H1 H2].
  - eapply coming_timer; simpl; [rewrite E3|]; eassumption.
  - eapply coming_fired; simpl; [rewrite E3|]; eassumption.
  - by eapply coming_claimed.
  - by eapply coming_schedule.
  - by eapply coming_cancelled.
Qed.

(** A critical section that locks the wallet and drops a task. *)
Lemma inv_locked slack k s' x since l1 l2 : lk_tasks k = l1 ++ (x, since) :: l2 ->
  lock_state (world s') = (true, true) -> lock_inv slack k ->
  lock_inv slack (mkLocker s' (lk_now k) (lk_timers k) (l1 ++ l2) (lk_due k)).
Proof.
  intros Et El [He Hs Ht Hk Ho]. rewrite Et in *. split; simpl.
  - by injection El.
  - intros timeout t H. apply Hs. by apply elem_of_add.
  - done.
  - intros y t H. eapply Hk. by apply elem_of_add.
  - unfold is_open. by rewrite El.
Qed.

Lemma inv_step slack k k' : 0 <= slack -> lock_step slack k k' -> lock_inv slack k -> lock_inv slack k'.
Proof.
  intros H0 St I. destruct St as [k now' H1 H2 H3|k req timeout s' Eu|k req r s' Eu|k timeout since l1 l2 Et s'
    |k d g l1 l2 Et Hd|k g since l1 l2 go s' Et Ec|k since l1 l2 Et|k id s' Ev|k since l1 l2 Et|k env req Hm].
  - destruct I as [He Hs Ht Hk Ho]. split; simpl; eauto. intros Hop.
    destruct (Ho Hop); [by eapply coming_timer|by eapply coming_fired|by eapply coming_claimed|by eapply coming_schedule
      |by eapply coming_cancelled].
  - destruct (unlockRequest_Go _ _ _ _ Eu) as (Hto & _ & Hop & _). destruct I as [He Hs Ht Hk Ho].
    destruct (due_of_le (lk_tasks k) (lk_now k + timeout * Second)) as [D1 D2].
    split; simpl.
    + by injection Hop.
    + intros to t [[= -> ->]|H]%elem_of_cons; [by split|]. split; [by eapply Hs|by apply D2].
    + done.
    + intros x t [[= -> ->]|H]%elem_of_cons; [lia|by eapply Hk].
    + intros _. eapply coming_schedule. simpl. by left.
  - eapply inv_same; [by eapply unlockRequest_Reply|done].
  - destruct I as [He Hs Ht Hk Ho]. rewrite Et in *.
    assert ((Scheduling timeout, since) ∈ l1 ++ (Scheduling timeout, since) :: l2) as Hin by (rewrite elem_of_app; right; by left).
    destruct (Hs _ _ Hin) as [Hto Hdue]. specialize (Hk _ _ Hin) as Hlate.
    assert (int64 (timeout * Second) = timeout * Second) as Ei
      by (apply int64_id; unfold is_int64, maxTimeout, Second in *; lia).
    split; simpl.
    + done.
    + intros to t H. apply Hs. by apply elem_of_add.
    + intros d g [[= -> ->]|H]%elem_of_cons; [rewrite Ei; unfold Second in *; lia|]. eapply Ht. by eapply stop_sub.
    + intros x t H. eapply Hk. by apply elem_of_add.
    + intros _. eapply (coming_timer _ _ (lk_now k + int64 (timeout * Second))); simpl; [by left|]. rewrite Ei. lia.
  - destruct I as [He Hs Ht Hk Ho]. rewrite Et in *.
    assert ((d, g) ∈ l1 ++ (d, g) :: l2) as Hin by (rewrite elem_of_app; right; by left).
    specialize (Ht _ _ Hin) as Hlate. split; simpl.
    + done.
    + intros to t [H|H]%elem_of_cons; [done|by apply Hs].
    + intros d' g' H. eapply Ht. by apply elem_of_add.
    + intros x t [[= -> ->]|H]%elem_of_cons; [lia|by eapply Hk].
    + intros Hop. destruct (Ho Hop) as [d' H1 H2|t H1 H2|t H1 H2|to t H1|t H1 H2].
      * rewrite Et in H1. apply elem_of_drop in H1 as [[= <- <-]|H1].
        -- eapply coming_fired; simpl; [by left|lia].
        -- by eapply coming_timer.
      * eapply coming_fired; simpl; [by right|done].
      * eapply coming_claimed; simpl; [by right|done].
      * eapply coming_schedule; simpl. by right.
      * eapply coming_cancelled; simpl; [by right|done].
  - destruct I as [He Hs Ht Hk Ho]. rewrite Et in *.
    assert ((Fired g, since) ∈ l1 ++ (Fired g, since) :: l2) as Hin by (rewrite elem_of_app; right; by left).
    specialize (Hk _ _ Hin) as Hlate.
    assert (world s' = world (lk_srv k) /\ autoLockGen s' = autoLockGen (lk_srv k) /\
      (go = false -> autoLockGen (lk_srv k) <> g)) as (Ew & Eg & Hgo).
    { revert Ec. unfold claimAutoLock. case_bool_decide; intros [= <- <-]; done. }
    split; simpl.
    + unfold srv_wallet in *. by rewrite Ew.
    + intros to t H. apply Hs. destruct go; [apply elem_of_cons in H as [H|H]; [done|]|]; by apply elem_of_add.
    + done.
    + intros x t H. destruct go; [apply elem_of_cons in H as [[= -> ->]|H]; [lia|]|]; eapply Hk; by apply elem_of_add.
    + intros Hop. unfold is_open in Hop. rewrite Ew in Hop.
      assert (forall y t, y <> Fired g -> (y, t) ∈ l1 ++ (Fired g, since) :: l2 ->
        (y, t) ∈ (if go then [(Claimed, lk_now k)] else []) ++ l1 ++ l2) as Hkeep.
      { intros y t Hy [[= ? ?]|H]%elem_of_drop; [done|]. apply elem_of_app. by right. }
      destruct (Ho Hop) as [d' H1 H2|t H1 H2|t H1 H2|to t H1|t H1 H2]; try rewrite Et in H1.
      * eapply coming_timer; simpl; [by rewrite Eg|done].
      * destruct go.
        -- apply elem_of_drop in H1 as [[= Hg ->]|H1].
           ++ eapply coming_claimed; simpl; [by left|lia].
           ++ eapply coming_fired; simpl; [rewrite Eg; by right|done].
        -- eapply coming_fired; simpl; [|done]. rewrite Eg. apply (Hkeep (Fired (autoLockGen (lk_srv k))) t); [|done].
           intros [= E]. by apply Hgo.
      * eapply coming_claimed; simpl; [by apply Hkeep|done].
      * eapply coming_schedule; simpl. by apply Hkeep.
      * eapply coming_cancelled; simpl; [by apply Hkeep|done].
  - eapply inv_locked; [done| |done]. apply Lock_flags, (li_encrypted _ _ I).
  - assert (s' = lk_srv k) as ->.
    { revert Ev. unfold validateWalletLockState, requireWallet, gets, reply_error, reply, mbind, Handler_bind, mret, Handler_ret.
      simpl. destruct (wallet_nil (lk_srv k)); [done|]. destruct (negb _); [done|]. by intros [= <-]. }
    pose proof (coming_late _ _ H0 I) as Hlate. destruct I as [He Hs Ht Hk Ho]. split; simpl.
    + done.
    + intros to t [H|H]%elem_of_cons; [done|by apply Hs].
    + intros d g H. eapply Ht. by eapply stop_sub.
    + intros x t [[= -> ->]|H]%elem_of_cons; [lia|by eapply Hk].
    + intros Hop. destruct (Ho Hop) as [d' H1 H2|t H1 H2|t H1 H2|to t H1|t H1 H2].
      * eapply (coming_cancelled _ _ (lk_now k)); simpl; [by left|]. specialize (Ht _ _ H1). lia.
      * eapply (coming_cancelled _ _ (lk_now k)); simpl; [by left|]. specialize (Hk _ _ H1). lia.
      * eapply coming_claimed; simpl; [by right|done].
      * eapply coming_schedule; simpl. by right.
      * eapply coming_cancelled; simpl; [by right|done].
  - eapply inv_locked; [done| |done]. unfold on_world, call.
    pose proof (Lock_flags (world (lk_srv k)) (li_encrypted _ _ I)) as El.
    destruct (Lock (world (lk_srv k))) as [[[]|e] w]; simpl in *; [done|]. by destruct (panics e).
  - apply inv_same; [|done]. apply other_locks; [apply I|done].
Qed.

Lemma lock_reachable slack s k : 0 <= slack -> lock_state (world s) = (true, true) ->
  rtc (lock_step slack) (lock_start s) k -> lock_inv slack k.
Proof.
  intros H0 Hl Hr. assert (lock_inv slack (lock_start s)) as I.
  { split; simpl; [by injection Hl|by intros ? ? []%not_elem_of_nil..|]. unfold is_open. simpl. by rewrite Hl. }
  induction Hr; [done|]. eauto using inv_step.
Qed.

End autolock.
