(* ===== verification/UpdateSpec.v ===== *)
(** * What the name operations of a block do, and how they are undone

    The specification of ChainUpdate.v's name operations: a [names_state] (the names
    and, per name, the hashes of its history; the stored history records and the
    commitments).  [models] relates a database to it.  Each output of a block is a
    step [out_step] of that state, and the rollback of the output, run on a database
    that models the state after the step, restores the state before it. *)

From S2P Require Import Prelude Bolt Lru Record NameDB NamesSpec ExpirySpec Utxo.
From S2P Require Import Config Script Wire AuxPow Chain ChainSpec ChainUpdate.

(** What the documentation of btcd promises: a hash is 20 bytes, an encoded
    address at most 90 characters. *)
Class BtcLaws (G : BtcLib) := {
  Hash160_len b : length (Hash160 b) = 20%nat;
  address_len script p addrs : ExtractPkScriptAddrs script p = Ok addrs ->
    Forall (fun a => (length a <= 90)%nat) addrs;
}.

(** ** Expiration heights *)

Lemma safeCalcExpiresAt_min h : is_int32 h ->
  safeCalcExpiresAt h = Z.min (h + NameExpirationBlocks) MaxInt32.
Proof.
  intros Hh. unfold safeCalcExpiresAt, NameExpirationBlocks, MaxInt32.
  rewrite (int32_id (2147483647 - 36000)) by (unfold_int; lia).
  destruct (Z.gtb_spec h (2147483647 - 36000)).
  - unfold is_int32 in Hh. lia.
  - rewrite int32_id by (unfold_int; lia). lia.
Qed.

Lemma safeCalcExpiresAt_range h : is_int32 h -> is_int32 (safeCalcExpiresAt h).
Proof.
  intros Hh. rewrite safeCalcExpiresAt_min by done.
  unfold is_int32, NameExpirationBlocks, MaxInt32 in *. lia.
Qed.

(** ** The state of the names *)

Record names_state := mkNames {
  s_names : gmap bytes NameRecord;
  s_hashes : bytes -> list bytes;
  s_hist : gmap bytes bytes;
  s_commits : gmap bytes bytes;
}.

Definition put_record (name : bytes) (r : NameRecord) (h : bytes) (a : names_state) : names_state :=
  {| s_names := <[name:=r]> (s_names a);
     s_hashes := fun nm => if decide (nm = name) then s_hashes a nm ++ [h] else s_hashes a nm;
     s_hist := <[h:=encodeNameRecord r]> (s_hist a);
     s_commits := s_commits a |}.

Definition set_commit (c : bytes) (height : Z) (a : names_state) : names_state :=
  {| s_names := s_names a; s_hashes := s_hashes a; s_hist := s_hist a;
     s_commits := <[c:=le_bytes 4 (uint32 height)]> (s_commits a) |}.
Definition del_commit (c : bytes) (a : names_state) : names_state :=
  {| s_names := s_names a; s_hashes := s_hashes a; s_hist := s_hist a;
     s_commits := delete c (s_commits a) |}.

(** The same state; [s_hashes] is a function. *)
Record same_names (a a' : names_state) : Prop := {
  sn_names : s_names a = s_names a';
  sn_hashes : forall name, s_hashes a name = s_hashes a' name;
  sn_hist : s_hist a = s_hist a';
  sn_commits : s_commits a = s_commits a';
}.

#[export] Instance same_names_equiv : Equivalence same_names.
Proof.
  split.
  - intros a. by split.
  - intros a a' []. by split.
  - intros a b c [] []. split; try congruence. all: intros; etrans; eauto.
Qed.

(** The buckets and the cache the name operations own. *)
Definition name_side : list bucket :=
  [namesBucket; expirationBucket; historyBucket; historyIndexBucket; nameNewBucket].

Section spec.
Context {B : Bolt} {L : BoltLaws B} {C : BoltCommits B}.

Record models (n : NameDatabase) (a : names_state) : Prop := {
  md_wf : ndb_wf n;
  md_hwf : ndb_hist_wf n;
  md_names : ndb_names n = s_names a;
  md_hashes : forall name, ndb_hashes n name = s_hashes a name;
  md_hist : ndb_bkt n historyBucket = s_hist a;
  md_commits : ndb_bkt n nameNewBucket = s_commits a;
}.

#[export] Instance models_proper : Proper (eq ==> same_names ==> iff) models.
Proof.
  intros n ? <- a a' [E1 E2 E3 E4].
  split; intros [? ? ? Hh ? ?]; split; try congruence; intros; rewrite Hh; by rewrite E2.
Qed.

Lemma frame_refl bs n : frame bs n n.
Proof. done. Qed.

Lemma frame_trans bs n1 n2 n3 : frame bs n1 n2 -> frame bs n2 n3 -> frame bs n1 n3.
Proof. intros [E1 F1] [E2 F2]. split; [congruence|]. intros b Hb. by rewrite F2, F1. Qed.

Lemma frame_weaken bs bs' n n' : forallb (fun b => bool_decide (b ∈ bs')) bs = true ->
  frame bs n n' -> frame bs' n n'.
Proof.
  intros S [E F]. split; [done|]. intros b Hb. apply F. intros Hin. apply Hb.
  rewrite forallb_forall in S. apply list_elem_of_In, S in Hin. by apply bool_decide_eq_true in Hin.
Qed.

Lemma frame_store bs n n' : same_store n n' -> frame bs n n'.
Proof. intros [E1 E2]. split; [done|]. intros b _. unfold ndb_bkt. by rewrite E1. Qed.

Lemma models_store n n' a : same_store n n' -> ndb_wf n' -> models n a -> models n' a.
Proof.
  intros [E1 E2] W' [W [O H] ? ? ? ?].
  assert (forall b, ndb_bkt n' b = ndb_bkt n b) as Eb by (intros b; unfold ndb_bkt; by rewrite E1).
  split; [done|split; [by rewrite E1|by rewrite !Eb]|..]; unfold ndb_names, ndb_hashes in *;
    intros; rewrite ?Eb; eauto.
Qed.

(** An operation on other buckets. *)
Lemma models_frame bs n n' a : ndb_open n' -> cache n' = cache n -> frame bs n n' ->
  Forall (fun b => b ∉ bs) name_side -> models n a -> models n' a.
Proof.
  intros O Ec F D [W H ? Eh ? ?]. unfold name_side in D. decompose_Forall_hyps.
  destruct (ndb_wf_frame bs n n') as [W' En]; try done.
  destruct (ndb_hist_wf_frame bs n n') as [H' Eh']; try done.
  destruct F as [_ F]. split; [done|done|congruence| | |].
  - intros name. by rewrite Eh'.
  - by rewrite F.
  - by rewrite F.
Qed.

(** *** The store operations on the state *)

Lemma GetName_models n a name : models n a ->
  wp (GetName name)
    (fun r n' => models n' a /\ frame name_side n n' /\ s_names a !! name = Some r)
    (fun e n' => models n' a /\ frame name_side n n' /\ e = ErrNameNotFound /\ s_names a !! name = None) n.
Proof using L.
  intros M. eapply wp_mono; [apply GetName_correct, M| |]; simpl.
  - intros r n' (W' & S' & E). rewrite (md_names _ _ M) in E.
    split_and!; [by eapply models_store|by apply frame_store|done].
  - intros e n' (W' & S' & -> & E). rewrite (md_names _ _ M) in E.
    split_and!; [by eapply models_store|by apply frame_store|done|done].
Qed.

Definition room (a : names_state) (name : bytes) : Prop := Z.of_nat (length (s_hashes a name)) < 2 ^ 25.

(** [PutName] alone leaves the names without their history entry. *)
Definition put_name (name : bytes) (r : NameRecord) (a : names_state) : names_state :=
  {| s_names := <[name:=r]> (s_names a); s_hashes := s_hashes a; s_hist := s_hist a;
     s_commits := s_commits a |}.

Lemma PutName_models n a name r : models n a -> record_ok r -> name_ok name -> Name r = name ->
  wp (PutName name (Some r))
    (fun r' n' => r' = r /\ models n' (put_name name r a) /\ frame name_side n n')
    (fun _ _ => False) n.
Proof using L C.
  intros M Hr Hk En. assert (set_Name name r = r) as Er by (destruct r; simpl in *; by subst).
  eapply wp_mono; [by apply PutName_correct, Hr; apply M| |]; simpl; [|by intros e n' [? _]].
  intros r' n' (_ & W' & -> & Enm & F). rewrite Er in *. split; [done|].
  destruct M as [W H En' Eh Ei Ec].
  destruct (ndb_hist_wf_frame name_buckets n n') as [H' Eh'];
    [done|by apply ndb_wf_open|done|bucket_notin..|].
  split; [|eapply frame_weaken; [|exact F]; done].
  destruct F as [_ F]. split; simpl; [done|done|congruence| | |].
  - intros nm. by rewrite Eh', Eh.
  - rewrite F by bucket_notin. done.
  - rewrite F by bucket_notin. done.
Qed.

Lemma key_ok_of_name name : name_ok name -> key_ok name.
Proof. apply key_ok_name. Qed.

Lemma AddHistory_models n a h r : models n (put_name (Name r) r a) -> record_ok r -> name_ok (Name r) ->
  hash_ok h -> room a (Name r) ->
  wp (AddHistory h (Some r))
    (fun _ n' => models n' (put_record (Name r) r h a) /\ frame name_side n n') (fun _ _ => False) n.
Proof using L C.
  intros M Hr Hk Hh Hroom. destruct M as [W H En Eh Ei Ec]. simpl in *.
  eapply wp_mono; [apply AddHistory_correct; try done; [by apply key_ok_name|]| |done]; simpl.
  { unfold index_room. by rewrite Eh. }
  intros _ n' (H' & Ecache & F & Eb & Eh').
  destruct (ndb_wf_frame hist_buckets n n') as [W' En'];
    [done|apply H'|done|done|bucket_notin..|].
  split; [|eapply frame_weaken; [|exact F]; done].
  destruct F as [_ F]. split; simpl; [done|done|congruence| | |].
  - intros nm. rewrite Eh'. case_decide; by rewrite Eh.
  - by rewrite Eb, Ei.
  - rewrite F by bucket_notin. done.
Qed.

(** An operation on the commitments only. *)
Lemma models_commits n n' a m : models n a -> ndb_open n' -> cache n' = cache n ->
  frame commitment_buckets n n' -> ndb_bkt n' nameNewBucket = m ->
  models n' (mkNames (s_names a) (s_hashes a) (s_hist a) m).
Proof.
  intros [W H ? Eh ? ?] O Ec F Em.
  destruct (ndb_wf_frame commitment_buckets n n') as [W' En];
    try done; [bucket_notin..|].
  destruct (ndb_hist_wf_frame commitment_buckets n n') as [H' Eh'];
    try done; [bucket_notin..|].
  destruct F as [_ F]. split; simpl; [done|done|congruence| | |done].
  - intros name. by rewrite Eh'.
  - by rewrite F by bucket_notin.
Qed.

Lemma frame_commits n n' : frame commitment_buckets n n' -> frame name_side n n'.
Proof. by apply frame_weaken. Qed.

Lemma PutNameNew_models n a c height : models n a -> key_ok c -> s_commits a !! c = None ->
  wp (PutNameNew c height)
    (fun _ n' => models n' (set_commit c height a) /\ frame name_side n n') (fun _ _ => False) n.
Proof using L C.
  intros M Hk Ec. eapply wp_mono; [apply PutNameNew_correct; [apply ndb_wf_open, M|done]| |]; simpl.
  - intros _ n' (_ & O & E & F & Eb). rewrite (md_commits _ _ M) in Eb.
    split; [by eapply models_commits|by apply frame_commits].
  - intros e n' ([d Ed] & _). unfold ndb_commitment in Ed. rewrite (md_commits _ _ M), Ec in Ed. done.
Qed.

Lemma DeleteNameNew_models n a c : models n a ->
  wp (DeleteNameNew c)
    (fun _ n' => models n' (del_commit c a) /\ frame name_side n n') (fun _ _ => False) n.
Proof using L C.
  intros M. destruct (ndb_wf_open _ (md_wf _ _ M)) as (t & Hdb & F).
  apply (wp_Update _ _ _ _ t); [done|]. wp_steps.
  assert (frame commitment_buckets n (set_db (Some t0) n)) as Fr by solve_frame Hdb commitment_buckets.
  split; [|by apply frame_commits].
  eapply models_commits; [done|exists t0; split; [done|by eapply updated_full]|done|done|].
  unfold ndb_bkt. cbn [set_db db]. bk_simpl. pose proof (md_commits _ _ M) as E.
  unfold ndb_bkt in E. rewrite Hdb in E. by rewrite E.
Qed.

Lemma RestoreNameNew_models n a c height : models n a -> key_ok c ->
  wp (RestoreNameNew c height)
    (fun _ n' => models n' (set_commit c height a) /\ frame name_side n n') (fun _ _ => False) n.
Proof using L C.
  intros M Hk. destruct (ndb_wf_open _ (md_wf _ _ M)) as (t & Hdb & F).
  apply (wp_Update _ _ _ _ t); [done|]. wp_steps.
  assert (frame commitment_buckets n (set_db (Some t0) n)) as Fr by solve_frame Hdb commitment_buckets.
  split; [|by apply frame_commits].
  eapply models_commits; [done|exists t0; split; [done|by eapply updated_full]|done|done|].
  unfold ndb_bkt. cbn [set_db db]. bk_simpl. pose proof (md_commits _ _ M) as E.
  unfold ndb_bkt in E. rewrite Hdb in E. by rewrite E.
Qed.

(** ** One output of a block *)

Context {W : Wire} {G : BtcLib} {LG : BtcLaws G}.
Context (params : Params) (height blockTime : Z) (Hh : is_int32 height) (Ht : is_int64 blockTime).

Definition commit_of (extra name : bytes) : bytes := computeCommitHash Hash160 extra name.

(** What [GetNameNew] reads from a stored value. *)
Definition stored_height (d : bytes) : option Z :=
  if bool_decide (length d < 4)%nat then None else Some (int32 (of_le (take 4 d))).

Definition fallback_height : Z := Z.max 0 (int32 (height - MinBlocksBeforeFirstUpdate)).

Definition nn_height (a : names_state) (c : bytes) : Z :=
  default fallback_height (s_commits a !! c ≫= stored_height).

Definition kept_height (a : names_state) (name : bytes) : Z :=
  match s_names a !! name with Some p => NameNewHeight p | None => 0 end.

Definition step_FU (txHash : bytes) (i : nat) (o : TxOut) (name value extra : bytes) (a : names_state) :
    names_state :=
  del_commit (commit_of extra name)
    (put_record name (op_record params txHash i o name value height blockTime
       (nn_height a (commit_of extra name))) txHash a).

Definition step_U (txHash : bytes) (i : nat) (o : TxOut) (name value : bytes) (a : names_state) :
    names_state :=
  put_record name (op_record params txHash i o name value height blockTime (kept_height a name)) txHash a.

Definition out_step (txHash : bytes) (i : nat) (o : TxOut) (a : names_state) : names_state :=
  match parseNameScriptFull (PkScript o) with
  | Err _ => a
  | Ok (NameNew, _, _, extra) => set_commit extra height a
  | Ok (NameFirstUpdate, name, value, extra) => step_FU txHash i o name value extra a
  | Ok (NameUpdate, name, value, _) => step_U txHash i o name value a
  end.

(** What the store must accept for the step. *)
Definition out_fits (o : TxOut) (a : names_state) : Prop :=
  forall op name value extra, parseNameScriptFull (PkScript o) = Ok (op, name, value, extra) ->
    match op with
    | NameNew => key_ok extra /\ s_commits a !! extra = None
    | _ => name_ok name /\ blen value <= MaxValueLength /\ room a name
    end.

Definition heights_ok (a : names_state) : Prop :=
  forall name r, s_names a !! name = Some r -> is_int32 (NameNewHeight r).

Lemma models_heights n a : models n a -> heights_ok a.
Proof.
  intros M name r E. rewrite <-(md_names _ _ M) in E.
  destruct (names_of_ok _ _ _ _ (wf_names _ (md_wf _ _ M)) E) as (O & _). apply O.
Qed.

Lemma fallback_height_range : is_int32 fallback_height.
Proof using.
  unfold fallback_height. pose proof (int32_range (height - MinBlocksBeforeFirstUpdate)) as Hr.
  unfold is_int32 in *. lia.
Qed.

Lemma nn_height_range a c : is_int32 (nn_height a c).
Proof using.
  unfold nn_height, stored_height. pose proof fallback_height_range.
  destruct (s_commits a !! c) as [d|]; cbn [mbind option_bind]; [|done].
  case_bool_decide; [done|apply int32_range].
Qed.

Lemma kept_height_range a name : heights_ok a -> is_int32 (kept_height a name).
Proof using.
  intros Ha. unfold kept_height. destruct (s_names a !! name) eqn:E; [by eapply Ha|by unfold_int].
Qed.

Lemma extract_len script p : (length (extractAddressFromNameScript ExtractPkScriptAddrs script (Some p)) <= 90)%nat.
Proof using LG.
  unfold extractAddressFromNameScript. case_bool_decide; [simpl; lia|].
  destruct (skipNameScriptPrefix script); [|simpl; lia]. case_bool_decide; [simpl; lia|].
  destruct (ExtractPkScriptAddrs _ _) as [[|x l]|] eqn:E; [simpl; lia| |simpl; lia].
  apply address_len in E. by apply Forall_cons in E as [? _].
Qed.

Lemma op_record_ok txHash i o name value nnh : hash_ok txHash -> blen value <= MaxValueLength ->
  is_int32 nnh -> record_ok (op_record params txHash i o name value height blockTime nnh).
Proof using Hh Ht LG.
  intros Hhash Hv Hn. split; cbn [op_record Record.TxHash OutIndex Height ExpiresAt NameNewHeight UpdatedAt Value Address]; try done.
  - apply uint32_range.
  - by apply safeCalcExpiresAt_range.
  - unfold blen, MaxValueLength, maxRecordStringLen in *. lia.
  - pose proof (extract_len (PkScript o) params). unfold maxRecordStringLen. lia.
Qed.

Lemma getNameNewHeight_models n a extra name : models n a ->
  wp (getNameNewHeight extra name height)
    (fun z n' => n' = n /\ z = nn_height a (commit_of extra name)) (fun _ _ => False) n.
Proof using L.
  intros M. unfold getNameNewHeight. rewrite wp_bind, wp_try.
  assert (ndb_commitment n (commit_of extra name) = s_commits a !! commit_of extra name) as Ec.
  { unfold ndb_commitment. by rewrite (md_commits _ _ M). }
  eapply wp_mono; [apply GetNameNew_correct, ndb_wf_open, M| |]; simpl; fold (commit_of extra name).
  - intros r n' (-> & d & Ed & Hd & ->). rewrite wp_ret. split; [done|].
    unfold nn_height. rewrite <-Ec, Ed. simpl. unfold stored_height.
    by rewrite bool_decide_false by lia.
  - intros e n' (-> & Hd). rewrite wp_ret. split; [done|]. unfold nn_height, fallback_height.
    rewrite <-Ec. set (z := int32 _).
    replace (_ ≫= stored_height) with (@None Z); [simpl; destruct (Z.ltb_spec z 0); lia|].
    destruct (ndb_commitment n _) as [d|]; [|done]. simpl. unfold stored_height.
    by rewrite bool_decide_true by (by apply Hd).
Qed.

Lemma processNameFirstUpdate_models n a txHash i o name value extra : models n a -> hash_ok txHash ->
  name_ok name -> blen value <= MaxValueLength -> room a name ->
  wp (processNameFirstUpdate params txHash i o name value extra height blockTime)
    (fun _ n' => models n' (step_FU txHash i o name value extra a) /\ frame name_side n n')
    (fun _ _ => False) n.
Proof using L C LG Hh Ht.
  intros M Hhash Hk Hv Hroom. unfold processNameFirstUpdate. rewrite wp_bind.
  eapply wp_mono; [by apply getNameNewHeight_models| |done]; simpl. intros z n1 [-> ->]. rewrite wp_bind.
  set (r := op_record _ _ _ _ _ _ _ _ _).
  assert (record_ok r) as Hr by (apply op_record_ok; [done|done|apply nn_height_range]).
  eapply wp_mono; [by apply (PutName_models n a name r)| |done]; simpl.
  intros r' n1 (-> & M1 & F1). rewrite wp_bind.
  eapply wp_mono; [by apply (AddHistory_models n1 a txHash r)| |done]; simpl. intros [] n2 [M2 F2].
  eapply wp_mono; [by apply DeleteNameNew_models| |done]; simpl. intros [] n3 [M3 F3].
  split; [done|]. eauto using frame_trans.
Qed.

Lemma processNameUpdate_models n a txHash i o name value : models n a -> hash_ok txHash ->
  name_ok name -> blen value <= MaxValueLength -> room a name ->
  wp (processNameUpdate params txHash i o name value height blockTime)
    (fun _ n' => models n' (step_U txHash i o name value a) /\ frame name_side n n')
    (fun _ _ => False) n.
Proof using L C LG Hh Ht.
  intros M Hhash Hk Hv Hroom. unfold processNameUpdate. rewrite wp_bind, wp_try.
  assert (forall p n0, models n0 a -> frame name_side n n0 ->
    match p : res NameRecord with Ok p => NameNewHeight p | Err _ => 0 end = kept_height a name ->
    wp (record ← PutName name (Some (op_record params txHash i o name value height blockTime
          match p with Ok p => NameNewHeight p | Err _ => 0 end)); AddHistory txHash (Some record))
      (fun _ n' => models n' (step_U txHash i o name value a) /\ frame name_side n n')
      (fun _ _ => False) n0) as K.
  { intros p n0 M0 F0 ->. rewrite wp_bind. set (r := op_record _ _ _ _ _ _ _ _ _).
    assert (record_ok r) as Hr.
    { apply op_record_ok; [done|done|]. by eapply kept_height_range, models_heights. }
    eapply wp_mono; [by apply (PutName_models n0 a name r)| |done]; simpl.
    intros r' n1 (-> & M1 & F1).
    eapply wp_mono; [by apply (AddHistory_models n1 a txHash r)| |done]; simpl. intros [] n2 [M2 F2].
    split; [done|]. eauto using frame_trans. }
  eapply wp_mono; [by apply GetName_models| |]; simpl.
  - intros r n0 (M0 & F0 & E). apply (K (Ok r)); [done|done|]. unfold kept_height. by rewrite E.
  - intros e n0 (M0 & F0 & _ & E). apply (K (Err e)); [done|done|]. unfold kept_height. by rewrite E.
Qed.

Lemma processNameOperation_models n a txHash i o : models n a -> hash_ok txHash -> out_fits o a ->
  wp (processNameOperation params txHash i o height blockTime)
    (fun _ n' => models n' (out_step txHash i o a) /\ frame name_side n n') (fun _ _ => False) n.
Proof using L C LG Hh Ht.
  intros M Hhash Hf. unfold processNameOperation, out_step.
  destruct (parseNameScriptFull (PkScript o)) as [[[[[] name] value] extra]|e] eqn:E; [..|done].
  - destruct (Hf _ _ _ _ E) as [? ?]. by apply PutNameNew_models.
  - destruct (Hf _ _ _ _ E) as (? & ? & ?). by apply processNameFirstUpdate_models.
  - destruct (Hf _ _ _ _ E) as (? & ? & ?). by apply processNameUpdate_models.
Qed.

(** ** Undoing one output *)

Definition drop_hash (name h : bytes) (a : names_state) : names_state :=
  {| s_names := s_names a;
     s_hashes := fun nm => if decide (nm = name) then removelast (s_hashes a name) else s_hashes a nm;
     s_hist := delete h (s_hist a); s_commits := s_commits a |}.

Definition del_name (name : bytes) (a : names_state) : names_state :=
  {| s_names := delete name (s_names a); s_hashes := s_hashes a; s_hist := s_hist a;
     s_commits := s_commits a |}.

Lemma RemoveLast_models n a name hs h : models n a -> name_ok name -> s_hashes a name = hs ++ [h] ->
  room a name ->
  wp (RemoveLastHistoryEntry name)
    (fun prev n' => models n' (drop_hash name h a) /\ frame name_side n n' /\
       prev = last hs ≫= (fun k => delete h (s_hist a) !! k ≫= decoded name))
    (fun _ _ => False) n.
Proof using L C.
  intros M Hk Ehs Hr. destruct M as [Wf H En Eh Ei Ec].
  eapply wp_mono; [apply (RemoveLastHistoryEntry_correct n name hs h); try done| |done]; simpl.
  - by apply key_ok_name.
  - by rewrite Eh.
  - unfold index_room. by rewrite Eh.
  - intros prev n' (H' & Ecache & F & Eb & Eh' & ->).
    destruct (ndb_wf_frame hist_buckets n n') as [W' En'];
      [done|apply H'|done|done|bucket_notin..|].
    split; [|split; [by eapply frame_weaken; [|exact F]|by rewrite Eb, Ei]].
    destruct F as [_ F]. split; simpl; [done|done|congruence| |by rewrite Eb, Ei|].
    + intros nm. rewrite Eh'. case_decide; [|done]. by rewrite Ehs, removelast_last.
    + by rewrite F by bucket_notin.
Qed.

Lemma DeleteName_models n a name : models n a ->
  wp (DeleteName name) (fun _ n' => models n' (del_name name a) /\ frame name_side n n')
    (fun _ _ => False) n.
Proof using L C.
  intros M. eapply wp_mono; [apply DeleteName_correct, M| |done]; simpl.
  intros [] n' (W' & Enm & F). destruct M as [Wf H En Eh Ei Ec].
  destruct (ndb_hist_wf_frame name_buckets n n') as [H' Eh'];
    [done|by apply ndb_wf_open|done|bucket_notin..|].
  split; [|by eapply frame_weaken; [|exact F]].
  destruct F as [_ F]. split; simpl; [done|done|congruence| | |].
  - intros nm. by rewrite Eh', Eh.
  - by rewrite F by bucket_notin.
  - by rewrite F by bucket_notin.
Qed.

(** The current record of a live name is its last history entry. *)
Definition linked (a : names_state) (name : bytes) (r : NameRecord) : Prop :=
  exists h0, last (s_hashes a name) = Some h0 /\ s_hist a !! h0 = Some (encodeNameRecord r).

(** What the state before an output must be for its rollback to restore it; [rs] are
    the commitments the rollback has restored. *)
Definition undoable (txHash : bytes) (o : TxOut) (a : names_state) (rs : gset bytes) : Prop :=
  forall op name value extra, parseNameScriptFull (PkScript o) = Ok (op, name, value, extra) ->
    match op with
    | NameNew => s_commits a !! extra = None /\ extra ∉ rs
    | NameFirstUpdate =>
        name_ok name /\ Z.of_nat (S (length (s_hashes a name))) < 2 ^ 25 /\ s_hist a !! txHash = None /\
        s_names a !! name = None /\
        exists z, is_int32 z /\ z <> 0 /\ s_commits a !! commit_of extra name = Some (le_bytes 4 (uint32 z))
    | NameUpdate =>
        name_ok name /\ Z.of_nat (S (length (s_hashes a name))) < 2 ^ 25 /\ s_hist a !! txHash = None /\
        exists r, s_names a !! name = Some r /\ record_ok r /\ Name r = name /\ linked a name r
    end.

Definition restored_by (o : TxOut) : gset bytes :=
  match parseNameScriptFull (PkScript o) with
  | Ok (NameFirstUpdate, name, _, extra) => {[ commit_of extra name ]}
  | _ => ∅
  end.

Lemma wp_on_rb {A} (m : M NameDatabase A) (Q : A -> NameDatabase * gset bytes -> Prop) E n rs :
  wp m (fun x n' => Q x (n', rs)) (fun e n' => E e (n', rs)) n -> wp (on_rb m) Q E (n, rs).
Proof using. unfold wp, on_rb, zoom. simpl. by destruct (m n) as [[] ?]. Qed.

Lemma stored_height_le z : is_int32 z -> stored_height (le_bytes 4 (uint32 z)) = Some z.
Proof using.
  intros Hz. unfold stored_height. rewrite length_le_bytes, bool_decide_false by lia.
  rewrite take_ge by (rewrite length_le_bytes; lia). rewrite of_le_bytes.
  change (256 ^ Z.of_nat 4) with (2 ^ 32). f_equal.
  rewrite Z.mod_small by apply uint32_range. by apply int32_uint32.
Qed.

Lemma Hash160_key_ok extra name : key_ok (commit_of extra name).
Proof using LG.
  unfold commit_of, computeCommitHash, key_ok, MaxKeySize. rewrite Hash160_len. lia.
Qed.

Lemma room_snoc a h name : Z.of_nat (S (length (s_hashes a name))) < 2 ^ 25 ->
  Z.of_nat (length (s_hashes a name ++ [h])) < 2 ^ 25.
Proof using. rewrite length_app. simpl. lia. Qed.

Lemma undo_FU n a txHash i o name value extra rs :
  models n (step_FU txHash i o name value extra a) -> undoable txHash o a rs ->
  parseNameScriptFull (PkScript o) = Ok (NameFirstUpdate, name, value, extra) ->
  wp (rollbackNameFirstUpdate name extra height)
    (fun _ s => models s.1 a /\ frame name_side n s.1 /\ s.2 = {[commit_of extra name]} ∪ rs)
    (fun _ _ => False) (n, rs).
Proof using L C LG.
  intros M U E. destruct (U _ _ _ _ E) as (Hk & Hr & Eh & Enm & z & Hz & Hz0 & Ec).
  assert (nn_height a (commit_of extra name) = z) as Ez.
  { unfold nn_height. rewrite Ec. cbn [mbind option_bind]. by rewrite stored_height_le. }
  unfold rollbackNameFirstUpdate. rewrite wp_bind. apply wp_on_rb.
  eapply wp_mono with (Q := fun x n1 => models n1 (step_FU txHash i o name value extra a) /\
    frame name_side n n1 /\ x = z) (E := fun _ _ => False); [| |done].
  { unfold getNameNewHeightForRollback. rewrite wp_bind, wp_try.
    eapply wp_mono; [by apply GetName_models| |]; simpl.
    - intros r n1 (M1 & F1 & Er). rewrite wp_ret. split_and!; [done|done|].
      rewrite lookup_insert_eq in Er. injection Er as <-. simpl. rewrite Ez.
      by destruct (Z.eqb_spec z 0).
    - intros e n1 (_ & _ & _ & Er). by rewrite lookup_insert_eq in Er. }
  intros ? n1 (M1 & F1 & ->). rewrite wp_bind. apply wp_on_rb. rewrite wp_wrapM.
  assert (s_hashes (step_FU txHash i o name value extra a) name = s_hashes a name ++ [txHash]) as Ehs.
  { simpl. by rewrite decide_True. }
  eapply wp_mono; [apply (RemoveLast_models n1 _ name _ _ M1 Hk Ehs)| |done]; simpl.
  { unfold room. rewrite Ehs. by apply room_snoc. }
  intros _ n2 (M2 & F2 & _). rewrite wp_bind. apply wp_on_rb. rewrite wp_wrapM.
  eapply wp_mono; [by apply DeleteName_models| |done]; simpl. intros [] n3 [M3 F3].
  rewrite wp_bind. apply wp_on_rb. rewrite wp_wrapM. fold (commit_of extra name).
  eapply wp_mono; [apply (RestoreNameNew_models n3 _ _ z M3); apply Hash160_key_ok| |done]; simpl.
  intros [] n4 [M4 F4]. rewrite wp_modify. simpl.
  split; [|split; [eauto using frame_trans|done]].
  eapply models_proper; [reflexivity| |exact M4]. split; simpl.
  - by rewrite delete_insert_id.
  - intros nm. rewrite (decide_True (P := name = name)) by done. rewrite removelast_last.
    by destruct (decide (nm = name)) as [->|].
  - by rewrite delete_insert_id.
  - by rewrite insert_delete_eq, insert_id.
Qed.

Lemma undo_U n a txHash i o name value extra rs :
  models n (step_U txHash i o name value a) -> undoable txHash o a rs ->
  parseNameScriptFull (PkScript o) = Ok (NameUpdate, name, value, extra) ->
  wp (rollbackNameUpdate name)
    (fun _ n' => models n' a /\ frame name_side n n') (fun _ _ => False) n.
Proof using L C.
  intros M U E. destruct (U _ _ _ _ E) as (Hk & Hr & Eh & r & Enm & Hok & Hnm & h0 & El & Eh0).
  unfold rollbackNameUpdate. rewrite wp_bind, wp_wrapM.
  assert (s_hashes (step_U txHash i o name value a) name = s_hashes a name ++ [txHash]) as Ehs.
  { simpl. by rewrite decide_True. }
  eapply wp_mono; [apply (RemoveLast_models n _ name _ _ M Hk Ehs)| |done]; simpl.
  { unfold room. rewrite Ehs. by apply room_snoc. }
  intros prev n1 (M1 & F1 & ->). rewrite El. simpl. rewrite delete_insert_id, Eh0 by done. simpl.
  rewrite decoded_encode by done.
  assert (set_Name name r = r) as -> by (destruct r; simpl in *; by subst).
  rewrite wp_bind, wp_wrapM.
  eapply wp_mono; [by apply (PutName_models n1 (drop_hash name txHash (step_U txHash i o name value a)) name r)| |done]; simpl.
  intros r' n2 (-> & M2 & F2). rewrite wp_ret. split; [|by eapply frame_trans].
  eapply models_proper; [reflexivity| |exact M2]. split; simpl.
  - by rewrite insert_insert_eq, insert_id.
  - intros nm. rewrite (decide_True (P := name = name)) by done. rewrite removelast_last.
    by destruct (decide (nm = name)) as [->|].
  - by rewrite delete_insert_id.
  - done.
Qed.

Lemma rollbackOutput_models n a txHash i o rs :
  models n (out_step txHash i o a) -> undoable txHash o a rs ->
  wp (rollbackOutput height o)
    (fun _ s => models s.1 a /\ frame name_side n s.1 /\ s.2 = restored_by o ∪ rs)
    (fun _ _ => False) (n, rs).
Proof using L C LG.
  unfold rollbackOutput, out_step, restored_by. intros M U.
  destruct (parseNameScriptFull (PkScript o)) as [[[[[] name] value] extra]|e] eqn:E.
  - rewrite wp_wrapM. destruct (U _ _ _ _ E) as [Ec Hrs]. unfold rollbackNameNew.
    rewrite wp_bind, wp_get. simpl. rewrite bool_decide_false by done. apply wp_on_rb.
    eapply wp_mono; [by apply DeleteNameNew_models| |done]; simpl. intros [] n' [M' F'].
    split; [|split; [done|by rewrite union_empty_l_L]].
    eapply models_proper; [reflexivity| |exact M']. split; simpl; try done.
    by rewrite delete_insert_id.
  - rewrite wp_wrapM. by eapply undo_FU.
  - rewrite wp_wrapM. apply wp_on_rb.
    eapply wp_mono; [by eapply undo_U| |done]; simpl. intros [] n' [M' F'].
    split; [done|]. split; [done|by rewrite union_empty_l_L].
  - rewrite wp_ret. split; [done|]. split; [done|by rewrite union_empty_l_L].
Qed.

End spec.
