(* ===== verification/WalletSpec.v ===== *)
(** * What the wallet promises

    The abstract wallet [vault]: the password, once set, whether the wallet is open, and
    all the keys ever made.  [represents] relates it to the wallet, its file and the
    password hash; every operation implements the step of its name ([simulates]), as
    long as writes to the file do not fail. *)

From S2P Require Import Prelude Config Script ScriptSpec Wire Chain UpdateSpec Encryption Wallet.

(** A disk that takes every write. *)
Class ReliableDisk (D : Disk) :=
  WriteFile_ok data d : exists d', WriteFile data d = (Ok tt, d').

Section spec.
Context {K : Crypto} {L : KeyLib} {D : Disk} {J : WalletJson} {G : BtcLib} {R : MapRange}.
Context {KC : CryptoLaws K} {KL : KeyLaws L} {DL : DiskLaws D} {DR : ReliableDisk D} {JL : JsonLaws J} {GL : BtcLaws G}.

(** A key pair belongs to its address. *)
Record key_ok (params : Params) (addr : bytes) (kp : KeyPair) : Prop := {
  ko_pub : PublicKey kp = PubKey (PrivateKey kp);
  ko_addr : NewAddressPubKeyHash (Hash160 (SerializeCompressed (PublicKey kp))) params = Ok (kp_Address kp);
  ko_name : addr = EncodeAddress (kp_Address kp);
}.

(** What a stored key means, in an encrypted wallet with this password or a plain one. *)
Definition stored_key (secret : option bytes) (keyHex : bytes) : res bytes :=
  match secret with
  | Some pw => encData ← decodeEncryptedData keyHex; decrypt (Some encData) pw
  | None => hex_DecodeString keyHex
  end.

(** The file holds exactly these keys. *)
Record holds (secret : option bytes) (kds : list keyData) (ks : gmap bytes KeyPair) : Prop := {
  h_keys : forall kd, kd ∈ kds -> exists kp, ks !! kd_Address kd = Some kp /\
    stored_key secret (PrivateKeyHex kd) = Ok (priv_Serialize (PrivateKey kp));
  h_all : forall a, is_Some (ks !! a) -> a ∈ kd_Address <$> kds;
}.

Record vault := mkVault {
  v_secret : option bytes;
  v_open : bool;
  v_known : gmap bytes KeyPair;
}.

(** The wallet data of the file. *)
Record data_ok (params : Params) (v : vault) (w : Wallet) (wd : walletData) : Prop := {
  d_version : Version wd = 2;
  d_encrypted : Encrypted wd = encrypted w;
  d_keys : holds (v_secret v) (Keys wd) (v_known v);
  d_hash : encrypted w = true -> PasswordHash wd = hex_EncodeToString (passwordHash w) /\
    PasswordSalt wd = hex_EncodeToString (passwordSalt w) /\ PasswordHashVersion wd = passwordHashVersion w;
}.

Record represents (params : Params) (v : vault) (s : World) : Prop := {
  r_params : chainParams (wallet s) = params;
  r_known : map_Forall (key_ok params) (v_known v);
  r_keys : keys (wallet s) = if v_open v then v_known v else ∅;
  r_encrypted : encrypted (wallet s) = bool_decide (is_Some (v_secret v));
  r_locked : locked (wallet s) = negb (v_open v);
  r_plain : v_secret v = None -> v_open v = true /\ unlockPassword (wallet s) = [];
  r_secret : forall pw, v_secret v = Some pw -> pw <> [] /\ passwordHashVersion (wallet s) ∈ [1; 2] /\
    hashPasswordWithVersion pw (passwordSalt (wallet s)) (passwordHashVersion (wallet s)) = Ok (passwordHash (wallet s)) /\
    unlockPassword (wallet s) = if v_open v then pw else [];
  r_file : (ReadFile (file s) = Err ErrNotExist /\ v_known v = ∅ /\ v_secret v = None) \/
    exists data wd, ReadFile (file s) = Ok data /\ Unmarshal data = Ok wd /\ data_ok params v (wallet s) wd;
}.

(** The wallet's own state agrees with a secret. *)
Definition open_with (secret : option bytes) (w : Wallet) : Prop :=
  encrypted w = bool_decide (is_Some secret) /\
  match secret with Some pw => pw <> [] /\ unlockPassword w = pw | None => True end.

(** ** Reading keys *)

Lemma decodePrivateKey_stored secret w keyHex b : open_with secret w ->
  stored_key secret keyHex = Ok b -> decodePrivateKey w keyHex = Ok b.
Proof.
  intros [He Hp]. unfold stored_key, decodePrivateKey. rewrite He. destruct secret as [pw|].
  - destruct Hp as [Hn ->]. rewrite !bool_decide_true by (try done; by destruct pw). cbn [andb].
    destruct (decodeEncryptedData keyHex) as [d|]; [|done]. cbn [wrap_err]. cbv [mbind res_bind]. by intros ->.
  - rewrite (bool_decide_false (is_Some None)) by (by intros []). simpl. by intros ->.
Qed.

Lemma set_keys_set_keys f g (w : Wallet) : set_keys f (set_keys g w) = set_keys (fun k => f (g k)) w.
Proof. done. Qed.

(** One key is loaded under its address. *)
Lemma loadKey_ok params secret w kd kp : chainParams w = params -> open_with secret w ->
  key_ok params (kd_Address kd) kp -> stored_key secret (PrivateKeyHex kd) = Ok (priv_Serialize (PrivateKey kp)) ->
  loadKey kd w = (Ok tt, set_keys <[kd_Address kd := kp]> w).
Proof.
  intros Hp Ho [Hpub Ha Hn] Hs. unfold loadKey, mbind, M_bind, get, lift.
  rewrite (decodePrivateKey_stored secret w _ _ Ho Hs). rewrite bool_decide_false by (rewrite priv_Serialize_len; tauto).
  rewrite PrivKeyFromBytes_Serialize. rewrite Hpub in Ha. rewrite Hp, Ha. simpl.
  rewrite bool_decide_false by (rewrite Hn; tauto). unfold modify. rewrite <-Hn, <-Hpub. by destruct kp.
Qed.

(** The keys of the file are loaded into a wallet without keys. *)
Lemma loadKeys_ok params secret w wd ks : chainParams w = params -> open_with secret w ->
  map_Forall (key_ok params) ks -> holds secret (Keys wd) ks -> keys w = ∅ ->
  loadKeys wd w = (Ok tt, set_keys (fun _ => ks) w).
Proof.
  intros Hp Ho Hk [Hd Ha] He. unfold loadKeys.
  assert (wp (forM (Keys wd) loadKey) (fun _ w' => exists m, w' = set_keys (fun _ => m) w /\ m ⊆ ks /\
    forall a, a ∈ kd_Address <$> Keys wd -> is_Some (m !! a)) (fun _ _ => False) w) as H.
  { eapply wp_forM with (I := fun done w' => exists m, w' = set_keys (fun _ => m) w /\ m ⊆ ks /\
      forall a, a ∈ kd_Address <$> done -> is_Some (m !! a)).
    - intros done kd rest w' Hl (m & -> & Hm & Hall).
      destruct (Hd kd) as (kp & Hkp & Hst); [rewrite Hl; set_solver|].
      unfold wp. rewrite (loadKey_ok params secret _ kd kp); [|done..|by apply Hk|done].
      exists (<[kd_Address kd := kp]> m). split; [done|]. split.
      + apply insert_subseteq_l; done.
      + intros a. rewrite fmap_app. intros [Hin|Hin]%elem_of_app.
        * destruct (decide (a = kd_Address kd)) as [->|]; [rewrite lookup_insert_eq; eauto|].
          rewrite lookup_insert_ne by done. by apply Hall.
        * apply list_elem_of_singleton in Hin as ->. rewrite lookup_insert_eq. eauto.
    - exists ∅. split; [destruct w; simpl in *; by subst|]. split; [apply map_empty_subseteq|].
      simpl. intros a Hin. by apply not_elem_of_nil in Hin. }
  unfold wp in H. destruct (forM (Keys wd) loadKey w) as [[[]|e] w']; [|done].
  destruct H as (m & -> & Hm & Hall). f_equal. f_equal. assert (m = ks) as ->; [|done].
  apply map_eq. intros a. destruct (ks !! a) as [kp|] eqn:Ek.
  - destruct (Hall a) as [kp' Hm']; [apply Ha; eauto|]. rewrite Hm'. by rewrite <-Ek, (lookup_weaken _ _ _ _ Hm' Hm).
  - eapply lookup_weaken_None; eauto.
Qed.

(** ** Writing keys *)

Lemma encodePrivateKey_ok secret kp (s : World) : open_with secret (wallet s) ->
  wp (encodePrivateKey kp) (fun h s' => s' = mkWorld (wallet s) (file s) (entropy s') /\
      stored_key secret h = Ok (priv_Serialize (PrivateKey kp)) /\ Forall (fun c => Z_of_byte c < 128) h)
    (fun _ s' => s' = mkWorld (wallet s) (file s) (entropy s')) s.
Proof.
  intros [He Hp]. unfold encodePrivateKey, get_wallet. autorewrite with wp. rewrite He. destruct secret as [pw|].
  - destruct Hp as [Hn Hu]. rewrite bool_decide_true by done. simpl. rewrite Hu.
    rewrite bool_decide_false by (by destruct pw). unfold on_rng. autorewrite with wp. unfold wp.
    destruct (encrypt (priv_Serialize (PrivateKey kp)) pw (entropy s)) as [[d|e] g] eqn:E; [|done].
    split; [done|]. split; [|apply encodeEncryptedData_ascii]. unfold stored_key. rewrite decode_encode_Encrypted.
    cbv [mbind res_bind]. by eapply decrypt_encrypt.
  - rewrite bool_decide_false by (by intros []). simpl. autorewrite with wp. split; [by destruct s|].
    split; [apply hex_roundtrip|]. apply hex_ascii.
Qed.

(** Nothing but the source of randomness has moved. *)
Definition same_but_entropy (s s' : World) : Prop := wallet s' = wallet s /\ file s' = file s.

Definition encoded (secret : option bytes) (p : bytes * KeyPair) (kd : keyData) : Prop :=
  kd_Address kd = p.1 /\ stored_key secret (PrivateKeyHex kd) = Ok (priv_Serialize (PrivateKey p.2)) /\
  Forall (fun c => Z_of_byte c < 128) (PrivateKeyHex kd).

Lemma encodeKeys_ok secret l (s : World) : open_with secret (wallet s) ->
  wp (encodeKeys l) (fun kds s' => same_but_entropy s s' /\ Forall2 (encoded secret) l kds)
    (fun _ s' => same_but_entropy s s') s.
Proof.
  revert s; induction l as [|[addr kp] l IH]; intros s Ho; cbn [encodeKeys]; autorewrite with wp.
  { by split; [split|constructor]. }
  eapply wp_mono; [by apply (encodePrivateKey_ok secret)|..]; simpl; [|by intros e s' ->].
  intros h s1 (-> & Hh & Ha). autorewrite with wp. eapply wp_mono; [by apply IH|..]; simpl.
  - intros kds s2 [[] HF]. autorewrite with wp. split; [done|]. by constructor.
  - by intros e s2 [].
Qed.

(** What [save] writes. *)
Definition saved_data (w : Wallet) (kds : list keyData) : walletData := {|
  Version := 2; Encrypted := encrypted w;
  PasswordHash := if encrypted w then hex_EncodeToString (passwordHash w) else [];
  PasswordSalt := if encrypted w then hex_EncodeToString (passwordSalt w) else [];
  PasswordHashVersion := if encrypted w then passwordHashVersion w else 0;
  Keys := merge_sort key_order kds |}.

Lemma Forall2_elem {A B} (P : A -> B -> Prop) l k y : Forall2 P l k -> y ∈ k -> exists x, x ∈ l /\ P x y.
Proof.
  intros HF (i & Hi)%list_elem_of_lookup. destruct (Forall2_lookup_r _ _ _ _ _ HF Hi) as (x & Hx & HP).
  exists x. split; [by eapply list_elem_of_lookup_2|done].
Qed.

Lemma saved_ok params secret (w : Wallet) kds :
  open_with secret w -> map_Forall (key_ok params) (keys w) -> (encrypted w = true -> is_int64 (passwordHashVersion w)) ->
  Forall2 (encoded secret) (range (keys w)) kds ->
  json_fits (saved_data w kds) /\ data_ok params (mkVault secret true (keys w)) w (saved_data w kds).
Proof.
  intros [He _] Hk Hv HF.
  assert (forall kd, kd ∈ merge_sort key_order kds -> exists kp, keys w !! kd_Address kd = Some kp /\ encoded secret (kd_Address kd, kp) kd) as Hkd.
  { intros kd Hin. rewrite merge_sort_Permutation in Hin. destruct (Forall2_elem _ _ _ _ HF Hin) as ([a kp] & Hin' & E).
    exists kp. pose proof E as (Ea & _). simpl in Ea. subst a. split; [|done].
    rewrite range_perm in Hin'. by apply elem_of_map_to_list. }
  split.
  - unfold saved_data, json_fits. cbn [PasswordHash PasswordSalt Version PasswordHashVersion Keys]. split_and!.
    + destruct (encrypted w); [apply hex_ascii|constructor].
    + destruct (encrypted w); [apply hex_ascii|constructor].
    + unfold is_int64. lia.
    + destruct (encrypted w); [by apply Hv|unfold is_int64; lia].
    + apply Forall_forall. intros kd Hin. destruct (Hkd kd Hin) as (kp & Hkp & _ & _ & Ha).
      split; [done|]. destruct (Hk _ _ Hkp) as [_ _ ->]. apply EncodeAddress_ascii.
  - split; [done|done| |]; cbn [v_secret v_known saved_data PasswordHash PasswordSalt PasswordHashVersion Keys].
    + split.
      * intros kd Hin. destruct (Hkd kd Hin) as (kp & Hkp & _ & Hs & _). eauto.
      * intros a [kp Hkp]. apply elem_of_map_to_list in Hkp. rewrite <-range_perm in Hkp.
        apply list_elem_of_lookup in Hkp as (i & Hi). destruct (Forall2_lookup_l _ _ _ _ _ HF Hi) as (kd & Hkd' & Ea & _).
        apply list_elem_of_fmap. exists kd. split; [done|]. rewrite merge_sort_Permutation. by eapply list_elem_of_lookup_2.
    + intros ->. done.
Qed.

(** [save] puts the keys into the file or, on an error, leaves the file alone. *)
Lemma save_ok params secret (s : World) :
  open_with secret (wallet s) -> map_Forall (key_ok params) (keys (wallet s)) ->
  (encrypted (wallet s) = true -> is_int64 (passwordHashVersion (wallet s))) ->
  wp save (fun _ s' => wallet s' = wallet s /\ exists data wd, ReadFile (file s') = Ok data /\ Unmarshal data = Ok wd /\
      data_ok params (mkVault secret true (keys (wallet s))) (wallet s) wd)
    (fun _ s' => wallet s' = wallet s /\ ReadFile (file s') = ReadFile (file s)) s.
Proof.
  intros Ho Hk Hv. unfold save, get_wallet. autorewrite with wp.
  eapply wp_mono; [by apply (encodeKeys_ok secret)|..]; simpl; [|by intros e s' [-> ->]].
  intros kds s1 [[E1 E2] HF]. autorewrite with wp.
  destruct (saved_ok params secret (wallet s) kds Ho Hk Hv HF) as [Hf Hd]. unfold saved_data in Hf, Hd.
  destruct (Unmarshal_Marshal _ Hf) as (data & Em & Eu). rewrite Em. simpl.
  unfold on_disk. autorewrite with wp. unfold wp.
  destruct (MkdirAll (file s1)) as [[[]|e] d1] eqn:Ed; pose proof (ReadFile_MkdirAll _ _ _ Ed) as Er; simpl; [|by rewrite Er, E2].
  destruct (WriteFile_ok data d1) as (d2 & Ew). unfold wrapM, zoom. cbn [file]. rewrite Ew. simpl. split; [done|].
  exists data, (saved_data (wallet s) kds). rewrite (ReadFile_WriteFile _ _ _ Ew). done.
Qed.

(** ** The abstract steps *)

Inductive op := OpGenerate | OpEncrypt (password : bytes) | OpLock | OpUnlock (password : bytes) | OpRestart.

(** The address of a new key is the only result. *)
Definition run (params : Params) (o : op) : M World (option bytes) :=
  match o with
  | OpGenerate => addr ← GenerateKey; mret (Some addr)
  | OpEncrypt password => EncryptWallet password;; mret None
  | OpLock => Lock;; mret None
  | OpUnlock password => Unlock password;; mret None
  | OpRestart => NewWallet params;; mret None
  end.

Inductive vault_step (params : Params) : op -> vault -> res (option bytes) -> vault -> Prop :=
  | vs_generate v addr kp : v_open v = true -> key_ok params addr kp -> v_known v !! addr = None ->
      vault_step params OpGenerate v (Ok (Some addr)) (mkVault (v_secret v) true (<[addr := kp]> (v_known v)))
  | vs_generate_fails v e : vault_step params OpGenerate v (Err e) v
  | vs_encrypt v password : v_secret v = None -> validatePassword password = Ok tt ->
      vault_step params (OpEncrypt password) v (Ok None) (mkVault (Some password) true (v_known v))
  | vs_encrypt_fails v password e : vault_step params (OpEncrypt password) v (Err e) v
  | vs_lock v : v_secret v <> None -> v_open v = true ->
      vault_step params OpLock v (Ok None) (mkVault (v_secret v) false (v_known v))
  | vs_lock_fails v e : v_secret v = None \/ v_open v = false -> vault_step params OpLock v (Err e) v
  | vs_unlock v password : v_secret v = Some password -> v_open v = false ->
      vault_step params (OpUnlock password) v (Ok None) (mkVault (v_secret v) true (v_known v))
  | vs_unlock_fails v password e : v_secret v <> Some password \/ v_open v = true ->
      vault_step params (OpUnlock password) v (Err e) v
  | vs_restart v : vault_step params OpRestart v (Ok None)
      (mkVault (v_secret v) (bool_decide (v_secret v = None)) (v_known v)).

(** A new key has an address of its own, and no other password has the hash of the
    right one. *)
Definition admissible (params : Params) (o : op) (v : vault) (s : World) : Prop :=
  match o with
  | OpGenerate => forall k g a, NewPrivateKey (entropy s) = (Ok k, g) ->
      NewAddressPubKeyHash (Hash160 (SerializeCompressed (PubKey k))) params = Ok a -> v_known v !! EncodeAddress a = None
  | OpUnlock password => forall q, v_secret v = Some q ->
      hashPasswordWithVersion password (passwordSalt (wallet s)) (passwordHashVersion (wallet s)) = Ok (passwordHash (wallet s)) ->
      password = q
  | _ => True
  end.

Lemma represents_open_with params v s : represents params v s -> v_open v = true -> open_with (v_secret v) (wallet s).
Proof.
  intros [] Ho. split; [done|]. destruct (v_secret v) as [pw|] eqn:E; [|done].
  destruct (r_secret0 pw eq_refl) as (? & _ & _ & Hu). rewrite Ho in Hu. done.
Qed.

(** A locked wallet refuses to save a key. *)
Lemma save_locked (s : World) : encrypted (wallet s) = true -> unlockPassword (wallet s) = [] -> keys (wallet s) <> ∅ ->
  wp save (fun _ _ => False) (fun _ s' => s' = s) s.
Proof.
  intros He Hu Hk. unfold save, get_wallet. autorewrite with wp.
  destruct (range (keys (wallet s))) as [|[a kp] l] eqn:E.
  { exfalso. apply Hk, map_to_list_empty_iff, Permutation_nil_r. by rewrite <-range_perm, E. }
  cbn [encodeKeys]. autorewrite with wp. unfold encodePrivateKey, get_wallet. autorewrite with wp. rewrite He, Hu.
  cbn [negb]. rewrite bool_decide_true by done. by autorewrite with wp.
Qed.

Lemma represents_ext params v s s' : wallet s' = wallet s -> ReadFile (file s') = ReadFile (file s) ->
  represents params v s -> represents params v s'.
Proof. intros Ew Er []. split; rewrite ?Ew, ?Er; done. Qed.

Lemma represents_version params v s : represents params v s -> encrypted (wallet s) = true ->
  is_int64 (passwordHashVersion (wallet s)).
Proof.
  intros [] He. rewrite r_encrypted0, bool_decide_eq_true in He. destruct He as [pw Hs].
  destruct (r_secret0 pw Hs) as (_ & Hv & _). rewrite !elem_of_cons, elem_of_nil in Hv. unfold is_int64. lia.
Qed.

Definition simulated (params : Params) (o : op) (v : vault) (s : World) : Prop :=
  wp (run params o) (fun r s' => exists v', vault_step params o v (Ok r) v' /\ represents params v' s')
    (fun e s' => exists v', vault_step params o v (Err e) v' /\ represents params v' s') s.

(** The wallet with one more key, saved or not. *)
Lemma represents_add params v s addr kp s' wd data : represents params v s -> v_open v = true ->
  key_ok params addr kp -> v_known v !! addr = None ->
  wallet s' = set_keys <[addr := kp]> (wallet s) -> ReadFile (file s') = Ok data -> Unmarshal data = Ok wd ->
  data_ok params (mkVault (v_secret v) true (<[addr := kp]> (v_known v))) (wallet s') wd ->
  represents params (mkVault (v_secret v) true (<[addr := kp]> (v_known v))) s'.
Proof.
  intros [] Ho Hk Hn Ew Er Eu Hd. split; cbn [v_secret v_open v_known]; rewrite ?Ew; cbn [set_keys chainParams keys encrypted
    locked unlockPassword passwordHash passwordSalt passwordHashVersion]; rewrite ?Ho in *; try done.
  - by apply map_Forall_insert_2.
  - by rewrite r_keys0.
  - right. rewrite Ew in Hd. eauto.
Qed.

Lemma generate_simulated params v s : represents params v s -> admissible params OpGenerate v s ->
  simulated params OpGenerate v s.
Proof.
  intros Hr Ha. unfold simulated, run, GenerateKey, on_rng, get_wallet. autorewrite with wp. unfold wp at 1.
  destruct (NewPrivateKey (entropy s)) as [[k|e] g] eqn:En.
  2:{ exists v. split; [constructor|]. by eapply represents_ext; [..|exact Hr]. }
  autorewrite with wp. cbn [wallet]. rewrite (r_params _ _ _ Hr).
  destruct (NewAddressPubKeyHash_ok (Hash160 (SerializeCompressed (PubKey k))) params (Hash160_len _)) as [a Ea].
  rewrite Ea. cbn [wrap_err]. pose proof (Ha k g a En Ea) as Hn.
  unfold set_wallet, on_wallet. autorewrite with wp. cbn [wallet file entropy].
  set (kp := mkKeyPair k (PubKey k) a). assert (key_ok params (EncodeAddress a) kp) as Hk by done.
  set (s1 := mkWorld (set_keys <[EncodeAddress a := kp]> (wallet s)) (file s) g).
  assert (forall s2, wallet s2 = wallet s1 -> ReadFile (file s2) = ReadFile (file s1) ->
    represents params v (mkWorld (set_keys (delete (EncodeAddress a)) (wallet s2)) (file s2) (entropy s2))) as Hundo.
  { intros s2 Ew Er. eapply (represents_ext params v s); [|exact Er|exact Hr].
    cbn [wallet]. rewrite Ew. unfold s1. cbn [wallet]. rewrite set_keys_set_keys. destruct Hr as []. destruct (wallet s). simpl in *.
    unfold set_keys. simpl. f_equal. apply delete_insert_id. rewrite r_keys0. by destruct (v_open v). }
  destruct (v_open v) eqn:Ho.
  - eapply wp_mono; [apply (save_ok params (v_secret v))|..].
    + apply (represents_open_with params) in Hr; done.
    + cbn [s1 wallet set_keys keys]. rewrite (r_keys _ _ _ Hr), Ho. by apply map_Forall_insert_2, (r_known _ _ _ Hr).
    + exact (represents_version _ _ _ Hr).
    + intros _ s2 (Ew & data & wd & Er & Eu & Hd). autorewrite with wp. eexists. split; [by apply (vs_generate params v _ kp)|].
      eapply represents_add; [exact Hr|done..| |exact Er|exact Eu|].
      * done.
      * rewrite Ew. cbn [s1 wallet set_keys keys] in Hd. by rewrite (r_keys _ _ _ Hr), Ho in Hd.
    + intros e s2 [Ew Er]. autorewrite with wp. exists v. split; [constructor|by apply Hundo].
  - eapply wp_mono; [apply save_locked|..].
    + cbn [s1 wallet set_keys encrypted]. rewrite (r_encrypted _ _ _ Hr). apply bool_decide_eq_true.
      destruct (v_secret v) eqn:E; [eauto|]. destruct (r_plain _ _ _ Hr E). congruence.
    + cbn [s1 wallet set_keys unlockPassword]. destruct (v_secret v) as [pw|] eqn:E.
      * destruct (r_secret _ _ _ Hr pw E) as (_ & _ & _ & ->). by rewrite Ho.
      * by destruct (r_plain _ _ _ Hr E).
    + apply insert_non_empty.
    + done.
    + intros e s2 ->. autorewrite with wp. exists v. split; [constructor|by apply Hundo].
Qed.

Lemma validatePassword_some password : validatePassword password = Ok tt -> password <> [].
Proof. by intros H ->. Qed.

Lemma encrypt_simulated params v s password : represents params v s -> simulated params (OpEncrypt password) v s.
Proof.
  intros Hr. unfold simulated, run, EncryptWallet, get_wallet. autorewrite with wp.
  destruct (encrypted (wallet s)) eqn:He; autorewrite with wp; [exists v; by split; [constructor|]|].
  assert (v_secret v = None) as Hn.
  { rewrite (r_encrypted _ _ _ Hr) in He. apply bool_decide_eq_false in He. destruct (v_secret v); [|done]. by destruct He. }
  destruct (r_plain _ _ _ Hr Hn) as [Ho Hu].
  destruct (validatePassword password) as [[]|e] eqn:Hp; cbn [wrap_err]; [|exists v; by split; [constructor|]].
  pose proof (validatePassword_some _ Hp) as Hpw.
  unfold generatePasswordSalt, on_rng. autorewrite with wp. unfold wp at 1.
  destruct (rand_Read 32 (entropy s)) as [[salt|e] g]; [|exists v; split; [constructor|]; by eapply represents_ext; [..|exact Hr]].
  unfold set_wallet, on_wallet. autorewrite with wp.
  destruct (hashPasswordWithVersion_ok password salt currentPasswordHashVersion) as (h & Eh & _); [unfold currentPasswordHashVersion; set_solver|].
  unfold hashPassword. rewrite Eh. autorewrite with wp. cbn [wallet file entropy].
  set (w1 := set_hash _ _ _ _).
  eapply wp_mono; [apply (save_ok params (Some password))|..]; cbn [wallet].
  - by split.
  - unfold w1. cbn [set_hash set_unlockPassword set_state keys]. rewrite (r_keys _ _ _ Hr), Ho. apply (r_known _ _ _ Hr).
  - intros _. unfold is_int64, w1. cbn. unfold currentPasswordHashVersion. lia.
  - intros _ s2 (Ew & data & wd & Er & Eu & Hd). autorewrite with wp. eexists. split; [by constructor|].
    split; cbn [v_secret v_open v_known]; rewrite ?Ew; try done.
    + apply (r_params _ _ _ Hr).
    + apply (r_known _ _ _ Hr).
    + unfold w1. cbn [set_hash set_unlockPassword set_state keys]. by rewrite (r_keys _ _ _ Hr), Ho.
    + intros pw [= <-]. split_and!; [done|unfold w1; cbn; unfold currentPasswordHashVersion; set_solver|exact Eh|done].
    + right. exists data, wd. split_and!; [done|done|]. unfold w1 in Hd at 1. cbn [set_hash set_unlockPassword set_state keys] in Hd.
      by rewrite (r_keys _ _ _ Hr), Ho in Hd.
  - intros e s2 [Ew Er]. autorewrite with wp. exists v. split; [constructor|]. destruct Hr as [].
    assert (map_Forall (key_ok params) (v_known v)) by done.
    split; cbn [wallet]; rewrite ?Ew; unfold w1; cbn [set_hash set_unlockPassword set_state keys chainParams encrypted locked
      unlockPassword passwordHash passwordSalt passwordHashVersion]; rewrite ?Hn, ?Ho in *; try done.
    cbn [file]. cbn [file] in Er. rewrite Er. destruct r_file0 as [?|(data & wd & ? & ? & [])]; [by left|right].
    exists data, wd. split_and!; [done..|]. split; cbn; [done|congruence|congruence|done].
Qed.

Lemma lock_simulated params v s : represents params v s -> simulated params OpLock v s.
Proof.
  intros Hr. unfold simulated, run, Lock, get_wallet. autorewrite with wp. rewrite (r_encrypted _ _ _ Hr), (r_locked _ _ _ Hr).
  destruct (v_secret v) as [pw|] eqn:Es.
  2:{ rewrite bool_decide_false by (by intros []). cbn [negb]. autorewrite with wp. exists v. split; [|done]. constructor. by left. }
  rewrite bool_decide_true by done. cbn [negb].
  destruct (v_open v) eqn:Ho; cbn [negb]; [|autorewrite with wp; exists v; split; [constructor; by right|done]].
  unfold set_wallet, on_wallet. autorewrite with wp. eexists. split; [by apply vs_lock; rewrite ?Es|].
  destruct Hr as []. split; cbn [v_secret v_open v_known wallet set_state set_unlockPassword set_keys chainParams keys encrypted
    locked unlockPassword passwordHash passwordSalt passwordHashVersion file]; rewrite ?Es in *; try done.
  - intros q Hq. destruct (r_secret0 q Hq) as (? & ? & ? & _). done.
  - destruct r_file0 as [?|(data & wd & ? & ? & [])]; [by left|right]. exists data, wd. split_and!; [done..|]. split; cbn; try done.
    by rewrite Es in d_keys0.
Qed.

Lemma unlock_simulated params v s password : represents params v s -> admissible params (OpUnlock password) v s ->
  simulated params (OpUnlock password) v s.
Proof.
  intros Hr Ha. unfold simulated, run, Unlock. autorewrite with wp. rewrite (r_encrypted _ _ _ Hr), (r_locked _ _ _ Hr).
  destruct (v_secret v) as [pw|] eqn:Es.
  2:{ rewrite bool_decide_false by (by intros []). cbn [negb]. autorewrite with wp. exists v. split; [|done].
      constructor. left. congruence. }
  rewrite bool_decide_true by done. cbn [negb].
  destruct (v_open v) eqn:Ho; cbn [negb]; [autorewrite with wp; exists v; split; [constructor; by right|done]|].
  destruct (r_secret _ _ _ Hr pw Es) as (Hpw & Hv & Hh & Hu). autorewrite with wp.
  destruct (hashPasswordWithVersion_ok password (passwordSalt (wallet s)) (passwordHashVersion (wallet s))) as (h & Eh & _); [set_solver|].
  rewrite Eh. cbn [wrap_err]. case_bool_decide as Hne; autorewrite with wp.
  { exists v. split; [|done]. constructor. left. rewrite Es. intros [= ->]. congruence. }
  subst h. assert (password = pw) as -> by (by apply Ha).
  destruct (r_file _ _ _ Hr) as [(_ & _ & ?)|(data & wd & Er & Eu & Hd)]; [congruence|]. rewrite Er. cbn [wrap_err].
  autorewrite with wp. rewrite Eu. cbn [wrap_err]. unfold set_wallet, on_wallet. autorewrite with wp. cbn [wallet].
  unfold wp. rewrite (loadKeys_ok params (Some pw) _ wd (v_known v)).
  - cbn [wallet file entropy]. unfold mbind, M_bind, zoom, modify, mret, M_ret. cbn [wallet file entropy].
    eexists. split; [by apply vs_unlock|]. destruct Hr as [], Hd as [].
    split; cbn [v_secret v_open v_known wallet set_state set_unlockPassword set_keys chainParams keys encrypted
      locked unlockPassword passwordHash passwordSalt passwordHashVersion file]; rewrite ?Es in *; try done.
    + intros q [= <-]. done.
    + right. exists data, wd. split_and!; [done..|]. split; cbn; done.
  - apply (r_params _ _ _ Hr).
  - split; [|done]. cbn. by rewrite (r_encrypted _ _ _ Hr), Es.
  - apply (r_known _ _ _ Hr).
  - rewrite <-Es. apply Hd.
  - cbn. by rewrite (r_keys _ _ _ Hr), Ho.
Qed.

(** The wallet read back from the file. *)
Lemma load_ok params v s data wd : represents params v s -> ReadFile (file s) = Ok data -> Unmarshal data = Ok wd ->
  data_ok params v (wallet s) wd ->
  wp load (fun _ s' => represents params (mkVault (v_secret v) (bool_decide (v_secret v = None)) (v_known v)) s')
    (fun _ _ => False) (mkWorld (empty_wallet params) (file s) (entropy s)).
Proof.
  intros Hr Er Eu Hd. unfold load. autorewrite with wp. cbn [file]. rewrite Er. autorewrite with wp. rewrite Eu. cbn [wrap_err].
  unfold normalizeWalletVersion. rewrite (d_version _ _ _ _ Hd). cbn [Z.eqb]. unfold applyEncryptionState, on_wallet, get_wallet.
  autorewrite with wp. cbn [wallet]. pose proof (d_encrypted _ _ _ _ Hd) as He. pose proof (r_encrypted _ _ _ Hr) as Hs.
  destruct (v_secret v) as [pw|] eqn:Es.
  - rewrite (bool_decide_true (is_Some _)) in Hs by done. rewrite Hs in He. rewrite He. cbn [negb].
    destruct (d_hash _ _ _ _ Hd Hs) as (E1 & E2 & E3). destruct (r_secret _ _ _ Hr pw Es) as (Hpw & Hv & Hh & Hu).
    autorewrite with wp. rewrite E1, E2, !hex_roundtrip. cbn [wrap_err]. autorewrite with wp. cbn [wallet set_hash set_state encrypted].
    cbn [negb]. autorewrite with wp. rewrite E3. rewrite (proj2 (Z.eqb_neq _ 0)) by (rewrite !elem_of_cons, elem_of_nil in Hv; lia).
    split; cbn; try done; try apply Hr.
    + intros q [= <-]. done.
    + right. exists data, wd. split_and!; [done..|]. split; cbn; try done; try congruence.
      * apply Hd.
      * rewrite <-Es. apply Hd.
  - rewrite (bool_decide_false (is_Some _)) in Hs by (by intros []). rewrite Hs in He. rewrite He. cbn [negb].
    autorewrite with wp. cbn [wallet set_hash set_state encrypted]. rewrite ?He. cbn [negb]. autorewrite with wp. unfold wp.
    rewrite (loadKeys_ok params None _ wd (v_known v)); [| done | by split | apply Hr | rewrite <-Es; apply Hd | done].
    split; cbn; try done; try apply Hr. right. exists data, wd. split_and!; [done..|]. split; cbn; try done.
    + apply Hd.
    + rewrite <-Es. apply Hd.
Qed.

Lemma restart_simulated params v s : represents params v s -> simulated params OpRestart v s.
Proof.
  intros Hr. unfold simulated, run, NewWallet, set_wallet, on_wallet. autorewrite with wp. cbn [wallet file entropy].
  destruct (r_file _ _ _ Hr) as [(Er & Hk & Hn)|(data & wd & Er & Eu & Hd)].
  - unfold load. autorewrite with wp. cbn [file]. rewrite Er. cbn [IsNotExist ErrNotExist]. rewrite bool_decide_true by done.
    cbn [negb]. autorewrite with wp. eexists. split; [constructor|]. rewrite Hn, Hk, bool_decide_true by done.
    split; cbn; try done. by left.
  - eapply wp_mono; [by apply (load_ok params v s data wd)|..]; [|done]. intros [] s' H'. autorewrite with wp.
    eexists. split; [constructor|]. done.
Qed.

Lemma simulates params o v s : represents params v s -> admissible params o v s -> simulated params o v s.
Proof.
  intros Hr Ha. destruct o; auto using generate_simulated, encrypt_simulated, lock_simulated, unlock_simulated, restart_simulated.
Qed.

Lemma represents_start params d g : ReadFile d = Err ErrNotExist ->
  represents params (mkVault None true ∅) (mkWorld (empty_wallet params) d g).
Proof. intros Hd. split; cbn; try done. by left. Qed.

Lemma step_result params v s o r s' : represents params v s -> admissible params o v s -> run params o s = (r, s') ->
  exists v', vault_step params o v r v' /\ represents params v' s'.
Proof.
  intros Hr Ha E. pose proof (simulates params o v s Hr Ha) as H. unfold simulated, wp in H. rewrite E in H. by destruct r.
Qed.

(** The operations without a result, run on their own. *)
Definition unit_op (params : Params) (o : op) : M World unit :=
  match o with
  | OpGenerate => GenerateKey;; mret tt
  | OpEncrypt password => EncryptWallet password
  | OpLock => Lock
  | OpUnlock password => Unlock password
  | OpRestart => NewWallet params
  end.

Lemma step_unit params v s o r s' : o <> OpGenerate -> represents params v s -> admissible params o v s ->
  unit_op params o s = (r, s') ->
  exists v', vault_step params o v (match r with Ok _ => Ok None | Err e => Err e end) v' /\ represents params v' s'.
Proof.
  intros Hn Hr Ha E. apply (step_result params v s o); [done..|]. unfold run, unit_op in *.
  destruct o; try done; unfold mbind, M_bind; rewrite E; by destruct r.
Qed.

(** What the operations must do from a wallet in a known state. *)
Lemma must_lock params v s pw : represents params v s -> v_secret v = Some pw -> v_open v = true ->
  exists s', Lock s = (Ok tt, s') /\ represents params (mkVault (Some pw) false (v_known v)) s'.
Proof.
  intros Hr Hs Ho. destruct (Lock s) as [r s'] eqn:E.
  destruct (step_unit params v s OpLock r s' ltac:(done) Hr I E) as (v' & St & Hr'). inversion St; subst.
  - destruct r as [[]|]; [|done]. exists s'. by rewrite <-Hs.
  - destruct_or?; congruence.
Qed.

Lemma must_unlock params v s pw : represents params v s -> v_secret v = Some pw -> v_open v = false ->
  exists s', Unlock pw s = (Ok tt, s') /\ represents params (mkVault (Some pw) true (v_known v)) s'.
Proof.
  intros Hr Hs Ho. destruct (Unlock pw s) as [r s'] eqn:E.
  destruct (step_unit params v s (OpUnlock pw) r s' ltac:(done) Hr ltac:(simpl; congruence) E) as (v' & St & Hr').
  inversion St; subst.
  - destruct r as [[]|]; [|done]. exists s'. by rewrite <-Hs.
  - destruct_or?; congruence.
Qed.

Lemma must_restart params v s : represents params v s ->
  exists s', NewWallet params s = (Ok tt, s') /\
    represents params (mkVault (v_secret v) (bool_decide (v_secret v = None)) (v_known v)) s'.
Proof.
  intros Hr. destruct (NewWallet params s) as [r s'] eqn:E.
  destruct (step_unit params v s OpRestart r s' ltac:(done) Hr I E) as (v' & St & Hr'). inversion St; subst.
  destruct r as [[]|]; [|done]. by exists s'.
Qed.

(** A password of another hash. *)
Lemma refuse_unlock params v s pw other : represents params v s -> v_secret v = Some pw -> v_open v = false ->
  hashPasswordWithVersion other (passwordSalt (wallet s)) (passwordHashVersion (wallet s)) <> Ok (passwordHash (wallet s)) ->
  exists e, Unlock other s = (Err e, s).
Proof.
  intros Hr Hs Ho Hh. unfold Unlock, mbind, M_bind, get, lift, fail.
  rewrite (r_encrypted _ _ _ Hr), (r_locked _ _ _ Hr), Hs, Ho, bool_decide_true by done. cbn [negb].
  destruct (hashPasswordWithVersion other _ _) as [h|e] eqn:E; cbn [wrap_err]; [|eauto].
  rewrite bool_decide_true by congruence. eauto.
Qed.

(** Reading stops at a stored key that cannot be read, after the keys before it. *)
Lemma forM_app_ok {A} (f : A -> M Wallet unit) l1 l2 w w' : forM l1 f w = (Ok tt, w') -> forM (l1 ++ l2) f w = forM l2 f w'.
Proof.
  revert w. induction l1 as [|x l1 IH]; intros w; cbn [forM app]; [by intros [= ->]|].
  unfold mbind, M_bind. destruct (f x w) as [[[]|e] w1]; [apply IH|done].
Qed.

Lemma loadKeys_fails params pw w wd good bad rest ks e : chainParams w = params -> open_with (Some pw) w ->
  map_Forall (key_ok params) ks -> holds (Some pw) good ks -> keys w = ∅ ->
  Keys wd = good ++ bad :: rest -> stored_key (Some pw) (PrivateKeyHex bad) = Err e ->
  exists e', loadKeys wd w = (Err e', set_keys (fun _ => ks) w).
Proof.
  intros Hp Ho Hk Hg He Ek Hb. unfold loadKeys. rewrite Ek.
  rewrite (forM_app_ok _ _ _ _ (set_keys (fun _ => ks) w))
    by exact (loadKeys_ok params (Some pw) w (mkWalletData 2 true [] [] 2 good) ks Hp Ho Hk Hg He).
  cbn [forM]. unfold mbind, M_bind at 1, loadKey, mbind, M_bind, get, lift. destruct Ho as [Hen [Hpw Hu]].
  unfold decodePrivateKey. cbn [set_keys encrypted unlockPassword]. rewrite Hen, Hu.
  rewrite !bool_decide_true by (try done; by destruct pw). cbn [andb]. unfold stored_key in Hb.
  destruct (decodeEncryptedData (PrivateKeyHex bad)) as [d|e1]; cbn [wrap_err]; [|eauto].
  cbv [mbind res_bind] in Hb |- *. rewrite Hb. cbn [wrap_err]. eauto.
Qed.

End spec.
