(* ===== verification/WalletTxSpec.v ===== *)
(** * What the transactions of the wallet are

    [built_tx]: the inputs are the given outputs, in order, the first output carries the
    name script, and what is left after the fee comes back as change unless it is dust.
    [signed_by]: every input is signed by the key of its address.  What that means for
    the fee checks of the chain is stated against ChainSpec.v. *)

From S2P Require Import Prelude Config Script ScriptSpec Bolt Record NameDB NamesSpec UtxoSpec.
From S2P Require Import Wire Chain ChainSpec ChainNames Encryption Wallet WalletTx.

Definition wutxos_ok (utxos : list wUTXO) : Prop :=
  Forall (fun u => 0 <= wu_Value u) utxos /\ Zsum (wu_Value <$> utxos) <= MaxInt64.

(** The estimated sizes, as integers. *)
Definition update_size (n : nat) (script : bytes) : Z := 10 + Z.of_nat n * 148 + Z.of_nat (length script) + 68.
Definition name_size (n : nat) (script : bytes) : Z := 10 + Z.of_nat n * 148 + Z.of_nat (length script) + 34.

Lemma foldl_total acc utxos : 0 <= acc -> Forall (fun u => 0 <= wu_Value u) utxos ->
  acc + Zsum (wu_Value <$> utxos) <= MaxInt64 ->
  foldl (fun totalIn utxo => int64 (totalIn + wu_Value utxo)) acc utxos = acc + Zsum (wu_Value <$> utxos).
Proof.
  intros Ha HF. revert acc Ha. induction HF as [|u utxos Hu HF IH]; intros acc Ha Hs; cbn [foldl fmap list_fmap]; [unfold Zsum; simpl; lia|].
  rewrite fmap_cons, Zsum_cons in *. assert (0 <= Zsum (wu_Value <$> utxos)) by (by apply Zsum_nonneg, Forall_fmap).
  rewrite int64_id by (unfold_int; lia). rewrite IH by lia. lia.
Qed.

Lemma total_in_sum utxos : wutxos_ok utxos -> total_in utxos = Zsum (wu_Value <$> utxos).
Proof. intros [HF Hs]. unfold total_in. by rewrite foldl_total. Qed.

Section spec.
Context {K : Crypto} {L : KeyLib} {G : BtcLib} {S : TxScript}.

(** A transaction that spends [utxos], pays [fee] at least and returns [rest]. *)
Record built_tx (utxos : list wUTXO) (script : bytes) (fee : Z) (changeAddr : address) (tx : MsgTx) : Prop := {
  b_ins : PreviousOutPoint <$> TxIns tx = wu_outpoint <$> utxos;
  b_outs : let rest := Zsum (wu_Value <$> utxos) - 1000 - fee in
    0 <= rest /\
    if decide (rest < DustLimit) then TxOuts tx = [mkTxOut 1000 script]
    else exists s, PayToAddrScript changeAddr = Ok s /\ TxOuts tx = [mkTxOut 1000 script; mkTxOut rest s];
}.

(** The same transaction but for the signature scripts. *)
Definition same_skeleton (tx tx' : MsgTx) : Prop :=
  tx_Version tx = tx_Version tx' /\ LockTime tx = LockTime tx' /\ TxOuts tx = TxOuts tx' /\
  ((fun t => (PreviousOutPoint t, Sequence t)) <$> TxIns tx) = ((fun t => (PreviousOutPoint t, Sequence t)) <$> TxIns tx').

(** Every input carries the signature and the public key of its address's key pair, over
    the signature hash of the transaction. *)
Definition signed_by (w : Wallet) (utxos : list wUTXO) (tx : MsgTx) : Prop :=
  forall i u, utxos !! i = Some u -> exists kp t txi hash sigScript,
    keys w !! wu_Address u = Some kp /\ TxIns tx !! i = Some t /\ same_skeleton txi tx /\
    CalcSignatureHash (wu_PkScript u) SigHashAll txi i = Ok hash /\
    ScriptBuilder [ecdsa_Sign (PrivateKey kp) hash ++ [byte_of_Z SigHashAll]; SerializeCompressed (PublicKey kp)] = Ok sigScript /\
    SignatureScript t = sigScript.

Lemma same_skeleton_refl tx : same_skeleton tx tx.
Proof. done. Qed.
Lemma same_skeleton_trans a b c : same_skeleton a b -> same_skeleton b c -> same_skeleton a c.
Proof. unfold same_skeleton. intros (?&?&?&?) (?&?&?&?). split_and!; etrans; eauto. Qed.
Lemma same_skeleton_sym a b : same_skeleton a b -> same_skeleton b a.
Proof. unfold same_skeleton. intros (?&?&?&?). done. Qed.

Lemma set_SignatureScript_skeleton i s tx : same_skeleton tx (set_SignatureScript i s tx).
Proof.
  unfold same_skeleton, set_SignatureScript. cbn. split_and!; try done. apply list_eq. intros j.
  rewrite !list_lookup_fmap. destruct (decide (i = j)) as [->|Hn].
  - rewrite list_lookup_alter_eq. by destruct (TxIns tx !! j).
  - by rewrite list_lookup_alter_ne.
Qed.

Lemma built_skeleton utxos script fee a tx tx' : same_skeleton tx tx' -> built_tx utxos script fee a tx -> built_tx utxos script fee a tx'.
Proof.
  intros (_ & _ & Eo & Ei) [Hi Ho]. split; [|by rewrite <-Eo].
  rewrite <-Hi. apply (f_equal (fmap fst)) in Ei. rewrite <-!list_fmap_compose in Ei. symmetry. exact Ei.
Qed.

(** ** Signing *)

Lemma signFrom_ok w utxos i tx tx' : signFrom w i utxos tx = (Ok tt, tx') ->
  same_skeleton tx tx' /\ (forall j, (j < i)%nat -> TxIns tx' !! j = TxIns tx !! j) /\
  forall j u, utxos !! j = Some u -> exists kp t txi hash sigScript,
    keys w !! wu_Address u = Some kp /\ TxIns tx' !! (i + j)%nat = Some t /\ same_skeleton txi tx' /\
    CalcSignatureHash (wu_PkScript u) SigHashAll txi (i + j) = Ok hash /\
    ScriptBuilder [ecdsa_Sign (PrivateKey kp) hash ++ [byte_of_Z SigHashAll]; SerializeCompressed (PublicKey kp)] = Ok sigScript /\
    SignatureScript t = sigScript.
Proof.
  revert i tx. induction utxos as [|u utxos IH]; intros i tx; cbn [signFrom].
  { intros [= <-]. split; [done|]. split; [done|]. by intros j u. }
  unfold signInput, mbind, M_bind, get, lift, fail, modify. destruct (keys w !! wu_Address u) as [kp|] eqn:Ek; [|done].
  destruct (CalcSignatureHash (wu_PkScript u) SigHashAll tx i) as [hash|] eqn:Eh; cbn [wrap_err]; [|done].
  destruct (ScriptBuilder _) as [ss|] eqn:Es; cbn [wrap_err]; [|done].
  case_bool_decide as Hi; [done|]. intros H. destruct (IH _ _ H) as (Hs & Hb & Hf).
  assert (same_skeleton tx tx') as Hs' by (eapply same_skeleton_trans; [apply set_SignatureScript_skeleton|exact Hs]).
  split; [exact Hs'|]. split.
  - intros j Hj. rewrite Hb by lia. cbn. by rewrite list_lookup_alter_ne by lia.
  - intros [|j] u' Hu; cbn in Hu.
    + injection Hu as <-. rewrite Nat.add_0_r. destruct (lookup_lt_is_Some_2 (TxIns tx) i) as [t Ht]; [lia|].
      eexists kp, _, tx, hash, ss. split; [done|]. split; [rewrite Hb by lia; cbn; by rewrite list_lookup_alter_eq, Ht|].
      split_and!; done.
    + rewrite <-Nat.add_succ_comm. by apply Hf.
Qed.

Lemma signed_ok w utxos tx tx' : signed w utxos tx = Ok tx' -> same_skeleton tx tx' /\ signed_by w utxos tx'.
Proof.
  unfold signed, signTransactionInputs. destruct (signFrom w 0 utxos tx) as [[[]|e] t] eqn:E; [|done]. intros [= ->].
  destruct (signFrom_ok _ _ _ _ _ E) as (Hs & _ & Hf). split; [done|]. intros i u Hu. apply (Hf i u Hu).
Qed.

(** ** Building *)

Lemma base_ins utxos tx : PreviousOutPoint <$> TxIns (foldl (fun tx u => AddTxIn (wu_outpoint u) tx) tx utxos) =
  (PreviousOutPoint <$> TxIns tx) ++ (wu_outpoint <$> utxos) /\
  TxOuts (foldl (fun tx u => AddTxIn (wu_outpoint u) tx) tx utxos) = TxOuts tx.
Proof.
  revert tx. induction utxos as [|u utxos IH]; intros tx; cbn [foldl]; [by rewrite app_nil_r|].
  destruct (IH (AddTxIn (wu_outpoint u) tx)) as [-> ->]. split; [|done]. unfold AddTxIn. cbn [TxIns].
  by rewrite fmap_app, <-app_assoc.
Qed.

(** Both builders: an error exactly when the funds do not reach (or the change address
    has no script), and a built transaction otherwise. *)
Lemma build_cases utxos script fee a tx (rest := Zsum (wu_Value <$> utxos) - 1000 - fee) :
  (if rest <? 0 then Err (EMsg "insufficient funds: need %d, have %d")
   else
     let tx := buildNameTxBase utxos script 1000 in
     if rest >=? DustLimit then
       changeScript ← wrap_err "failed to create change script" (PayToAddrScript a);
       mret (AddTxOut (mkTxOut rest changeScript) tx)
     else mret tx) = Ok tx -> built_tx utxos script fee a tx.
Proof.
  destruct (Z.ltb_spec rest 0); [done|]. cbv zeta. unfold buildNameTxBase.
  pose proof (base_ins utxos (NewMsgTx TxVersion)) as [Ei Eo]. set (b := foldl _ _ _) in *. clearbody b.
  rewrite Z.geb_leb. destruct (Z.leb_spec DustLimit rest) as [Hd|Hd].
  - destruct (PayToAddrScript a) as [s|] eqn:Es; [|done]. cbn [wrap_err]. cbv [mbind res_bind mret res_ret]. intros <-%Ok_inj.
    split; [exact Ei|]. fold rest. split; [done|]. rewrite decide_False by lia. exists s. split; [done|]. cbn. by rewrite Eo.
  - intros <-%Ok_inj. split; [exact Ei|]. fold rest. split; [done|]. rewrite decide_True by done. cbn. by rewrite Eo.
Qed.

Definition fits (feeRate size : Z) : Prop := 0 <= feeRate /\ size <= MaxInt64 /\ feeRate * size <= MaxInt64 - 1000.

Lemma change_value total fee : 0 <= total <= MaxInt64 -> 0 <= fee <= MaxInt64 - 1000 ->
  int64 (int64 (total - 1000) - fee) = total - 1000 - fee.
Proof. intros. rewrite (int64_id (total - 1000)) by (unfold_int; lia). apply int64_id. unfold_int. lia. Qed.

Lemma buildNameUpdateTxUnsigned_built utxos script feeRate a tx : wutxos_ok utxos -> fits feeRate (update_size (length utxos) script) ->
  buildNameUpdateTxUnsigned utxos script feeRate a = Ok tx ->
  built_tx utxos script (feeRate * update_size (length utxos) script) a tx.
Proof.
  intros Hu (H0 & Hs & Hf) H. apply build_cases. rewrite <-H. unfold buildNameUpdateTxUnsigned, addChangeOutput.
  rewrite total_in_sum by done. destruct Hu as [Hv Ht].
  assert (0 <= Zsum (wu_Value <$> utxos)) by (by apply Zsum_nonneg, Forall_fmap).
  replace (10 + Z.of_nat (length utxos) * 148 + Z.of_nat (length script) + 34 + 34) with (update_size (length utxos) script)
    by (unfold update_size; lia).
  assert (0 < update_size (length utxos) script) by (unfold update_size; lia).
  assert (0 <= feeRate * update_size (length utxos) script) by nia.
  rewrite (int64_id (update_size _ _)), (int64_id (feeRate * _)), change_value by (unfold_int; lia). done.
Qed.

Lemma buildNameTransaction_built utxos script feeRate a burn tx : wutxos_ok utxos -> 0 <= burn <= MaxInt64 - 1000 ->
  fits feeRate (name_size (length utxos) script) ->
  buildNameTransaction utxos script 1000 feeRate a burn = Ok tx ->
  built_tx utxos script (Z.max burn (feeRate * name_size (length utxos) script)) a tx.
Proof.
  intros Hu Hb (H0 & Hs & Hf) H. apply build_cases. rewrite <-H. unfold buildNameTransaction, buildNameTxBase.
  rewrite total_in_sum by done. destruct Hu as [Hv Ht].
  assert (0 <= Zsum (wu_Value <$> utxos)) by (by apply Zsum_nonneg, Forall_fmap).
  fold (name_size (length utxos) script). assert (0 < name_size (length utxos) script) by (unfold name_size; lia).
  assert (0 <= feeRate * name_size (length utxos) script) by nia.
  rewrite (int64_id (name_size _ _)), (int64_id (feeRate * _)) by (unfold_int; lia).
  replace (if feeRate * name_size (length utxos) script <? burn then burn else feeRate * name_size (length utxos) script)
    with (Z.max burn (feeRate * name_size (length utxos) script)) by (destruct (Z.ltb_spec (feeRate * name_size (length utxos) script) burn); lia).
  rewrite change_value by (unfold_int; lia). done.
Qed.

(** ** What is paid *)

(** A built transaction pays its fee and less than the dust limit above it. *)
Lemma built_paid utxos script fee a tx : built_tx utxos script fee a tx ->
  fee <= Zsum (wu_Value <$> utxos) - outputs_sum tx < fee + DustLimit.
Proof.
  intros [_ [H0 Ho]]. revert H0 Ho. unfold outputs_sum. set (t := Zsum (wu_Value <$> utxos)). clearbody t. intros H0.
  destruct (decide (t - 1000 - fee < DustLimit)) as [Hd|Hd].
  - intros ->. unfold Zsum. simpl. unfold DustLimit in *. lia.
  - intros (s & _ & ->). unfold Zsum. simpl. unfold DustLimit in *. lia.
Qed.

Lemma built_outs_ok utxos script fee a tx : wutxos_ok utxos -> 0 <= fee -> built_tx utxos script fee a tx -> outs_ok tx.
Proof.
  intros [_ Ht] Hf [_ [H0 Ho]]. unfold outs_ok. revert Ho. destruct (decide _) as [Hd|Hd].
  - intros ->. repeat constructor; cbn; unfold_int; lia.
  - intros (s & _ & ->). repeat constructor; cbn; unfold_int; lia.
Qed.

(** ** The three operations *)

Lemma update_tx_built w name value utxos i rate dest tx : wutxos_ok utxos ->
  CreateNameUpdateTx w name value utxos i rate dest = Ok tx ->
  exists owner kp script, utxos !! Z.to_nat i = Some owner /\ keys w !! wu_Address owner = Some kp /\
    BuildNameUpdateScript name value
      (match dest with Some a => ScriptAddress a | None => Hash160 (SerializeCompressed (PublicKey kp)) end) = Ok script /\
    let size := update_size (length utxos) script in
    (fits rate size -> built_tx utxos script (rate * size) (kp_Address kp) tx) /\ signed_by w utxos tx.
Proof.
  intros Hu. unfold CreateNameUpdateTx. destruct (rate <? 0); [done|].
  destruct (index_ok i utxos); [|done]. destruct (utxos !! Z.to_nat i) as [owner|] eqn:Eo; [|done].
  destruct (keys w !! wu_Address owner) as [kp|] eqn:Ek; [|done].
  set (h := match dest with Some a => ScriptAddress a | None => Hash160 (SerializeCompressed (PublicKey kp)) end).
  assert (forall (r : res bytes) (k : bytes -> res MsgTx), (r = Ok h \/ exists e, r = Err e) -> r ≫= k = Ok tx -> k h = Ok tx) as Hc.
  { intros r k [->|[e ->]]; done. }
  intros H. apply Hc in H; clear Hc.
  2:{ unfold h. destruct dest as [a|]; [|by left]. destruct (is_AddressPubKeyHash a); [by left|right; eauto]. }
  destruct (BuildNameUpdateScript name value h) as [script|] eqn:Es; [|done]. cbn [wrap_err mbind res_bind] in H.
  destruct (buildNameUpdateTxUnsigned utxos script rate (kp_Address kp)) as [tx0|] eqn:Et; [|done]. cbn [mbind res_bind] in H.
  destruct (signed_ok _ _ _ _ H) as [Hs Hb]. exists owner, kp, script. split_and!; try done.
  intros Hf. eapply built_skeleton; [exact Hs|]. by apply buildNameUpdateTxUnsigned_built.
Qed.

Lemma new_tx_built w rand name utxos rate owner tx rand' : wutxos_ok utxos ->
  CreateNameNewTx w rand name utxos rate owner = Ok (tx, rand') ->
  rand' = rand /\ exists script, BuildNameNewScript (Hash160 (rand ++ name)) (ScriptAddress owner) = Ok script /\
    let size := name_size (length utxos) script in
    (fits rate size -> built_tx utxos script (rate * size) owner tx) /\ signed_by w utxos tx.
Proof.
  intros Hu. unfold CreateNameNewTx, ComputeNameNewHash. destruct (Z.ltb_spec rate 0); [done|].
  destruct (validateNameNewInputs name rand utxos); [|done]. cbn [mbind res_bind]. unfold extractPubKeyHash.
  destruct (is_AddressPubKeyHash owner); [|done]. cbn [mbind res_bind].
  destruct (BuildNameNewScript _ _) as [script|] eqn:Es; [|done]. cbn [wrap_err mbind res_bind].
  destruct (buildNameTransaction utxos script 1000 rate owner 0) as [tx0|] eqn:Et; [|done]. cbn [mbind res_bind].
  destruct (signed w utxos tx0) as [tx1|] eqn:Eg; [|done]. cbn [mbind res_bind mret res_ret]. intros [= -> ->].
  destruct (signed_ok _ _ _ _ Eg) as [Hs Hb]. split; [done|]. exists script. split_and!; try done.
  intros Hf. eapply built_skeleton; [exact Hs|]. apply (buildNameTransaction_built _ _ _ _ 0) in Et; [|done|unfold_int; lia|done].
  rewrite Z.max_r in Et; [done|]. unfold name_size. nia.
Qed.

Lemma first_update_tx_built w name randHex value utxos i rate owner tx : wutxos_ok utxos ->
  CreateNameFirstUpdateTx w name randHex value utxos i rate owner = Ok tx ->
  exists u kp script, utxos !! Z.to_nat i = Some u /\ keys w !! wu_Address u = Some kp /\
    BuildNameFirstUpdateScript name randHex value (ScriptAddress owner) = Ok script /\
    let size := name_size (length utxos) script in
    (fits rate size -> built_tx utxos script (Z.max MinNameOperationFee (rate * size)) (kp_Address kp) tx) /\ signed_by w utxos tx.
Proof.
  intros Hu. unfold CreateNameFirstUpdateTx. destruct (Z.ltb_spec rate 0); [done|].
  destruct (validateNameFirstUpdateInputs name randHex value utxos i); [|done]. cbn [mbind res_bind].
  destruct (utxos !! Z.to_nat i) as [u|] eqn:Eu; [|done]. cbn [option_res mbind res_bind].
  destruct (keys w !! wu_Address u) as [kp|] eqn:Ek; [|done]. cbn [option_res mbind res_bind]. unfold extractPubKeyHash.
  destruct (is_AddressPubKeyHash owner); [|done]. cbn [mbind res_bind].
  destruct (BuildNameFirstUpdateScript _ _ _ _) as [script|] eqn:Es; [|done]. cbn [wrap_err mbind res_bind].
  destruct (buildNameTransaction utxos script 1000 rate (kp_Address kp) MinNameOperationFee) as [tx0|] eqn:Et; [|done].
  cbn [mbind res_bind]. intros Eg. destruct (signed_ok _ _ _ _ Eg) as [Hs Hb]. exists u, kp, script. split_and!; try done.
  intros Hf. eapply built_skeleton; [exact Hs|]. apply (buildNameTransaction_built _ _ _ _ MinNameOperationFee) in Et; [done|done| |done].
  unfold MinNameOperationFee. unfold_int. lia.
Qed.

(** ** The length of the scripts *)

Lemma pushData_length d e : pushData d = Ok e -> blen d <= 65535 -> blen e <= blen d + 3.
Proof.
  unfold pushData, blen. intros H Hd. repeat (case_match; [apply Ok_inj in H as <-; simpl; lia|]). lia.
Qed.

Lemma pushData_length_20 d e : pushData d = Ok e -> blen d = 20 -> blen e = 21.
Proof. unfold pushData, blen. intros H Hd. rewrite Hd in H. cbn in H. apply Ok_inj in H as <-. simpl. lia. Qed.

Lemma update_script_length name value h script : BuildNameUpdateScript name value h = Ok script ->
  Z.of_nat (length script) <= 809.
Proof.
  unfold BuildNameUpdateScript, validateNameScriptParams, MaxValueLengthUI.
  destruct ((blen name =? 0) || (blen name >? 255)) eqn:En; [done|]. destruct (blen value >? 520) eqn:Ev; [done|].
  destruct (blen h =? 20) eqn:Eh; [|done]. cbn [negb mbind res_bind]. unfold buildNameScript.
  destruct (pushAll _) as [p|] eqn:Ep; [|done]. cbn [mbind res_bind mret res_ret]. intros <-%Ok_inj.
  apply pushAll_ok in Ep as (es & F & ->). inversion F as [|? e1 ? ? H1 F']; subst. inversion F' as [|? e2 ? ? H2 F'']; subst.
  inversion F''; subst. cbn [snd concat] in *. rewrite appendP2PKHScript_eq, !length_app, length_p2pkh by lia.
  pose proof (pushData_length _ _ H1). pose proof (pushData_length _ _ H2). unfold blen in *. simpl. lia.
Qed.

Lemma new_script_length hash h script : BuildNameNewScript hash h = Ok script -> Z.of_nat (length script) = 48.
Proof.
  unfold BuildNameNewScript. destruct (blen hash =? 20) eqn:Ex; [|done]. destruct (blen h =? 20) eqn:Eh; [|done].
  cbn [negb]. unfold buildNameScript. destruct (pushAll _) as [p|] eqn:Ep; [|done]. cbn [mbind res_bind mret res_ret]. intros <-%Ok_inj.
  apply pushAll_ok in Ep as (es & F & ->). inversion F as [|? e1 ? ? H1 F']; subst. inversion F'; subst.
  cbn [snd concat] in *. rewrite appendP2PKHScript_eq, !length_app, length_p2pkh by lia.
  pose proof (pushData_length_20 _ _ H1 ltac:(lia)). unfold blen in *. simpl. lia.
Qed.

End spec.

Section chain.
Context {B : Bolt} {BL : BoltLaws B} {K : Crypto} {L : KeyLib} {G : BtcLib} {S : TxScript}.

(** The database knows the outputs, with their values. *)
Definition known (n : NameDatabase) (utxos : list wUTXO) : Prop :=
  Forall (fun u => outpoint_ok (wu_TxHash u) (wu_Vout u) /\
    exists r, ndb_utxos n !! makeUTXOKey (wu_TxHash u) (wu_Vout u) = Some r /\ u_Value r = wu_Value u) utxos.

Lemma known_inputs n utxos script fee a tx : wutxos_ok utxos -> known n utxos -> built_tx utxos script fee a tx ->
  Forall in_ok (TxIns tx) /\ inputs_sum n tx (Zsum (wu_Value <$> utxos)).
Proof.
  intros [Hv Ht] Hk [Hi _].
  assert (exists us, spent_output n <$> TxIns tx = Some <$> us /\ u_Value <$> us = wu_Value <$> utxos /\ Forall in_ok (TxIns tx))
    as (us & E1 & E2 & E3).
  { revert Hi. generalize (TxIns tx). clear Hv Ht. induction Hk as [|u utxos (Ho & r & Er & Ev) Hk IH]; intros [|t ins] Hi; try done.
    { by exists []. }
    rewrite !fmap_cons in Hi. injection Hi as Et Hi. destruct (IH ins Hi) as (us & E1 & E2 & E3).
    exists (r :: us). rewrite !fmap_cons, E1, E2, Ev. split_and!; [|done|].
    - f_equal. unfold spent_output. by rewrite Et.
    - constructor; [|done]. unfold in_ok. by rewrite Et. }
  split; [done|]. exists us. split_and!; [done| |by rewrite E2|done].
  assert (Forall (Z.le 0) (u_Value <$> us)) as Hus by (rewrite E2; apply Forall_fmap; exact Hv). rewrite Forall_fmap in Hus. exact Hus.
Qed.

(** The fee check of the chain, on a built transaction. *)
Lemma built_pays n utxos script fee a tx op : wutxos_ok utxos -> known n utxos -> built_tx utxos script fee a tx -> utxos <> [] ->
  (minFeeOf op <= fee -> pays_fee n tx op) /\ (fee + DustLimit <= minFeeOf op -> ~ pays_fee n tx op).
Proof.
  intros Hu Hk Hb Hne. destruct (known_inputs _ _ _ _ _ _ Hu Hk Hb) as [_ Hs]. pose proof (built_paid _ _ _ _ _ Hb) as Hp. split.
  - intros Hm. split; [|exists (Zsum (wu_Value <$> utxos)); split; [done|lia]].
    intros E. pose proof (b_ins _ _ _ _ _ Hb) as Hi. rewrite E in Hi. by destruct utxos.
  - intros Hm (_ & s & Hs' & Hf). rewrite (inputs_sum_unique _ _ _ _ Hs' Hs) in Hf. lia.
Qed.

(** The operation of a built transaction is that of its script. *)
Lemma built_has_op utxos script fee a tx op name value extra : built_tx utxos script fee a tx ->
  parseNameScriptFull script = Ok (op, name, value, extra) -> has_op tx op.
Proof.
  intros [_ [_ Ho]] Hp. exists (mkTxOut 1000 script), name, value, extra. split; [|done].
  destruct (decide _) in Ho; [|destruct Ho as (s & _ & Ho)]; rewrite Ho; set_solver.
Qed.

(** A transaction that pays too little for an operation it has is refused by the pool. *)
Lemma underpaid_refused {W : Wire} {R : MapRange} n tx op height :
  ndb_wf n -> ndb_utxo_wf n -> Forall in_ok (TxIns tx) -> outs_ok tx -> 0 <= height -> is_int32 height ->
  has_op tx op -> ~ pays_fee n tx op -> (ValidateMempoolTransaction height (Some tx) n).1 <> Ok tt.
Proof.
  intros Wf Wu Hi Ho H0 Hh Hop Hp E.
  pose proof (ValidateMempoolTransaction_decides n Wf Wu tx height Hi Ho H0 Hh n (keeps_refl n Wf)) as Dm. unfold wp in Dm.
  destruct (ValidateMempoolTransaction height (Some tx) n) as [[u|e] n']; [|done]. simpl in Dm.
  destruct Dm as (_ & [_ _ Hf] & _). by apply Hp, Hf.
Qed.

End chain.
