(* ===== verification/BlockSpec.v ===== *)
(** * A block on the name database, and its disconnection

    [processBlockTransactions] runs every output of a block as a step of UpdateSpec.v
    and keeps the outputs the block spends and creates ([spent_state] of UtxoSpec.v);
    [rollbackNameOperations] takes the database back to the state before the block. *)

From S2P Require Import Prelude Bolt Lru Record NameDB NamesSpec ExpirySpec Utxo UtxoSpec Config.
From S2P Require Import Script Wire AuxPow Chain ChainUpdate ChainSpec ChainNames UpdateSpec.

Section block.
Context {B : Bolt} {L : BoltLaws B} {C : BoltCommits B}.
Context {W : Wire} {LW : WireLaws W} {G : BtcLib} {LG : BtcLaws G}.
Context (params : Params) (height blockTime : Z) (Hh : is_int32 height) (Ht : is_int64 blockTime).
Context (n0 : NameDatabase) (W0 : ndb_utxo_wf n0).

(** An output of a block: its transaction's hash, its index, itself. *)
Definition item : Type := bytes * nat * TxOut.

Definition tx_items (tx : MsgTx) : list item :=
  (fun it => (TxHash tx, it.1, it.2)) <$> indexed (TxOuts tx).

Definition items (txs : list MsgTx) : list item := concat (tx_items <$> txs).

Definition item_utxo (x : item) : UTXO := utxo_of params x.1.1 x.1.2 x.2 height.
Definition item_step (x : item) (a : names_state) : names_state :=
  out_step params height blockTime x.1.1 x.1.2 x.2 a.

Definition steps (l : list item) (a : names_state) : names_state :=
  foldl (fun a x => item_step x a) a l.
Definition created (l : list item) (M : gmap bytes UTXO) : gmap bytes UTXO :=
  foldl (fun M x => <[uk (item_utxo x) := item_utxo x]> M) M l.

(** The outputs of [n0] that transactions spend. *)
Definition spent_by (txs : list MsgTx) : list UTXO :=
  omap (spent_output n0) (concat (TxIns <$> txs)).

Record block_state (n : NameDatabase) (a : names_state) (us : list UTXO) (M : gmap bytes UTXO) : Prop := {
  bs_names : models n a;
  bs_utxos : spent_state n0 n height us M;
  bs_frame : frame (name_side ++ utxo_side) n0 n;
}.

(** ** The two sides do not touch each other's buckets *)

Lemma models_utxo_side n n' a : ndb_open n' -> cache n' = cache n -> frame utxo_side n n' ->
  models n a -> models n' a.
Proof using. intros. eapply models_frame; try done. unfold name_side. repeat constructor; bucket_notin. Qed.

Lemma spent_name_side n n' us M : ndb_open n' -> frame name_side n n' ->
  spent_state n0 n height us M -> spent_state n0 n' height us M.
Proof using.
  intros O [_ F] [[_ Wf] S1 S2 S3]. unfold ndb_utxos in *.
  split; [split; [done|]| | |]; unfold ndb_utxos; rewrite ?F by bucket_notin; done.
Qed.

(** An operation on one side. *)
Lemma side_names n n' a a' us M : block_state n a us M -> models n' a' -> frame name_side n n' ->
  block_state n' a' us M.
Proof using.
  intros [_ S F0] Mo F. split; [done| |].
  - eapply spent_name_side; [apply ndb_wf_open, Mo|done|done].
  - eapply frame_trans; [exact F0|]. by eapply frame_weaken; [|exact F].
Qed.

Lemma side_utxos n n' a us M us' M' : block_state n a us M -> spent_state n0 n' height us' M' ->
  cache n' = cache n -> frame utxo_side n n' -> block_state n' a us' M'.
Proof using.
  intros [Mo _ F0] S Ec F. split; [|done|].
  - eapply models_utxo_side; [apply S|done|done|done].
  - eapply frame_trans; [exact F0|]. by eapply frame_weaken; [|exact F].
Qed.

(** ** Single steps *)

Lemma spent_output_key txIn u : in_ok txIn -> spent_output n0 txIn = Some u ->
  utxo_ok u /\ u_TxHash u = op_Hash (PreviousOutPoint txIn) /\
  u_OutIndex u = op_Index (PreviousOutPoint txIn).
Proof using W0.
  intros Hi E. destruct (utxos_of_ok _ _ _ _ (uwf_set _ W0) E) as (Hu & Ek & _).
  split; [done|]. apply makeUTXOKey_inj in Ek as [? ?]; [done|done|by apply utxo_outpoint].
Qed.

Lemma processInput_state n a us M txIn u : block_state n a us M ->
  in_ok txIn -> spent_output n0 txIn = Some u -> uk u ∉ uk <$> us -> M !! uk u = None ->
  wp (processInput height txIn) (fun _ n' => block_state n' a (us ++ [u]) M) (fun _ _ => False) n.
Proof using L C W0.
  intros St Hi E Hnew HM. pose proof (bs_utxos _ _ _ _ St) as S. destruct (spent_output_key txIn u Hi E) as (Hu & Eh & Ei).
  pose proof (wp_spendUTXO n0 n height us M u S Hu Hnew) as Hs.
  unfold processInput, spendUTXO in *. rewrite <-Eh, <-Ei in *. rewrite wp_bind, wp_try.
  assert (ndb_utxos n !! uk u = Some u) as Eu.
  { rewrite (ss_utxos _ _ _ _ _ S), decide_False by done. rewrite lookup_union_r by done.
    unfold uk. rewrite Eh, Ei. exact E. }
  eapply wp_mono; [apply GetUTXO_correct; [apply S|by apply utxo_outpoint]| |]; simpl.
  2:{ intros e n' (-> & _ & En). fold (uk u) in En. congruence. }
  intros u' n' (-> & En). fold (uk u) in En. assert (u' = u) as -> by congruence.
  rewrite wp_bind in Hs. rewrite wp_bind, wp_wrapM.
  eapply wp_mono; [exact Hs| |done]; simpl. intros [] n1 Hs1. rewrite wp_bind, wp_try.
  eapply wp_mono; [exact Hs1| |done]; simpl. intros [] n2 (S2 & Ec & F). rewrite wp_ret.
  by eapply side_utxos.
Qed.

Lemma addUTXO_state n a us M x : block_state n a us M -> utxo_ok (item_utxo x) ->
  uk (item_utxo x) ∉ uk <$> us -> M !! uk (item_utxo x) = None -> ndb_utxos n0 !! uk (item_utxo x) = None ->
  wp (addUTXO params x.1.1 x.1.2 x.2 height)
    (fun _ n' => block_state n' a us (<[uk (item_utxo x) := item_utxo x]> M)) (fun _ _ => False) n.
Proof using L C.
  intros St Hu Hus HM H0. pose proof (bs_utxos _ _ _ _ St) as [Wf S1 S2 S3]. unfold addUTXO. rewrite wp_wrapM. fold (item_utxo x).
  eapply wp_mono; [apply AddUTXO_correct; try done| |done]; simpl.
  { intros u' Eu. rewrite S1, decide_False, lookup_union_r, H0 in Eu by done. done. }
  intros [] n' (Wf' & Ec & F & Eu).
  eapply side_utxos; [exact St| |exact Ec|by eapply frame_weaken; [|exact F]].
  destruct F as [_ F]. split; [done| | |].
  - intros k. rewrite Eu. destruct (decide (k = uk (item_utxo x))) as [->|Hk].
    + rewrite lookup_insert_eq, decide_False by done. by rewrite <-insert_union_l, lookup_insert_eq.
    + rewrite lookup_insert_ne by done. rewrite S1, <-insert_union_l, lookup_insert_ne by done. done.
  - intros k. rewrite F by bucket_notin. apply S2.
  - intros u Hin. rewrite F by bucket_notin. by apply S3.
Qed.

Lemma RemoveUTXO_state n a us M h i : block_state n a us M -> outpoint_ok h i ->
  ndb_utxos n0 !! makeUTXOKey h i = None ->
  wp (RemoveUTXO (Some h) i)
    (fun _ n' => block_state n' a us (delete (makeUTXOKey h i) M)) (fun _ _ => False) n.
Proof using L C.
  intros St Hp H0. pose proof (bs_utxos _ _ _ _ St) as [Wf S1 S2 S3].
  eapply wp_mono; [by apply RemoveUTXO_correct| |done]; simpl.
  intros [] n' (Wf' & Ec & F & Eu).
  eapply side_utxos; [exact St| |exact Ec|by eapply frame_weaken; [|exact F]].
  destruct F as [_ F]. split; [done| | |].
  - intros k. rewrite Eu, lookup_delete, S1, !lookup_union, lookup_delete.
    destruct (decide (k ∈ uk <$> us)); [by case_decide|].
    destruct (decide (makeUTXOKey h i = k)) as [<-|]; [|done]. by rewrite H0.
  - intros k. rewrite F by bucket_notin. apply S2.
  - intros u Hin. rewrite F by bucket_notin. by apply S3.
Qed.

Lemma processNameOperation_state n a us M x : block_state n a us M -> hash_ok x.1.1 -> out_fits x.2 a ->
  wp (processNameOperation params x.1.1 x.1.2 x.2 height blockTime)
    (fun _ n' => block_state n' (item_step x a) us M) (fun _ _ => False) n.
Proof using L C LG Hh Ht.
  intros S Hx Hf. eapply wp_mono; [apply processNameOperation_models; [done|done|apply S|done|done]| |done]; simpl.
  intros [] n' [Mo' F]. by eapply side_names.
Qed.

(** ** A whole block *)

Record block_ready (a : names_state) (txs : list MsgTx) : Prop := {
  br_ins : forall txIn, txIn ∈ concat (TxIns <$> tail txs) -> in_ok txIn /\ is_Some (spent_output n0 txIn);
  br_spends : NoDup (uk <$> spent_by (tail txs));
  br_outs : forall x, x ∈ items txs -> utxo_ok (item_utxo x) /\ ndb_utxos n0 !! uk (item_utxo x) = None;
  br_keys : NoDup ((fun x => uk (item_utxo x)) <$> items txs);
  br_fits : forall l1 x l2, items txs = l1 ++ x :: l2 -> out_fits x.2 (steps l1 a);
}.

Lemma items_cons tx txs : items (tx :: txs) = tx_items tx ++ items txs.
Proof. done. Qed.
Lemma items_app l1 l2 : items (l1 ++ l2) = items l1 ++ items l2.
Proof using. unfold items. by rewrite fmap_app, concat_app. Qed.
Lemma steps_app l1 l2 a : steps (l1 ++ l2) a = steps l2 (steps l1 a).
Proof using. apply foldl_app. Qed.
Lemma created_app l1 l2 M : created (l1 ++ l2) M = created l2 (created l1 M).
Proof using. apply foldl_app. Qed.

Lemma created_lookup l M k : created l M !! k = None <->
  M !! k = None /\ k ∉ (fun x => uk (item_utxo x)) <$> l.
Proof using.
  revert M; induction l as [|x l IH]; intros M; simpl.
  - split; [intros ?; split; [done|apply not_elem_of_nil]|by intros []].
  - rewrite IH, lookup_insert_None, not_elem_of_cons. intuition.
Qed.

Lemma elem_of_concat {A} (x : A) ls : x ∈ concat ls <-> exists l, x ∈ l /\ l ∈ ls.
Proof using.
  rewrite list_elem_of_In, in_concat. setoid_rewrite <-list_elem_of_In.
  split; intros (l & ? & ?); eauto.
Qed.

Lemma tx_items_hash tx x : x ∈ tx_items tx -> x.1.1 = TxHash tx.
Proof using. unfold tx_items. by intros (it & -> & _)%list_elem_of_fmap. Qed.

Lemma items_hash txs x : x ∈ items txs -> hash_ok x.1.1.
Proof using LW.
  unfold items. intros (l & Hx & (tx & -> & _)%list_elem_of_fmap)%elem_of_concat.
  rewrite (tx_items_hash tx) by done. apply TxHash_len.
Qed.

(** The outputs of one transaction of the block. *)
Lemma processOutputs_state a txs pre tx post n us :
  block_ready a txs -> txs = pre ++ tx :: post ->
  (forall u, u ∈ us -> is_Some (ndb_utxos n0 !! uk u)) ->
  block_state n (steps (items pre) a) us (created (items pre) ∅) ->
  wp (processTransactionOutputs params tx height blockTime)
    (fun _ n' => block_state n' (steps (items (pre ++ [tx])) a) us (created (items (pre ++ [tx])) ∅))
    (fun _ _ => False) n.
Proof using L C LG LW Hh Ht.
  intros R E Hus S. unfold processTransactionOutputs.
  assert (items (pre ++ [tx]) = items pre ++ tx_items tx) as Ei.
  { rewrite items_app, items_cons. unfold items at 2. simpl. by rewrite app_nil_r. }
  rewrite Ei. unfold tx_items. set (f := fun it : nat * TxOut => (TxHash tx, it.1, it.2)).
  eapply wp_mono; [apply (wp_forM (fun done n => block_state n
    (steps (items pre ++ (f <$> done)) a) us (created (items pre ++ (f <$> done)) ∅)) _ _ (fun _ _ => False))| |done].
  - intros done [i o] rest n1 El S1.
    assert (items txs = (items pre ++ (f <$> done)) ++ f (i, o) :: ((f <$> rest) ++ items post)) as Eit.
    { rewrite E, items_app, items_cons. unfold tx_items. fold f. rewrite El, fmap_app.
      cbn [fmap list_fmap]. by rewrite <-!app_assoc. }
    assert (f (i, o) ∈ items txs) as Hin by (rewrite Eit; apply elem_of_app; right; by left).
    destruct (br_outs _ _ R _ Hin) as [Hu H0].
    pose proof (br_keys _ _ R) as Hk. rewrite Eit, fmap_app in Hk.
    apply NoDup_app in Hk as (_ & Hk & _).
    rewrite wp_bind. eapply wp_mono; [apply (addUTXO_state n1 _ _ _ (f (i, o)) S1 Hu)| |done].
    + intros (u & Ek & Hui)%list_elem_of_fmap. destruct (Hus u Hui) as [? Hs]. rewrite <-Ek in Hs. congruence.
    + apply created_lookup. split; [by apply lookup_empty|]. intros Hx. apply (Hk _ Hx). simpl. by left.
    + done.
    + intros [] n2 S2. eapply wp_mono; [apply (processNameOperation_state n2 _ _ _ (f (i, o)) S2)| |done].
      * by eapply items_hash.
      * by eapply (br_fits _ _ R).
      * intros [] n3 S3. rewrite fmap_app, app_assoc, steps_app, created_app. exact S3.
  - simpl. by rewrite app_nil_r.
  - simpl. done.
Qed.

Lemma spent_by_app l1 l2 : spent_by (l1 ++ l2) = spent_by l1 ++ spent_by l2.
Proof using. unfold spent_by. by rewrite fmap_app, concat_app, omap_app. Qed.

Lemma spent_by_one tx : spent_by [tx] = omap (spent_output n0) (TxIns tx).
Proof using. unfold spent_by. simpl. by rewrite app_nil_r. Qed.

Lemma spent_by_known txs u : u ∈ spent_by txs -> (forall txIn, txIn ∈ concat (TxIns <$> txs) -> in_ok txIn) ->
  is_Some (ndb_utxos n0 !! uk u).
Proof using W0.
  unfold spent_by. intros (txIn & Hin & E)%list_elem_of_omap Hi.
  destruct (spent_output_key txIn u (Hi _ Hin) E) as (_ & Eh & Ei). unfold uk. rewrite Eh, Ei. eauto.
Qed.

(** The inputs of one transaction, none of which an earlier one spent. *)
Lemma processInputs_state tx n a us M : block_state n a us M ->
  (forall txIn, txIn ∈ TxIns tx -> in_ok txIn /\ is_Some (spent_output n0 txIn)) ->
  NoDup (uk <$> us ++ spent_by [tx]) -> (forall k, is_Some (ndb_utxos n0 !! k) -> M !! k = None) ->
  wp (processTransactionInputs tx height)
    (fun _ n' => block_state n' a (us ++ spent_by [tx]) M) (fun _ _ => False) n.
Proof using L C W0.
  intros S Hi Nd HM. unfold processTransactionInputs. rewrite spent_by_one in *.
  eapply wp_mono; [apply (wp_forM (fun done n => block_state n a (us ++ omap (spent_output n0) done) M)
    _ _ (fun _ _ => False))| |done].
  - intros done txIn rest n1 El S1. destruct (Hi txIn) as [Hok [u Eu]].
    { rewrite El. apply elem_of_app. right. by left. }
    rewrite omap_app. simpl. rewrite Eu. rewrite app_assoc.
    destruct (spent_output_key txIn u Hok Eu) as (_ & Eh & Ei).
    assert (uk u ∉ uk <$> us ++ omap (spent_output n0) done) as Hnew.
    { rewrite El, omap_app in Nd. cbn [omap list_omap] in Nd. rewrite Eu, app_assoc, fmap_app in Nd.
      apply NoDup_app in Nd as (_ & Nd & _). intros Hx. apply (Nd _ Hx). simpl. by left. }
    apply (processInput_state n1 a _ M txIn u S1 Hok Eu Hnew).
    apply HM. unfold uk. rewrite Eh, Ei. by eexists.
  - simpl. by rewrite app_nil_r.
  - done.
Qed.

Lemma created_fresh a txs pre k : block_ready a txs -> (exists post, txs = pre ++ post) ->
  is_Some (ndb_utxos n0 !! k) -> created (items pre) ∅ !! k = None.
Proof using.
  intros R [post E] [u Hk]. apply created_lookup. split; [by apply lookup_empty|].
  intros (x & -> & Hx)%list_elem_of_fmap. destruct (br_outs _ _ R x) as [_ H0].
  { rewrite E, items_app. apply elem_of_app. by left. }
  congruence.
Qed.

Lemma processRest_state a cb rest n : block_ready a (cb :: rest) ->
  block_state n (steps (items [cb]) a) [] (created (items [cb]) ∅) ->
  forall i, (0 < i)%nat ->
  wp (forM (zip (List.seq i (length rest)) rest) (fun '(txIdx, tx) =>
        (if bool_decide (0 < txIdx)%nat then processTransactionInputs tx height else mret tt);;
        processTransactionOutputs params tx height blockTime))
    (fun _ n' => block_state n' (steps (items (cb :: rest)) a) (spent_by rest)
       (created (items (cb :: rest)) ∅)) (fun _ _ => False) n.
Proof using L C LG LW Hh Ht W0.
  intros R S i Hi. set (its := zip (List.seq i (length rest)) rest).
  assert (its.*2 = rest) as E2 by (apply snd_zip; by rewrite length_seq).
  assert (forall it, it ∈ its -> (0 < it.1)%nat) as Hpos.
  { intros [j tx] Hin%elem_of_zip_l. simpl. apply list_elem_of_In, in_seq in Hin. lia. }
  eapply wp_mono; [apply (wp_forM (fun done n => block_state n (steps (items (cb :: done.*2)) a)
    (spent_by done.*2) (created (items (cb :: done.*2)) ∅)) _ _ (fun _ _ => False))| |done].
  - intros done [j tx] more n1 El S1.
    assert (rest = done.*2 ++ tx :: more.*2) as Er by (rewrite <-E2, El, fmap_app; done).
    assert (0 < j)%nat as Hj by (apply (Hpos (j, tx)); rewrite El; apply elem_of_app; right; by left).
    rewrite bool_decide_true by done. rewrite wp_bind.
    assert (forall txIn, txIn ∈ concat (TxIns <$> (done.*2 ++ [tx])) -> in_ok txIn /\ is_Some (spent_output n0 txIn)) as Hins.
    { intros txIn Hin. apply (br_ins _ _ R). simpl. rewrite Er.
      replace (done.*2 ++ tx :: more.*2) with ((done.*2 ++ [tx]) ++ more.*2) by by rewrite <-app_assoc.
      rewrite fmap_app, concat_app. apply elem_of_app. by left. }
    rewrite fmap_app. cbn [fmap list_fmap snd].
    eapply wp_mono; [apply (processInputs_state tx n1 _ _ _ S1)| |done].
    + intros txIn Hin. apply Hins. rewrite fmap_app, concat_app. apply elem_of_app. right. simpl.
      by rewrite app_nil_r.
    + rewrite <-spent_by_app. pose proof (br_spends _ _ R) as Nd. simpl in Nd. rewrite Er in Nd.
      replace (done.*2 ++ tx :: more.*2) with ((done.*2 ++ [tx]) ++ more.*2) in Nd by by rewrite <-app_assoc.
      rewrite spent_by_app, fmap_app in Nd. by apply NoDup_app in Nd as [? _].
    + intros k Hk. apply (created_fresh a (cb :: rest) (cb :: done.*2) k R); [|done].
      exists (tx :: more.*2). by rewrite Er.
    + intros [] n2 S2. rewrite spent_by_app.
      apply (processOutputs_state a (cb :: rest) (cb :: done.*2) tx more.*2 n2); [done|by rewrite Er| |done].
      intros u Hu. rewrite <-spent_by_app in Hu. eapply spent_by_known; [done|].
      intros txIn Hin. by apply Hins.
  - simpl. exact S.
  - cbn beta. rewrite E2. done.
Qed.

Lemma processBlockTransactions_state a block n cb rest : blk_Txs block = cb :: rest ->
  block_ready a (cb :: rest) -> block_state n a [] ∅ ->
  wp (processBlockTransactions params block height blockTime)
    (fun _ n' => block_state n' (steps (items (cb :: rest)) a) (spent_by rest)
       (created (items (cb :: rest)) ∅)) (fun _ _ => False) n.
Proof using L C LG LW Hh Ht W0.
  intros E R S. unfold processBlockTransactions. rewrite E, indexed_cons. cbn [forM].
  rewrite wp_bind. rewrite bool_decide_false by lia. rewrite wp_bind, wp_ret.
  eapply wp_mono; [apply (processOutputs_state a (cb :: rest) [] cb rest n [] R)| |done]; try done.
  - by intros u Hu%not_elem_of_nil.
  - intros [] n1 S1. apply processRest_state; [done| |lia]. exact S1.
Qed.

(** ** Disconnecting the block *)

Lemma wp_collect_cons {S A} (x : A) (l : list A) (f : A -> M S unit) (Q : list error -> S -> Prop) E s :
  wp (f x) (fun _ => wp (collect l f) Q E) (fun _ _ => False) s ->
  wp (collect (x :: l) f) Q E s.
Proof using.
  intros H. cbn [collect]. rewrite wp_bind, wp_try. eapply wp_mono; [exact H| |done]; simpl.
  intros [] s' H'. rewrite wp_bind. eapply wp_mono; [exact H'| |done]; simpl. done.
Qed.

Lemma wp_collect {S A} (I : list A -> S -> Prop) (f : A -> M S unit) (l : list A) :
  (forall done x rest s, l = done ++ x :: rest -> I done s ->
     wp (f x) (fun _ => I (done ++ [x])) (fun _ _ => False) s) ->
  forall s, I [] s -> wp (collect l f) (fun errs s' => errs = [] /\ I l s') (fun _ _ => False) s.
Proof using.
  intros H. cut (forall rest done s, l = done ++ rest -> I done s ->
    wp (collect rest f) (fun errs s' => errs = [] /\ I l s') (fun _ _ => False) s).
  { intros K s Hs. by apply (K l []). }
  induction rest as [|x rest IH]; intros done s El Hs.
  - rewrite app_nil_r in El. subst. cbn [collect]. by rewrite wp_ret.
  - apply wp_collect_cons. eapply wp_mono; [by eapply H| |done]; simpl.
    intros [] s' Hs'. apply (IH (done ++ [x])); [by rewrite <-app_assoc|done].
Qed.

Lemma collect_fmap {S A D} (g : D -> A) (l : list D) (f : A -> M S unit) :
  collect (g <$> l) f = collect l (fun x => f (g x)).
Proof using. induction l as [|x l IH]; [done|]. cbn [fmap list_fmap collect]. by rewrite IH. Qed.

Definition restored_of (l : list item) : gset bytes := foldr (fun x rs => restored_by x.2 ∪ rs) ∅ l.

Definition out_key (tx : MsgTx) (i : nat) : bytes := makeUTXOKey (TxHash tx) (uint32 (Z.of_nat i)).

Lemma tx_items_keys tx :
  (fun x => uk (item_utxo x)) <$> tx_items tx = out_key tx <$> List.seq 0 (length (TxOuts tx)).
Proof using.
  unfold tx_items. rewrite <-list_fmap_compose.
  transitivity ((out_key tx ∘ fst) <$> indexed (TxOuts tx)).
  - apply list_fmap_ext. intros _ [i o] _. done.
  - rewrite list_fmap_compose. f_equal. unfold indexed. apply fst_zip. by rewrite length_seq.
Qed.

Definition uncreated (ks : list bytes) (M : gmap bytes UTXO) : gmap bytes UTXO :=
  foldl (fun M k => delete k M) M ks.

Lemma uncreated_lookup ks M k : uncreated ks M !! k = if decide (k ∈ ks) then None else M !! k.
Proof using.
  revert M; induction ks as [|k' ks IH]; intros M; simpl.
  - destruct (decide (k ∈ [])) as [H|]; [by apply not_elem_of_nil in H|done].
  - change (uncreated (k' :: ks) M) with (uncreated ks (delete k' M)).
    rewrite IH, lookup_delete. destruct (decide (k ∈ ks)) as [H|H].
    + rewrite decide_True; [done|]. by right.
    + destruct (decide (k' = k)) as [->|N]; [by rewrite decide_True by by left|].
      rewrite decide_False; [done|]. by intros [?|?]%elem_of_cons.
Qed.

Lemma created_ne l M k : k ∉ (fun x => uk (item_utxo x)) <$> l -> created l M !! k = M !! k.
Proof using.
  revert M; induction l as [|x l IH]; intros M Hk; [done|].
  simpl in *. apply not_elem_of_cons in Hk as [? ?]. rewrite IH by done. by rewrite lookup_insert_ne.
Qed.

Lemma uncreated_created l M : (forall k, k ∈ (fun x => uk (item_utxo x)) <$> l -> M !! k = None) ->
  uncreated ((fun x => uk (item_utxo x)) <$> l) (created l M) = M.
Proof using.
  intros H. apply map_eq. intros k. rewrite uncreated_lookup.
  destruct (decide (k ∈ (fun x => uk (item_utxo x)) <$> l)) as [Hk|Hk]; [by rewrite H|by apply created_ne].
Qed.

Lemma rollbackUTXOs_state tx n a us M : block_state n a us M ->
  (forall k, k ∈ out_key tx <$> List.seq 0 (length (TxOuts tx)) -> ndb_utxos n0 !! k = None) ->
  wp (rollbackTransactionUTXOs tx)
    (fun _ n' => block_state n' a us (uncreated (out_key tx <$> List.seq 0 (length (TxOuts tx))) M))
    (fun _ _ => False) n.
Proof using L C LW.
  intros S H0. unfold rollbackTransactionUTXOs. rewrite wp_bind.
  eapply wp_mono; [apply (wp_collect (fun done n => block_state n a us (uncreated (out_key tx <$> done) M)))
    | |done].
  - intros done i rest n1 El S1. rewrite wp_wrapM, fmap_app. unfold uncreated. rewrite foldl_app. simpl.
    apply (RemoveUTXO_state n1 a us _ (TxHash tx) (uint32 (Z.of_nat i)) S1).
    + split; [apply TxHash_len|apply uint32_range].
    + apply H0. rewrite El. apply list_elem_of_fmap. exists i. split; [done|].
      apply elem_of_app. right. by left.
  - done.
  - cbn beta. intros errs n' [-> S']. rewrite wp_lift. exact S'.
Qed.

Definition block_undoable (a : names_state) (txs : list MsgTx) : Prop :=
  forall l1 x l2, items txs = l1 ++ x :: l2 -> undoable x.1.1 x.2 (steps l1 a) (restored_of l2).

Lemma rollbackOutput_state n a us M x rs :
  block_state n (item_step x a) us M -> undoable x.1.1 x.2 a rs ->
  wp (rollbackOutput height x.2)
    (fun _ s => block_state s.1 a us M /\ s.2 = restored_by x.2 ∪ rs) (fun _ _ => False) (n, rs).
Proof using L C LG.
  intros S U. eapply wp_mono; [eapply rollbackOutput_models; [apply S|done]| |done]; simpl.
  intros [] [n' rs'] (Mo' & F & E). simpl in *. split; [|done]. by eapply side_names.
Qed.

Lemma rollbackNames_state a txs pre tx post n us M :
  block_undoable a txs -> txs = pre ++ tx :: post ->
  block_state n (steps (items (pre ++ [tx])) a) us M ->
  wp (rollbackTransactionNameOps tx height)
    (fun _ s => block_state s.1 (steps (items pre) a) us M /\ s.2 = restored_of (items (tx :: post)))
    (fun _ _ => False) (n, restored_of (items post)).
Proof using L C LG.
  intros U E S. unfold rollbackTransactionNameOps. rewrite wp_bind.
  assert (TxOuts tx = snd <$> tx_items tx) as Eo.
  { unfold tx_items. rewrite <-list_fmap_compose. symmetry. etrans; [|apply (indexed_snd (TxOuts tx))]. done. }
  rewrite Eo, <-map_rev. change (List.map ?f ?l) with (f <$> l). rewrite collect_fmap.
  assert (forall its1 its2 n, tx_items tx = its1 ++ its2 ->
    block_state n (steps (items pre ++ its1) a) us M ->
    wp (collect (rev its1) (fun x => rollbackOutput height x.2))
      (fun errs s => errs = [] /\ block_state s.1 (steps (items pre) a) us M /\
         s.2 = restored_of (items (tx :: post))) (fun _ _ => False)
      (n, restored_of (its2 ++ items post))) as K.
  { induction its1 as [|x its1 IH] using rev_ind; intros its2 n1 Ei S1.
    - cbn [rev collect]. rewrite wp_ret. rewrite app_nil_r in S1. split; [done|]. split; [done|].
      by rewrite items_cons, Ei.
    - rewrite rev_unit. apply wp_collect_cons.
      assert (items txs = (items pre ++ its1) ++ x :: (its2 ++ items post)) as Eit.
      { rewrite E, items_app, items_cons, Ei. by rewrite <-!app_assoc. }
      rewrite app_assoc, steps_app in S1. cbn [steps foldl] in S1.
      eapply wp_mono; [apply (rollbackOutput_state n1 _ us M x _ S1), (U _ _ _ Eit)| |done]; simpl.
      intros [] [n2 rs2] [S2 Ers]. simpl in *. subst rs2.
      apply (IH (x :: its2)); [by rewrite Ei, <-app_assoc|done]. }
  eapply wp_mono; [apply (K (tx_items tx) [])| |done].
  - by rewrite app_nil_r.
  - rewrite items_app, items_cons in S. unfold items at 2 in S. simpl in S. by rewrite app_nil_r in S.
  - intros errs s (-> & S' & Ers). rewrite wp_lift. done.
Qed.

Lemma rollbackTxs_state a txs us : block_ready a txs -> block_undoable a txs ->
  forall pre post n, txs = pre ++ post ->
  block_state n (steps (items pre) a) us (created (items pre) ∅) ->
  wp (collect (concat ((fun tx => [(false, tx); (true, tx)]) <$> rev pre)) (fun '(ops, tx) =>
        if ops : bool then rollbackTransactionNameOps tx height
        else on_rb (rollbackTransactionUTXOs tx)))
    (fun errs s => errs = [] /\ block_state s.1 a us ∅) (fun _ _ => False)
    (n, restored_of (items post)).
Proof using L C LW LG.
  intros R U. induction pre as [|tx pre IH] using rev_ind; intros post n E S.
  - cbn [rev fmap list_fmap concat collect]. rewrite wp_ret. done.
  - rewrite rev_unit. cbn [fmap list_fmap concat app]. rewrite <-app_assoc in E. cbn [app] in E.
    assert (items (pre ++ [tx]) = items pre ++ tx_items tx) as Ei.
    { rewrite items_app, items_cons. unfold items at 2. simpl. by rewrite app_nil_r. }
    assert (items txs = items pre ++ tx_items tx ++ items post) as Eit
      by (by rewrite E, items_app, items_cons).
    apply wp_collect_cons, wp_on_rb.
    eapply wp_mono; [apply (rollbackUTXOs_state tx n _ us _ S)| |done].
    { intros k. rewrite <-tx_items_keys. intros (x & -> & Hx)%list_elem_of_fmap.
      apply (br_outs _ _ R). rewrite Eit, !elem_of_app. auto. }
    intros [] n1 S1. rewrite Ei, created_app, <-tx_items_keys, uncreated_created in S1.
    2:{ intros k Hk. apply created_lookup. split; [apply lookup_empty|]. intros Hk'.
        pose proof (br_keys _ _ R) as Nd. rewrite Eit, !fmap_app in Nd.
        apply NoDup_app in Nd as (_ & Nd & _). apply (Nd _ Hk'), elem_of_app. by left. }
    rewrite <-Ei in S1.
    apply wp_collect_cons. eapply wp_mono; [apply (rollbackNames_state a txs pre tx post n1 us _ U E S1)| |done].
    intros [] [n2 rs2] [S2 E2]. simpl in S2, E2. subst rs2. apply (IH (tx :: post) n2 E S2).
Qed.

(** No name was backed up at this height. *)
Definition no_expired_backup (n : NameDatabase) : Prop :=
  forall k, HasPrefix k (be_bytes 4 (uint32 height)) = true -> ndb_bkt n expiredNamesIdxBucket !! k = None.

Lemma RestoreExpired_none n : ndb_open n -> no_expired_backup n ->
  wp (RestoreExpiredNamesForBlock height)
    (fun _ n' => db n' = db n /\ cache n' = cache n /\ closed n' = closed n) (fun _ _ => False) n.
Proof using L C.
  intros (t & Hdb & F) Hno. apply (wp_Update_with _ _ _ n t); [done|].
  wp_step. apply wp_on_tx. wp_steps. apply wp_on_tx.
  unfold collectKeysForHeight, b_seek. wp_steps. rewrite prefixed_seek by apply Hitems.
  assert (filter (fun kv => HasPrefix kv.1 (be_bytes 4 (uint32 height)) = true) items0 = []) as ->.
  { destruct (filter _ items0) as [|[k v] l] eqn:Ef; [done|].
    assert ((k, v) ∈ filter (fun kv => HasPrefix kv.1 (be_bytes 4 (uint32 height)) = true) items0) as Hin
      by (rewrite Ef; by left).
    apply list_elem_of_filter in Hin as [Hp Hin]. apply (cursor_elem _ _ _ _ Hitems) in Hin.
    specialize (Hno k Hp). unfold ndb_bkt in Hno. rewrite Hdb in Hno. simpl in Hin. congruence. }
  cbn [fmap list_fmap forM]. rewrite wp_ret. split; [|done]. by rewrite Hdb.
Qed.

(** ** The two handlers *)

(** No name of the state expires at the block's height, and the height is not one at
    which old backups are removed. *)
Definition none_expires (a : names_state) : Prop :=
  forall name r, s_names a !! name = Some r -> 0 <= height <= ExpiresAt r.

Definition no_cleanup : Prop := height <= RetentionDepth \/ Z.rem height 100 <> 0.

Lemma no_cleanup_test : no_cleanup -> (height >? RetentionDepth) && (Z.rem height 100 =? 0) = false.
Proof using.
  intros [?|?]; apply andb_false_iff; [left; destruct (Z.gtb_spec height RetentionDepth); [lia|done]|].
  right. by apply Z.eqb_neq.
Qed.

Lemma handleExpiredNames_none n a : models n a -> none_expires a ->
  wp (handleExpiredNames height) (fun _ n' => n' = n) (fun _ _ => False) n.
Proof using L.
  intros Mo He. unfold handleExpiredNames. rewrite wp_bind.
  eapply wp_mono; [apply (GetExpiredNames_correct n height); [apply Mo|]| |done]; simpl.
  - intros name r Er. rewrite (md_names _ _ Mo) in Er. specialize (He _ _ Er). lia.
  - intros l n' (-> & _ & Hl). destruct l as [|name l]; [done|]. exfalso.
    destruct (Hl name) as [H _]. destruct H as (r & Er & Hr); [by left|].
    rewrite (md_names _ _ Mo) in Er. specialize (He _ _ Er). lia.
Qed.

Lemma block_state_start a : models n0 a -> block_state n0 a [] ∅.
Proof using W0.
  intros Mo. split; [done| |apply frame_refl]. split; [done| | |].
  - intros k. destruct (decide (k ∈ uk <$> [])) as [H|]; [by apply not_elem_of_nil in H|].
    by rewrite (left_id_L ∅ (∪)).
  - intros k. destruct (decide (k ∈ sk height <$> [])) as [H|]; [by apply not_elem_of_nil in H|done].
  - by intros u Hu%not_elem_of_nil.
Qed.

Lemma updateNameDatabase_state block a cb rest :
  blk_Height block = height -> Timestamp (blk_Header block) = blockTime ->
  blk_Txs block = cb :: rest -> models n0 a -> none_expires a -> no_cleanup ->
  block_ready a (cb :: rest) ->
  wp (updateNameDatabase params block)
    (fun _ n' => block_state n' (steps (items (cb :: rest)) a) (spent_by rest)
       (created (items (cb :: rest)) ∅)) (fun _ _ => False) n0.
Proof using L C LG LW Hh Ht W0.
  intros Eh Et Etx Mo He Hc R. unfold updateNameDatabase. rewrite Eh, Et. cbv zeta. rewrite wp_bind.
  eapply wp_mono; [by eapply handleExpiredNames_none| |done]; simpl. intros [] n1 ->. rewrite wp_bind.
  eapply wp_mono; [by apply (processBlockTransactions_state a block n0 cb rest Etx R), block_state_start| |done].
  intros [] n1 S. unfold cleanupSpentUTXOsIfNeeded, cleanupOldExpiredNamesIfNeeded.
  rewrite no_cleanup_test by done. rewrite wp_bind, !wp_ret. exact S.
Qed.

Lemma wp_collect_one {S} (m : M S unit) (Q : S -> Prop) s :
  wp m (fun _ s' => Q s') (fun _ _ => False) s ->
  wp (collect [tt] (fun _ => m)) (fun errs s' => errs = [] /\ Q s') (fun _ _ => False) s.
Proof using.
  intros H. apply wp_collect_cons. eapply wp_mono; [exact H| |done]; simpl.
  intros [] s' H'. by rewrite wp_ret.
Qed.

Lemma rollbackNameOperations_state block a n us :
  blk_Height block = height -> ndb_open n -> no_expired_backup n ->
  block_ready a (blk_Txs block) -> block_undoable a (blk_Txs block) -> no_spent_backup n0 height ->
  (forall u, u ∈ us -> ndb_utxos n0 !! uk u = Some u) ->
  block_state n (steps (items (blk_Txs block)) a) us (created (items (blk_Txs block)) ∅) ->
  wp (rollbackNameOperations block)
    (fun errs n' => errs = [] /\ models n' a /\ ndb_utxo_wf n' /\ ndb_utxos n' = ndb_utxos n0 /\
       ndb_bkt n' spentUtxoIdxBucket = ndb_bkt n0 spentUtxoIdxBucket) (fun _ _ => False) n.
Proof using L C LG LW W0.
  intros Eh O Hno R U Hns Hus S. unfold rollbackNameOperations. rewrite Eh. unfold wp.
  set (m := mbind _ _). cut (wp m (fun errs s => errs = [] /\ models s.1 a /\ ndb_utxo_wf s.1 /\
    ndb_utxos s.1 = ndb_utxos n0 /\ ndb_bkt s.1 spentUtxoIdxBucket = ndb_bkt n0 spentUtxoIdxBucket)
    (fun _ _ => False) (n, ∅)).
  { unfold wp. by destruct (m (n, ∅)) as [[] []]. }
  unfold m. clear m. rewrite wp_bind.
  eapply wp_mono; [apply (wp_collect_one _ (fun s => s.2 = ∅ /\
    block_state s.1 (steps (items (blk_Txs block)) a) us (created (items (blk_Txs block)) ∅)))| |done].
  { apply wp_on_rb. rewrite wp_wrapM. eapply wp_mono; [by apply RestoreExpired_none| |done]; simpl.
    intros [] n1 (Ed & Ec & Ecl). split; [done|].
    assert (n1 = n) as -> by (destruct n, n1; simpl in *; congruence). done. }
  intros errs [n1 rs] (-> & E & S1). simpl in E, S1. subst rs. rewrite wp_bind.
  eapply wp_mono; [apply (rollbackTxs_state a (blk_Txs block) us R U (blk_Txs block) [] n1)| |done].
  { by rewrite app_nil_r. }
  { exact S1. }
  intros errs [n2 rs] (-> & S2). simpl in S2. rewrite wp_bind.
  eapply wp_mono; [apply (wp_collect_one _ (fun s => models s.1 a /\ ndb_utxo_wf s.1 /\
    ndb_utxos s.1 = ndb_utxos n0 /\ ndb_bkt s.1 spentUtxoIdxBucket = ndb_bkt n0 spentUtxoIdxBucket))| |done].
  { apply wp_on_rb. rewrite wp_wrapM.
    eapply wp_mono; [apply (RestoreSpentUTXOsForBlock_correct n0 n2 height us W0 (bs_utxos _ _ _ _ S2) Hns Hus)| |done].
    simpl. intros [] n3 (Wf & Ec & F & Eu & Ei). split; [|done].
    eapply models_utxo_side; [apply Wf|exact Ec|exact F|apply S2]. }
  intros errs s (-> & H). rewrite wp_ret. done.
Qed.

(** Disconnecting a block right after connecting it brings everything back. *)
Lemma connect_disconnect_state block a cb rest :
  blk_Height block = height -> Timestamp (blk_Header block) = blockTime ->
  blk_Txs block = cb :: rest -> models n0 a -> none_expires a -> no_cleanup ->
  no_expired_backup n0 -> no_spent_backup n0 height ->
  block_ready a (cb :: rest) -> block_undoable a (cb :: rest) ->
  wp (updateNameDatabase params block;; rollbackNameOperations block)
    (fun errs n' => errs = [] /\ models n' a /\ ndb_utxo_wf n' /\ ndb_utxos n' = ndb_utxos n0 /\
       ndb_bkt n' spentUtxoIdxBucket = ndb_bkt n0 spentUtxoIdxBucket) (fun _ _ => False) n0.
Proof using L C LG LW Hh Ht W0.
  intros Eh Et Etx Mo He Hc Hno Hns R U. rewrite wp_bind.
  eapply wp_mono; [by eapply updateNameDatabase_state| |done]; simpl. intros [] n1 S.
  rewrite <-Etx in *. eapply rollbackNameOperations_state; try done.
  - apply ndb_wf_open, S.
  - intros k Hk. destruct (bs_frame _ _ _ _ S) as [_ F]. rewrite F; [by apply Hno|].
    unfold name_side, utxo_side, utxo_buckets, spent_buckets. simpl. bucket_notin.
  - intros u Hu. assert (forall txIn, txIn ∈ concat (TxIns <$> rest) -> in_ok txIn) as Hin.
    { intros txIn Hi. apply (br_ins _ _ R). by rewrite Etx. }
    unfold spent_by in Hu. apply list_elem_of_omap in Hu as (txIn & Hi & E).
    destruct (spent_output_key txIn u (Hin _ Hi) E) as (_ & Eh' & Ei'). unfold uk. by rewrite Eh', Ei'.
Qed.

End block.

(** ** A validated block can be connected and disconnected

    The link between the checks of ChainNames.v and the steps of BlockSpec.v: a block
    whose name operations the checks accept satisfies what connecting and
    disconnecting it need, when every transaction acts on at most one name and the
    commitments have a key the store accepts ([block_fresh]), which the checks do
    not look at. *)

Section valid.
Context {B : Bolt} {L : BoltLaws B} {C : BoltCommits B}.
Context {W : Wire} {LW : WireLaws W} {G : BtcLib} {LG : BtcLaws G} {R : MapRange}.
Context (params : Params) (height blockTime : Z).
Context (n0 : NameDatabase).

Abbreviation steps := (steps params height blockTime).

(** The commitment a first update uses up. *)
Definition fu_commit (o : TxOut) : option bytes :=
  match parseNameScriptFull (PkScript o) with
  | Ok (NameFirstUpdate, name, _, extra) => Some (commit_of extra name)
  | _ => None
  end.

(** ** What a list of steps leaves alone *)

Lemma steps_snoc l x a : steps (l ++ [x]) a = item_step params height blockTime x (steps l a).
Proof using. by rewrite steps_app. Qed.

Lemma steps_name l a nm : nm ∉ omap (fun x => out_name x.2) l ->
  s_names (steps l a) !! nm = s_names a !! nm /\ s_hashes (steps l a) nm = s_hashes a nm.
Proof using.
  induction l as [|x l IH] using rev_ind; [done|]. rewrite omap_app, elem_of_app, steps_snoc.
  intros Hn. destruct IH as [E1 E2]; [tauto|]. rewrite <-E1, <-E2.
  assert (out_name x.2 <> Some nm) as Hx.
  { intros E. apply Hn. right. cbn [omap list_omap]. rewrite E. by left. }
  unfold item_step, out_step, out_name in *.
  destruct (parseNameScriptFull (PkScript x.2)) as [[[[[] name] value] extra]|e]; try done;
    simpl; (rewrite lookup_insert_ne, decide_False by congruence; done).
Qed.

Lemma steps_hist l a h : (forall x, x ∈ l -> is_Some (out_name x.2) -> x.1.1 <> h) ->
  s_hist (steps l a) !! h = s_hist a !! h.
Proof using.
  induction l as [|x l IH] using rev_ind; [done|]. intros Hn. rewrite steps_snoc, <-IH.
  2:{ intros y Hy. apply Hn, elem_of_app. by left. }
  assert (is_Some (out_name x.2) -> x.1.1 <> h) as Hx by (apply Hn, elem_of_app; right; by left).
  unfold item_step, out_step, out_name in *.
  destruct (parseNameScriptFull (PkScript x.2)) as [[[[[] name] value] extra]|e]; try done;
    simpl; (rewrite lookup_insert_ne; [done|eauto]).
Qed.

Lemma steps_commit l a c : c ∉ omap (fun x => out_commit x.2) l ->
  (c ∉ omap (fun x => fu_commit x.2) l -> s_commits (steps l a) !! c = s_commits a !! c) /\
  (s_commits a !! c = None -> s_commits (steps l a) !! c = None).
Proof using.
  induction l as [|x l IH] using rev_ind; [done|]. rewrite !omap_app, !elem_of_app, steps_snoc.
  intros Hn. destruct IH as [E1 E2]; [tauto|].
  assert (out_commit x.2 <> Some c) as Hx.
  { intros E. apply Hn. right. cbn [omap list_omap]. rewrite E. by left. }
  assert (forall P : Prop, ~ (P \/ c ∈ omap (fun x => fu_commit x.2) [x]) -> ~ P /\ fu_commit x.2 <> Some c) as Hf.
  { intros P H. split; [tauto|]. intros E. apply H. right. cbn [omap list_omap]. rewrite E. by left. }
  unfold item_step, out_step, out_commit, fu_commit in *.
  destruct (parseNameScriptFull (PkScript x.2)) as [[[[[] name] value] extra]|e]; simpl.
  - rewrite lookup_insert_ne by congruence. split; [intros [? _]%Hf; by apply E1|done].
  - split; [intros [? ?]%Hf; rewrite lookup_delete_ne by congruence; by apply E1|].
    intros H%E2. destruct (decide (commit_of extra name = c)) as [<-|];
      [by rewrite lookup_delete_eq|by rewrite lookup_delete_ne].
  - split; [intros [? _]%Hf; by apply E1|done].
  - split; [intros [? _]%Hf; by apply E1|done].
Qed.

Lemma restored_elem l c : c ∈ restored_of l -> c ∈ omap (fun x => fu_commit x.2) l.
Proof using.
  induction l as [|x l IH]; [by intros ?%not_elem_of_empty|]. unfold restored_of. cbn [foldr].
  rewrite elem_of_union, omap_cons'. intros H. unfold restored_by, fu_commit in *.
  destruct (parseNameScriptFull (PkScript x.2)) as [[[[[] name] value] extra]|e];
    try (destruct H as [?%not_elem_of_empty|?]; [done|by apply IH]).
  destruct H as [->%elem_of_singleton|?]; [by left|right; by apply IH].
Qed.

(** ** From the checks to the steps *)

(** What the stored state satisfies: a live record is the last of its history; a
    commitment is an encoded positive height. *)
Record state_ok (a : names_state) : Prop := {
  so_names : forall name r, s_names a !! name = Some r -> record_ok r /\ Name r = name /\ linked a name r;
  so_commits : forall c d, s_commits a !! c = Some d ->
    exists z, is_int32 z /\ 0 < z /\ d = le_bytes 4 (uint32 z);
  so_room : forall name, Z.of_nat (S (length (s_hashes a name))) < 2 ^ 25;
}.

Definition named (l : list item) : list item := filter (fun x => is_Some (out_name x.2)) l.

Record block_fresh (a : names_state) (txs : list MsgTx) : Prop := {
  bf_hash : forall x, x ∈ named (items txs) -> s_hist a !! x.1.1 = None;
  bf_one : NoDup ((fun x => x.1.1) <$> named (items txs));
  bf_fu : NoDup (omap (fun x => fu_commit x.2) (items txs));
  bf_keys : forall x c, x ∈ items txs -> out_commit x.2 = Some c -> key_ok c;
}.

Lemma items_outs txs : (fun x : item => x.2) <$> items txs = concat (TxOuts <$> txs).
Proof using.
  induction txs as [|tx txs IH]; [done|]. rewrite items_cons, fmap_app, IH. simpl. f_equal.
  unfold tx_items. rewrite <-list_fmap_compose. etrans; [|apply (indexed_snd (TxOuts tx))]. done.
Qed.

Lemma omap_items {A} (f : TxOut -> option A) (l : list item) :
  omap (fun x => f x.2) l = omap f ((fun x => x.2) <$> l).
Proof using.
  induction l as [|x l IH]; [done|]. cbn [fmap list_fmap]. rewrite !omap_cons', IH. done.
Qed.

Lemma items_op txs x : x ∈ items txs -> Forall (fun tx => Forall (output_ok n0 tx height) (TxOuts tx)) txs ->
  exists tx, tx ∈ txs /\ output_ok n0 tx height x.2.
Proof using.
  unfold items. intros (l & Hx & (tx & -> & Htx)%list_elem_of_fmap)%elem_of_concat F.
  exists tx. split; [done|]. rewrite Forall_forall in F. specialize (F tx Htx).
  rewrite Forall_forall in F. apply F. unfold tx_items in Hx.
  apply list_elem_of_fmap in Hx as (it & -> & Hit). simpl.
  rewrite <-(indexed_snd (TxOuts tx)). apply list_elem_of_fmap. eauto.
Qed.

Context (a : names_state) (txs : list MsgTx).
Context (Mo : models n0 a) (V : block_names_ok n0 height txs) (St : state_ok a)
  (Fr : block_fresh a txs) (He : none_expires height a).

Lemma commitment_state c : commitment_height n0 c = s_commits a !! c ≫= stored_height.
Proof using Mo.
  unfold commitment_height, ndb_commitment. by rewrite (md_commits _ _ Mo).
Qed.

Lemma commit_absent c : commitment_height n0 c = None -> s_commits a !! c = None.
Proof using Mo St.
  rewrite commitment_state. destruct (s_commits a !! c) as [d|] eqn:E; [|done]. simpl.
  destruct (so_commits _ St _ _ E) as (z & Hz & _ & ->). by rewrite stored_height_le.
Qed.

(** One output of the block, with what the checks and freshness say of it. *)
Lemma NoDup_omap_mid {A D} (f : A -> option D) l1 x l2 y : NoDup (omap f (l1 ++ x :: l2)) ->
  f x = Some y -> (y ∉ omap f l1) /\ (y ∉ omap f l2).
Proof using.
  rewrite omap_app, omap_cons'. intros Nd E. rewrite E in Nd.
  apply NoDup_app in Nd as (_ & N1 & N2). apply NoDup_cons in N2 as [? _].
  split; [intros Hin; apply (N1 _ Hin); by left|done].
Qed.

Lemma fresh_name l1 x l2 nm : items txs = l1 ++ x :: l2 -> out_name x.2 = Some nm ->
  s_names (steps l1 a) !! nm = s_names a !! nm /\ s_hashes (steps l1 a) nm = s_hashes a nm /\
  s_hist (steps l1 a) !! x.1.1 = None /\
  (forall h d, s_hist a !! h = Some d -> s_hist (steps l1 a) !! h = Some d).
Proof using V Fr.
  intros E En. pose proof (bn_names _ _ _ V) as Nd. rewrite <-items_outs, <-omap_items, E in Nd.
  destruct (NoDup_omap_mid _ _ _ _ _ Nd En) as [N1 _]. destruct (steps_name l1 a nm N1) as [-> ->].
  split; [done|]. split; [done|].
  assert (forall y, y ∈ l1 -> is_Some (out_name y.2) -> s_hist a !! y.1.1 = None) as H0.
  { intros y Hy Hs. apply (bf_hash _ _ Fr). apply list_elem_of_filter. split; [done|].
    rewrite E. apply elem_of_app. by left. }
  split.
  - rewrite steps_hist.
    + apply (bf_hash _ _ Fr). apply list_elem_of_filter. split; [by eexists|]. rewrite E.
      apply elem_of_app. right. by left.
    + intros y Hy Hs Ey. pose proof (bf_one _ _ Fr) as N. rewrite E in N. unfold named in N.
      rewrite filter_app, filter_cons_True in N by by eexists. rewrite fmap_app in N.
      apply NoDup_app in N as (_ & N & _). apply (N y.1.1).
      * apply list_elem_of_fmap. exists y. split; [done|]. by apply list_elem_of_filter.
      * simpl. rewrite Ey. by left.
  - intros h d Hd. rewrite steps_hist; [done|]. intros y Hy Hs <-. by rewrite H0 in Hd.
Qed.

Lemma valid_fits l1 x l2 : items txs = l1 ++ x :: l2 -> out_fits x.2 (steps l1 a).
Proof using Mo V St Fr.
  intros E op name value extra Ep.
  assert (x ∈ items txs) as Hx by (rewrite E; apply elem_of_app; right; by left).
  destruct (items_op txs x Hx (bn_ops _ _ _ V)) as (tx & _ & Ho).
  destruct (Ho _ _ _ _ Ep) as (_ & Hop & Hs).
  assert (op <> NameNew -> name_ok name /\ blen value <= MaxValueLength /\ room (steps l1 a) name) as K.
  { intros Hne. destruct (Hs Hne) as [Hl Hv]. split; [|split; [done|]].
    - unfold name_ok, MaxKeySize, blen, MaxNameLength in *. lia.
    - unfold room. assert (out_name x.2 = Some name) as En by (unfold out_name; rewrite Ep; by destruct op).
      destruct (fresh_name l1 x l2 name E En) as (_ & -> & _). pose proof (so_room _ St name). lia. }
  destruct op; [|by apply K..].
  assert (out_commit x.2 = Some extra) as Ec by (unfold out_commit; by rewrite Ep).
  split; [by eapply (bf_keys _ _ Fr)|].
  pose proof (bn_commits _ _ _ V) as Nd. rewrite <-items_outs, <-omap_items, E in Nd.
  destruct (NoDup_omap_mid _ _ _ _ _ Nd Ec) as [N1 _].
  apply (steps_commit l1 a extra N1). by apply commit_absent.
Qed.

Lemma fu_in_db y c : y ∈ items txs -> fu_commit y.2 = Some c -> is_Some (s_commits a !! c).
Proof using Mo V.
  intros Hy Ef. unfold fu_commit in Ef.
  destruct (parseNameScriptFull (PkScript y.2)) as [[[[[] name] value] extra]|e] eqn:Ep; try done.
  injection Ef as <-. destruct (items_op txs y Hy (bn_ops _ _ _ V)) as (tx & _ & Ho).
  destruct (Ho _ _ _ _ Ep) as (_ & (_ & z & Ez & _) & _). rewrite commitment_state in Ez.
  fold (commit_of extra name) in Ez. destruct (s_commits a !! _); [by eexists|done].
Qed.

Lemma commit_not_fu (l : list item) (x : item) c : (forall y, y ∈ l -> y ∈ items txs) -> out_commit x.2 = Some c ->
  x ∈ items txs -> c ∉ omap (fun y => fu_commit y.2) l.
Proof using Mo V St.
  intros Hl Ec Hx (y & Hy & Ef)%list_elem_of_omap.
  destruct (fu_in_db y c (Hl _ Hy) Ef) as [d Ed].
  unfold out_commit in Ec. destruct (parseNameScriptFull (PkScript x.2)) as [[[[[] name] value] extra]|e] eqn:Ep; try done.
  injection Ec as <-. destruct (items_op txs x Hx (bn_ops _ _ _ V)) as (tx & _ & Ho).
  destruct (Ho _ _ _ _ Ep) as (_ & Hop & _). simpl in Hop. apply commit_absent in Hop. congruence.
Qed.

Lemma valid_undoable : block_undoable params height blockTime a txs.
Proof using Mo V St Fr He.
  intros l1 x l2 E op name value extra Ep.
  assert (x ∈ items txs) as Hx by (rewrite E; apply elem_of_app; right; by left).
  assert (forall y, y ∈ l1 -> y ∈ items txs) as Hl1 by (intros y ?; rewrite E; apply elem_of_app; by left).
  assert (forall y, y ∈ l2 -> y ∈ items txs) as Hl2 by (intros y ?; rewrite E; apply elem_of_app; right; by right).
  pose proof (valid_fits l1 x l2 E _ _ _ _ Ep) as Hfit.
  destruct (items_op txs x Hx (bn_ops _ _ _ V)) as (tx & _ & Ho).
  destruct (Ho _ _ _ _ Ep) as (_ & Hop & _).
  destruct op.
  - destruct Hfit as [_ Hn]. split; [done|]. intros Hr%restored_elem.
    assert (out_commit x.2 = Some extra) as Ec by (unfold out_commit; by rewrite Ep).
    by apply (commit_not_fu l2 x extra Hl2 Ec Hx).
  - assert (out_name x.2 = Some name) as En by (unfold out_name; by rewrite Ep).
    destruct (fresh_name l1 x l2 name E En) as (E1 & E2 & E3 & E4). destruct Hop as [Hfree (z & Ez & Hz)].
    split; [apply Hfit|]. split; [rewrite E2; apply (so_room _ St)|]. split; [done|]. split.
    + rewrite E1. destruct (s_names a !! name) as [r|] eqn:Er; [|done].
      pose proof (He _ _ Er). rewrite <-(md_names _ _ Mo) in Er. specialize (Hfree _ Er). lia.
    + assert (fu_commit x.2 = Some (commit_of extra name)) as Ef by (unfold fu_commit; by rewrite Ep).
      rewrite commitment_state in Ez. fold (commit_of extra name) in Ez.
      destruct (s_commits a !! commit_of extra name) as [d|] eqn:Ed; [|done].
      destruct (so_commits _ St _ _ Ed) as (z' & Hz' & Hp & ->).
      exists z'. split; [done|]. split; [lia|].
      pose proof (bf_fu _ _ Fr) as Nd. rewrite E in Nd.
      destruct (NoDup_omap_mid _ _ _ _ _ Nd Ef) as [N1 _].
      destruct (steps_commit l1 a (commit_of extra name)) as [K _]; [|by rewrite K].
      intros (y & Hy & Ey)%list_elem_of_omap.
      unfold out_commit in Ey.
      destruct (parseNameScriptFull (PkScript y.2)) as [[[[[] nm'] v'] ex']|e] eqn:Epy; try done.
      injection Ey as ->. destruct (items_op txs y (Hl1 _ Hy) (bn_ops _ _ _ V)) as (tx' & _ & Ho').
      destruct (Ho' _ _ _ _ Epy) as (_ & Hop' & _). simpl in Hop'. apply commit_absent in Hop'. congruence.
  - assert (out_name x.2 = Some name) as En by (unfold out_name; by rewrite Ep).
    destruct (fresh_name l1 x l2 name E En) as (E1 & E2 & E3 & E4).
    destruct Hop as (r & txIn & Er & _ & _ & _). rewrite (md_names _ _ Mo) in Er.
    destruct (so_names _ St _ _ Er) as (Hr & Hnm & h0 & Hl & Hh).
    split; [apply Hfit|]. split; [rewrite E2; apply (so_room _ St)|]. split; [done|].
    exists r. rewrite E1. split_and!; try done. exists h0. rewrite E2. split; [done|by apply E4].
Qed.

End valid.
