(* ===== verification/Ref.v ===== *)
(** * Concrete inputs

    An instance of the parameters (the reference store, encodings and hash), a fresh
    database and one with a name, and the scripts of the three operations: the
    inputs at which the theorems of the property files are instantiated. *)

From S2P Require Import Prelude Bolt Lru Record NameDB NamesSpec ExpirySpec Utxo UtxoSpec.
From S2P Require Import Config Script ScriptSpec Wire AuxPow Chain ChainSpec ChainNames ChainUpdate UpdateSpec.

(** [Hash160] of the instance: the first 20 bytes, padded.  The address of a P2PKH script
    is its hash in hexadecimal; no other script has one. *)
#[export] Instance RefBtc : BtcLib := {
  Hash160 b := take 20 (b ++ replicate 20 Byte.x00);
  ExtractPkScriptAddrs script p :=
    let h := slice script 3 23 in Ok (if bool_decide (script = p2pkh h) then [hex_EncodeToString h] else []);
  CheckProofOfWork hdr limit := Ok tt;
}.

#[export] Instance RefBtcLaws : BtcLaws RefBtc.
Proof.
  split.
  - intros b. change (Hash160 b) with (take 20 (b ++ replicate 20 Byte.x00)). rewrite length_take, length_app, length_replicate. lia.
  - intros script p addrs. simpl. intros [= <-]. case_bool_decide; [|constructor]. constructor; [|constructor].
    assert (forall b, length (hex_EncodeToString b) = 2 * length b)%nat as Hl.
    { intros b. unfold hex_EncodeToString. induction b as [|c b IH]; [done|]. simpl in *. rewrite IH. lia. }
    rewrite Hl. unfold slice. rewrite length_take, length_drop. lia.
Qed.

Definition fresh_db : @NameDatabase RefBolt :=
  {| db := Some fresh_tx; cache := newLRUCache 10000 10000; closed := false |}.

Lemma fresh_wf : ndb_wf fresh_db.
Proof. apply ndb_wf_new. Qed.

Lemma fresh_bkt b : ndb_bkt fresh_db b = ∅.
Proof. by destruct b. Qed.

Lemma fresh_open : ndb_open fresh_db.
Proof. apply ndb_wf_open, fresh_wf. Qed.

Lemma fresh_hist_wf : ndb_hist_wf fresh_db.
Proof. split; [apply fresh_open|]. rewrite !fresh_bkt. split; intros ? ?; by rewrite lookup_empty. Qed.

Lemma fresh_utxo_wf : ndb_utxo_wf fresh_db.
Proof.
  split; [apply fresh_open|]. rewrite !fresh_bkt. split.
  - intros ? ?. by rewrite lookup_empty.
  - intros k v. rewrite lookup_empty. split; [done|]. intros (_ & u & Hu & _).
    rewrite utxos_of_lookup, lookup_empty in Hu. done.
Qed.

Lemma fresh_names : ndb_names fresh_db = ∅.
Proof. unfold ndb_names. rewrite fresh_bkt. apply map_eq. intros k. by rewrite names_of_lookup, !lookup_empty. Qed.

Definition empty_state : names_state := mkNames ∅ (fun _ => []) ∅ ∅.

Lemma fresh_models : models fresh_db empty_state.
Proof.
  split; [apply fresh_wf|apply fresh_hist_wf|apply fresh_names| |apply fresh_bkt|apply fresh_bkt].
  intros name. unfold ndb_hashes, hashes. by rewrite fresh_bkt.
Qed.

(** A name and its record. *)
Definition the_name : bytes := str "d/example".
Definition the_hash : bytes := replicate 32 Byte.x07.
Definition the_record : NameRecord :=
  {| Name := the_name; Value := str "{}"; Record.TxHash := the_hash; OutIndex := 0; Height := 100;
     ExpiresAt := 36100; Address := str "N1"; UpdatedAt := 1700000000; NameNewHeight := 80 |}.

Lemma the_record_ok : record_ok the_record.
Proof. split; by vm_compute. Qed.

Lemma the_name_ok : name_ok the_name.
Proof. by vm_compute. Qed.

(** The database after [PutName], and after [AddHistory] too. *)
Definition named_db : @NameDatabase RefBolt := (PutName the_name (Some the_record) fresh_db).2.
Definition hist_db : @NameDatabase RefBolt := (AddHistory the_hash (Some the_record) named_db).2.

Definition named_state : names_state := put_record the_name the_record the_hash empty_state.

Lemma wp_run {S A} (m : M S A) (P : A -> S -> Prop) s :
  wp m P (fun _ _ => False) s -> exists a, P a (m s).2.
Proof. unfold wp. destruct (m s) as [[a|e] s']; [eauto|done]. Qed.

Lemma named_models : models named_db (put_name the_name the_record empty_state).
Proof.
  destruct (wp_run _ _ _ (PutName_models fresh_db empty_state the_name the_record
    fresh_models the_record_ok the_name_ok eq_refl)) as (r & _ & H & _). exact H.
Qed.

Lemma hist_models : models hist_db named_state.
Proof.
  destruct (wp_run _ _ _ (AddHistory_models named_db empty_state the_hash the_record named_models
    the_record_ok the_name_ok eq_refl ltac:(by vm_compute))) as (_ & H & _). exact H.
Qed.

(** An output of the UTXO set. *)
Definition the_utxo : UTXO :=
  {| u_TxHash := replicate 32 Byte.x09; u_OutIndex := 1; u_Value := 500000000;
     u_Address := str "N1"; u_PkScript := [Byte.x51]; u_Height := 90 |}.

Lemma the_utxo_ok : utxo_ok the_utxo.
Proof. split; by vm_compute. Qed.

Definition utxo_db : @NameDatabase RefBolt := (AddUTXO (Some the_utxo) fresh_db).2.

Lemma utxo_db_spec : ndb_utxo_wf utxo_db /\ cache utxo_db = cache fresh_db /\
  frame utxo_buckets fresh_db utxo_db /\ ndb_utxos utxo_db = <[uk the_utxo := the_utxo]> ∅.
Proof.
  assert (ndb_utxos fresh_db = ∅) as E0.
  { unfold ndb_utxos. rewrite fresh_bkt. apply map_eq. intros k. by rewrite utxos_of_lookup, !lookup_empty. }
  destruct (wp_run _ _ _ (AddUTXO_correct fresh_db the_utxo fresh_utxo_wf the_utxo_ok
    ltac:(intros u'; rewrite E0; by rewrite lookup_empty))) as (_ & H1 & H2 & H3 & H4).
  rewrite E0 in H4. exact (conj H1 (conj H2 (conj H3 H4))).
Qed.

Definition pkh : bytes := replicate 20 Byte.x05.
(** The script a builder made. *)
Definition built (r : res bytes) : bytes := match r with Ok s => s | Err _ => [] end.
Definition new_script (c : bytes) : bytes := built (BuildNameNewScript c pkh).
Definition first_script (name rand value : bytes) : bytes :=
  built (BuildNameFirstUpdateScript name (hex_EncodeToString rand) value pkh).
Definition update_script (name value : bytes) : bytes := built (BuildNameUpdateScript name value pkh).

(** A commitment to the name. *)
Definition the_rand : bytes := str "12345678".
Definition the_commit : bytes := computeCommitHash Hash160 the_rand the_name.
