(* ===== verification/BlockProps.v ===== *)
(** * Properties: blocks of the main chain

    The theorems about connecting and disconnecting a block, on the specification of
    BlockSpec.v, each with the concrete block it was tried on. *)

From S2P Require Import Prelude Bolt Lru Record NameDB NamesSpec ExpirySpec Utxo.
From S2P Require Import UtxoSpec Config Script Wire AuxPow Chain ChainUpdate ChainSpec ChainNames.
From S2P Require Import UpdateSpec BlockSpec Ref.

Section props.
Context {B : Bolt} {L : BoltLaws B} {C : BoltCommits B}.
Context {W : Wire} {LW : WireLaws W} {G : BtcLib} {LG : BtcLaws G} {R : MapRange}.

(** A database that models [a] and has no backups of blocks of this height; no name
    is due. *)
Record chain_state (n : NameDatabase) (a : names_state) (height : Z) : Prop := {
  cs_models : models n a;
  cs_ok : state_ok a;
  cs_utxos : ndb_utxo_wf n;
  cs_live : none_expires height a;
  cs_cleanup : no_cleanup height;
  cs_expired : no_expired_backup height n;
  cs_spent : no_spent_backup n height;
}.

(** What btcd checks of a block's inputs and outputs: no double spend, every input
    known before the block, every output new; sizes the store can encode. *)
Record block_spends (params : Params) (height : Z) (n : NameDatabase) (txs : list MsgTx) : Prop := {
  sp_ins : forall txIn, txIn ∈ concat (TxIns <$> tail txs) -> in_ok txIn /\ is_Some (spent_output n txIn);
  sp_spends : NoDup (uk <$> spent_by n (tail txs));
  sp_outs : forall x, x ∈ items txs ->
    utxo_ok (item_utxo params height x) /\ ndb_utxos n !! uk (item_utxo params height x) = None;
  sp_keys : NoDup ((fun x => uk (item_utxo params height x)) <$> items txs);
}.

(** A block that the checks of its name operations accepted. *)
Record accepted (bc : chain_view) (params : Params) (n : NameDatabase) (a : names_state)
    (block : btcBlock) : Prop := {
  ac_height : determineBlockHeight bc block = Ok (blk_Height block);
  ac_names : (validateNameOperations bc block n).1 = Ok tt;
  ac_txs : txs_ok (blk_Txs block);
  ac_coinbase : blk_Txs block <> [];
  ac_spends : block_spends params (blk_Height block) n (blk_Txs block);
  ac_fresh : block_fresh a (blk_Txs block);
  ac_int : is_int32 (blk_Height block);
  ac_time : is_int64 (Timestamp (blk_Header block));
}.

(** The hypotheses of BlockSpec.v from these. *)
Lemma accepted_ready bc params n a block : chain_state n a (blk_Height block) ->
  accepted bc params n a block ->
  let h := blk_Height block in let t := Timestamp (blk_Header block) in
  block_ready params h t n a (blk_Txs block) /\ block_undoable params h t a (blk_Txs block).
Proof using L C LG LW.
  intros [Mo So Wu Hl Hc Hx Hs] [Ah An At Ac [S1 S2 S3 S4] Af Ai Aj].
  destruct (blk_Txs block) as [|cb rest] eqn:Etx; [done|].
  assert (block_names_ok n (blk_Height block) (cb :: rest)) as V.
  { pose proof (determineBlockHeight_nonneg _ _ _ Ah) as H0.
    pose proof (validateNameOperations_decides n (md_wf _ _ Mo) Wu bc block (blk_Height block) Ah H0 Ai
      ltac:(by rewrite Etx) n (conj (conj eq_refl eq_refl) (md_wf _ _ Mo))) as D.
    unfold wp in D. destruct (validateNameOperations bc block n) as [[[]|e] n']; [|done].
    rewrite Etx in D. apply D. }
  split; [split; try done|].
  - intros l1 x l2 E. by eapply (valid_fits params _ _ n a (cb :: rest)).
  - by eapply (valid_undoable params _ _ n a (cb :: rest)).
Qed.



End props.

(** ** A block with a NAME_UPDATE *)

Definition name_utxo : UTXO :=
  {| u_TxHash := the_hash; u_OutIndex := 0; u_Value := 500000000; u_Address := str "N1";
     u_PkScript := [Byte.x51]; u_Height := 100 |}.

Lemma name_utxo_ok : utxo_ok name_utxo.
Proof. split; by vm_compute. Qed.

(** A live name whose output is unspent. *)
Definition live_db : @NameDatabase RefBolt := (AddUTXO (Some name_utxo) hist_db).2.

Lemma hist_db_utxos : ndb_utxo_wf hist_db /\ ndb_utxos hist_db = ∅.
Proof.
  pose proof hist_models as M.
  assert (forall b, b ∈ [utxoBucket; utxoAddrBucket] -> ndb_bkt hist_db b = ∅) as E.
  { intros b [->|[->|H]%elem_of_cons]%elem_of_cons; [by vm_compute..|by apply not_elem_of_nil in H]. }
  unfold ndb_utxos. split; [split; [apply ndb_wf_open, M|]|]; rewrite !E by set_solver.
  - pose proof fresh_utxo_wf as [_ Wf]. by rewrite !fresh_bkt in Wf.
  - apply map_eq. intros k. by rewrite utxos_of_lookup, !lookup_empty.
Qed.

Lemma live_db_spec : models live_db named_state /\ ndb_utxo_wf live_db /\
  ndb_utxos live_db = <[uk name_utxo := name_utxo]> ∅.
Proof.
  destruct hist_db_utxos as [Wf E0].
  destruct (wp_run _ _ _ (AddUTXO_correct hist_db name_utxo Wf name_utxo_ok
    ltac:(intros u'; rewrite E0; by rewrite lookup_empty))) as (_ & H1 & H2 & H3 & H4).
  rewrite E0 in H4. split; [|exact (conj H1 H4)].
  eapply models_utxo_side; [apply H1|exact H2| |apply hist_models].
  by eapply frame_weaken; [|exact H3].
Qed.

Definition the_update : TxOut := {| to_Value := 1000000; PkScript := update_script the_name (str "[]") |}.
Definition update_tx : MsgTx :=
  {| tx_Version := 1; LockTime := 0;
     TxIns := [{| PreviousOutPoint := mkOutPoint the_hash 0; SignatureScript := []; Sequence := 0 |}];
     TxOuts := [the_update] |}.
Definition coinbase_tx : MsgTx :=
  {| tx_Version := 1; LockTime := 0;
     TxIns := [{| PreviousOutPoint := mkOutPoint zero_hash 0; SignatureScript := []; Sequence := 0 |}];
     TxOuts := [{| to_Value := 5000000000; PkScript := [Byte.x51] |}] |}.
Definition the_block : btcBlock :=
  {| blk_Header := {| hdr_Version := 1; PrevBlock := zero_hash; MerkleRoot := []; Timestamp := 1700000600;
                      Bits := 0; Nonce := 0 |};
     blk_Height := 150; blk_Txs := [coinbase_tx; update_tx] |}.
Definition the_view : chain_view :=
  {| chain_nil := false; nameDB_nil := false; BlockHeightByHash := fun _ => None;
     chainParams := NamecoinMainNetParams |}.

Lemma live_chain_state : chain_state live_db named_state (blk_Height the_block).
Proof.
  destruct live_db_spec as (Mo & Wf & _). split; [done| |done| |left; by vm_compute| |].
  - split.
    + intros name r Er. unfold named_state in Er. simpl in Er.
      apply lookup_insert_Some in Er as [[<- <-]|[_ Er]]; [|by rewrite lookup_empty in Er].
      split; [apply the_record_ok|]. split; [done|]. exists the_hash. split; [by vm_compute|].
      simpl. by rewrite lookup_insert_eq.
    + intros c d. simpl. by rewrite lookup_empty.
    + intros name. simpl. destruct (decide (name = the_name)); simpl; lia.
  - intros name r Er. unfold named_state in Er. simpl in Er.
    apply lookup_insert_Some in Er as [[<- <-]|[_ Er]]; [by vm_compute|by rewrite lookup_empty in Er].
  - intros k _. assert (ndb_bkt live_db expiredNamesIdxBucket = ∅) as -> by by vm_compute.
    by rewrite lookup_empty.
  - intros k _. assert (ndb_bkt live_db spentUtxoIdxBucket = ∅) as -> by by vm_compute.
    by rewrite lookup_empty.
Qed.

Lemma live_spent txIn : txIn ∈ TxIns update_tx -> in_ok txIn /\ spent_output live_db txIn = Some name_utxo.
Proof.
  intros ->%list_elem_of_singleton. split; [by split; vm_compute|].
  unfold spent_output. destruct live_db_spec as (_ & _ & ->). by rewrite lookup_insert_eq.
Qed.

Lemma live_spent_by : spent_by live_db [update_tx] = [name_utxo].
Proof.
  rewrite spent_by_one. destruct (live_spent _ ltac:(by left)) as [_ E].
  cbn [update_tx TxIns omap list_omap]. by rewrite E.
Qed.

Definition item1 : item := (TxHash coinbase_tx, 0%nat, {| to_Value := 5000000000; PkScript := [Byte.x51] |}).
Definition item2 : item := (TxHash update_tx, 0%nat, the_update).

Lemma the_items : items (blk_Txs the_block) = [item1; item2].
Proof. reflexivity. Qed.

Lemma item_ok x : x ∈ items (blk_Txs the_block) ->
  utxo_ok (item_utxo NamecoinMainNetParams 150 x) /\
  uk (item_utxo NamecoinMainNetParams 150 x) <> uk name_utxo /\
  x.1.1 <> the_hash /\ out_commit x.2 = None.
Proof.
  rewrite the_items. intros [->| ->%list_elem_of_singleton]%elem_of_cons;
    (split; [split; by vm_compute|split; [by vm_compute|split; by vm_compute]]).
Qed.

Lemma the_block_spends : block_spends NamecoinMainNetParams 150 live_db (blk_Txs the_block).
Proof.
  split.
  - intros txIn Hin. destruct (live_spent txIn Hin) as [? ->]. eauto.
  - change (tail (blk_Txs the_block)) with [update_tx]. rewrite live_spent_by. apply NoDup_singleton.
  - intros x Hx. destruct (item_ok x Hx) as (? & Hne & _). split; [done|].
    rewrite (proj2 (proj2 live_db_spec)). by rewrite lookup_insert_ne, lookup_empty.
  - rewrite the_items. apply (bool_decide_unpack _). by vm_compute.
Qed.

Lemma the_block_fresh : block_fresh named_state (blk_Txs the_block).
Proof.
  split.
  - intros x Hx. apply list_elem_of_filter in Hx as [_ Hx]. destruct (item_ok x Hx) as (_ & _ & Hne & _).
    unfold named_state. cbn [put_record s_hist].
    rewrite lookup_insert_ne by congruence. apply lookup_empty.
  - rewrite the_items. apply (bool_decide_unpack _). by vm_compute.
  - rewrite the_items. apply (bool_decide_unpack _). by vm_compute.
  - intros x c Hx Ec. destruct (item_ok x Hx) as (_ & _ & _ & E). by rewrite E in Ec.
Qed.

Lemma the_block_txs : txs_ok (blk_Txs the_block).
Proof.
  apply Forall_cons; split; [|apply Forall_singleton]; (split; [|repeat constructor; by vm_compute]);
    repeat constructor; by vm_compute.
Qed.

Lemma the_block_accepted : accepted the_view NamecoinMainNetParams live_db named_state the_block.
Proof.
  split; [by vm_compute|by vm_compute|apply the_block_txs|done|apply the_block_spends
    |apply the_block_fresh|by vm_compute|by vm_compute].
Qed.



(** ** Concrete runs

    Runs of the model on small inputs where the code's behaviour is not what its
    comments promise: a name that expires and is registered again in one block, an
    output of negative value in the mempool, a NAME_NEW that is not reported. *)

(** ** A name that expires and is registered again in the same block *)

(** The live name of [live_db], and a commitment to it that is old enough at 36101. *)
Definition committed_db : @NameDatabase RefBolt := (PutNameNew the_commit 36000 live_db).2.

Definition first_tx : MsgTx :=
  {| tx_Version := 1; LockTime := 0; TxIns := TxIns update_tx;
     TxOuts := [{| to_Value := 1000000; PkScript := first_script the_name the_rand (str "{}") |}] |}.

(** The name's last height is 36100. *)
Definition expiry_block : btcBlock :=
  {| blk_Header := blk_Header the_block; blk_Height := 36101; blk_Txs := [coinbase_tx; first_tx] |}.

Definition reconnected : res (list error) * NameDatabase :=
  (updateNameDatabase NamecoinMainNetParams expiry_block;; rollbackNameOperations expiry_block) committed_db.

(** A valid block in which a name expires and is registered again connects and
    disconnects without an error, and the name, which was there before the block, is
    gone after it is disconnected. *)
Theorem reregistered_name_lost :
  (validateNameOperations the_view expiry_block committed_db).1 = Ok tt /\
  reconnected.1 = Ok [] /\
  ndb_names committed_db !! the_name = Some the_record /\
  ndb_names reconnected.2 !! the_name = None.
Proof. split_and!; vm_compute; reflexivity. Qed.

(** ** An output of negative value *)

(** [update_tx] with two more outputs: ten thousand coins, and as many less than zero. *)
Definition minting_tx : MsgTx :=
  {| tx_Version := 1; LockTime := 0; TxIns := TxIns update_tx;
     TxOuts := the_update :: [{| to_Value := 1000000000000; PkScript := [Byte.x51] |};
                              {| to_Value := -1000000000000; PkScript := [Byte.x51] |}] |}.

(** The mempool's own checks take it: the negative output makes the sum of the outputs
    as small as the inputs. *)
Lemma negative_output_accepted :
  (ValidateMempoolTransaction 150 (Some minting_tx) live_db).1 = Ok tt.
Proof. vm_compute. reflexivity. Qed.

(** ** A NAME_NEW that is not reported *)

Definition new_tx : MsgTx :=
  {| tx_Version := 1; LockTime := 0; TxIns := TxIns update_tx;
     TxOuts := [{| to_Value := 1000000; PkScript := new_script the_commit |}] |}.

Lemma name_new_unreported :
  (ValidateMempoolTransaction 150 (Some new_tx) live_db).1 = Ok tt /\
  ParseNameOperationsFromTx new_tx = [].
Proof. split; vm_compute; reflexivity. Qed.

(** ** Two names in one transaction *)

Definition secret_record : NameRecord :=
  {| Name := str "d/other"; Value := str "secret"; Record.TxHash := replicate 32 Byte.x08; OutIndex := 1;
     Height := 150; ExpiresAt := 36150; Address := str "N2"; UpdatedAt := 1700000600; NameNewHeight := 80 |}.

(** The history of the first name shows the value of the second. *)
Lemma history_of_two_names :
  ((AddHistory (replicate 32 Byte.x08) (Some the_record);;
    AddHistory (replicate 32 Byte.x08) (Some secret_record);;
    h ← GetHistory the_name; mret (Value <$> h)) hist_db).1 = Ok [str "{}"; str "secret"].
Proof. vm_compute. reflexivity. Qed.
