(* ===== verification/Grown.v ===== *)
(** * Databases that blocks have built

    [grown]: the databases that one without names and outputs of names becomes by
    connecting and disconnecting accepted blocks.  In all of them the output of a name is filed under no address
    ([names_hidden]): chain/blockchain.go asks [ExtractPkScriptAddrs] for the address of
    the whole script, which is not a standard one. *)

From S2P Require Import Prelude Bolt Lru Record NameDB NamesSpec ExpirySpec Utxo UtxoSpec.
From S2P Require Import Config Script ScriptSpec Wire AuxPow Chain ChainSpec ChainNames ChainUpdate UpdateSpec BlockSpec BlockProps.

(** The script begins with one of the three opcodes of names. *)
Definition name_opcode (script : bytes) : bool :=
  (opNameNew <=? at_ script 0) && (at_ script 0 <=? opNameUpdate).

(** Only standard scripts have addresses, and none begins with such an opcode. *)
Class StandardLaws (G : BtcLib) := nonstandard_addrs script p addrs :
  name_opcode script = true -> ExtractPkScriptAddrs script p = Ok addrs -> addrs = [].

Lemma parse_opcode script x : parseNameScriptFull script = Ok x -> name_opcode script = true.
Proof.
  unfold parseNameScriptFull, name_opcode. case_bool_decide; [done|]. unfold mbind, res_bind, parseNameData.
  destruct (Z.eqb_spec (at_ script 0) opNameNew) as [->|]; [done|].
  destruct (Z.eqb_spec (at_ script 0) opNameFirstUpdate) as [->|]; [done|].
  destruct (Z.eqb_spec (at_ script 0) opNameUpdate) as [->|]; done.
Qed.

Section views.
Context {B : Bolt} {L : BoltLaws B} {C : BoltCommits B}.
Context {W : Wire} {G : BtcLib} {R : MapRange}.

(** What a query sees of a database. *)
Record db_view (n : NameDatabase) (a : names_state) (U : gmap bytes UTXO) : Prop := {
  dv_models : models n a;
  dv_utxos : ndb_utxo_wf n;
  dv_map : ndb_utxos n = U;
}.

Lemma same_store_bkt n n' b : same_store n n' -> ndb_bkt n' b = ndb_bkt n b.
Proof. intros [E _]. unfold ndb_bkt. by rewrite E. Qed.

Lemma same_store_view n n' a U : same_store n n' -> ndb_wf n' -> db_view n a U -> db_view n' a U.
Proof using L.
  intros S Wf [M [O Wu] <-]. split; [by eapply models_store| |].
  - split; [by apply ndb_wf_open|]. by rewrite !(same_store_bkt n n') by done.
  - unfold ndb_utxos. by rewrite (same_store_bkt n n').
Qed.

(** An operation on the names leaves the outputs alone. *)
Lemma frame_utxos n n' : ndb_open n' -> frame name_side n n' -> ndb_utxo_wf n ->
  ndb_utxo_wf n' /\ ndb_utxos n' = ndb_utxos n.
Proof using.
  intros O [_ Fr] [_ Wu]. unfold ndb_utxos. assert (ndb_bkt n' utxoBucket = ndb_bkt n utxoBucket) as E1 by (apply Fr; bucket_notin).
  assert (ndb_bkt n' utxoAddrBucket = ndb_bkt n utxoAddrBucket) as E2 by (apply Fr; bucket_notin).
  rewrite E1. split; [|done]. split; [done|]. by rewrite E1, E2.
Qed.

Lemma GetName_view n a U name : db_view n a U ->
  wp (GetName name) (fun r n' => db_view n' a U /\ s_names a !! name = Some r)
    (fun e n' => db_view n' a U /\ e = ErrNameNotFound /\ s_names a !! name = None) n.
Proof using L.
  intros V. eapply wp_mono; [apply GetName_correct, V| |]; simpl.
  - intros r n' (W' & S' & E). rewrite (md_names _ _ (dv_models _ _ _ V)) in E. eauto using same_store_view.
  - intros e n' (W' & S' & -> & E). rewrite (md_names _ _ (dv_models _ _ _ V)) in E. eauto using same_store_view.
Qed.

Lemma view_record n a U name r : db_view n a U -> s_names a !! name = Some r ->
  outpoint_ok (Record.TxHash r) (OutIndex r).
Proof using.
  intros [M _ _]. rewrite <-(md_names _ _ M). intros E.
  destruct (names_of_ok _ _ _ _ (wf_names _ (md_wf _ _ M)) E) as ([] & _). by split.
Qed.

Lemma GetNameUTXO_view n a U name : db_view n a U ->
  wp (GetNameUTXO name)
    (fun u n' => db_view n' a U /\ exists r, s_names a !! name = Some r /\
       u_TxHash u = Record.TxHash r /\ u_OutIndex u = OutIndex r)
    (fun e n' => db_view n' a U /\ panics e = false) n.
Proof using L.
  intros V. unfold GetNameUTXO. autorewrite with wp.
  eapply wp_mono; [by apply GetName_view| |]; simpl; [|by intros e n' (? & -> & _)].
  intros r n' [V' E]. pose proof (view_record _ _ _ _ _ V' E) as Ho. autorewrite with wp.
  eapply wp_mono; [apply GetUTXO_correct; [apply V'|done]| |]; simpl; [|by intros e n'' (-> & -> & _)].
  intros u n'' [-> Eu]. split; [done|]. exists r. split; [done|].
  destruct (utxos_of_ok _ _ _ _ (uwf_set _ (dv_utxos _ _ _ V')) Eu) as (Hu & Ek & _).
  by apply makeUTXOKey_inj in Ek as [-> ->]; [|done|apply utxo_outpoint].
Qed.

Lemma GetUTXOs_view n a U addr : db_view n a U ->
  wp (GetUTXOsForAddress addr)
    (fun l n' => n' = n /\ addr <> [] /\ forall u, u ∈ l <-> U !! uk u = Some u /\ u_Address u = addr)
    (fun e n' => n' = n /\ panics e = false) n.
Proof using L.
  intros [_ Wu <-]. destruct (decide (addr = [])) as [->|Ha].
  - unfold GetUTXOsForAddress. rewrite bool_decide_true by done. by rewrite wp_fail.
  - eapply wp_mono; [by apply GetUTXOsForAddress_correct| |done]; simpl. by intros l n' (-> & _ & Hl).
Qed.

Lemma GetNameNew_view n a U c : db_view n a U ->
  wp (GetNameNew c) (fun _ n' => n' = n) (fun e n' => n' = n /\ panics e = false) n.
Proof using L.
  intros V. destruct (dv_utxos _ _ _ V) as [(t & Hdb & F) _].
  apply (wp_View _ _ _ _ t); [done|]. wp_steps.
  destruct (bk t nameNewBucket !! c) as [d|]; [|by wp_steps]. case_bool_decide; by wp_steps.
Qed.

(** ** The outputs of names are filed under no address *)

Record names_hidden (a : names_state) (U : gmap bytes UTXO) : Prop := {
  hd_addr : forall k u, U !! k = Some u -> name_opcode (u_PkScript u) = true -> u_Address u = [];
  hd_out : forall name r u, s_names a !! name = Some r ->
    U !! makeUTXOKey (Record.TxHash r) (OutIndex r) = Some u -> name_opcode (u_PkScript u) = true;
}.

Lemma hidden_output a U name r u : names_hidden a U -> s_names a !! name = Some r ->
  U !! uk u = Some u -> u_Address u <> [] -> ~ (u_TxHash u = Record.TxHash r /\ u_OutIndex u = OutIndex r).
Proof using.
  intros H Er Eu Ha [E1 E2]. apply Ha. unfold uk in *. rewrite E1, E2 in Eu.
  eapply hd_addr; [done|exact Eu|]. by eapply hd_out.
Qed.

End views.

Section grown.
Context {B : Bolt} {L : BoltLaws B} {C : BoltCommits B}.
Context {W : Wire} {LW : WireLaws W} {G : BtcLib} {LG : BtcLaws G} {SG : StandardLaws G} {R : MapRange}.
Context (params : Params).

(** No output of the block has the outpoint of a recorded name: transaction hashes do not
    repeat. *)
Definition new_outpoints (height : Z) (a : names_state) (txs : list MsgTx) : Prop :=
  forall x name r, x ∈ items txs -> s_names a !! name = Some r ->
    uk (item_utxo params height x) <> makeUTXOKey (Record.TxHash r) (OutIndex r).

Inductive grown : NameDatabase -> names_state -> Prop :=
  | grown_new n a : models n a -> ndb_utxo_wf n -> s_names a = ∅ ->
      (forall k u, ndb_utxos n !! k = Some u -> name_opcode (u_PkScript u) = false) -> grown n a
  | grown_connect n a bc block n' :
      grown n a -> chain_state n a (blk_Height block) -> accepted bc params n a block ->
      new_outpoints (blk_Height block) a (blk_Txs block) ->
      updateNameDatabase params block n = (Ok tt, n') ->
      grown n' (steps params (blk_Height block) (Timestamp (blk_Header block)) (items (blk_Txs block)) a)
  | grown_disconnect n a bc block errs n' :
      grown n a -> chain_state n a (blk_Height block) -> accepted bc params n a block ->
      (updateNameDatabase params block;; rollbackNameOperations block) n = (Ok errs, n') ->
      grown n' a.

(** A record after the steps was there before or is that of one of the outputs. *)
Lemma steps_record h t l a name r : s_names (steps params h t l a) !! name = Some r ->
  s_names a !! name = Some r \/
  exists x, x ∈ l /\ name_opcode (PkScript x.2) = true /\ Record.TxHash r = x.1.1 /\ OutIndex r = uint32 (Z.of_nat x.1.2).
Proof using.
  induction l as [|x l IH] using rev_ind; [by left|]. rewrite steps_snoc. intros E.
  assert (s_names (steps params h t l a) !! name = Some r \/
    name_opcode (PkScript x.2) = true /\ Record.TxHash r = x.1.1 /\ OutIndex r = uint32 (Z.of_nat x.1.2)) as [Hr|Hr].
  { revert E. unfold item_step, out_step.
    destruct (parseNameScriptFull (PkScript x.2)) as [[[[[] nm] v] ex]|e] eqn:Ep; [by left| | |by left].
    all: apply parse_opcode in Ep; simpl; intros [[<- <-]|[? ?]]%lookup_insert_Some; [by right|by left]. }
  - destruct (IH Hr) as [?|(y & Hy & ?)]; [by left|]. right. exists y. rewrite elem_of_app. eauto.
  - right. exists x. rewrite elem_of_app, list_elem_of_singleton. eauto.
Qed.

Lemma created_in h l : forall M k u, created params h l M !! k = Some u ->
  M !! k = Some u \/ exists x, x ∈ l /\ u = item_utxo params h x /\ k = uk u.
Proof using.
  induction l as [|x l IH]; intros M k u; simpl; [by left|].
  intros [[[<- <-]|[? ?]]%lookup_insert_Some|(y & Hy & ?)]%IH; [|by left|].
  - right. exists x. split; [by left|done].
  - right. exists y. split; [by right|done].
Qed.

Lemma item_hidden h x : name_opcode (u_PkScript (item_utxo params h x)) = true -> u_Address (item_utxo params h x) = [].
Proof using SG.
  unfold item_utxo, utxo_of. simpl. intros Ho. destruct (ExtractPkScriptAddrs (PkScript x.2) params) as [addrs|] eqn:E; [|done].
  by rewrite (nonstandard_addrs _ _ _ Ho E).
Qed.

Lemma keys_item h txs x y : NoDup ((fun x => uk (item_utxo params h x)) <$> items txs) ->
  x ∈ items txs -> y ∈ items txs -> uk (item_utxo params h x) = uk (item_utxo params h y) -> x = y.
Proof using.
  intros Nd Hx Hy E. apply list_elem_of_lookup in Hx as [i Hi], Hy as [j Hj].
  enough (i = j) by congruence. eapply NoDup_lookup; [exact Nd| |]; rewrite list_lookup_fmap, ?Hi, ?Hj; simpl; [done|by rewrite E].
Qed.

Lemma hidden_connect h t a txs (spent : list bytes) U U' : names_hidden a U -> new_outpoints h a txs ->
  NoDup ((fun x => uk (item_utxo params h x)) <$> items txs) ->
  (forall k, U' !! k = if decide (k ∈ spent) then None else (created params h (items txs) ∅ ∪ U) !! k) ->
  names_hidden (steps params h t (items txs) a) U'.
Proof using SG.
  intros [H1 H2] Hn Nd HU.
  assert (forall k u, U' !! k = Some u -> created params h (items txs) ∅ !! k = Some u \/
    created params h (items txs) ∅ !! k = None /\ U !! k = Some u) as Hc.
  { intros k u. rewrite HU. case_decide; [done|]. intros [?|[? ?]]%lookup_union_Some_raw; auto. }
  assert (forall k u, created params h (items txs) ∅ !! k = Some u ->
    exists x, x ∈ items txs /\ u = item_utxo params h x /\ k = uk u) as Hx.
  { intros k u [E|?]%created_in; [by rewrite lookup_empty in E|done]. }
  split.
  - intros k u [(x & _ & -> & _)%Hx|[_ E]]%Hc; [apply item_hidden|by eapply H1].
  - intros name r u Er Eu. apply steps_record in Er as [Er|(x & Hin & Ho & E1 & E2)].
    + destruct (Hc _ _ Eu) as [(x & Hin & -> & Ek)%Hx|[_ E]]; [|by eapply H2].
      destruct (Hn x name r Hin Er). by rewrite Ek.
    + destruct (Hc _ _ Eu) as [(y & Hin' & -> & Ek)%Hx|[Hno _]].
      * assert (x = y) as -> by (eapply keys_item; try done; rewrite <-Ek; unfold uk; simpl; by rewrite E1, E2). done.
      * apply created_lookup in Hno as [_ Hno]. destruct Hno. apply list_elem_of_fmap. exists x. split; [|done].
        unfold uk. simpl. by rewrite E1, E2.
Qed.

Lemma grown_view n a : grown n a -> db_view n a (ndb_utxos n) /\ names_hidden a (ndb_utxos n).
Proof using All.
  induction 1 as [n a M Wu E1 E2|n a bc block n' Gr [_ H] S A Hn E|n a bc block errs n' Gr [_ H] S A E].
  - split; [by split|]. split; [|by rewrite E1]. intros k u Hu. by rewrite (E2 _ _ Hu).
  - destruct (accepted_ready bc params n a block S A) as [Rd _]. pose proof (br_keys _ _ _ _ _ _ Rd) as Nd.
    destruct S as [Mo So Wu Hl Hc Hx Hs], A as [Ah An At Ac _ Af Ai Aj].
    destruct (blk_Txs block) as [|cb rest] eqn:Etx; [done|].
    pose proof (updateNameDatabase_state params (blk_Height block) (Timestamp (blk_Header block)) Ai Aj n Wu block a cb rest
      eq_refl eq_refl Etx Mo Hl Hc Rd) as Wp. unfold wp in Wp. rewrite E in Wp. destruct Wp as [Mo' Su _].
    split; [split; [done|apply Su|done]|]. eapply hidden_connect; [done..|exact (ss_utxos _ _ _ _ _ Su)].
  - destruct (accepted_ready bc params n a block S A) as [Rd U].
    destruct S as [Mo So Wu Hl Hc Hx Hs], A as [Ah An At Ac _ Af Ai Aj].
    destruct (blk_Txs block) as [|cb rest] eqn:Etx; [done|].
    pose proof (connect_disconnect_state params (blk_Height block) (Timestamp (blk_Header block)) Ai Aj n Wu block a cb rest
      eq_refl eq_refl Etx Mo Hl Hc Hx Hs Rd U) as Wp. unfold wp in Wp. rewrite E in Wp. destruct Wp as (_ & Mo' & Wu' & Eu & _).
    by rewrite Eu.
Qed.

End grown.
