(* ===== verification/ChainProps.v ===== *)
(** * Properties: the checks of blocks and of the mempool

    The theorems about chain/blockchain.go's checks, on the specification of
    ChainSpec.v and ChainNames.v. *)

From S2P Require Import Prelude Bolt Lru Record NameDB NamesSpec ExpirySpec Utxo UtxoSpec.
From S2P Require Import Config Script ScriptSpec Wire AuxPow Chain ChainSpec ChainNames ChainUpdate UpdateSpec.
From S2P Require Import BlockSpec BlockProps Ref.

Section props.
Context {B : Bolt} {L : BoltLaws B} {W : Wire} {G : BtcLib} {R : MapRange}.

(** What [decides] says of the result alone. *)
Lemma decides_ok {A} (n : NameDatabase) (m : M NameDatabase A) (P : A -> Prop) (a : A) :
  ndb_wf n -> decides n m P -> (m n).1 = Ok a -> P a.
Proof using.
  intros Wf D E. specialize (D n (conj (conj eq_refl eq_refl) Wf)). unfold wp in D.
  destruct (m n) as [[x|e] n']; [|done]. injection E as ->. apply D.
Qed.

Lemma decides_unit (n : NameDatabase) (m : M NameDatabase unit) (P : Prop) :
  ndb_wf n -> decides n m (fun _ => P) -> ((m n).1 = Ok tt <-> P).
Proof using.
  intros Wf D. split; [by apply (decides_ok n m (fun _ => P))|]. intros HP.
  specialize (D n (conj (conj eq_refl eq_refl) Wf)). unfold wp in D.
  destruct (m n) as [[[]|e] n']; [done|]. by destruct D as [_ []].
Qed.

(** C3: the name checks accept a block exactly when it is valid: every name output
    meets the dust limit, the size limits and the rule of its operation against the
    database before the block (a fresh commitment; a free name whose commitment is
    in the window; a live name whose current output the transaction spends), no
    name and no commitment occurs twice, and the transactions pay their fees. *)
Theorem validateNameOperations_iff n bc block height :
  ndb_wf n -> ndb_utxo_wf n -> determineBlockHeight bc block = Ok height -> is_int32 height ->
  txs_ok (blk_Txs block) ->
  (validateNameOperations bc block n).1 = Ok tt <-> block_names_ok n height (blk_Txs block).
Proof using L.
  intros Wf Wu Hd Hh Ht. apply decides_unit; [done|].
  apply validateNameOperations_decides; try done. by eapply determineBlockHeight_nonneg.
Qed.

(** C6: the mempool accepts a transaction at a height exactly when it has at most one
    name output, that output and its fee are valid at the height, and, without a
    name output, the transaction has inputs and outputs and is no coinbase. *)
Theorem ValidateMempoolTransaction_iff n tx height :
  ndb_wf n -> ndb_utxo_wf n -> 0 <= height -> is_int32 height ->
  Forall in_ok (TxIns tx) -> outs_ok tx ->
  (ValidateMempoolTransaction height (Some tx) n).1 = Ok tt <->
  tx_names_ok n height tx /\ (has_name_op tx = false -> regular_ok tx).
Proof using L.
  intros. apply decides_unit; [done|]. by apply ValidateMempoolTransaction_decides.
Qed.

(** C8: the mempool and the block agree at a height: a transaction the mempool takes
    passes the name checks of a block of that height made of it and a coinbase
    without name outputs. *)
Theorem mempool_block_agree n bc block coinbase tx height :
  ndb_wf n -> ndb_utxo_wf n -> is_int32 height -> determineBlockHeight bc block = Ok height ->
  blk_Txs block = [coinbase; tx] -> name_outs (TxOuts coinbase) = [] -> txs_ok [coinbase; tx] ->
  (ValidateMempoolTransaction height (Some tx) n).1 = Ok tt ->
  (validateNameOperations bc block n).1 = Ok tt.
Proof using L.
  intros Wf Wu Hh Hd Etx Hcb Ht Hm. pose proof (determineBlockHeight_nonneg _ _ _ Hd) as H0.
  assert (Forall in_ok (TxIns tx) /\ outs_ok tx) as [Hi Ho].
  { unfold txs_ok in Ht. rewrite !Forall_cons in Ht. exact (proj1 (proj2 Ht)). }
  apply (decides_ok _ _ _ _ Wf (ValidateMempoolTransaction_decides n Wf Wu tx height Hi Ho H0 Hh)) in Hm
    as [Hm _].
  apply (decides_unit n _ (block_names_ok n height [coinbase; tx]) Wf).
  - rewrite <-Etx. apply validateNameOperations_decides; try done. by rewrite Etx.
  - by apply mempool_block.
Qed.

(** The mempool checks at the height of the best block, a transaction enters a
    block one height up: an update of a name that expires at the best height is
    taken by the mempool and refused in every next block. *)
Theorem mempool_update_expires n bc block tx o name value r height :
  ndb_wf n -> ndb_utxo_wf n -> is_int32 (height + 1) -> determineBlockHeight bc block = Ok (height + 1) ->
  txs_ok (blk_Txs block) -> tx ∈ blk_Txs block -> o ∈ TxOuts tx ->
  parseNameScriptFull (PkScript o) = Ok (NameUpdate, name, value, []) ->
  ndb_names n !! name = Some r -> ExpiresAt r = height ->
  (validateNameOperations bc block n).1 <> Ok tt.
Proof using L.
  intros Wf Wu Hh Hd Ht Htx Ho Ep Er Ee Hv.
  assert (block_names_ok n (height + 1) (blk_Txs block)) as V.
  { apply (decides_unit n (validateNameOperations bc block) _ Wf); [|done].
    apply validateNameOperations_decides; try done. by eapply determineBlockHeight_nonneg. }
  pose proof (bn_ops _ _ _ V) as F. rewrite Forall_forall in F. specialize (F tx Htx).
  rewrite Forall_forall in F. destruct (F o Ho _ _ _ _ Ep) as (_ & (r' & _ & Er' & Hle & _) & _).
  assert (r' = r) as -> by congruence. lia.
Qed.


(** C5: the subsidy check accepts a block of known height exactly when the coinbase's
    outputs sum up without overflow to at most the subsidy and the fees, and every
    other transaction's inputs are known outputs whose values do not overflow. *)
Theorem validateBlockSubsidy_iff n bc block height :
  ndb_wf n -> ndb_utxo_wf n -> nameDB_nil bc = false -> determineBlockHeight bc block = Ok height ->
  0 < SubsidyReductionInterval (chainParams bc) ->
  Forall outs_ok (blk_Txs block) -> txs_ok (tail (blk_Txs block)) -> fees_fit n (tail (blk_Txs block)) ->
  (validateBlockSubsidy bc block n).1 = Ok tt <-> subsidy_ok n bc height (blk_Txs block).
Proof using L.
  intros Wf Wu Hnil Hd Hp Ho Ht Hf. apply decides_unit; [done|].
  apply validateBlockSubsidy_decides; try done. by eapply determineBlockHeight_nonneg.
Qed.

(** The subsidy check looks inputs up in the outputs of earlier blocks only: a
    block in which a transaction spends an output that is not among them, one
    created by a transaction before it in the block say, is refused. *)
Theorem in_block_spend_refused n bc block height tx txIn :
  ndb_wf n -> ndb_utxo_wf n -> nameDB_nil bc = false -> determineBlockHeight bc block = Ok height ->
  0 < SubsidyReductionInterval (chainParams bc) ->
  Forall outs_ok (blk_Txs block) -> txs_ok (tail (blk_Txs block)) -> fees_fit n (tail (blk_Txs block)) ->
  tx ∈ tail (blk_Txs block) -> txIn ∈ TxIns tx -> spent_output n txIn = None ->
  (validateBlockSubsidy bc block n).1 <> Ok tt.
Proof using L.
  intros Wf Wu Hnil Hd Hp Ho Ht Hf Htx Hin Hs Hv.
  assert (subsidy_ok n bc height (blk_Txs block)) as (cb & txs & fees & E & _ & (ss & F & _) & _).
  { apply (decides_unit n (validateBlockSubsidy bc block) _ Wf); [|done].
    apply validateBlockSubsidy_decides; try done. by eapply determineBlockHeight_nonneg. }
  rewrite E in Htx. simpl in Htx. apply list_elem_of_lookup in Htx as [i Hi].
  destruct (Forall2_lookup_l _ _ _ _ _ F Hi) as (s & _ & (us & Eu & _)).
  apply list_elem_of_lookup in Hin as [j Hj].
  assert ((spent_output n <$> TxIns tx) !! j = Some None) as El by (by rewrite list_lookup_fmap, Hj; simpl; rewrite Hs).
  rewrite Eu, list_lookup_fmap in El. by destruct (us !! j).
Qed.

(** The fee check accepts exactly the transactions with inputs that are all known,
    of values that do not overflow, and that leave at least the minimum fee of the
    operation: 1000 satoshis for NAME_NEW, 1000000 for the others. *)
Theorem validateTransactionFee_iff n tx op height :
  ndb_wf n -> ndb_utxo_wf n -> Forall in_ok (TxIns tx) -> outs_ok tx -> 0 <= height ->
  (validateTransactionFee tx op height n).1 = Ok tt <-> pays_fee n tx op.
Proof using L.
  intros. apply decides_unit; [done|]. by apply validateTransactionFee_decides.
Qed.

(** The expiration height is the height plus 36000, capped at the largest int32,
    so it never wraps to a height in the past. *)
Theorem safeCalcExpiresAt_bounds h : is_int32 h ->
  safeCalcExpiresAt h = Z.min (h + NameExpirationBlocks) MaxInt32 /\
  is_int32 (safeCalcExpiresAt h) /\ h <= safeCalcExpiresAt h.
Proof using.
  intros Hh. split; [by apply safeCalcExpiresAt_min|]. split; [by apply safeCalcExpiresAt_range|].
  rewrite safeCalcExpiresAt_min by done. unfold is_int32, NameExpirationBlocks, MaxInt32 in *. lia.
Qed.

(** A NAME_NEW output with an empty commitment passes every check, and the block
    then cannot be connected to the names: the store refuses the empty key. *)
Theorem empty_commitment {C : BoltCommits B} n params tx height blockTime txHash i value :
  ndb_wf n -> ndb_commitment n [] = None -> DustLimit <= value ->
  let o := {| to_Value := value; PkScript := [byte_of_Z opNameNew; Byte.x00; byte_of_Z op2Drop] ++ p2pkh pkh |} in
  output_ok n tx height o /\
  wp (processNameOperation params txHash i o height blockTime)
    (fun _ _ => False) (fun _ n' => n' = n) n.
Proof using L.
  intros Wf Hc Hv o.
  assert (parseNameScriptFull (PkScript o) = Ok (NameNew, [], [], [])) as Ep by by vm_compute.
  split.
  - intros op name v extra E. rewrite Ep in E. injection E as <- <- <- <-.
    split; [done|]. split; [|by intros []]. simpl. unfold commitment_height. by rewrite Hc.
  - unfold processNameOperation. rewrite Ep. unfold processNameNew, PutNameNew.
    destruct (ndb_wf_open n Wf) as (t & Hdb & F). apply (wp_Update _ _ _ _ t); [done|].
    wp_steps. unfold ndb_commitment, ndb_bkt in Hc. rewrite Hdb in Hc. rewrite Hc.
    apply wp_b_put_bad; [done|intros [[? ?] _]; simpl in *; lia|done].
Qed.

(** The name operations reported for a transaction are its NAME_FIRSTUPDATE and
    NAME_UPDATE outputs, in order; no NAME_NEW output is among them. *)
Theorem ParseNameOperationsFromTx_ops tx :
  (fun i => (oi_OpType i, oi_Name i, oi_Value i)) <$> ParseNameOperationsFromTx tx =
  filter (fun p => p.1.1 <> NameNew)
    (omap (fun o => match parseNameScript (PkScript o) with Ok p => Some p | Err _ => None end) (TxOuts tx)).
Proof using.
  unfold ParseNameOperationsFromTx, indexed. generalize 0%nat as k.
  induction (TxOuts tx) as [|o outs IH]; intros k; [done|].
  cbn [length List.seq zip zip_with]. rewrite !omap_cons'.
  destruct (parseNameScript (PkScript o)) as [[[op name] value]|e]; [|apply IH].
  case_bool_decide as Hop.
  - rewrite filter_cons_True by done. cbn [fmap list_fmap]. by rewrite IH.
  - rewrite filter_cons_False by (simpl; tauto). apply IH.
Qed.

End props.

(** ** Witnesses *)

Lemma live_wf : ndb_wf live_db.
Proof. apply live_db_spec. Qed.
Lemma live_utxo_wf : ndb_utxo_wf live_db.
Proof. apply live_db_spec. Qed.

Lemma update_tx_ok : Forall in_ok (TxIns update_tx) /\ outs_ok update_tx.
Proof. split; repeat constructor; by vm_compute. Qed.

Lemma validateNameOperations_iff_witness : block_names_ok live_db 150 (blk_Txs the_block).
Proof.
  apply (validateNameOperations_iff live_db the_view the_block 150 live_wf live_utxo_wf eq_refl);
    [by vm_compute|apply the_block_txs|by vm_compute].
Defined.

Lemma ValidateMempoolTransaction_iff_witness : tx_names_ok live_db 150 update_tx.
Proof.
  apply (ValidateMempoolTransaction_iff live_db update_tx 150 live_wf live_utxo_wf);
    [lia|by vm_compute|apply update_tx_ok|apply update_tx_ok|by vm_compute].
Defined.

Lemma mempool_block_agree_witness : (validateNameOperations the_view the_block live_db).1 = Ok tt.
Proof.
  apply (mempool_block_agree live_db the_view the_block coinbase_tx update_tx 150 live_wf live_utxo_wf);
    [by vm_compute|reflexivity|reflexivity|by vm_compute|apply the_block_txs|by vm_compute].
Defined.

(** The block of the height after the name's last. *)
Definition late_block : btcBlock :=
  {| blk_Header := blk_Header the_block; blk_Height := 36101; blk_Txs := blk_Txs the_block |}.

Lemma live_name : ndb_names live_db !! the_name = Some the_record.
Proof. destruct live_db_spec as (Mo & _). rewrite (md_names _ _ Mo). simpl. by rewrite lookup_insert_eq. Qed.

Lemma mempool_update_expires_witness :
  (ValidateMempoolTransaction 36100 (Some update_tx) live_db).1 = Ok tt /\
  (validateNameOperations the_view late_block live_db).1 <> Ok tt.
Proof.
  split; [by vm_compute|].
  apply (mempool_update_expires live_db the_view late_block update_tx the_update the_name (str "[]")
    the_record 36100 live_wf live_utxo_wf); [by vm_compute|reflexivity|apply the_block_txs|right; left|left|
    by vm_compute|apply live_name|reflexivity].
Defined.


Lemma map_some_single {A} (us : list A) (u : A) : [Some u] = Some <$> us -> us = [u].
Proof. destruct us as [|v [|w us]]; intros E; inversion E; done. Qed.

Lemma fees_fit_live : fees_fit live_db [update_tx].
Proof.
  intros fees (s & f & Hs & _ & Hf & ->)%block_fees_cons. apply block_fees_nil in Hf as ->.
  destruct Hs as (us & E & _ & -> & _).
  assert (us = [name_utxo]) as ->.
  { cbn [update_tx TxIns fmap list_fmap] in E. destruct (live_spent _ ltac:(by left)) as [_ Es].
    rewrite Es in E. exact (map_some_single _ _ E). }
  by vm_compute.
Qed.

Lemma the_block_outs : Forall outs_ok (blk_Txs the_block).
Proof. eapply Forall_impl; [apply the_block_txs|]. by intros ? []. Qed.

Lemma validateBlockSubsidy_iff_witness : subsidy_ok live_db the_view 150 (blk_Txs the_block).
Proof.
  apply (validateBlockSubsidy_iff live_db the_view the_block 150 live_wf live_utxo_wf eq_refl eq_refl);
    [by vm_compute|apply the_block_outs|apply Forall_singleton, update_tx_ok|apply fees_fit_live|by vm_compute].
Defined.

(** A transaction that spends the change of [update_tx], in the block with it. *)
Definition child_in : TxIn := {| PreviousOutPoint := mkOutPoint (TxHash update_tx) 0; SignatureScript := []; Sequence := 0 |}.
Definition child_tx : MsgTx :=
  {| tx_Version := 1; LockTime := 0; TxIns := [child_in]; TxOuts := [{| to_Value := 900000; PkScript := [Byte.x51] |}] |}.
Definition child_block : btcBlock :=
  {| blk_Header := blk_Header the_block; blk_Height := 150; blk_Txs := [coinbase_tx; update_tx; child_tx] |}.

Lemma child_tx_ok : Forall in_ok (TxIns child_tx) /\ outs_ok child_tx.
Proof. split; repeat constructor; by vm_compute. Qed.

Lemma child_unknown : spent_output live_db child_in = None.
Proof.
  unfold spent_output. rewrite (proj2 (proj2 live_db_spec)).
  rewrite lookup_insert_ne; [apply lookup_empty|]. by vm_compute.
Qed.

Lemma in_block_spend_refused_witness : (validateBlockSubsidy the_view child_block live_db).1 <> Ok tt.
Proof.
  apply (in_block_spend_refused live_db the_view child_block 150 child_tx child_in live_wf live_utxo_wf eq_refl eq_refl).
  - by vm_compute.
  - apply (Forall_app_2 _ [coinbase_tx; update_tx]); [apply the_block_outs|apply Forall_singleton, child_tx_ok].
  - apply Forall_cons_2; [apply update_tx_ok|apply Forall_singleton, child_tx_ok].
  - intros fees (s & f & Hs & _ & Hf & ->)%block_fees_cons.
    apply block_fees_cons in Hf as (s' & f' & (us & E & _) & _). exfalso.
    cbn [child_tx TxIns fmap list_fmap] in E. rewrite child_unknown in E. by destruct us.
  - right; left.
  - left.
  - apply child_unknown.
Defined.

Lemma validateTransactionFee_iff_witness : pays_fee live_db update_tx NameUpdate.
Proof.
  apply (validateTransactionFee_iff live_db update_tx NameUpdate 150 live_wf live_utxo_wf);
    [apply update_tx_ok|apply update_tx_ok|lia|by vm_compute].
Defined.

Lemma safeCalcExpiresAt_bounds_witness : is_int32 (safeCalcExpiresAt 2147480000) /\ 2147480000 <= safeCalcExpiresAt 2147480000.
Proof. apply (safeCalcExpiresAt_bounds 2147480000). by vm_compute. Defined.

Lemma empty_commitment_witness :
  let o := {| to_Value := 546; PkScript := [byte_of_Z opNameNew; Byte.x00; byte_of_Z op2Drop] ++ p2pkh pkh |} in
  output_ok live_db update_tx 150 o.
Proof.
  exact (proj1 (empty_commitment live_db NamecoinMainNetParams update_tx 150 0 the_hash 0 546 live_wf
    ltac:(vm_compute; reflexivity) ltac:(vm_compute; done))).
Defined.
