(* ===== verification/StoreProps.v ===== *)
(** * Properties: the name store

    The theorems about namedb/: names and their cache, expiration, history,
    commitments, unspent outputs, encodings, the LRU cache and the batch writer.
    They apply the lemmas of the components' files; the witnesses are at the
    databases of Ref.v. *)

From S2P Require Import Batch BatchSpec.
From S2P Require Import Prelude Bolt Lru Record NameDB NamesSpec ExpirySpec Utxo UtxoSpec.
From S2P Require Import Config Script Wire AuxPow Chain ChainSpec ChainNames ChainUpdate UpdateSpec Ref.

(** ** Shared lemmas *)

Lemma set_Name_self r : set_Name (Name r) r = r.
Proof. by destruct r. Qed.

Lemma record_ok_rename name r : record_ok r -> record_ok (set_Name name r).
Proof. by intros []. Qed.

Lemma encode_rename name r : encodeNameRecord (set_Name name r) = encodeNameRecord r.
Proof. done. Qed.

Section names.
Context {B : Bolt} {L : BoltLaws B} {C : BoltCommits B}.


(** GetName returns the stored record of the name, from the cache or from the
    store alike, and ErrNameNotFound exactly when there is none; it changes nothing
    but the cache, which still agrees with the store. *)
Theorem GetName_lookup n name : ndb_wf n ->
  wp (GetName name)
    (fun r n' => ndb_wf n' /\ same_store n n' /\ ndb_names n !! name = Some r)
    (fun e n' => ndb_wf n' /\ same_store n n' /\ e = ErrNameNotFound /\ ndb_names n !! name = None) n.
Proof using L. apply GetName_correct. Qed.

(** PutName of a name that the store can key sets the record of that name and no
    other, keeps the expiration index and the cache in step, and does nothing for
    the other names. *)
Theorem PutName_insert n name r : ndb_wf n -> record_ok r ->
  wp (PutName name (Some r))
    (fun r' n' => name_ok name /\ ndb_wf n' /\ r' = set_Name name r /\
       ndb_names n' = <[name:=set_Name name r]> (ndb_names n) /\ frame name_buckets n n')
    (fun _ n' => ~ name_ok name /\ n' = n) n.
Proof using L C. apply PutName_correct. Qed.

(** DeleteName removes the name, with its expiration entry and its cached record,
    and no other; it never fails. *)
Theorem DeleteName_delete n name : ndb_wf n ->
  wp (DeleteName name)
    (fun _ n' => ndb_wf n' /\ ndb_names n' = delete name (ndb_names n) /\ frame name_buckets n n')
    (fun _ _ => False) n.
Proof using L C. apply DeleteName_correct. Qed.

(** GetExpiredNames, which stops at the first key of the index that is not due,
    reports every name that expired before the height, once, and no other. *)
Theorem GetExpiredNames_due n height : ndb_wf n ->
  (forall name r, ndb_names n !! name = Some r -> 0 <= ExpiresAt r) ->
  wp (GetExpiredNames height)
    (fun l n' => n' = n /\ NoDup l /\
       forall name, name ∈ l <-> exists r, ndb_names n !! name = Some r /\ ExpiresAt r < height)
    (fun _ _ => False) n.
Proof using L. apply GetExpiredNames_correct. Qed.

(** ScanNames returns the first records, in the order of the names, of those whose
    name has the prefix: a page of the full listing. *)
Theorem ScanNames_page n prefix count : ndb_wf n -> 0 < count ->
  wp (ScanNames prefix count)
    (fun l n' => n' = n /\ exists all, listing (ndb_names n) all /\
       l = take (Z.to_nat count) (filter (fun r => HasPrefix (Name r) prefix = true) all))
    (fun _ _ => False) n.
Proof using L. apply ScanNames_correct. Qed.

(** After AddHistory of a transaction that is new to a name, GetHistory of the
    name returns its history, oldest first, with the record at the end; other names'
    histories are as they were. *)
Theorem AddHistory_GetHistory n h r name :
  ndb_hist_wf n -> record_ok r -> key_ok (Name r) -> hash_ok h -> index_room n (Name r) ->
  h ∉ ndb_hashes n name ->
  wp (AddHistory h (Some r);; GetHistory name)
    (fun l _ => l = if decide (name = Name r) then ndb_history n name ++ [r] else ndb_history n name)
    (fun _ _ => False) n.
Proof using L C.
  intros W Hr Hk Hh Hi Hn. rewrite wp_bind.
  eapply wp_mono; [by apply AddHistory_correct| |done]. intros _ n1 (W1 & _ & _ & E & Ih).
  eapply wp_mono; [by apply GetHistory_correct| |done]. intros l _ [_ ->].
  unfold ndb_history. rewrite E. rewrite (history_of_add (ndb_bkt n historyIndexBucket)) by
    (done || apply Ih). case_decide; [subst; by rewrite set_Name_self|done].
Qed.

(** The records of a history are stored under the transaction alone: when one
    transaction updates two names, the history of the first ends with the value of
    the second. *)
Theorem AddHistory_shared n h r r' :
  ndb_hist_wf n -> record_ok r -> record_ok r' -> key_ok (Name r) -> key_ok (Name r') ->
  hash_ok h -> index_room n (Name r) -> index_room n (Name r') -> Name r <> Name r' ->
  h ∉ ndb_hashes n (Name r) ->
  wp (AddHistory h (Some r);; AddHistory h (Some r');; GetHistory (Name r))
    (fun l _ => l = ndb_history n (Name r) ++ [set_Name (Name r) r'])
    (fun _ _ => False) n.
Proof using L C.
  intros W Hr Hr' Hk Hk' Hh Hi Hi' Hne Hn. rewrite wp_bind.
  eapply wp_mono; [by apply AddHistory_correct| |done]. intros _ n1 (W1 & _ & _ & E1 & I1). rewrite wp_bind.
  assert (index_room n1 (Name r')) as Hi1 by (unfold index_room; rewrite I1, decide_False by done; done).
  eapply wp_mono; [by apply (AddHistory_correct n1)| |done]. intros _ n2 (W2 & _ & _ & E2 & I2).
  eapply wp_mono; [by apply GetHistory_correct| |done]. intros l _ [_ ->].
  unfold ndb_history. rewrite E2, E1, insert_insert_eq, <-(encode_rename (Name r) r').
  rewrite (history_of_add (ndb_bkt n historyIndexBucket)).
  - by rewrite decide_True.
  - by apply record_ok_rename.
  - done.
  - fold (ndb_hashes n2 (Name r)). rewrite I2, I1. rewrite decide_False, decide_True by done.
    simpl. by rewrite decide_True.
Qed.

(** RemoveLastHistoryEntry undoes AddHistory: every history is what it was, and the
    record it reports is that of the entry before, if there is one. *)
Theorem add_remove_history n h r :
  ndb_hist_wf n -> record_ok r -> key_ok (Name r) -> hash_ok h ->
  Z.of_nat (length (ndb_hashes n (Name r))) + 1 < 2 ^ 25 ->
  ndb_bkt n historyBucket !! h = None ->
  wp (AddHistory h (Some r);; RemoveLastHistoryEntry (Name r))
    (fun prev n' => ndb_hist_wf n' /\ (forall name, ndb_history n' name = ndb_history n name) /\
       prev = last (ndb_hashes n (Name r)) ≫= fun k => ndb_bkt n historyBucket !! k ≫= decoded (Name r))
    (fun _ _ => False) n.
Proof using L C.
  intros W Hr Hk Hh Hi Hn. rewrite wp_bind.
  eapply wp_mono; [apply AddHistory_correct; try done; unfold index_room; lia| |done].
  intros _ n1 (W1 & _ & _ & E1 & I1).
  assert (ndb_hashes n1 (Name r) = ndb_hashes n (Name r) ++ [h]) as I1' by by rewrite I1, decide_True.
  assert (index_room n1 (Name r)) as Hi1 by (unfold index_room; rewrite I1', length_app; simpl; lia).
  eapply wp_mono; [by apply (RemoveLastHistoryEntry_correct n1 _ _ _ W1 Hk I1')| |done].
  intros prev n2 (W2 & _ & _ & E2 & I2 & Ep).
  assert (ndb_bkt n2 historyBucket = ndb_bkt n historyBucket) as E.
  { rewrite E2, E1. by apply delete_insert_id. }
  split; [done|]. split; [|by rewrite <-E].
  intros name. unfold ndb_history, history_of. rewrite E.
  fold (ndb_hashes n2 name) (ndb_hashes n name). rewrite I2, I1. by repeat case_decide; subst.
Qed.

(** C23: expiring a name and restoring the expired names of the block brings back the
    names, the histories and their index, as they were. *)
Theorem expire_restore n name r h :
  ndb_wf n -> ndb_hist_wf n -> ndb_names n !! name = Some r -> index_room n name ->
  no_backup n h name -> hist_complete n name ->
  wp (expireName name r h;; RestoreExpiredNamesForBlock h)
    (fun _ n' => ndb_wf n' /\ ndb_names n' = ndb_names n /\
       ndb_bkt n' historyIndexBucket = ndb_bkt n historyIndexBucket /\
       ndb_bkt n' historyBucket = ndb_bkt n historyBucket)
    (fun _ _ => False) n.
Proof using L C. apply expire_restore_correct. Qed.

End names.

Section utxos.
Context {B : Bolt} {L : BoltLaws B} {C : BoltCommits B}.

(** GetUTXOsForAddress returns exactly the unspent outputs of the address, each
    once, whatever addresses it is a prefix of. *)
Theorem GetUTXOsForAddress_exact n address : ndb_utxo_wf n -> address <> [] ->
  wp (GetUTXOsForAddress address)
    (fun l n' => n' = n /\ NoDup l /\
       forall u, u ∈ l <-> ndb_utxos n !! uk u = Some u /\ u_Address u = address)
    (fun _ _ => False) n.
Proof using L. apply GetUTXOsForAddress_correct. Qed.

(** Spending outputs at a height and restoring the spent outputs of the height
    brings back the set of unspent outputs, with its address index. *)
Theorem spend_restore n h us :
  ndb_utxo_wf n -> no_spent_backup n h -> NoDup (uk <$> us) ->
  (forall u, u ∈ us -> ndb_utxos n !! uk u = Some u) ->
  wp (forM us (spendUTXO h);; RestoreSpentUTXOsForBlock h)
    (fun _ n' => ndb_utxo_wf n' /\ ndb_utxos n' = ndb_utxos n /\
       ndb_bkt n' spentUtxoIdxBucket = ndb_bkt n spentUtxoIdxBucket)
    (fun _ _ => False) n.
Proof using L C. apply spend_restore_correct. Qed.

End utxos.

(** The encoding of a record decodes to the record; its name is not part of it. *)
Theorem record_roundtrip r : record_ok r ->
  decodeNameRecord (encodeNameRecord r) = Ok (set_Name [] r).
Proof. apply decode_encode. Qed.

(** An encoding cut short decodes exactly when 5 to 8 of its last bytes are
    missing: then the height of the NAME_NEW, or it and the time stamp, read as
    absent; every other cut is reported. *)
Theorem record_truncated r n : record_ok r -> (n < length (encodeNameRecord r))%nat ->
  is_ok (decodeNameRecord (take n (encodeNameRecord r))) =
  bool_decide (5 <= length (encodeNameRecord r) - n <= 8)%nat.
Proof. apply decode_truncated. Qed.

(** ** The LRU cache *)

Section lru.
Context {K : Type} `{Countable K} {V : Type}.

(** The step of the specification, on the list of entries, most recently used first. *)
Definition spec_step (cap : Z) (l : list (K * V)) (o : lru_op) : list (K * V) :=
  match o with
  | OpGet k => (spec_get k l).2
  | OpPut k v => (spec_put cap k v l).2
  | OpDelete k => (spec_delete k l).2
  | OpClear => []
  end.

Lemma lru_step_refines (o : @lru_op K V) c : lru_inv c ->
  lru_abs (lru_step o c) = spec_step (capacity c) (lru_abs c) o.
Proof using.
  intros I. destruct o as [k|k v|k|]; simpl.
  - destruct (lru_Get_refines k c I) as [_ E]. exact (f_equal snd E).
  - destruct (lru_Put_refines k v c I) as [_ E]. exact (f_equal snd E).
  - destruct (lru_Delete_refines k c I) as [_ E]. exact (f_equal snd E).
  - apply lru_Clear_refines, I.
Qed.

(** After any sequence of operations the cache, a linked list with a map into it,
    is the list that the specification keeps; it never holds more entries than its
    capacity. *)
Theorem lru_run_refines dflt cap (ops : list (@lru_op K V)) : 0 < dflt ->
  let c := foldl (fun c o => lru_step o c) (newLRUCache dflt cap) ops in
  let size := if cap <=? 0 then dflt else cap in
  lru_abs c = foldl (spec_step size) [] ops /\ lru_Len c = Z.of_nat (length (lru_abs c)) /\
  lru_Len c <= size.
Proof using.
  intros Hd. cbv zeta. set (size := if cap <=? 0 then dflt else cap).
  assert (forall c l, lru_inv c -> capacity c = size -> lru_abs c = l ->
    let c' := foldl (fun c o => lru_step o c) c ops in
    lru_inv c' /\ capacity c' = size /\ lru_abs c' = foldl (spec_step size) l ops) as K1.
  { induction ops as [|o ops IH]; intros c l I Hc Hl; [done|]. cbn [foldl]. apply IH.
    - by apply lru_step_inv.
    - by rewrite lru_step_capacity.
    - by rewrite lru_step_refines, Hc, Hl. }
  destruct (K1 (newLRUCache dflt cap) [] (inv_new dflt cap Hd) eq_refl eq_refl) as (I & Hc & E).
  split; [exact E|]. unfold lru_Len. rewrite length_abs by done. split; [done|].
  rewrite <-Hc. apply I.
Qed.

End lru.

(** ** The batch writer *)

Section batch.
Context {B : Bolt} {L : BoltLaws B} {C : BoltCommits B} {R : MapRange}.

(** C27: writes and deletes of names queued in an empty batch and committed, with the
    commits that a full batch makes in between, leave the names that the writes make
    when they are done one by one; whatever order Go's maps are ranged over. *)
Theorem batch_equivalent s ops : batch_wf s -> plain s.1 -> Forall op_fits ops -> batchSize s.1 = 0 ->
  wp (forM ops queue;; Commit)
    (fun _ s' => batch_wf s' /\ batchSize s'.1 = 0 /\ ndb_names s'.2 = foldl direct (ndb_names s.2) ops)
    (fun _ _ => False) s.
Proof using L C. apply queue_all_commit. Qed.

End batch.

(** ** Witnesses *)

Lemma GetName_lookup_witness : wp (GetName the_name)
  (fun r n' => ndb_wf n' /\ same_store named_db n' /\ ndb_names named_db !! the_name = Some r)
  (fun e n' => ndb_wf n' /\ same_store named_db n' /\ e = ErrNameNotFound /\ ndb_names named_db !! the_name = None)
  named_db.
Proof. exact (GetName_lookup named_db the_name (md_wf _ _ named_models)). Defined.

Lemma PutName_insert_witness : ndb_names (PutName the_name (Some the_record) fresh_db).2 = <[the_name:=the_record]> ∅.
Proof.
  pose proof (PutName_insert fresh_db the_name the_record fresh_wf the_record_ok) as H.
  assert (wp (PutName the_name (Some the_record)) (fun _ n' => ndb_names n' = <[the_name:=the_record]> ∅)
    (fun _ _ => False) fresh_db) as H'.
  { eapply wp_mono; [exact H| |].
    - intros r' n' (_ & _ & _ & E & _). rewrite E. cbn [snd]. rewrite fresh_names. reflexivity.
    - intros e n' [Hn _]. exact (Hn the_name_ok). }
  destruct (wp_run _ _ _ H') as (_ & E). exact E.
Defined.

Lemma DeleteName_delete_witness : wp (DeleteName the_name)
  (fun _ n' => ndb_wf n' /\ ndb_names n' = delete the_name (ndb_names named_db) /\ frame name_buckets named_db n')
  (fun _ _ => False) named_db.
Proof. exact (DeleteName_delete named_db the_name (md_wf _ _ named_models)). Defined.

Lemma named_names : ndb_names named_db = <[the_name:=the_record]> ∅.
Proof. exact (md_names _ _ named_models). Qed.

Lemma GetExpiredNames_due_witness : wp (GetExpiredNames 36101)
  (fun l n' => n' = named_db /\ NoDup l /\ forall name, name ∈ l <->
     exists r, ndb_names named_db !! name = Some r /\ ExpiresAt r < 36101)
  (fun _ _ => False) named_db.
Proof.
  apply (GetExpiredNames_due named_db 36101 (md_wf _ _ named_models)). intros name r.
  rewrite named_names. intros [[_ <-]|[_ E]]%lookup_insert_Some; [by vm_compute|by rewrite lookup_empty in E].
Defined.

Lemma ScanNames_page_witness : wp (ScanNames (str "d/") 10)
  (fun l n' => n' = named_db /\ exists all, listing (ndb_names named_db) all /\
     l = take (Z.to_nat 10) (filter (fun r => HasPrefix (Name r) (str "d/") = true) all))
  (fun _ _ => False) named_db.
Proof. apply (ScanNames_page named_db (str "d/") 10 (md_wf _ _ named_models)). lia. Defined.

Definition other_hash : bytes := replicate 32 Byte.x08.
Definition other_record : NameRecord := set_Name (str "d/other") the_record.

Lemma hist_hashes name : ndb_hashes hist_db name = if decide (name = the_name) then [the_hash] else [].
Proof. rewrite (md_hashes _ _ hist_models). simpl. by case_decide. Qed.

Lemma hist_room name : Z.of_nat (length (ndb_hashes hist_db name)) + 1 < 2 ^ 25.
Proof. rewrite hist_hashes. case_decide; simpl; lia. Qed.

Lemma hist_room' name : index_room hist_db name.
Proof. pose proof (hist_room name). unfold index_room. lia. Qed.

Lemma other_new name : other_hash ∉ ndb_hashes hist_db name.
Proof.
  rewrite hist_hashes. case_decide; [|apply not_elem_of_nil]. intros Eh%list_elem_of_singleton.
  revert Eh. by vm_compute.
Qed.

Lemma AddHistory_GetHistory_witness : wp (AddHistory other_hash (Some the_record);; GetHistory the_name)
  (fun l _ => l = ndb_history hist_db the_name ++ [the_record]) (fun _ _ => False) hist_db.
Proof.
  exact (AddHistory_GetHistory hist_db other_hash the_record the_name (md_hwf _ _ hist_models)
    the_record_ok ltac:(by vm_compute) eq_refl (hist_room' _) (other_new _)).
Defined.

Lemma AddHistory_shared_witness :
  wp (AddHistory other_hash (Some the_record);; AddHistory other_hash (Some other_record);; GetHistory the_name)
    (fun l _ => l = ndb_history hist_db the_name ++ [set_Name the_name other_record]) (fun _ _ => False) hist_db.
Proof.
  exact (AddHistory_shared hist_db other_hash the_record other_record (md_hwf _ _ hist_models)
    the_record_ok (record_ok_rename _ _ the_record_ok) ltac:(by vm_compute) ltac:(by vm_compute) eq_refl
    (hist_room' _) (hist_room' _) ltac:(by vm_compute) (other_new _)).
Defined.

Lemma add_remove_history_witness : wp (AddHistory other_hash (Some the_record);; RemoveLastHistoryEntry the_name)
  (fun prev n' => prev = Some the_record /\ forall name, ndb_history n' name = ndb_history hist_db name)
  (fun _ _ => False) hist_db.
Proof.
  eapply wp_mono; [exact (add_remove_history hist_db other_hash the_record (md_hwf _ _ hist_models)
    the_record_ok ltac:(by vm_compute) eq_refl (hist_room _) ltac:(by vm_compute))| |].
  - intros prev n' (_ & H1 & H2). split; [|exact H1]. rewrite H2. by vm_compute.
  - intros e n' [].
Defined.

Lemma expire_restore_witness : wp (expireName the_name the_record 36101;; RestoreExpiredNamesForBlock 36101)
  (fun _ n' => ndb_wf n' /\ ndb_names n' = ndb_names hist_db /\
     ndb_bkt n' historyIndexBucket = ndb_bkt hist_db historyIndexBucket /\
     ndb_bkt n' historyBucket = ndb_bkt hist_db historyBucket)
  (fun _ _ => False) hist_db.
Proof.
  apply (expire_restore hist_db the_name the_record 36101 (md_wf _ _ hist_models) (md_hwf _ _ hist_models)).
  - rewrite (md_names _ _ hist_models). reflexivity.
  - apply hist_room'.
  - split; [intros k _|].
    + assert (ndb_bkt hist_db expiredNamesIdxBucket = ∅) as -> by (vm_compute; reflexivity). apply lookup_empty.
    + assert (ndb_bkt hist_db expiredHistIdxBucket = ∅) as -> by (vm_compute; reflexivity). apply lookup_empty.
  - intros k Hk. rewrite hist_hashes, decide_True in Hk by reflexivity.
    apply list_elem_of_singleton in Hk as ->. eexists. vm_compute. reflexivity.
Defined.

Lemma GetUTXOsForAddress_exact_witness : wp (GetUTXOsForAddress (str "N1"))
  (fun l n' => n' = utxo_db /\ NoDup l /\
     forall u, u ∈ l <-> ndb_utxos utxo_db !! uk u = Some u /\ u_Address u = str "N1")
  (fun _ _ => False) utxo_db.
Proof. apply (GetUTXOsForAddress_exact utxo_db (str "N1") (proj1 utxo_db_spec)). discriminate. Defined.

Lemma spend_restore_witness : wp (forM [the_utxo] (spendUTXO 100);; RestoreSpentUTXOsForBlock 100)
  (fun _ n' => ndb_utxo_wf n' /\ ndb_utxos n' = ndb_utxos utxo_db /\
     ndb_bkt n' spentUtxoIdxBucket = ndb_bkt utxo_db spentUtxoIdxBucket) (fun _ _ => False) utxo_db.
Proof.
  apply (spend_restore utxo_db 100 [the_utxo] (proj1 utxo_db_spec)).
  - intros k _. assert (ndb_bkt utxo_db spentUtxoIdxBucket = ∅) as -> by (vm_compute; reflexivity).
    apply lookup_empty.
  - apply NoDup_singleton.
  - intros u ->%list_elem_of_singleton. rewrite (proj2 (proj2 (proj2 utxo_db_spec))). apply lookup_insert_eq.
Defined.

Lemma record_roundtrip_witness : decodeNameRecord (encodeNameRecord the_record) = Ok (set_Name [] the_record).
Proof. exact (record_roundtrip the_record the_record_ok). Defined.

Lemma record_truncated_witness :
  is_ok (decodeNameRecord (take 61 (encodeNameRecord the_record))) = true /\
  is_ok (decodeNameRecord (take 60 (encodeNameRecord the_record))) = false.
Proof.
  split.
  - rewrite (record_truncated the_record 61 the_record_ok) by (apply Nat.ltb_lt; by vm_compute).
    by vm_compute.
  - rewrite (record_truncated the_record 60 the_record_ok) by (apply Nat.ltb_lt; by vm_compute).
    by vm_compute.
Defined.

(** A cache of two entries: the third evicts the one that was not read. *)
Lemma lru_run_refines_witness :
  lru_abs (foldl (fun c o => lru_step o c) (newLRUCache 100 2)
    [OpPut 1%nat 10%nat; OpPut 2%nat 20%nat; OpGet 1%nat; OpPut 3%nat 30%nat]) = [(3, 30); (1, 10)]%nat.
Proof.
  destruct (lru_run_refines 100 2 [OpPut 1%nat 10%nat; OpPut 2%nat 20%nat; OpGet 1%nat; OpPut 3%nat 30%nat]
    ltac:(lia)) as [E _]. rewrite E. by vm_compute.
Defined.

Lemma batch_equivalent_witness :
  wp (forM [BatchPut the_name the_record; BatchDelete the_name; BatchPut (str "d/b") the_record] queue;; Commit)
    (fun _ s' => ndb_names s'.2 = <[str "d/b":=set_Name (str "d/b") the_record]> (delete the_name
       (<[the_name:=the_record]> ∅)))
    (fun _ _ => False) (NewBatchWriter 2, fresh_db).
Proof.
  eapply wp_mono; [apply (batch_equivalent (NewBatchWriter 2, fresh_db))| |].
  - split; [apply fresh_wf|intros k r E; discriminate E|intros k [? E]; discriminate E|simpl; lia|done].
  - split; [intros k r E; discriminate E|done..].
  - repeat constructor; by vm_compute.
  - reflexivity.
  - intros [] s' (_ & _ & E). rewrite E. cbn [snd]. rewrite fresh_names. reflexivity.
  - intros e s' [].
Defined.
