(* ===== verification/ScriptProps.v ===== *)
(** * Properties: name scripts

    The theorems about chain/name_script.go and the script builders of
    wallet/wallet.go, with their witnesses at the scripts of Ref.v. *)

From S2P Require Import Prelude Lru Record Config Script ScriptSpec Wire AuxPow AuxPowSpec Ref.

(** C25: the consensus parser reads back what the wallet's builders write: the
    operation, the name, the value and the commitment or the random bytes; and the
    prefix skipper finds the pay-to-pubkey-hash script that follows. *)
Theorem builders_parse h :
  (forall hash s, BuildNameNewScript hash h = Ok s ->
     parseNameScriptFull s = Ok (NameNew, [], [], hash) /\
     exists off, skipNameScriptPrefix s = Ok off /\ drop off s = p2pkh h) /\
  (forall name randHex rand value s, BuildNameFirstUpdateScript name randHex value h = Ok s ->
     hex_DecodeString randHex = Ok rand -> blen rand <= 0x7FFFFFFF ->
     parseNameScriptFull s = Ok (NameFirstUpdate, name, value, rand) /\
     exists off, skipNameScriptPrefix s = Ok off /\ drop off s = p2pkh h) /\
  (forall name value s, BuildNameUpdateScript name value h = Ok s ->
     parseNameScriptFull s = Ok (NameUpdate, name, value, []) /\
     exists off, skipNameScriptPrefix s = Ok off /\ drop off s = p2pkh h).
Proof.
  split_and!.
  - intros hash s. apply BuildNameNewScript_parse.
  - intros name randHex rand value s. apply BuildNameFirstUpdateScript_parse.
  - intros name value s. apply BuildNameUpdateScript_parse.
Qed.

(** Whenever a script parses as a name operation, skipping its prefix succeeds and
    leaves at least the 25 bytes of a pay-to-pubkey-hash script: both walks over the
    script agree, and neither reads past its end. *)
Theorem parse_skips s op name value extra : parseNameScriptFull s = Ok (op, name, value, extra) ->
  exists off, skipNameScriptPrefix s = Ok off /\ (off + minP2PKHSize <= length s)%nat.
Proof. apply parse_skip. Qed.

(** A push that is read lies within the script, moves the offset forward, and is
    the bytes up to the new offset. *)
Theorem readPushData_bounds s off d off' : readPushData s off = Ok (d, off') ->
  (off < off' <= length s)%nat /\ (length d <= off')%nat /\ d = slice s (off' - length d) off'.
Proof. apply readPushData_ok. Qed.

(** The names and values that the RPC layer takes are valid for the consensus
    rules, lie in a known namespace, and hold JSON where the namespace wants it. *)
Theorem validateNameFormat_sound json name value : validateNameFormat json name value = Ok tt ->
  validateConsensusNameFormat name value = Ok tt /\ IsValidNamespace name = true /\
  utf8_ValidString value = true /\
  (json_namespace name = true -> value <> [] -> json value = true).
Proof. apply validateNameFormat_consensus. Qed.

(** ** Witnesses *)

Lemma builders_parse_witness :
  parseNameScriptFull (update_script the_name (str "{}")) = Ok (NameUpdate, the_name, str "{}", []) /\
  parseNameScriptFull (first_script the_name (str "12345678") (str "{}")) =
    Ok (NameFirstUpdate, the_name, str "{}", str "12345678").
Proof.
  destruct (builders_parse pkh) as (_ & H2 & H3). split.
  - apply H3. vm_compute. reflexivity.
  - apply (H2 the_name (hex_EncodeToString (str "12345678")) (str "12345678") (str "{}"));
      vm_compute; first [reflexivity|done].
Defined.

Lemma parse_skips_witness : exists off, skipNameScriptPrefix (update_script the_name (str "{}")) = Ok off /\
  (off + minP2PKHSize <= length (update_script the_name (str "{}")))%nat.
Proof.
  apply (parse_skips (update_script the_name (str "{}")) NameUpdate the_name (str "{}") []).
  vm_compute. reflexivity.
Defined.

Lemma readPushData_bounds_witness :
  str "abc" = slice (str "xx" ++ [Byte.x03] ++ str "abcdef") (6 - 3) 6.
Proof.
  apply (readPushData_bounds (str "xx" ++ [Byte.x03] ++ str "abcdef") 2 (str "abc") 6).
  vm_compute. reflexivity.
Defined.

Lemma validateNameFormat_sound_witness : validateConsensusNameFormat the_name (str "{}") = Ok tt.
Proof. apply (validateNameFormat_sound (fun _ => true) the_name (str "{}")). vm_compute. reflexivity. Defined.

(** ** Properties: merged mining and the subsidy

    The theorems about chain/auxpow.go, chain/auxpow_validation.go, chain/block.go and
    the subsidy of config/namecoin_params.go, with their witnesses. *)

Section props.
Context {W : Wire} {L : WireLaws W}.

(** C26: a block, with its proof when its version has the bit, is read back from its
    serialization, which exists. *)
Theorem block_serialization b : block_ok b ->
  exists s, Serialize b = Ok s /\ NewBlockFromBytes s = Ok b.
Proof using L.
  intros Hb. destruct (serialize_ok b Hb) as [s Hs]. exists s. split; [done|]. by apply block_roundtrip.
Qed.

(** The branch of any leaf of a Merkle tree, leaf level first, with the sides as the
    mask, is accepted for the root of the tree. *)
Theorem CheckMerkleBranch_accepts t path h sibs : descend t path = Some (h, sibs) ->
  CheckMerkleBranch h {| Branch := rev sibs; SideMask := mask_of (rev path) |} (mroot t) = true.
Proof using. apply CheckMerkleBranch_complete. Qed.

(** Two branches of the same length and sides that are accepted for one root are the
    same, with the same leaf, or they exhibit a collision of the hash: an accepted
    branch proves membership. *)
Theorem CheckMerkleBranch_binds leaf leaf' b b' root :
  is_hash leaf -> is_hash leaf' -> branch_ok b -> branch_ok b' ->
  length (Branch b) = length (Branch b') -> SideMask b = SideMask b' ->
  CheckMerkleBranch leaf b root = true -> CheckMerkleBranch leaf' b' root = true ->
  (leaf = leaf' /\ b = b') \/ collision.
Proof using L. apply CheckMerkleBranch_binding. Qed.

(** The search of the coinbase script accepts exactly when one position of it holds
    the magic bytes, the root and the size of the chain tree, overlapping
    occurrences counted. *)
Theorem checkMergeMiningCommitment_once data root n : 0 <= n < 32 ->
  checkMergeMiningCommitment data root n = Ok tt <->
  length (commit_positions data root (2 ^ n)) = 1%nat.
Proof using. apply checkMergeMiningCommitment_iff. Qed.

(** C4: a block below the activation height, or of unknown height, needs no proof; above it
    the block is accepted exactly when its version has the bit and the chain id, its
    proof was cached for its hash, and the proof holds: the parent meets the target,
    its coinbase is in the parent, and commits to the block.  The proof is used up. *)
Theorem validateAuxPow_accepts bc hdr meta c : lru_inv c ->
  let '(r, c') := validateAuxPow bc hdr meta c in
  lru_inv c' /\
  (r = Ok tt <->
    (needs_auxpow bc hdr meta ->
     hasAuxPowBit (hdr_Version hdr) = true /\
     ExtractChainIDFromVersion (hdr_Version hdr) = NamecoinChainID /\
     exists ap, cached c (BlockHash hdr) = Some ap /\
       (length (big_Bytes (CompactToBig (Bits hdr))) <= 32)%nat /\
       proof_ok ap (BlockHash hdr) (CompactToBig (Bits hdr)))) /\
  (needs_auxpow bc hdr meta -> r = Ok tt -> cached c' (BlockHash hdr) = None).
Proof using L. apply validateAuxPow_correct. Qed.

End props.

(** The subsidies of all blocks sum up to at most the 33 eras of halvings, a total
    that is reached and never exceeded. *)
Theorem subsidy_total p I n : Z.of_nat I = SubsidyReductionInterval p -> (0 < I)%nat ->
  total_subsidy p n <= eras I 33 /\ ((33 * I <= n)%nat -> total_subsidy p n = eras I 33).
Proof. intros HI Hpos. by apply supply_bound. Qed.

(** ** Witnesses *)

Definition a_hash (b : Byte.byte) : bytes := replicate 32 b.

Definition parent_hdr : BlockHeader :=
  {| hdr_Version := 1; PrevBlock := a_hash Byte.x01; MerkleRoot := a_hash Byte.x02; Timestamp := 1500000000;
     Bits := 0; Nonce := 7 |}.
Definition a_tx : MsgTx :=
  {| tx_Version := 1; LockTime := 0;
     TxIns := [{| PreviousOutPoint := mkOutPoint (a_hash Byte.x00) 0xffffffff; SignatureScript := [Byte.x51];
                  Sequence := 0 |}];
     TxOuts := [{| to_Value := 5000000000; PkScript := [Byte.x51] |}] |}.
Definition a_branch : MerkleBranch := {| Branch := [a_hash Byte.x03; a_hash Byte.x04]; SideMask := 2 |}.
Definition a_proof : AuxPow :=
  {| CoinbaseTx := a_tx; ap_BlockHash := a_hash Byte.x05; CoinbaseBranch := a_branch;
     ChainMerkleBranch := a_branch; ParentBlock := parent_hdr |}.
(** A merge-mined block: version bit 0x100, chain id 1. *)
Definition a_block : Block :=
  {| Header := {| hdr_Version := 0x10101; PrevBlock := a_hash Byte.x06; MerkleRoot := a_hash Byte.x07;
                  Timestamp := 1500000600; Bits := 0; Nonce := 0 |};
     Transactions := [a_tx]; auxPow := Some a_proof |}.

Lemma a_branch_ok : branch_ok a_branch.
Proof. split; [by repeat constructor|simpl; lia|by vm_compute]. Qed.

Lemma a_tx_fits : tx_fits a_tx.
Proof. split; [by vm_compute|by vm_compute|done|repeat constructor; by vm_compute|repeat constructor; by vm_compute|by vm_compute]. Qed.

Lemma a_block_ok : block_ok a_block.
Proof.
  split.
  - by vm_compute.
  - intros a [= <-]. split; [done|apply a_branch_ok|apply a_branch_ok|apply a_tx_fits|].
    split; try done; by vm_compute.
  - by vm_compute.
  - split; try done; by vm_compute.
  - apply Forall_singleton, a_tx_fits.
Qed.

Lemma block_serialization_witness : exists s, Serialize a_block = Ok s /\ NewBlockFromBytes s = Ok a_block.
Proof. exact (block_serialization a_block a_block_ok). Defined.

(** The third of four leaves. *)
Definition a_tree : mtree :=
  MNode (MNode (MLeaf (a_hash Byte.x01)) (MLeaf (a_hash Byte.x02)))
        (MNode (MLeaf (a_hash Byte.x03)) (MLeaf (a_hash Byte.x04))).

Lemma CheckMerkleBranch_accepts_witness :
  CheckMerkleBranch (a_hash Byte.x03)
    {| Branch := [a_hash Byte.x04; mroot (MNode (MLeaf (a_hash Byte.x01)) (MLeaf (a_hash Byte.x02)))];
       SideMask := 2 |} (mroot a_tree) = true.
Proof.
  apply (CheckMerkleBranch_accepts a_tree [true; false] (a_hash Byte.x03)
    [mroot (MNode (MLeaf (a_hash Byte.x01)) (MLeaf (a_hash Byte.x02))); a_hash Byte.x04]).
  vm_compute. reflexivity.
Defined.

Lemma CheckMerkleBranch_binds_witness :
  (a_hash Byte.x09 = a_hash Byte.x09 /\ a_branch = a_branch) \/ collision.
Proof.
  apply (CheckMerkleBranch_binds (a_hash Byte.x09) (a_hash Byte.x09) a_branch a_branch
    (computeChainMerkleRoot (a_hash Byte.x09) a_branch)); [done|done|apply a_branch_ok|apply a_branch_ok|done|done| |];
    vm_compute; reflexivity.
Defined.

Definition a_commitment : bytes :=
  str "xy" ++ auxPowMagic ++ a_hash Byte.x08 ++ le_bytes 4 1 ++ str "z".

Lemma checkMergeMiningCommitment_once_witness :
  length (commit_positions a_commitment (a_hash Byte.x08) (2 ^ 0)) = 1%nat.
Proof.
  apply (checkMergeMiningCommitment_once a_commitment (a_hash Byte.x08) 0); [lia|vm_compute; reflexivity].
Defined.

Definition a_view (activation_reached : bool) : chain_view :=
  {| chain_nil := false; nameDB_nil := false;
     BlockHeightByHash := fun _ => if activation_reached then Some 19200 else Some 100;
     chainParams := NamecoinMainNetParams |}.

(** Below the activation height nothing is needed; above it the missing proof counts. *)
Lemma validateAuxPow_accepts_witness :
  (validateAuxPow (a_view false) (Header a_block) 0 (newLRUCache 100 100)).1 = Ok tt /\
  (validateAuxPow (a_view true) (Header a_block) 0 (newLRUCache 100 100)).1 <> Ok tt.
Proof.
  split.
  - pose proof (validateAuxPow_accepts (a_view false) (Header a_block) 0 (newLRUCache 100 100)
      (inv_new 100 100 ltac:(lia))) as H.
    destruct (validateAuxPow _ _ _ _) as [r c]. apply H. intros [_ Hh]. exfalso. revert Hh.
    vm_compute. by intros [].
  - pose proof (validateAuxPow_accepts (a_view true) (Header a_block) 0 (newLRUCache 100 100)
      (inv_new 100 100 ltac:(lia))) as H.
    destruct (validateAuxPow _ _ _ _) as [r c]. cbn [fst]. intros E.
    destruct (proj1 (proj1 (proj2 H)) E) as (_ & _ & ap & Hap & _).
    + split; by vm_compute.
    + by rewrite cached_new in Hap.
Defined.

Lemma subsidy_total_witness : total_subsidy NamecoinRegTestParams 4900 <= 1499999998350.
Proof.
  etransitivity; [apply (subsidy_total NamecoinRegTestParams 150 4900 eq_refl); lia|].
  by vm_compute.
Defined.
