(* ===== verification/NetProps.v ===== *)
(** * Properties: the network

    The theorems about network/ (pool, peers, synchronisation, scores) and about the
    rate limiter of rpc/, on the specifications of MempoolSpec.v, NetworkSpec.v,
    NetworkReach.v, PeerScoreSpec.v and RateLimit.v. *)

From stdpp Require Import relations.
From S2P Require Import Prelude Clock Float Bolt NameDB Wire Config AuxPow Chain ChainUpdate.
From S2P Require Import Mempool MempoolSpec Network Node NetworkSpec NetworkReach PeerScore PeerScoreSpec RateLimit.

Section props.
Context {W : Wire} {R : MapRange} {P : PeerLib} {PL : PeerLaws P} {C : Type} {N : NodeChain C}.

(** C9: in every state a node reaches, over any order of messages, ticks and chain
    changes, the pool holds at most 5000 transactions, each under its own hash, and
    each was accepted by the chain's mempool check in some state of the chain. *)
Theorem pool_keeps_valid slack c max t (n : net) :
  0 <= slack -> rtc (net_step slack) (net_start c max t) n ->
  Z.of_nat (size (txs (mempool (nt_pm n)))) <= 5000 /\
  forall h e, txs (mempool (nt_pm n)) !! h = Some e ->
    h = TxHash (mp_tx e) /\ exists v v', validator_Validate (mp_tx e) v = (Ok tt, v').
Proof.
  intros H0 Hr. destruct (net_reachable slack c max t n H0 Hr) as [_ Hp].
  destruct (MempoolSpec.pool_reachable_ok (L := any_laws) slack (Some (mkMempoolConfig true 5000 (24 * Hour) (10 * Minute))) t c
    (as_node n) H0 I ltac:(done) Hp) as [(Ev & Em & _) He Hs _ _]. simpl in *. rewrite Em in Hs. split; [done|].
  intros h e Hl. destruct (He h e Hl) as [Hk Ha _ _]. split; [done|].
  rewrite Ev in Ha. destruct (Ha eq_refl) as (v & _ & v' & Hv). eauto.
Qed.

(** A transaction leaves the pool: when the clean-up runs at most [slack] late, no
    entry is older than 24 hours and ten minutes, plus [slack]. *)
Theorem pool_expires slack c max t (n : net) h e :
  0 <= slack -> rtc (net_step slack) (net_start c max t) n ->
  txs (mempool (nt_pm n)) !! h = Some e ->
  nt_now n - addedAt e <= 24 * Hour + 10 * Minute + slack.
Proof.
  intros H0 Hr Hl. destruct (net_reachable slack c max t n H0 Hr) as [_ Hp].
  destruct (MempoolSpec.pool_reachable_ok (L := any_laws) slack (Some (mkMempoolConfig true 5000 (24 * Hour) (10 * Minute))) t c
    (as_node n) H0 I ltac:(done) Hp) as [(_ & _ & Ex & Ek) He _ Hk _]. simpl in *.
  destruct (He h e Hl) as [_ _ _ Ha]. rewrite Ex in Ha. rewrite Ek in Hk. lia.
Qed.

(** C10: in every reachable state the peers are within their limit and stored under
    their identifiers, no reported height exceeds the best one, a request for a block
    is forgotten within two minutes, a tick and [slack], and every message sent
    respects the limits of the protocol. *)
Theorem network_limits slack c max t (n : net) :
  0 <= slack -> rtc (net_step slack) (net_start c max t) n ->
  peers_ok (nt_pm n) /\
  (forall p h, peerHeights (syncManager (nt_pm n)) !! p = Some h -> h <= bestHeight (syncManager (nt_pm n))) /\
  (forall h since, requestedBlocks (syncManager (nt_pm n)) !! h = Some since ->
     nt_now n - since <= 2 * Minute + syncInterval + slack) /\
  Forall (fun x => msg_ok x.2) (sent (nt_pm n)).
Proof.
  intros H0 Hr. destruct (net_reachable slack c max t n H0 Hr) as [[Hp Hs Ht Hm] _].
  destruct Hs as [Hb Hh Hq]. split_and!; [done|exact Hh| |done].
  intros h since Hl. destruct (Hq h since Hl). lia.
Qed.

(** A headers message from a peer the mode allows makes the node ask that peer for
    exactly the blocks it neither has nor has asked for, each once and in order, and
    for more headers when the message was full; other messages are ignored. *)
Theorem HandleHeaders_requests now p hs (pm : PeerManager) :
  let new := missing (blockchain pm) (dom (requestedBlocks (syncManager pm))) (BlockHash <$> hs) in
  (forall h, h ∈ new <-> h ∈ BlockHash <$> hs /\ requestedBlocks (syncManager pm) !! h = None /\
     is_ok (BlockByHash (blockchain pm) h) = false) /\ NoDup new /\
  sent (HandleHeaders now (Some p) hs pm) = sent pm ++
    (if bool_decide (hs <> []) && acceptsHeadersFromPeer p (syncManager pm) then
       ((fun h => (p, MsgGetData [mkInvVect InvTypeBlock h])) <$> new) ++
       match LatestBlockLocator (blockchain pm) with
       | Ok locator =>
           if Z.of_nat (length hs) =? MaxBlockHeadersPerMsg then [(p, MsgGetHeaders locator zero_hash)] else []
       | Err _ => []
       end
     else []).
Proof.
  intros new. split_and!; [|apply missing_nodup|].
  - intros h. rewrite <-not_elem_of_dom. split.
    + intros Hin. pose proof (missing_new (blockchain pm) (dom (requestedBlocks (syncManager pm))) (BlockHash <$> hs)) as F.
      rewrite Forall_forall in F. destruct (F h Hin). split; [|done]. clear -Hin. unfold new in Hin.
      revert Hin. generalize (dom (requestedBlocks (syncManager pm))). induction hs as [|k hs IH]; intros req; simpl; [done|].
      destruct (_ || _); [intros Hin; right; by eapply IH|]. intros [->|Hin]%elem_of_cons; [by left|right; by eapply IH].
    + intros (H1 & H2 & H3). by apply missing_complete.
  - destruct (bool_decide (hs <> [])) eqn:E1; cbn [andb].
    + apply bool_decide_eq_true in E1. destruct (acceptsHeadersFromPeer p (syncManager pm)) eqn:E2.
      * by destruct (HandleHeaders_spec now p hs pm E1 E2).
      * rewrite app_nil_r. rewrite HandleHeaders_ignored; [done|]. right. right. eauto.
    + apply bool_decide_eq_false, dec_stable in E1. rewrite app_nil_r. rewrite HandleHeaders_ignored; [done|]. by left.
Qed.

(** A tick of a node that is behind and asks nobody asks the best peer, or, when
    that one left, a connected peer of the greatest reported height, for headers;
    after a peer's disconnection nothing refers to it any more. *)
Theorem syncTick_asks_best now (pm : PeerManager) locator q :
  syncPeer (syncManager pm) = None ->
  BestHeight (blockchain pm) < bestHeight (syncManager pm) ->
  LatestBlockLocator (blockchain pm) = Ok locator ->
  bestPeer (syncManager pm) <> None \/ peers pm <> ∅ ->
  (exists p, syncPeer (syncManager (syncTick now pm)) = Some p /\
    sent (syncTick now pm) = sent pm ++ [(p, MsgGetHeaders locator zero_hash)] /\
    (bestPeer (syncManager pm) = Some p \/
     bestPeer (syncManager pm) = None /\ (exists i, peers pm !! i = Some p) /\
     forall i q, peers pm !! i = Some q ->
       height_or (peerHeights (syncManager pm)) q <= height_or (peerHeights (syncManager pm)) p)) /\
  ~ refers (syncManager (peerDisconnected q pm)) q.
Proof. intros. split; [by apply syncTick_asks|]. apply OnPeerDisconnected_forgets. Qed.

(** Once the initial download is over, a node that synchronises with a peer never
    starts again: until that very peer disconnects, no event ends the synchronisation
    and no tick asks anyone for headers, however far behind the node falls. *)
Theorem sync_stalls p (pm pm' : PeerManager) now :
  syncing_with p pm -> run_without p pm pm' ->
  syncing_with p pm' /\ sent (syncTick now pm') = sent pm'.
Proof.
  intros Hs Hr. pose proof (run_without_syncing p pm pm' Hr Hs) as H. split; [done|].
  by rewrite (syncTick_idle now pm' p (proj1 H) (or_introl (proj2 H))).
Qed.

(** A transaction that is new to the pool and that the pool admits is announced
    once to every connected peer but the sender; one that is held or refused is
    announced to nobody. *)
Theorem onTx_relays {L : TxValidatorLaws C} conn now p tx (pm : PeerManager) :
  val_inv (blockchain pm) -> val_wire tx -> peers_ok pm ->
  let pm' := (onTx conn now p (Some tx) pm).2 in
  let targets := collectConnectedPeers conn p pm in
  NoDup targets /\ (forall q, q ∈ targets <-> conn q = true /\ p <> Some q /\ exists i, peers pm !! i = Some q) /\
  ((txs (mempool pm) !! TxHash tx = None /\ admits (mempool pm) (blockchain pm) tx /\
      HasTx (TxHash tx) (mempool pm') = true /\
      sent pm' = sent pm ++ ((fun q => (q, MsgInv [mkInvVect InvTypeTx (TxHash tx)])) <$> targets)) \/
   ((is_Some (txs (mempool pm) !! TxHash tx) \/ ~ admits (mempool pm) (blockchain pm) tx) /\
      mempool pm' = mempool pm /\ sent pm' = sent pm)).
Proof.
  intros Hv Hw Hpk. cbv zeta. split_and!; [by apply collect_nodup, Hpk|intros q; apply collect_elem|].
  unfold onTx, mbind, M_bind, get, try, modify.
  destruct (txs (mempool pm) !! TxHash tx) as [e|] eqn:E.
  { assert (HasTx (TxHash tx) (mempool pm) = true) as -> by (unfold HasTx; rewrite E; by apply bool_decide_eq_true).
    right. split; [left; eauto|done]. }
  assert (HasTx (TxHash tx) (mempool pm) = false) as -> by (unfold HasTx; rewrite E; by apply bool_decide_eq_false; intros []).
  unfold pool_AddTx, zoom.
  pose proof (AddTx_correct now tx (mempool pm) (blockchain pm) Hv Hw) as S. unfold wp in S.
  destruct (AddTx now (Some tx) (mempool pm, blockchain pm)) as [[u|err] [mp c]]; simpl in S.
  - left. destruct S as (Ha & _ & ->). split; [done|]. split; [done|].
    unfold relayTransaction. set (pm1 := set_mempool _ _).
    assert (collectConnectedPeers conn p pm1 = collectConnectedPeers conn p pm) as -> by done.
    destruct (send_all_spec (collectConnectedPeers conn p pm) (inv_one InvTypeTx (TxHash tx)) pm1) as (E1 & _ & _ & E2 & _).
    simpl. rewrite E1, E2. split; [|done]. unfold HasTx. simpl. apply bool_decide_eq_true. rewrite lookup_insert_eq. eauto.
  - right. destruct S as (Ha & _ & ->). split; [by right|]. by destruct pm.
Qed.

(** A broadcast that fails for want of peers has put the transaction into the pool;
    any other failure has left the pool as it was and told nobody. *)
Theorem BroadcastTx_errors {L : TxValidatorLaws C} conn now tx (pm : PeerManager) :
  val_inv (blockchain pm) -> val_wire tx ->
  let '(r, pm') := BroadcastTx conn now (Some tx) pm in
  match r with
  | Ok _ => HasTx (TxHash tx) (mempool pm') = true /\ collectConnectedPeers conn None pm <> []
  | Err e =>
      sent pm' = sent pm /\
      (e = ErrNoPeers /\ HasTx (TxHash tx) (mempool pm') = true /\ collectConnectedPeers conn None pm = [] \/
       e <> ErrNoPeers /\ mempool pm' = mempool pm)
  end.
Proof.
  intros Hv Hw. unfold BroadcastTx, mbind, M_bind, get, wrapM, modify, pool_AddTx, zoom.
  pose proof (AddTx_correct now tx (mempool pm) (blockchain pm) Hv Hw) as S. unfold wp in S.
  destruct (AddTx now (Some tx) (mempool pm, blockchain pm)) as [[u|err] [mp c]]; simpl in S |- *.
  - destruct S as (Ha & _ & ->). set (pm1 := set_mempool _ _).
    assert (collectConnectedPeers conn None pm1 = collectConnectedPeers conn None pm) as -> by done.
    assert (HasTx (TxHash tx) (mempool pm1) = true) as Hh.
    { unfold HasTx. simpl. apply bool_decide_eq_true. rewrite lookup_insert_eq. eauto. }
    case_bool_decide as Et; simpl.
    + split; [done|]. left. done.
    + destruct (send_all_spec (collectConnectedPeers conn None pm) (inv_one InvTypeTx (TxHash tx)) pm1) as (_ & _ & _ & E2 & _).
      unfold HasTx. rewrite E2. done.
  - destruct S as (Ha & _ & ->). split; [by destruct pm|]. right. split; [done|by destruct pm].
Qed.

End props.

(** C11: whatever a score manager was told, and at whatever times, every score it reports
    is a number between 0 and 100, never a NaN. *)
Theorem scores_bounded psm addr now :
  rtc psm_step NewPeerScoreManager psm ->
  let s := (GetScore addr now psm).1 in
  number s /\ fle (of_int 0) s = true /\ fle s (of_int 100) = true.
Proof.
  intros Hr. assert (psm_ok psm) as H.
  { assert (psm_ok NewPeerScoreManager) as Hi by apply map_Forall_empty.
    induction Hr as [|? ? ? St _ IH]; [done|]. by apply IH, (psm_step_ok _ _ St). }
  destruct (GetScore_ok addr now psm H) as [[N K] _]. split; [done|].
  assert (number (of_int 0) /\ number (of_int 100)) as [N0 N1] by (split; float_const).
  rewrite !fle_key by done. lia.
Qed.

(** The best peers are a part of those asked about, as many as asked for, in
    descending order of score, and none left out scores more than one chosen. *)
Theorem GetBestPeers_top {W : Wire} {L : PeerLib} peers n now psm :
  rtc psm_step NewPeerScoreManager psm ->
  let best := (GetBestPeers peers n now psm).1 in
  Z.of_nat (length best) = Z.max 0 (Z.min n (Z.of_nat (length peers))) /\
  exists rest, best ++ rest ≡ₚ peers /\
    forall i j p q, (i < j)%nat -> best !! i = Some p -> (best ++ rest) !! j = Some q ->
      fle (score_at psm now q) (score_at psm now p) = true.
Proof.
  intros Hr. assert (psm_ok psm) as H.
  { assert (psm_ok NewPeerScoreManager) as Hi by apply map_Forall_empty.
    induction Hr as [|? ? ? St _ IH]; [done|]. by apply IH, (psm_step_ok _ _ St). }
  pose proof (GetBestPeers_spec peers n now psm H) as S.
  destruct (GetBestPeers peers n now psm) as [best psm']. by destruct S as (_ & S).
Qed.

(** C12: the limiter implements a list of addresses with their buckets, most recently
    used first: a request takes a token from its own bucket alone, a full list loses
    only its last address, and a sweep drops the idle ones. *)
Theorem limiter_refines rate max rl ip now :
  0 <= rate -> is_int64 rate -> rtc rl_step (newBoundedRateLimiter rate max) rl ->
  ((allow ip now rl).1, view (allow ip now rl).2) = spec_allow rate max ip now (view rl) /\
  view (sweepLocked now rl) = spec_sweep now (view rl).
Proof.
  intros H0 Hr Hs. destruct (RateLimit.limiter_reachable_ok rate max rl H0 Hr Hs) as [Wf Er Em _ _]. split.
  - pose proof (allow_correct ip now rl Wf) as A. destruct (allow ip now rl). rewrite Er, Em in A. apply A.
  - apply (sweep_correct now rl Wf).
Qed.

(** In every state of a limiter at most [max] addresses (one, if [max] is not
    positive) are tracked, and every bucket holds between zero and [rate] tokens. *)
Theorem limiter_bounded rate max rl :
  0 <= rate -> is_int64 rate -> rtc rl_step (newBoundedRateLimiter rate max) rl ->
  Z.of_nat (size (buckets rl)) <= Z.max 1 max /\
  Forall (fun e => fle (of_int 0) (tokens e.2) = true /\ fle (tokens e.2) (of_int rate) = true) (view rl).
Proof.
  intros H0 Hr Hs. destruct (RateLimit.limiter_reachable_ok rate max rl H0 Hr Hs) as [Wf Er Em Hl Ht].
  rewrite wf_size by done. split; [done|]. eapply Forall_impl; [exact Ht|]. intros [k b] [N K]. simpl in *.
  assert (number (of_int 0)) as N0 by float_const. pose proof (finite_number _ _ (of_int_finite rate Hr)).
  rewrite !fle_key by done. change (key (of_int 0)) with 0. lia.
Qed.

(** Of [n] requests at one instant from an address the limiter does not know,
    exactly the first [rate] are allowed. *)
Theorem burst_exact rate max rl ip now n :
  0 <= rate < 2 ^ 53 -> rtc rl_step (newBoundedRateLimiter rate max) rl -> buckets rl !! ip = None ->
  burst ip now n rl = (fun i => Z.of_nat i <? rate) <$> seq 0 n.
Proof.
  intros H0 Hs Hb. assert (is_int64 rate) as Hr by (unfold is_int64; lia).
  destruct (RateLimit.limiter_reachable_ok rate max rl ltac:(lia) Hr Hs) as [Wf Er Em _ _].
  rewrite <-Er. apply burst_fresh; [done|by rewrite Er|]. rewrite find_ip_view by done. by rewrite Hb.
Qed.

(** ** Concrete inputs

    Peers are numbers, the chain is the list of the hashes it has, and its mempool
    check wants an output. *)

#[export] Instance RefPeers : PeerLib :=
  {| Peer := Z; ID p := p; Addr p := le_bytes 4 p; Inbound p := false |}.

#[export] Instance RefPeerLaws : PeerLaws RefPeers.
Proof. intros p q E. exact E. Qed.

Definition peer8 : Peer := 8.
Definition peer9 : Peer := 9.

Definition a_header : BlockHeader := mkHeader 1 (replicate 32 Byte.x01) (replicate 32 Byte.x02) 0 0 7.

Definition toy_validate (tx : MsgTx) : M (list bytes) unit :=
  if bool_decide (TxOuts tx = []) then fail (EMsg "transaction has no outputs") else mret tt.

#[export] Instance ToyChain : NodeChain (list bytes) := {|
  BestHeight c := Z.of_nat (length c);
  BestHash c := zero_hash;
  LatestBlockLocator c := Ok [zero_hash];
  BlockByHash c h := if bool_decide (h ∈ c) then Ok (mkMsgBlock a_header []) else Err (EMsg "block not found");
  LocateHeaders c loc stop := [];
  LocateBlocks c loc stop n := [];
  chain_SetBlockAuxPowFromBytes h b := mret tt;
  chain_ProcessBlock b f := fun c => (Ok (true, false, None), BlockHash (blk_Header b) :: c);
  chain_validator := toy_validate;
|}.

#[export] Program Instance ToyLaws : TxValidatorLaws (list bytes) :=
  {| val_inv _ := True; val_wire _ := True; val_acceptable _ tx := TxOuts tx <> [] |}.
Next Obligation.
  intros v tx _ _. unfold validator_Validate, chain_validator, ToyChain, toy_validate.
  case_bool_decide; unfold wp; simpl; split; auto.
Qed.

Definition pay_tx : MsgTx :=
  {| tx_Version := 1; LockTime := 0;
     TxIns := [{| PreviousOutPoint := mkOutPoint (replicate 32 Byte.x03) 0; SignatureScript := []; Sequence := 0 |}];
     TxOuts := [{| to_Value := 1; PkScript := [Byte.x51] |}] |}.

(** A node that hears of a peer at height 5, connects it and gets a transaction. *)
Definition net0 : net := net_start ([] : list bytes) 2 0.
Definition net1 : net := after (EvVersion (Some peer9) 5) net0.
Definition net2 : net := after (EvConnect peer9) net1.
Definition net3 : net := after (EvTx (fun _ => true) None (Some pay_tx)) net2.

Lemma net3_reachable : rtc (net_step 0) net0 net3.
Proof.
  eapply rtc_l; [exact (net_step_event 0 (EvVersion (Some peer9) 5) net0 I)|].
  eapply rtc_l; [exact (net_step_event 0 (EvConnect peer9) net1 I)|].
  apply rtc_once. exact (net_step_event 0 (EvTx (fun _ => true) None (Some pay_tx)) net2 I).
Qed.

Lemma net3_holds : txs (mempool (nt_pm net3)) !! TxHash pay_tx = Some (mkMempoolTx pay_tx 0 0).
Proof. vm_compute. reflexivity. Qed.

Lemma pool_keeps_valid_witness :
  exists v v', validator_Validate pay_tx v = (Ok tt, v').
Proof.
  destruct (pool_keeps_valid 0 [] 2 0 net3 (Z.le_refl 0) net3_reachable) as [_ H].
  destruct (H _ _ net3_holds) as [_ Hv]. exact Hv.
Defined.

Lemma pool_expires_witness : nt_now net3 - 0 <= 24 * Hour + 10 * Minute + 0.
Proof. exact (pool_expires 0 [] 2 0 net3 _ _ (Z.le_refl 0) net3_reachable net3_holds). Defined.

Lemma network_limits_witness : peers_ok (nt_pm net3) /\ sent (nt_pm net3) = [(peer9, MsgInv [mkInvVect 1 (TxHash pay_tx)])].
Proof.
  split; [|vm_compute; reflexivity].
  exact (proj1 (network_limits 0 [] 2 0 net3 (Z.le_refl 0) net3_reachable)).
Defined.

Lemma syncTick_asks_best_witness :
  ~ refers (syncManager (peerDisconnected peer9 (nt_pm net3))) peer9 /\
  syncPeer (syncManager (syncTick 0 (nt_pm net3))) = Some peer9.
Proof.
  split; [|vm_compute; reflexivity].
  apply (syncTick_asks_best 0 (nt_pm net3) [zero_hash] peer9); [reflexivity|vm_compute; reflexivity|reflexivity|].
  left. vm_compute. discriminate.
Defined.

(** After the initial download: the node was at the best height, a peer reported 5, the
    node asked it, caught up, and then another peer reports 100. *)
Definition net_done : net := after EvTick net0.
Definition net_synced : net := after EvTick (after (EvConnect peer9) (after (EvVersion (Some peer9) 5) net_done)).

Lemma net_synced_syncing : syncing_with peer9 (nt_pm net_synced).
Proof. split; vm_compute; reflexivity. Qed.

Definition net_behind : PeerManager := handle 0 (EvConnect peer8) (handle 0 (EvVersion (Some peer8) 100) (nt_pm net_synced)).

Lemma sync_stalls_witness :
  bestHeight (syncManager net_behind) = 100 /\ sent (syncTick 20000000000 net_behind) = sent net_behind.
Proof.
  split; [vm_compute; reflexivity|].
  apply (sync_stalls peer9 (nt_pm net_synced) net_behind 20000000000 net_synced_syncing).
  apply (run_cons peer9 0 (EvVersion (Some peer8) 100) (nt_pm net_synced)); [exact I|].
  apply (run_cons peer9 0 (EvConnect peer8)); [exact I|]. apply run_nil.
Defined.

Lemma net2_peers : peers_ok (nt_pm net2).
Proof.
  split; [|vm_compute; discriminate]. intros i p Hl. change (peers (nt_pm net2)) with (<[9 := peer9]> (∅ : gmap Z Peer)) in Hl.
  apply lookup_insert_Some in Hl as [[<- <-]|[_ Hl]]; [reflexivity|]. by rewrite lookup_empty in Hl.
Qed.

Lemma onTx_relays_witness :
  sent (onTx (fun _ => true) 0 None (Some pay_tx) (nt_pm net2)).2 = sent (nt_pm net2) ++ [(peer9, MsgInv [mkInvVect 1 (TxHash pay_tx)])].
Proof.
  destruct (onTx_relays (L := ToyLaws) (fun _ => true) 0 None pay_tx (nt_pm net2) I I net2_peers) as (_ & _ & [(_ & _ & _ & E)|([[e E]|N] & _)]).
  - exact E.
  - exfalso. vm_compute in E. discriminate E.
  - exfalso. apply N. right. split; [vm_compute; reflexivity|]. intros _. discriminate.
Defined.

(** With no peer connected. *)
Lemma BroadcastTx_errors_witness :
  (BroadcastTx (fun _ => false) 0 (Some pay_tx) (nt_pm net2)).1 = Err ErrNoPeers /\
  HasTx (TxHash pay_tx) (mempool (BroadcastTx (fun _ => false) 0 (Some pay_tx) (nt_pm net2)).2) = true.
Proof.
  assert ((BroadcastTx (fun _ => false) 0 (Some pay_tx) (nt_pm net2)).1 = Err ErrNoPeers) as E by (vm_compute; reflexivity).
  split; [exact E|]. pose proof (BroadcastTx_errors (L := ToyLaws) (fun _ => false) 0 pay_tx (nt_pm net2) I I) as S.
  destruct (BroadcastTx (fun _ => false) 0 (Some pay_tx) (nt_pm net2)) as [r pm']. simpl in E. subst r.
  destruct S as (_ & [(_ & H & _)|(N & _)]); [exact H|]. exfalso. by apply N.
Defined.

(** A manager with two peers, one of which failed. *)
Definition psm1 : PeerScoreManager := RecordFailure (le_bytes 4 8) 0 (RecordBlockReceived (le_bytes 4 9) 500000000 0 NewPeerScoreManager).

Lemma psm1_reachable : rtc psm_step NewPeerScoreManager psm1.
Proof.
  eapply rtc_l; [apply (step_Block (le_bytes 4 9) 500000000 0); unfold is_int64; lia|].
  apply rtc_once. apply step_Failure.
Qed.

Lemma scores_bounded_witness : fle (GetScore (le_bytes 4 8) 120000000000 psm1).1 (of_int 100) = true.
Proof. apply (scores_bounded psm1 (le_bytes 4 8) 120000000000 psm1_reachable). Defined.

Lemma GetBestPeers_top_witness :
  (GetBestPeers [peer8; peer9] 1 120000000000 psm1).1 = [peer9] /\
  exists rest, [peer9] ++ rest ≡ₚ [peer8; peer9].
Proof.
  assert ((GetBestPeers [peer8; peer9] 1 120000000000 psm1).1 = [peer9]) as E by (vm_compute; reflexivity).
  split; [exact E|]. pose proof (GetBestPeers_top [peer8; peer9] 1 120000000000 psm1 psm1_reachable) as S.
  rewrite E in S. destruct S as (_ & rest & Hp & _). exists rest. exact Hp.
Defined.

Definition rl1 : rateLimiter := (allow (str "10.0.0.1") 0 (newBoundedRateLimiter 3 2)).2.

Lemma rl1_reachable : rtc rl_step (newBoundedRateLimiter 3 2) rl1.
Proof. apply rtc_once, step_allow. Qed.

Lemma limiter_refines_witness : view (sweepLocked 1000000000000 rl1) = spec_sweep 1000000000000 (view rl1).
Proof. apply (limiter_refines 3 2 rl1 (str "10.0.0.2") 1000000000000); [lia|unfold is_int64; lia|apply rl1_reachable]. Defined.

Lemma limiter_bounded_witness : Z.of_nat (size (buckets rl1)) <= 2.
Proof. apply (limiter_bounded 3 2 rl1); [lia|unfold is_int64; lia|apply rl1_reachable]. Defined.

Lemma burst_exact_witness : burst (str "10.0.0.2") 0 5 rl1 = [true; true; true; false; false].
Proof.
  rewrite (burst_exact 3 2 rl1 (str "10.0.0.2") 0 5); [vm_compute; reflexivity|lia|apply rl1_reachable|vm_compute; reflexivity].
Defined.
