(* ===== verification/WalletProps.v ===== *)
(** * Properties: the wallet

    The theorems about wallet/wallet.go and wallet/encryption.go, on WalletSpec.v and
    WalletTxSpec.v, with their witnesses on toy keys, a toy cipher and a file in memory. *)

From S2P Require Import Prelude Bolt Record NameDB NamesSpec ExpirySpec Utxo UtxoSpec Config Script ScriptSpec.
From S2P Require Import Wire Chain ChainSpec ChainNames UpdateSpec Base64 Encryption Wallet WalletSpec WalletTx WalletTxSpec.
From S2P Require Import ChainProps Ref.

Section props.
Context {K : Crypto} {L : KeyLib} {D : Disk} {J : WalletJson} {G : BtcLib} {R : MapRange}.
Context {KC : CryptoLaws K} {KL : KeyLaws L} {DL : DiskLaws D} {DR : ReliableDisk D} {JL : JsonLaws J} {GL : BtcLaws G}.

(** C13: the wallet implements a vault with a password: whatever sequence of key
    generation, encryption, locking, unlocking and restarts, each operation does the
    step of its name or reports an error and changes nothing; no key is ever lost, in
    memory or in the file, and a locked wallet shows none. *)
Theorem wallet_refines params :
  (forall d g, ReadFile d = Err ErrNotExist ->
     represents params (mkVault None true ∅) (mkWorld (empty_wallet params) d g)) /\
  (forall v s o r s', represents params v s -> admissible params o v s -> run params o s = (r, s') ->
     exists v', vault_step params o v r v' /\ represents params v' s').
Proof. split; [by apply represents_start|]. intros v s o r s'. apply step_result. Qed.

(** C14: a wallet that is encrypted and locked shows no keys; the password brings back
    exactly the keys it had, from the running wallet and after a restart; a password of
    another hash is refused and changes nothing. *)
Theorem encrypt_lock_unlock params v s password s1 :
  represents params v s -> EncryptWallet password s = (Ok tt, s1) ->
  exists s2, Lock s1 = (Ok tt, s2) /\ keys (wallet s2) = ∅ /\
    (exists s3, Unlock password s2 = (Ok tt, s3) /\ keys (wallet s3) = keys (wallet s)) /\
    (exists s4 s5, NewWallet params s1 = (Ok tt, s4) /\ keys (wallet s4) = ∅ /\
       Unlock password s4 = (Ok tt, s5) /\ keys (wallet s5) = keys (wallet s)) /\
    forall other, hashPasswordWithVersion other (passwordSalt (wallet s2)) (passwordHashVersion (wallet s2))
        <> Ok (passwordHash (wallet s2)) -> exists e, Unlock other s2 = (Err e, s2).
Proof.
  intros Hr He. destruct (step_unit params v s (OpEncrypt password) (Ok tt) s1 ltac:(done) Hr I He) as (v1 & St1 & Hr1).
  inversion St1 as [| |? ? Hn Hp| | | | | |]; subst. cbn [v_secret v_open v_known] in *.
  assert (keys (wallet s) = v_known v) as -> by (rewrite (r_keys _ _ _ Hr); by destruct (r_plain _ _ _ Hr Hn) as [-> _]).
  destruct (must_lock params _ s1 password Hr1) as (s2 & E2 & Hr2); [done..|]. exists s2. split; [done|].
  split; [apply (r_keys _ _ _ Hr2)|]. split_and!.
  - destruct (must_unlock params _ s2 password Hr2) as (s3 & E3 & Hr3); [done..|]. exists s3. split; [done|apply (r_keys _ _ _ Hr3)].
  - destruct (must_restart params _ s1 Hr1) as (s4 & E4 & Hr4). cbn [v_secret] in Hr4. rewrite bool_decide_false in Hr4 by done.
    destruct (must_unlock params _ s4 password Hr4) as (s5 & E5 & Hr5); [done..|]. exists s4, s5.
    split_and!; [done|apply (r_keys _ _ _ Hr4)|done|apply (r_keys _ _ _ Hr5)].
  - intros other Ho. by apply (refuse_unlock params _ s2 password other Hr2).
Qed.

(** An unlocking that meets a stored key it cannot read reports the error, and
    leaves the keys before that one in the wallet, which stays locked. *)
Theorem failed_unlock_leaks password s data wd good bad rest ks e :
  let w := wallet s in
  encrypted w = true -> locked w = true -> keys w = ∅ -> password <> [] ->
  hashPasswordWithVersion password (passwordSalt w) (passwordHashVersion w) = Ok (passwordHash w) ->
  ReadFile (file s) = Ok data -> Unmarshal data = Ok wd -> Keys wd = good ++ bad :: rest ->
  map_Forall (key_ok (chainParams w)) ks -> holds (Some password) good ks ->
  stored_key (Some password) (PrivateKeyHex bad) = Err e ->
  exists e' s', Unlock password s = (Err e', s') /\
    locked (wallet s') = true /\ unlockPassword (wallet s') = [] /\ keys (wallet s') = ks.
Proof.
  intros w He Hl Hk Hpw Hh Er Eu Ek Hks Hg Hb. unfold Unlock, mbind, M_bind, get, lift, try, set_wallet, on_wallet, zoom, modify, fail.
  fold w. rewrite He, Hl. cbn [negb]. rewrite Hh. cbn [wrap_err]. rewrite bool_decide_false by tauto.
  rewrite Er. cbn [wrap_err]. rewrite Eu. cbn [wrap_err]. fold w. cbn [wallet file entropy].
  destruct (loadKeys_fails (chainParams w) password (set_unlockPassword password w) wd good bad rest ks e) as [e' ->];
    [done|by split|done..|]. eexists _, _. split; [reflexivity|]. done.
Qed.

End props.

Section txs.
Context {B : Bolt} {BL : BoltLaws B} {W : Wire} {R : MapRange} {K : Crypto} {L : KeyLib} {G : BtcLib} {S : TxScript}.

(** C15: what the wallet makes of the outputs it is given, of a total without overflow: a
    transaction that spends them in order, whose first output carries the script of the
    operation and 1000 satoshi, that pays the fee (for a registration at least the
    protocol's) and returns the rest as change unless it is dust, signed for every
    input by the key of its address. *)
Theorem wallet_txs_built w utxos rate : wutxos_ok utxos ->
  (forall name value i dest tx, CreateNameUpdateTx w name value utxos i rate dest = Ok tx ->
     exists owner kp script, utxos !! Z.to_nat i = Some owner /\ keys w !! wu_Address owner = Some kp /\
       BuildNameUpdateScript name value
         (match dest with Some a => ScriptAddress a | None => Hash160 (SerializeCompressed (PublicKey kp)) end) = Ok script /\
       let size := update_size (length utxos) script in
       (fits rate size -> built_tx utxos script (rate * size) (kp_Address kp) tx) /\ signed_by w utxos tx) /\
  (forall rand name owner tx rand', CreateNameNewTx w rand name utxos rate owner = Ok (tx, rand') ->
     rand' = rand /\ exists script, BuildNameNewScript (Hash160 (rand ++ name)) (ScriptAddress owner) = Ok script /\
       let size := name_size (length utxos) script in
       (fits rate size -> built_tx utxos script (rate * size) owner tx) /\ signed_by w utxos tx) /\
  (forall name randHex value i owner tx, CreateNameFirstUpdateTx w name randHex value utxos i rate owner = Ok tx ->
     exists u kp script, utxos !! Z.to_nat i = Some u /\ keys w !! wu_Address u = Some kp /\
       BuildNameFirstUpdateScript name randHex value (ScriptAddress owner) = Ok script /\
       let size := name_size (length utxos) script in
       (fits rate size -> built_tx utxos script (Z.max MinNameOperationFee (rate * size)) (kp_Address kp) tx) /\
       signed_by w utxos tx).
Proof.
  intros Hu. split_and!.
  - intros. by apply update_tx_built.
  - intros. by apply new_tx_built.
  - intros. by apply first_update_tx_built.
Qed.

(** C16: the fees that the wallet pays against those that the chain wants: a registration
    always passes the fee check; an update (a NAME_NEW) whose fee by rate and size stays
    a dust limit below 1000000 (1000) satoshi is refused by the mempool.  The RPC
    handlers use rate 1, which no transaction of less than a megabyte survives. *)
Theorem wallet_fees n w utxos rate height :
  ndb_wf n -> ndb_utxo_wf n -> wutxos_ok utxos -> known n utxos -> utxos <> [] -> Z.of_nat (length utxos) <= 2 ^ 32 ->
  0 <= height -> is_int32 height ->
  (forall name randHex value i owner tx script, CreateNameFirstUpdateTx w name randHex value utxos i rate owner = Ok tx ->
     BuildNameFirstUpdateScript name randHex value (ScriptAddress owner) = Ok script -> fits rate (name_size (length utxos) script) ->
     (validateTransactionFee tx NameFirstUpdate height n).1 = Ok tt) /\
  (forall name value i dest tx, CreateNameUpdateTx w name value utxos i rate dest = Ok tx ->
     rate * (887 + Z.of_nat (length utxos) * 148) + DustLimit <= 1000000 ->
     (ValidateMempoolTransaction height (Some tx) n).1 <> Ok tt) /\
  (forall rand name owner tx rand', CreateNameNewTx w rand name utxos rate owner = Ok (tx, rand') ->
     rate * (92 + Z.of_nat (length utxos) * 148) + DustLimit <= 1000 ->
     (ValidateMempoolTransaction height (Some tx) n).1 <> Ok tt).
Proof.
  intros Wf Wu Hu Hk Hne Hlen H0 Hh. split_and!.
  - intros name randHex value i owner tx script Hc Es Hf.
    destruct (first_update_tx_built _ _ _ _ _ _ _ _ _ Hu Hc) as (u & kp & script' & _ & _ & Es' & Hb & _).
    rewrite Es in Es'. injection Es' as <-. specialize (Hb Hf). destruct (known_inputs _ _ _ _ _ _ Hu Hk Hb) as [Hi _].
    assert (outs_ok tx) as Ho by (eapply built_outs_ok; [exact Hu| |exact Hb]; unfold MinNameOperationFee; lia).
    apply (decides_unit n _ (pays_fee n tx NameFirstUpdate) Wf); [by apply validateTransactionFee_decides|].
    eapply (proj1 (built_pays _ _ _ _ _ _ NameFirstUpdate Hu Hk Hb Hne)). cbn [minFeeOf]. lia.
  - intros name value i dest tx Hc Hr.
    assert (0 <= rate) by (revert Hc; unfold CreateNameUpdateTx; by destruct (Z.ltb_spec rate 0)).
    destruct (update_tx_built _ _ _ _ _ _ _ _ Hu Hc) as (u & kp & script & _ & _ & Es & Hb & _).
    pose proof (update_script_length _ _ _ _ Es) as Hl. destruct (BuildNameUpdateScript_parse _ _ _ _ Es) as [Hp _].
    assert (rate * update_size (length utxos) script <= rate * (887 + Z.of_nat (length utxos) * 148)) by (unfold update_size; nia).
    assert (fits rate (update_size (length utxos) script)) as Hf by (unfold fits, update_size, DustLimit in *; unfold_int; lia).
    specialize (Hb Hf). destruct (known_inputs _ _ _ _ _ _ Hu Hk Hb) as [Hi _].
    assert (outs_ok tx) as Ho by (eapply built_outs_ok; [exact Hu| |exact Hb]; unfold update_size; nia).
    eapply underpaid_refused; [done..|by eapply built_has_op|].
    eapply (proj2 (built_pays _ _ _ _ _ _ NameUpdate Hu Hk Hb Hne)). cbn [minFeeOf]. unfold MinNameOperationFee. lia.
  - intros rand name owner tx rand' Hc Hr.
    assert (0 <= rate) by (revert Hc; unfold CreateNameNewTx; by destruct (Z.ltb_spec rate 0)).
    destruct (new_tx_built _ _ _ _ _ _ _ _ Hu Hc) as (_ & script & Es & Hb & _).
    pose proof (new_script_length _ _ _ Es) as Hl. destruct (BuildNameNewScript_parse _ _ _ Es) as [Hp _].
    assert (name_size (length utxos) script = 92 + Z.of_nat (length utxos) * 148) as Esz by (unfold name_size; lia).
    rewrite Esz in Hb. assert (fits rate (92 + Z.of_nat (length utxos) * 148)) as Hf by (unfold fits, DustLimit in *; unfold_int; lia).
    specialize (Hb Hf). destruct (known_inputs _ _ _ _ _ _ Hu Hk Hb) as [Hi _].
    assert (outs_ok tx) as Ho by (eapply built_outs_ok; [exact Hu| |exact Hb]; nia).
    eapply underpaid_refused; [done..|by eapply built_has_op|].
    eapply (proj2 (built_pays _ _ _ _ _ _ NameNew Hu Hk Hb Hne)). cbn [minFeeOf]. unfold MinRelayTxFee. lia.
Qed.

(** The fee is computed with wrap-around: with the greatest rate, which is accepted,
    a transaction of even estimated size pays a negative fee and creates coins. *)
Theorem fee_overflow_mints utxos name value dest change script a :
  wutxos_ok utxos -> is_AddressPubKeyHash dest = true -> PayToAddrScript change = Ok a ->
  BuildNameUpdateScript name value (ScriptAddress dest) = Ok script ->
  let size := update_size (length utxos) script in
  Z.even size = true -> Zsum (wu_Value <$> utxos) + size <= MaxInt64 -> 1000 + DustLimit <= Zsum (wu_Value <$> utxos) + size ->
  exists tx, CreateNameUpdateTxRaw name value (Some dest) (Some change) utxos MaxInt64 = Ok tx /\
    outputs_sum tx = Zsum (wu_Value <$> utxos) + size.
Proof.
  intros Hu Hd Ha Es size Hev Hs1 Hs2. unfold CreateNameUpdateTxRaw. rewrite Hd. cbn [mbind res_bind]. rewrite Es.
  cbn [wrap_err mbind res_bind Z.ltb]. change (MaxInt64 <? 0) with false. cbn [mbind res_bind].
  unfold buildNameUpdateTxUnsigned. rewrite total_in_sum by done. destruct Hu as [Hv Ht].
  replace (10 + Z.of_nat (length utxos) * 148 + Z.of_nat (length script) + 34 + 34) with size by (unfold size, update_size; lia).
  assert (0 < size) by (unfold size, update_size; lia).
  assert (0 <= Zsum (wu_Value <$> utxos)) by (by apply Zsum_nonneg, Forall_fmap).
  set (total := Zsum (wu_Value <$> utxos)) in *. clearbody size total.
  rewrite (int64_id size) by (unfold_int; lia). apply Z.even_spec in Hev as [k ->].
  assert (int64 (MaxInt64 * (2 * k)) = - (2 * k)) as ->.
  { unfold_int. replace (9223372036854775807 * (2 * k) + 9223372036854775808) with ((- (2 * k) + 9223372036854775808) + k * 18446744073709551616) by lia.
    rewrite Z.mod_add by lia. rewrite Z.mod_small by lia. lia. }
  rewrite (int64_id (total - 1000)) by (unfold_int; lia). rewrite int64_id by (unfold_int; lia).
  destruct (Z.ltb_spec (total - 1000 - - (2 * k)) 0); [unfold DustLimit in *; lia|]. unfold addChangeOutput.
  rewrite Z.geb_leb. destruct (Z.leb_spec DustLimit (total - 1000 - - (2 * k))); [|lia]. rewrite Ha. cbn [wrap_err mbind res_bind mret res_ret].
  eexists. split; [reflexivity|]. unfold buildNameTxBase, AddTxOut, outputs_sum. cbn [TxOuts].
  rewrite (proj2 (base_ins utxos (NewMsgTx TxVersion))). unfold Zsum. simpl. lia.
Qed.

End txs.

(** ** Concrete inputs

    Random bytes come from a counter, the cipher is the identity, the derived key is the
    password itself; a private key is one byte, an address the hash in hexadecimal; a
    file is in memory and its text the digits of a number. *)

#[export] Instance ToyCrypto : Crypto := {
  rng := Z;
  rand_Read n g := (Ok (replicate n (byte_of_Z g)), g + 1);
  scrypt_Key pw salt N r p len := Ok (take len (pw ++ salt ++ replicate len Byte.x00));
  gcm_Seal key nonce plaintext := plaintext;
  gcm_Open key nonce ciphertext := Ok ciphertext;
}.

#[export] Instance ToyCryptoLaws : CryptoLaws ToyCrypto.
Proof.
  split.
  - intros n s b s' [= <- <-]. apply length_replicate.
  - intros pw salt N _. eexists. split; [reflexivity|]. rewrite length_take, !length_app, length_replicate. lia.
  - done.
Qed.

#[export] Instance ToyKeys : KeyLib := {
  privkey := byte; pubkey := byte; address := bytes;
  NewPrivateKey g := (Ok (byte_of_Z g), g + 1);
  PrivKeyFromBytes b := (default Byte.x00 (head b), default Byte.x00 (head b));
  PubKey k := k;
  priv_Serialize k := k :: replicate 31 Byte.x00;
  SerializeCompressed p := [Byte.x02; p];
  NewAddressPubKeyHash h p := if bool_decide (length h = 20%nat) then Ok h else Err (EMsg "pkHash must be 20 bytes");
  EncodeAddress a := hex_EncodeToString a;
}.

#[export] Instance ToyKeyLaws : KeyLaws ToyKeys.
Proof.
  split; [done|done| |intros a; apply hex_ascii].
  intros h p Hh. exists h. simpl. by rewrite bool_decide_true.
Qed.

#[export] Instance ToyDisk : Disk := {
  disk := option bytes;
  ReadFile d := option_res ErrNotExist d;
  MkdirAll d := (Ok tt, d);
  WriteFile data d := (Ok tt, Some data);
}.
#[export] Instance ToyDiskLaws : DiskLaws ToyDisk.
Proof. split; [by intros data d d' [= <-]|by intros d r d' [= _ <-]]. Qed.
#[export] Instance ToyReliable : ReliableDisk ToyDisk.
Proof. intros data d. by eexists. Qed.

#[export] Instance keyData_eq_dec : EqDecision keyData.
Proof. solve_decision. Defined.
#[export] Instance walletData_eq_dec : EqDecision walletData.
Proof. solve_decision. Defined.
#[export] Program Instance keyData_countable : Countable keyData :=
  inj_countable' (fun k => (PrivateKeyHex k, kd_Address k)) (fun p => mkKeyData p.1 p.2) _.
Next Obligation. by intros []. Qed.
#[export] Program Instance walletData_countable : Countable walletData :=
  inj_countable' (fun d => (Version d, Encrypted d, PasswordHash d, PasswordSalt d, PasswordHashVersion d, Keys d))
    (fun p => let '(v, e, h, s, hv, k) := p in mkWalletData v e h s hv k) _.
Next Obligation. by intros []. Qed.

Fixpoint digits (p : positive) : bytes :=
  match p with xH => [] | xO p => Byte.x30 :: digits p | xI p => Byte.x31 :: digits p end.
Fixpoint of_digits (b : bytes) : positive :=
  match b with [] => xH | c :: b => if decide (c = Byte.x31) then xI (of_digits b) else xO (of_digits b) end.
Lemma of_digits_digits p : of_digits (digits p) = p.
Proof. induction p as [p IH|p IH|]; simpl; by rewrite ?IH. Qed.

#[export] Instance ToyJson : WalletJson := {
  MarshalIndent wd := Ok (digits (encode wd));
  Unmarshal b := option_res (EMsg "unexpected end of JSON input") (decode (of_digits b));
}.
Lemma toy_roundtrip wd : Unmarshal (digits (encode wd)) = Ok wd.
Proof. simpl. by rewrite of_digits_digits, countable.decode_encode. Qed.
#[export] Instance ToyJsonLaws : JsonLaws ToyJson.
Proof. intros wd _. eexists. split; [reflexivity|]. apply toy_roundtrip. Qed.

#[export] Instance ToyScript : TxScript := {
  is_AddressPubKeyHash a := true;
  ScriptAddress a := a;
  PayToAddrScript a := Ok (p2pkh a);
  CalcSignatureHash script ty tx i := Ok (script ++ be_bytes 4 (Z.of_nat i));
  ecdsa_Sign k h := k :: h;
  ScriptBuilder l := Ok (concat l);
}.

Definition wallet0 : World := mkWorld (empty_wallet NamecoinRegTestParams) None 7.
Definition wallet1 : World := (run NamecoinRegTestParams OpGenerate wallet0).2.
Definition secret1 : bytes := str "passw0rd".
Definition wallet2 : World := (EncryptWallet secret1 wallet1).2.

Lemma result_ok {S A} (m : M S A) s a : (m s).1 = Ok a -> m s = (Ok a, (m s).2).
Proof. destruct (m s). simpl. by intros ->. Qed.

Definition my_address : bytes := hex_EncodeToString (Byte.x02 :: Byte.x07 :: replicate 18 Byte.x00).

Lemma wallet1_represents : exists v, represents NamecoinRegTestParams v wallet1 /\ v_secret v = None.
Proof.
  assert ((run NamecoinRegTestParams OpGenerate wallet0).1 = Ok (Some my_address)) as E by (vm_compute; reflexivity).
  destruct (step_result NamecoinRegTestParams (mkVault None true ∅) wallet0 OpGenerate _ wallet1
    (represents_start NamecoinRegTestParams (None : @disk ToyDisk) (7 : @rng ToyCrypto) eq_refl) ltac:(intros k g a _ _; apply lookup_empty) (result_ok _ _ _ E))
    as (v & St & Hr).
  exists v. split; [done|]. by inversion St.
Qed.

Lemma encrypted_ok : EncryptWallet secret1 wallet1 = (Ok tt, wallet2).
Proof. apply (result_ok (EncryptWallet secret1)). vm_compute. reflexivity. Qed.

Lemma wallet2_represents : exists v, represents NamecoinRegTestParams v wallet2 /\ v_secret v = Some secret1 /\ v_open v = true.
Proof.
  destruct wallet1_represents as (v & Hr & Hn).
  destruct (step_unit NamecoinRegTestParams v wallet1 (OpEncrypt secret1) (Ok tt) wallet2 ltac:(done) Hr I encrypted_ok) as (v' & St & Hr').
  exists v'. split; [done|]. by inversion St.
Qed.

Lemma wallet_refines_witness : exists v v',
  represents NamecoinRegTestParams v wallet1 /\
  run NamecoinRegTestParams (OpEncrypt secret1) wallet1 = (Ok None, wallet2) /\
  vault_step NamecoinRegTestParams (OpEncrypt secret1) v (Ok None) v' /\ represents NamecoinRegTestParams v' wallet2.
Proof.
  destruct wallet1_represents as (v & Hr & _).
  assert (run NamecoinRegTestParams (OpEncrypt secret1) wallet1 = (Ok None, wallet2)) as E.
  { unfold run, mbind, M_bind. by rewrite encrypted_ok. }
  destruct (proj2 (wallet_refines NamecoinRegTestParams) v wallet1 (OpEncrypt secret1) (Ok None) wallet2 Hr I E) as (v' & St & Hr').
  exists v, v'. exact (conj Hr (conj E (conj St Hr'))).
Defined.

Lemma encrypt_lock_unlock_witness : exists s2 s3, Lock wallet2 = (Ok tt, s2) /\ keys (wallet s2) = ∅ /\
  Unlock secret1 s2 = (Ok tt, s3) /\ keys (wallet s3) = keys (wallet wallet1) /\ size (keys (wallet s3)) = 1%nat.
Proof.
  destruct wallet1_represents as (v & Hr & Hn).
  destruct (encrypt_lock_unlock NamecoinRegTestParams v wallet1 secret1 wallet2 Hr encrypted_ok) as (s2 & E2 & Hk & (s3 & E3 & Ek) & _).
  exists s2, s3. split; [exact E2|]. split; [exact Hk|]. split; [exact E3|]. split; [exact Ek|].
  rewrite Ek. vm_compute. reflexivity.
Defined.

(** The file of [wallet2] with a damaged second key. *)
Definition damaged : walletData :=
  match Unmarshal (default [] (file wallet2)) with
  | Ok wd => mkWalletData (Version wd) (Encrypted wd) (PasswordHash wd) (PasswordSalt wd) (PasswordHashVersion wd)
      (Keys wd ++ [mkKeyData (str "?") (str "?")])
  | Err _ => mkWalletData 0 false [] [] 0 []
  end.
Definition damaged_world : World :=
  mkWorld (set_keys (fun _ => ∅) (set_state true true (wallet wallet2))) (Some (digits (encode damaged))) 0.

Lemma failed_unlock_leaks_witness : exists e s', Unlock secret1 damaged_world = (Err e, s') /\
  locked (wallet s') = true /\ size (keys (wallet s')) = 1%nat.
Proof.
  destruct wallet2_represents as (v & Hr & Hs & Ho).
  destruct (r_file _ _ _ Hr) as [(_ & _ & Hn)|(data & wd & Er & Eu & Hd)]; [congruence|].
  pose proof (toy_roundtrip damaged) as Ed.
  assert (Keys damaged = Keys wd ++ [mkKeyData (str "?") (str "?")]) as Ek.
  { unfold damaged. destruct (file wallet2) as [d|]; [|discriminate Er]. assert (data = d) as -> by (by injection Er). change (default [] (Some d)) with d. by rewrite Eu. }
  destruct (failed_unlock_leaks secret1 damaged_world (digits (encode damaged)) damaged (Keys wd) (mkKeyData (str "?") (str "?")) []
    (v_known v) (EMsg "invalid encrypted data format")) as (e & s' & E & El & _ & Eks).
  - reflexivity.
  - reflexivity.
  - reflexivity.
  - discriminate.
  - vm_compute. reflexivity.
  - reflexivity.
  - exact Ed.
  - exact Ek.
  - exact (r_known _ _ _ Hr).
  - rewrite <-Hs. exact (d_keys _ _ _ _ Hd).
  - vm_compute. reflexivity.
  - exists e, s'. split; [exact E|]. split; [exact El|]. rewrite Eks.
    pose proof (r_keys _ _ _ Hr) as H. rewrite Ho in H. rewrite <-H. vm_compute. reflexivity.
Defined.

Definition my_utxos : list wUTXO := [mkWUTXO (u_TxHash the_utxo) 1 500000000 [Byte.x51] my_address].
Definition my_update : MsgTx :=
  match CreateNameUpdateTx (wallet wallet1) the_name (str "{}") my_utxos 0 1 None with Ok tx => tx | Err _ => NewMsgTx 1 end.

Lemma my_utxos_ok : wutxos_ok my_utxos.
Proof. split; [by repeat constructor|]. vm_compute. discriminate. Qed.

Lemma my_utxos_known : known utxo_db my_utxos.
Proof.
  constructor; [|constructor]. split; [split; [reflexivity|unfold is_uint32; simpl; lia]|]. exists the_utxo. rewrite (proj2 (proj2 (proj2 utxo_db_spec))). split; [apply lookup_insert_eq|done].
Qed.

Lemma wallet_txs_built_witness : wutxos_ok my_utxos /\
  CreateNameUpdateTx (wallet wallet1) the_name (str "{}") my_utxos 0 1 None = Ok my_update /\
  signed_by (wallet wallet1) my_utxos my_update.
Proof.
  assert (CreateNameUpdateTx (wallet wallet1) the_name (str "{}") my_utxos 0 1 None = Ok my_update) as E by (vm_compute; reflexivity).
  split; [exact my_utxos_ok|]. split; [exact E|].
  destruct (proj1 (wallet_txs_built (wallet wallet1) my_utxos 1 my_utxos_ok) _ _ _ _ _ E) as (_ & _ & _ & _ & _ & _ & _ & Hs).
  exact Hs.
Defined.

Lemma utxo_db_names : ndb_wf utxo_db.
Proof.
  destruct utxo_db_spec as ([Ho _] & H2 & H3 & _).
  refine (proj1 (ndb_wf_frame utxo_buckets fresh_db utxo_db fresh_wf Ho H2 H3 _ _)); unfold utxo_buckets;
    rewrite !not_elem_of_cons; split_and!; try discriminate; apply not_elem_of_nil.
Qed.

Lemma wallet_fees_witness : known utxo_db my_utxos /\
  CreateNameUpdateTx (wallet wallet1) the_name (str "{}") my_utxos 0 1 None = Ok my_update /\
  (ValidateMempoolTransaction 100 (Some my_update) utxo_db).1 <> Ok tt.
Proof.
  assert (CreateNameUpdateTx (wallet wallet1) the_name (str "{}") my_utxos 0 1 None = Ok my_update) as E by (vm_compute; reflexivity).
  split; [exact my_utxos_known|]. split; [exact E|].
  assert (is_int32 100) as H32 by (unfold is_int32; lia).
  assert (0 <= 100) as H0 by lia.
  assert (Z.of_nat (length my_utxos) <= 2 ^ 32) as Hl by (vm_compute; discriminate).
  destruct (wallet_fees utxo_db (wallet wallet1) my_utxos 1 100 utxo_db_names (proj1 utxo_db_spec) my_utxos_ok my_utxos_known
    ltac:(discriminate) Hl H0 H32) as (_ & Hu & _).
  apply (Hu _ _ _ _ _ E). vm_compute. discriminate.
Defined.

Definition my_pkh : @address ToyCrypto ToyKeys := pkh.

Lemma fee_overflow_mints_witness : exists tx,
  CreateNameUpdateTxRaw the_name (str "{ }") (Some my_pkh) (Some my_pkh) my_utxos MaxInt64 = Ok tx /\
  500000000 < outputs_sum tx.
Proof.
  destruct (fee_overflow_mints my_utxos the_name (str "{ }") my_pkh my_pkh (update_script the_name (str "{ }")) (p2pkh pkh)) as (tx & E & Ho).
  - exact my_utxos_ok.
  - reflexivity.
  - reflexivity.
  - vm_compute. reflexivity.
  - vm_compute. reflexivity.
  - vm_compute. discriminate.
  - vm_compute. discriminate.
  - exists tx. split; [exact E|]. rewrite Ho. vm_compute. reflexivity.
Defined.
