(* ===== verification/RpcNamesSpec.v ===== *)
(** * The RPC server: requests that are refused

    [refused] is a triple for handlers: a reply is an error and leaves the node's part of
    the server as it was, there is no panic, and a value satisfies the postcondition. *)

From S2P Require Import Prelude Clock Float Strings Json Bolt Lru Record NameDB NamesSpec Utxo UtxoSpec.
From S2P Require Import Config Script ScriptSpec Wire AuxPow Chain ChainUpdate UpdateSpec Grown.
From S2P Require Import Mempool MempoolSpec Network Node Encryption Wallet WalletTx RateLimit.
From S2P Require Import Rpc RpcNames RpcWallet RpcChain RpcServer RpcSpec.

Section refused.
Context {B : Bolt} {LB : BoltLaws B} {CB : BoltCommits B}.
Context {W : Wire} {G : BtcLib} {R : MapRange} {D : Btcd} {Q : BtcdQueries} {N : NetParams} {P : PeerLib}.
Context {K : Crypto} {L : KeyLib} {F : Disk} {J : WalletJson} {S : TxScript} {X : RpcLib}.

Abbreviation Server := (@Server B D P K L F).
Abbreviation Handler := (@Handler B D P K L F).

Section triple.
Context (a : names_state) (U : gmap bytes UTXO) (w : Wallet) (s0 : Server).

(** The database is seen as [a] and [U], the wallet is [w], the node is that of [s0]. *)
Definition unchanged (s : Server) : Prop :=
  db_view (srv_db s) a U /\ srv_wallet s = w /\ node_part s = node_part s0.

Definition refused {A} (m : Handler A) (Post : A -> Prop) (s : Server) : Prop :=
  match m s with
  | (Go x, s') => unchanged s' /\ Post x
  | (Reply r, s') => Error_ r <> None /\ node_part s' = node_part s0
  | (Panic _, _) => False
  end.

Lemma refused_ret {A} (x : A) (Post : A -> Prop) s : unchanged s -> Post x -> refused (mret x) Post s.
Proof using. by split. Qed.

Lemma refused_bind {A C} (m : Handler A) (k : A -> Handler C) (Post : C -> Prop) (Mid : A -> Prop) s :
  refused m Mid s -> (forall x s', unchanged s' -> Mid x -> refused (k x) Post s') -> refused (m ≫= k) Post s.
Proof using.
  unfold refused, mbind, Handler_bind. destruct (m s) as [[x|r|e] s']; [|done..]. intros [U' Hx] Hk. by apply Hk.
Qed.

Lemma refused_error {A} id c msg (Post : A -> Prop) s : unchanged s -> refused (reply_error id c msg) Post s.
Proof using. intros U'. split; [done|apply U']. Qed.

Lemma refused_gets {A} (f : Server -> A) s : unchanged s -> refused (gets f) (fun x => exists s', unchanged s' /\ x = f s') s.
Proof using. intros U'. split; [done|eauto]. Qed.

Lemma refused_or_error {A} id c msg (r : res A) s : unchanged s -> refused (or_error id c msg r) (fun x => r = Ok x) s.
Proof using. intros U'. destruct r; [by split|by apply refused_error]. Qed.

Lemma refused_nth {A} (l : list A) i s : unchanged s -> (i < length l)%nat -> refused (nth_param l i) (fun _ => True) s.
Proof using.
  intros U' Hi. unfold refused, nth_param. destruct (l !! i) eqn:E; [by split|]. apply lookup_ge_None in E. lia.
Qed.

Lemma refused_true {A} (m : Handler A) (Post : A -> Prop) s : refused m Post s -> refused m (fun _ => True) s.
Proof using. unfold refused. destruct (m s) as [[x|r|e] s']; naive_solver. Qed.

(** A query, by its specification. *)
Lemma refused_query {A} (m : M NameDatabase A) (Ok_ : A -> Prop) (Err_ : error -> Prop) s : unchanged s ->
  wp m (fun x n' => db_view n' a U /\ Ok_ x) (fun e n' => db_view n' a U /\ panics e = false /\ Err_ e) (srv_db s) ->
  refused (on_nameDB m) (fun r => match r with Ok x => Ok_ x | Err e => Err_ e end) s.
Proof using.
  intros (V & Hw & Hn) H. unfold refused, on_nameDB, on_peerMgr, call, in_chain, in_nameDB, zoom.
  unfold wp, srv_db, srv_chain in *.
  destruct (m (nameDB (blockchain (peerMgr s)))) as [[x|e] n']; simpl in *.
  - destruct H as [V' Hx]. split; [|done]. split; [done|]. split; [done|]. exact Hn.
  - destruct H as (V' & -> & He). split; [|done]. split; [done|]. split; [done|]. exact Hn.
Qed.

Lemma refused_GetName name s : unchanged s ->
  refused (on_nameDB (GetName name)) (fun r => match r with Ok r => s_names a !! name = Some r | Err _ => s_names a !! name = None end) s.
Proof using LB.
  intros Hs. eapply refused_query; [done|]. eapply wp_mono; [apply (GetName_view _ a U), Hs| |]; simpl; [done|].
  by intros e n' (? & -> & ?).
Qed.

Lemma refused_GetUTXOs addr s : unchanged s ->
  refused (on_nameDB (GetUTXOsForAddress addr))
    (fun r => match r with Ok l => forall u, u ∈ l -> U !! uk u = Some u /\ u_Address u = addr /\ addr <> [] | Err _ => True end) s.
Proof using LB.
  intros Hs. eapply refused_query; [done|]. eapply wp_mono; [apply (GetUTXOs_view _ a U), Hs| |]; simpl.
  - intros l n' (-> & Ha & Hl). split; [apply Hs|]. intros u Hu. apply Hl in Hu as [? ?]. done.
  - intros e n' [-> ?]. split; [apply Hs|done].
Qed.

Lemma refused_GetNameUTXO name s : unchanged s ->
  refused (on_nameDB (GetNameUTXO name))
    (fun r => match r with Ok u => exists r, s_names a !! name = Some r /\ u_TxHash u = Record.TxHash r /\ u_OutIndex u = OutIndex r
                         | Err _ => True end) s.
Proof using LB.
  intros Hs. eapply refused_query; [done|]. eapply wp_mono; [apply (GetNameUTXO_view _ a U), Hs| |]; simpl; [done|].
  intros e n' [? ?]. done.
Qed.

(** ** The common beginnings *)

Lemma refused_requireWallet id s : unchanged s -> refused (requireWallet id) (fun _ => True) s.
Proof using.
  intros Hs. unfold requireWallet. eapply refused_bind; [by apply refused_gets|]. intros [] s' H' _; [by apply refused_error|by apply refused_ret].
Qed.
Lemma refused_requireBlockchain id s : unchanged s -> refused (requireBlockchain id) (fun _ => True) s.
Proof using.
  intros Hs. unfold requireBlockchain. eapply refused_bind; [by apply refused_gets|]. intros [] s' H' _; [by apply refused_error|by apply refused_ret].
Qed.

Lemma refused_prepare req n s : unchanged s -> refused (prepareNameWalletRequest req n) (fun l => (n <= length l)%nat) s.
Proof using.
  intros Hs. unfold prepareNameWalletRequest. eapply refused_bind; [by apply refused_requireWallet|]. intros [] s1 H1 _.
  eapply refused_bind; [by apply refused_requireBlockchain|]. intros [] s2 H2 _.
  unfold parseStringParams. destruct (Unmarshal_strings (Params_ req)) as [l|]; [|by apply refused_error].
  case_bool_decide; [by apply refused_error|]. apply refused_ret; [done|lia].
Qed.

Lemma refused_validate name v id s : unchanged s -> refused (validateNameUpdateRequest name v id) (fun _ => True) s.
Proof using.
  intros Hs. unfold validateNameUpdateRequest, validateNameLength, validateValueSize.
  eapply (refused_bind _ _ _ (fun _ => True)).
  - destruct (_ || _); [by apply refused_error|by apply refused_ret].
  - intros [] s' H' _. destruct (_ >? _); [by apply refused_error|by apply refused_ret].
Qed.

Lemma refused_dest params id s : unchanged s -> refused (parseOptionalDestAddress params id) (fun _ => True) s.
Proof using.
  intros Hs. unfold parseOptionalDestAddress. destruct (params !! 2%nat) as [[|c p]|]; [by apply refused_ret| |by apply refused_ret].
  eapply refused_bind; [by apply refused_or_error|]. intros addr s' H' _.
  destruct (is_AddressPubKeyHash addr); [by apply refused_ret|by apply refused_error].
Qed.

(** ** name_update *)

Lemma convert_none dbUTXOs h i : (forall u, u ∈ dbUTXOs -> ~ (u_TxHash u = h /\ u_OutIndex u = i)) ->
  (convertAndFindNameUTXO dbUTXOs h i).2 = -1.
Proof using.
  intros Hn. unfold convertAndFindNameUTXO.
  match goal with |- (foldl ?f _ _).2 = _ => enough (forall us acc, (forall u, u ∈ us -> u ∈ dbUTXOs) -> acc.2 = -1 -> (foldl f acc us).2 = -1) as He
    by (by apply He) end.
  induction us as [|u us IH]; intros [l j] Hin; simpl; [done|]. intros ->. apply IH; [intros; apply Hin; by right|]. simpl.
  destruct (bool_decide (u_TxHash u = h) && (u_OutIndex u =? i)) eqn:E; [|done].
  apply andb_true_iff in E as [?%bool_decide_eq_true ?%Z.eqb_eq]. destruct (Hn u); [apply Hin; by left|done].
Qed.

Lemma refused_collect name record id s : names_hidden a U -> unchanged s ->
  refused (collectNameUpdateUTXOs name record id) (fun _ => False) s.
Proof using LB.
  intros Hh Hs. unfold collectNameUpdateUTXOs.
  eapply refused_bind; [by apply refused_GetNameUTXO|]. intros r s1 H1 Hr. cbv beta in Hr.
  eapply refused_bind; [by apply refused_or_error|]. intros nameUTXO s2 H2 ->. destruct Hr as (r & Er & E1 & E2).
  eapply refused_bind; [by apply refused_GetUTXOs|]. intros r2 s3 H3 Hl. cbv beta in Hl.
  eapply refused_bind; [by apply refused_or_error|]. intros walletUTXOs s4 H4 ->.
  pose proof (convert_none walletUTXOs (u_TxHash nameUTXO) (u_OutIndex nameUTXO)) as Ec.
  destruct (convertAndFindNameUTXO _ _ _) as [utxos i]. simpl in Ec. rewrite Ec; [by apply refused_error|].
  intros u Hu [Ea Eb]. destruct (Hl u Hu) as (Eu & Ead & Hne).
  eapply (hidden_output a U name r u); [done|done|done|congruence|]. split; congruence.
Qed.

Lemma refused_nameUpdate env req s : names_hidden a U -> unchanged s ->
  refused (nameUpdate env req) (fun _ => False) s.
Proof using LB.
  intros Hh Hs. unfold nameUpdate.
  eapply refused_bind; [by apply refused_prepare|]. intros params s1 H1 Hl. cbv beta in Hl.
  eapply refused_bind; [apply refused_nth; [done|lia]|]. intros name s2 H2 _.
  eapply refused_bind; [apply refused_nth; [done|lia]|]. intros v s3 H3 _.
  eapply refused_bind; [by apply refused_dest|]. intros dest s4 H4 _.
  eapply refused_bind; [by apply refused_validate|]. intros [] s5 H5 _.
  eapply (refused_bind _ _ _ (fun _ => False)); [|done]. unfold buildNameUpdateTx.
  eapply (refused_bind _ _ _ (fun _ => True)).
  { unfold lookupActiveNameRecord. eapply refused_bind; [by apply refused_GetName|]. intros r s6 H6 _.
    eapply refused_bind; [by apply refused_or_error|]. intros record s7 H7 _.
    eapply refused_bind; [by apply refused_gets|]. intros h s8 H8 _.
    destruct (_ <? _); [by apply refused_error|by apply refused_ret]. }
  intros record s6 H6 _. eapply (refused_bind _ _ _ (fun _ => True)).
  { unfold verifyNameOwnership. eapply refused_bind; [by apply refused_gets|]. intros w' s7 H7 _.
    destruct (negb _); [by apply refused_error|by apply refused_ret]. }
  intros [] s7 H7 _. eapply refused_bind; [by apply refused_collect|]. done.
Qed.

(** ** name_firstupdate *)

Lemma findFrom_none i utxos : (forall u, u ∈ utxos -> at_ (wu_PkScript u) 0 <> opNameNew) -> findFrom i utxos = -1.
Proof using.
  revert i; induction utxos as [|u utxos IH]; intros i Hn; simpl; [done|].
  destruct (Z.eqb_spec (at_ (wu_PkScript u) 0) opNameNew) as [E|]; [by apply Hn in E; [|left]|].
  rewrite andb_false_r. apply IH. intros u' Hu'. apply Hn. by right.
Qed.

Lemma refused_nameFirstUpdate env req s : names_hidden a U -> unchanged s ->
  refused (nameFirstUpdate env req) (fun _ => False) s.
Proof using LB.
  intros Hh Hs. unfold nameFirstUpdate.
  eapply refused_bind; [by apply refused_prepare|]. intros params s1 H1 Hl. cbv beta in Hl.
  eapply refused_bind; [apply refused_nth; [done|lia]|]. intros name s2 H2 _.
  eapply refused_bind; [apply refused_nth; [done|lia]|]. intros randHex s3 H3 _.
  eapply refused_bind; [apply refused_nth; [done|lia]|]. intros v s4 H4 _.
  eapply refused_bind; [by apply refused_validate|]. intros [] s5 H5 _.
  eapply refused_bind; [by apply refused_or_error|]. intros rand s6 H6 _.
  eapply (refused_bind _ _ _ (fun _ => True)).
  { unfold validateNameNewCommitment. eapply (refused_bind _ _ _ (fun _ => True)).
    { eapply refused_true, (refused_query _ (fun _ => True) (fun _ => True)); [done|].
      eapply wp_mono; [apply (GetNameNew_view _ a U), H6| |]; simpl; [intros ? ? ->; split; [apply H6|done]|].
      intros e n' [-> ?]. split; [apply H6|done]. }
    intros r s7 H7 _. eapply refused_bind; [by apply refused_or_error|]. intros nn s8 H8 _.
    eapply refused_bind; [by apply refused_gets|]. intros h s9 H9 _.
    destruct (_ <? _); [by apply refused_error|]. destruct (_ >? _); [by apply refused_error|by apply refused_ret]. }
  intros [] s7 H7 _. unfold getWalletAddressAndUTXOs.
  eapply (refused_bind _ _ _ (fun p => forall u, u ∈ p.2 -> at_ (wu_PkScript u) 0 <> opNameNew)).
  { eapply (refused_bind _ _ _ (fun _ => True)).
    { unfold primaryWalletAddress. eapply refused_bind; [by apply refused_gets|]. intros w' s8 H8 _.
      destruct (GetAddresses w'); [by apply refused_error|by apply refused_ret]. }
    intros owner s8 H8 _. eapply refused_bind; [by apply refused_or_error|]. intros addr s9 H9 _.
    eapply (refused_bind _ _ _ (fun l => forall u, u ∈ l -> at_ (wu_PkScript u) 0 <> opNameNew)).
    - unfold loadWalletFundingUTXOs. eapply refused_bind; [by apply refused_GetUTXOs|]. intros r s10 H10 Hr. cbv beta in Hr.
      eapply refused_bind; [by apply refused_or_error|]. intros l s11 H11 ->.
      case_bool_decide; [by apply refused_error|]. apply refused_ret; [done|].
      intros u (u0 & -> & Hu)%list_elem_of_fmap Ho. destruct (Hr u0 Hu) as (Eu & Ea & Hne). apply Hne. rewrite <-Ea.
      eapply (hd_addr _ _ Hh); [exact Eu|]. unfold name_opcode. simpl in Ho. by rewrite Ho.
    - intros l s10 H10 Hl'. by apply refused_ret. }
  intros [addr utxos] s8 H8 Hu. cbv beta in Hu. simpl in Hu. eapply (refused_bind _ _ _ (fun _ => False)); [|done].
  unfold requireNameNewUTXOIndex, findNameNewUTXOIndex. rewrite findFrom_none by done. by apply refused_error.
Qed.

End triple.
End refused.
