(* ===== verification/ClientSpec.v ===== *)
(** * What the embedded client promises

    A query of the client changes nothing but the cache of the database ([seen]); its
    answers are those of the names state that the database models. *)

From S2P Require Import Prelude Clock Float Strings Json Bolt Lru Record NameDB NamesSpec Utxo UtxoSpec.
From S2P Require Import Config Script ScriptSpec Wire AuxPow Chain ChainUpdate UpdateSpec Grown.
From S2P Require Import Mempool MempoolSpec Network Node Encryption Wallet WalletTx RateLimit.
From S2P Require Import Rpc RpcNames Client.

Section spec.
Context {B : Bolt} {LB : BoltLaws B} {CB : BoltCommits B}.
Context {W : Wire} {G : BtcLib} {R : MapRange} {D : Btcd} {Q : BtcdQueries} {BB : BtcdBlocks} {N : NetParams} {P : PeerLib}.
Context {K : Crypto} {L : KeyLib} {F : Disk} {J : WalletJson} {S : TxScript} {X : RpcLib}.

Abbreviation EmbeddedClient := (@EmbeddedClient B D P K L F).

Definition ec_db (c : EmbeddedClient) : NameDatabase := nameDB (ec_chain c).
Definition set_ec_db (n : NameDatabase) (c : EmbeddedClient) : EmbeddedClient :=
  set_ec_peerMgr (set_chain (set_nameDB n (ec_chain c)) (ec_peerMgr c)) c.
Definition ec_best (c : EmbeddedClient) : Z := btcd_BestHeight (btcd (ec_chain c)).

(** Ready to answer: the context is not done, the client is open. *)
Definition ready (ctx : context) (c : EmbeddedClient) : Prop := ctx_done ctx = false /\ ec_closed c = false.

Section state.
Context (a : names_state) (U : gmap bytes UTXO) (c0 : EmbeddedClient).

(** The client [c0] after some queries. *)
Definition seen (c : EmbeddedClient) : Prop := db_view (ec_db c) a U /\ exists n, c = set_ec_db n c0.

Lemma seen_set c n : seen c -> db_view n a U -> seen (set_ec_db n c).
Proof using. intros [_ [n0 ->]] V. split; [done|]. by exists n. Qed.

Lemma seen_best c : seen c -> ec_best c = ec_best c0.
Proof using. by intros [_ [n ->]]. Qed.
Lemma seen_wallet c : seen c -> ec_wallet c = ec_wallet c0.
Proof using. by intros [_ [n ->]]. Qed.
Lemma seen_closed c : seen c -> ec_closed c = ec_closed c0.
Proof using. by intros [_ [n ->]]. Qed.

(** A query, by its specification. *)
Lemma wp_on_db {A} (m : M NameDatabase A) (Ok_ : A -> Prop) (Err_ : error -> Prop) c : seen c ->
  wp m (fun x n' => db_view n' a U /\ Ok_ x) (fun e n' => db_view n' a U /\ Err_ e) (ec_db c) ->
  wp (on_db m) (fun x c' => seen c' /\ Ok_ x) (fun e c' => seen c' /\ Err_ e) c.
Proof using.
  intros Hs H. unfold on_db, in_chain, in_nameDB. rewrite !wp_zoom. unfold ec_db in H.
  eapply wp_mono; [exact H| |]; simpl; intros x n' [V Hx]; split; try done; by apply seen_set.
Qed.

Lemma wp_attempt {A} (m : M EmbeddedClient A) (Q' : res A -> EmbeddedClient -> Prop) E c :
  wp m (fun x => Q' (Ok x)) (fun e c' => if panics e then E e c' else Q' (Err e) c') c -> wp (attempt m) Q' E c.
Proof using. unfold wp, attempt. destruct (m c) as [[x|e] c']; [done|]. by destruct (panics e). Qed.

Lemma wp_asks {A} (f : EmbeddedClient -> A) Q' E c : wp (asks f) Q' E c <-> Q' (f c) c.
Proof using. done. Qed.

Lemma wp_GetName name c : seen c ->
  wp (attempt (on_db (GetName name)))
    (fun r c' => seen c' /\ match s_names a !! name with
                            | Some x => r = Ok x
                            | None => r = Err ErrNameNotFound
                            end) (fun _ _ => False) c.
Proof using LB.
  intros Hs. apply wp_attempt. eapply wp_mono.
  - apply (wp_on_db _ (fun x => s_names a !! name = Some x) (fun e => e = ErrNameNotFound /\ s_names a !! name = None)); [done|].
    eapply wp_mono; [apply (GetName_view _ a U), Hs| |]; simpl; naive_solver.
  - simpl. intros x c' [? ->]. done.
  - simpl. intros e c' (? & -> & ->). done.
Qed.

Lemma wp_check ctx c Q' E : seen c -> ready ctx c0 -> Q' tt c -> wp (checkContextAndState ctx) Q' E c.
Proof using.
  intros Hs [Hc Hcl] HQ. unfold checkContextAndState, checkClientContext, checkOpenState.
  autorewrite with wp. rewrite Hc. simpl. autorewrite with wp. rewrite wp_asks, (seen_closed c) by done. rewrite Hcl. simpl. by autorewrite with wp.
Qed.

(** ** Resolving *)

(** What [ResolveName] answers for a name of the state. *)
Definition resolved (name : bytes) : res cNameRecord :=
  if bool_decide (name = []) then Err ErrInvalidName
  else match s_names a !! name with
       | None => Err ErrNotFound
       | Some r => if ExpiresAt r <? ec_best c0 then Err ErrNameExpired else Ok (convertToClientRecord r (ec_best c0))
       end.

Lemma ResolveName_answers ctx name c : seen c -> ready ctx c0 ->
  wp (ResolveName ctx name) (fun x c' => seen c' /\ resolved name = Ok x) (fun e c' => seen c' /\ resolved name = Err e) c.
Proof using LB.
  intros Hs Hr. unfold ResolveName, resolved. autorewrite with wp. apply wp_check; [done|done|].
  case_bool_decide; [by autorewrite with wp|]. autorewrite with wp.
  eapply wp_mono; [by apply wp_GetName| |done]. intros r c' [Hs' Hr'].
  destruct (s_names a !! name) as [x|]; rewrite Hr'; simpl; [|by autorewrite with wp].
  unfold bestHeightOf. autorewrite with wp. rewrite wp_asks. fold (ec_best c'). rewrite (seen_best c') by done.
  destruct (_ <? _); by autorewrite with wp.
Qed.

(** ** Updating *)

Lemma find_utxo_none p utxos : forall i, (forall u, u ∈ utxos -> p u = false) -> find_utxo i p utxos = None.
Proof using.
  induction utxos as [|u utxos IH]; intros i H; simpl; [done|]. rewrite H by (by left). apply IH. intros v Hv. apply H. by right.
Qed.

Lemma UpdateName_refused env ctx name value opts c : names_hidden a U -> seen c ->
  wp (UpdateName env ctx name value opts) (fun _ _ => False) (fun e c' => panics e = false /\ seen c') c.
Proof using LB.
  intros Hh Hs. unfold UpdateName, checkClientState. autorewrite with wp. unfold checkClientContext.
  destruct (ctx_done ctx); simpl; autorewrite with wp; [done|].
  destruct (ec_closed c); autorewrite with wp; [done|]. destruct (ec_no_wallet c); autorewrite with wp; [done|].
  unfold validateRegistrationInputs. destruct (_ || _); [done|]. destruct (blen value >? _); [done|].
  unfold getAndValidateNameRecord. autorewrite with wp.
  eapply wp_mono; [by apply wp_GetName| |done]. intros r c1 [Hs1 Hr].
  destruct (s_names a !! name) as [x|] eqn:Ex; rewrite Hr; simpl; [|by autorewrite with wp].
  unfold bestHeightOf. autorewrite with wp. rewrite wp_asks. destruct (_ <? _); autorewrite with wp; [done|]. rewrite wp_asks.
  destruct (negb (HasKey (Address x) (ec_wallet c1))); autorewrite with wp; [done|].
  unfold createUpdateTransaction. autorewrite with wp.
  eapply wp_mono; [apply (wp_on_db _ (fun l => forall u, u ∈ l -> U !! uk u = Some u /\ u_Address u = Address x /\ Address x <> [])
    (fun e => panics e = false)); [done|] | |].
  - eapply wp_mono; [apply (GetUTXOs_view _ a U), Hs1| |]; simpl.
    + intros l n' (-> & Ha & Hl). split; [apply Hs1|]. intros u Hu. apply Hl in Hu as [? ?]. done.
    + intros e n' [-> ?]. split; [apply Hs1|done].
  - simpl. intros utxos c2 [Hs2 Hl]. case_bool_decide; autorewrite with wp; [done|].
    unfold findNameUTXO. rewrite find_utxo_none; [by simpl; autorewrite with wp|].
    intros u Hu. destruct (Hl u Hu) as (Eu & Ea & Hne). apply andb_false_iff.
    destruct (decide (u_TxHash u = Record.TxHash x)) as [E1|]; [right|left; by apply bool_decide_eq_false].
    apply Z.eqb_neq. intros E2. eapply (hidden_output a U name x u); [done|done|done|congruence|]. by split.
  - simpl. by intros e c2 [? ?].
Qed.

End state.

(** ** Waiting *)

(** The block of a height has a transaction of that hash. *)
Definition mined (bc : BlockChain) (h : Z) (txHash : bytes) : Prop :=
  exists txs tx, q_BlockByHeight (btcd bc) h = Ok txs /\ tx ∈ txs /\ TxHash tx = txHash.

Lemma findHeight_spec bc txHash n : forall h,
  match findHeight bc txHash h n with
  | Some h' => h - Z.of_nat n < h' <= h /\ mined bc h' txHash /\ forall h2, h' < h2 <= h -> ~ mined bc h2 txHash
  | None => forall h2, h - Z.of_nat n < h2 <= h -> ~ mined bc h2 txHash
  end.
Proof using.
  induction n as [|n IH]; intros h; [simpl; lia|]. cbn [findHeight]. specialize (IH (h - 1)).
  assert (~ mined bc h txHash ->
    match findHeight bc txHash (h - 1) n with
    | Some h' => h - Z.of_nat (Datatypes.S n) < h' <= h /\ mined bc h' txHash /\ forall h2, h' < h2 <= h -> ~ mined bc h2 txHash
    | None => forall h2, h - Z.of_nat (Datatypes.S n) < h2 <= h -> ~ mined bc h2 txHash
    end) as Hnext.
  { intros Hh. destruct (findHeight bc txHash (h - 1) n) as [h'|].
    - destruct IH as (I1 & I2 & I3). split_and!; [lia|lia|done|]. intros h2 H2. destruct (decide (h2 = h)) as [->|]; [done|apply I3; lia].
    - intros h2 H2. destruct (decide (h2 = h)) as [->|]; [done|apply IH; lia]. }
  destruct (q_BlockByHeight (btcd bc) h) as [txs|e] eqn:E; [|apply Hnext; intros (? & ? & ? & _); congruence].
  destruct (existsb _ txs) eqn:Ex.
  - apply existsb_exists in Ex as (tx & Hin & Et%bool_decide_eq_true). split_and!; [lia|lia| |lia].
    exists txs, tx. split_and!; [done|by apply list_elem_of_In|done].
  - apply Hnext. intros (txs2 & tx & E2 & Hin & Et). assert (txs2 = txs) as -> by congruence.
    enough (existsb (fun tx => bool_decide (TxHash tx = txHash)) txs = true) by congruence.
    apply existsb_exists. exists tx. rewrite <-list_elem_of_In. split; [done|by apply bool_decide_eq_true].
Qed.

(** The highest of the last 1001 blocks that has the transaction is deep enough. *)
Definition confirmed (bc : BlockChain) (txHash : bytes) (required : Z) : Prop :=
  let best := btcd_BestHeight (btcd bc) in
  exists h, 0 <= h <= best /\ best - 1000 <= h /\ mined bc h txHash /\
    (forall h2, h < h2 <= best -> ~ mined bc h2 txHash) /\ required <= best - h + 1.

Definition best_ok (bc : BlockChain) : Prop := 0 <= btcd_BestHeight (btcd bc) <= MaxInt32.

Lemma hasEnough_iff bc txHash n : best_ok bc ->
  hasEnoughConfirmations bc txHash n = true <-> confirmed bc txHash (int32 n).
Proof using.
  unfold best_ok, hasEnoughConfirmations, getTransactionConfirmationStatus, confirmed. set (best := btcd_BestHeight (btcd bc)). intros Hb.
  set (start := if int32 (best - 1000) <? 0 then 0 else int32 (best - 1000)).
  assert (start = Z.max 0 (best - 1000)) as Es.
  { unfold start. rewrite int32_id by (unfold_int; unfold MaxInt32 in *; lia). destruct (Z.ltb_spec (best - 1000) 0); lia. }
  pose proof (findHeight_spec bc txHash (Z.to_nat (best - start + 1)) best) as Sp.
  destruct (findHeight bc txHash best _) as [h|].
  - destruct Sp as (H1 & H2 & H3). rewrite (int32_id (best - h)) by (unfold is_int32; lia).
    rewrite (int32_id (best - h + 1)) by (unfold is_int32; lia). rewrite Z.geb_le. split.
    + intros H. exists h. split_and!; [lia..|done|done|lia].
    + intros (h' & ? & ? & Hm & Hno & Hr). destruct (Z.lt_total h h') as [|[->|]]; [|lia|].
      * by destruct (H3 h'); [lia|].
      * by destruct (Hno h); [lia|].
  - split; [done|]. intros (h & ? & ? & Hm & _). by destruct (Sp h); [lia|].
Qed.

Lemma confirmed_limit bc txHash required : confirmed bc txHash required -> required <= 1001.
Proof using. intros (h & ? & ? & _ & _ & ?). lia. Qed.

(** The states of the chain that a waiting call looks at. *)
Fixpoint observed (events : list wait_event) : list (@PeerManager P BlockChain) :=
  match events with Tick pm :: events => pm :: observed events | _ => [] end.

Lemma poll_spec txHash n events : forall c, Forall (fun pm => best_ok (blockchain pm)) (observed events) ->
  match pollForConfirmation txHash n events c with
  | (Ok _, c') => confirmed (ec_chain c') txHash (int32 n)
  | (Err e, c') => (e = ErrContextCanceled \/ e = Blocked) /\
      Forall (fun pm => ~ confirmed (blockchain pm) txHash (int32 n)) (observed events)
  end.
Proof using.
  induction events as [|[pm|] events IH]; intros c Hb; [by split; [right|constructor]| |by split; [left|constructor]].
  simpl in Hb. apply Forall_cons in Hb as [Hpm Hb].
  cbn [pollForConfirmation observed]. unfold mbind, M_bind, modify, asks, get, mret, M_ret. simpl.
  pose proof (hasEnough_iff (blockchain pm) txHash n Hpm) as Hi. unfold ec_chain at 1. simpl.
  destruct (hasEnoughConfirmations (blockchain pm) txHash n); [by apply Hi|].
  specialize (IH (set_ec_peerMgr pm c) Hb). destruct (pollForConfirmation _ _ _ _) as [[[]|e] c']; [done|].
  destruct IH as [? ?]. split; [done|]. constructor; [|done]. intros Hc. by apply Hi in Hc.
Qed.

(** ** Listing *)

(** What a filter selects. *)
Definition selects (f : ListFilter) (best : Z) (r : NameRecord) : Prop :=
  (IncludeExpired f = true \/ best <= ExpiresAt r) /\ (exists s, Name r = Namespace f ++ s) /\
  (exists s, Name r = NamePattern f ++ s) /\ (lf_Address f = [] \/ Address r = lf_Address f).

Lemma matchesPattern_iff name p : matchesPattern name p = true <-> exists s, name = p ++ s.
Proof using.
  unfold matchesPattern. case_bool_decide as E; [subst; split; [by exists name|done]|].
  rewrite andb_true_iff, !bool_decide_eq_true. split.
  - intros [_ H]. exists (drop (length p) name). rewrite <-H at 1. by rewrite take_drop.
  - intros [s ->]. rewrite length_app, take_app_length. split; [lia|done].
Qed.

Lemma matchesFilter_iff r f best : matchesFilter r f best = true <-> selects f best r.
Proof using.
  unfold matchesFilter, selects. rewrite <-!matchesPattern_iff.
  destruct (IncludeExpired f), (Z.ltb_spec (ExpiresAt r) best), (matchesPattern (Name r) (Namespace f)),
    (matchesPattern (Name r) (NamePattern f)); simpl; try (split; [done|intuition (congruence || lia)]).
  all: repeat case_bool_decide; simpl; split; try done; intuition (try congruence; try lia).
Qed.

#[export] Instance selects_dec f best r : Decision (selects f best r).
Proof.
  destruct (matchesFilter r f best) eqn:E; [left; by apply matchesFilter_iff|right]. rewrite <-matchesFilter_iff. by rewrite E.
Defined.

(** The records that a filter selects, in the form of the client. *)
Definition selected (f : ListFilter) (best : Z) (rs : list NameRecord) : list cNameRecord :=
  (fun r => convertToClientRecord r best) <$> filter (selects f best) rs.

Lemma filter_selected f best rs : filterAndConvertRecords rs f best = selected f best rs.
Proof using.
  unfold selected. induction rs as [|r rs IH]; [done|]. unfold filterAndConvertRecords in *. cbn [omap list_omap]. rewrite filter_cons.
  pose proof (matchesFilter_iff r f best). destruct (matchesFilter r f best); case_decide; [|naive_solver..|]; rewrite IH; done.
Qed.

Lemma page_is filtered f : 0 <= Offset f -> 0 < Limit f ->
  applyPagination filtered f = take (Z.to_nat (Limit f)) (drop (Z.to_nat (Offset f)) filtered).
Proof using.
  intros Ho Hl. unfold applyPagination. rewrite Z.geb_leb, !Z.gtb_ltb.
  destruct (Z.ltb_spec 0 (Offset f)); simpl.
  - destruct (Z.leb_spec (Z.of_nat (length filtered)) (Offset f)).
    + rewrite drop_ge by lia. by rewrite take_nil.
    + destruct (Z.ltb_spec (Limit f) (Z.of_nat (length (drop (Z.to_nat (Offset f)) filtered)))); [done|]. by rewrite take_ge by lia.
  - replace (Offset f) with 0 by lia. rewrite drop_0. destruct (Z.ltb_spec (Limit f) (Z.of_nat (length filtered))); [done|].
    by rewrite take_ge by lia.
Qed.

(** A page is the selection from its offset on. *)
Lemma ListNames_page ctx f c a : ready ctx c -> db_view (ec_db c) a (ndb_utxos (ec_db c)) ->
  exists rs, listing (s_names a) rs /\
    forall l o, 1 <= l <= 10000 -> 0 <= o ->
    (ec_ListNames ctx (Some (mkListFilter (NamePattern f) (Namespace f) (lf_Address f) (IncludeExpired f) l o)) c).1 =
      Ok (take (Z.to_nat l) (drop (Z.to_nat o) (selected f (ec_best c) rs))).
Proof using LB.
  intros [Hc Hcl] V. pose proof (ListNames_correct (ec_db c) (md_wf _ _ (dv_models _ _ _ V))) as Wp.
  rewrite (md_names _ _ (dv_models _ _ _ V)) in Wp. unfold wp in Wp.
  destruct (ListNames (ec_db c)) as [[rs|e] n'] eqn:E; [|done]. destruct Wp as [-> Hl]. exists rs. split; [done|].
  intros l o Hl' Ho. unfold ec_ListNames, checkContextAndState, checkClientContext, checkOpenState, asks, lift, get, mbind, M_bind, mret, M_ret.
  rewrite Hc. simpl. rewrite Hcl. simpl. unfold wrapM, on_db, in_chain, in_nameDB, zoom. simpl.
  unfold ec_db in E. unfold ec_chain in *. rewrite E. simpl.
  destruct (Z.leb_spec l 0); [lia|]. rewrite Z.gtb_ltb. destruct (Z.ltb_spec 10000 l); [lia|].
  rewrite page_is by (simpl; lia). simpl. f_equal.
  rewrite <-filter_selected. reflexivity.
Qed.

(** Pages of [l] elements, one after the other, are the whole list. *)
Lemma pages_concat {A} (l : nat) (xs : list A) : (0 < l)%nat -> forall n, (length xs <= n * l)%nat ->
  concat ((fun k => take l (drop (k * l) xs)) <$> seq 0 n) = xs.
Proof using.
  intros Hl. enough (forall n, concat ((fun k => take l (drop (k * l) xs)) <$> seq 0 n) = take (n * l) xs) as He.
  { intros n Hn. rewrite He. by apply take_ge. }
  induction n as [|n IH]; [by rewrite take_0|].
  rewrite seq_S, fmap_app, concat_app, IH. simpl. rewrite app_nil_r, Nat.add_comm.
  by rewrite take_take_drop.
Qed.

End spec.
