(* ===== verification/DaemonSpec.v ===== *)
(** * What the daemon client does

    The requests of one call as a trace, and a server of RpcServer.v as the daemon: what a
    call over HTTP gives back of a response. *)

From Stdlib Require Import Floats.SpecFloat.
From S2P Require Import Prelude Clock Float Strings Base64 Bolt Lru Record NameDB.
From S2P Require Import NamesSpec Utxo UtxoSpec Config Script ScriptSpec Wire AuxPow Encryption.
From S2P Require Import Mempool Chain ChainUpdate Wallet WalletTx MempoolSpec RateLimit.
From S2P Require Import Network Node Rpc RpcNames RpcWallet RpcChain RpcServer Client Json Daemon.
From S2P Require Import UpdateSpec Grown ClientSpec.

(** ** The trace of a call *)

Inductive event := Sent (call : HttpCall) (reply : HttpReply + bytes) | Waited (delay : Z) (canceled : bool).

(** A transport that notes what it does. *)
#[export] Instance Traced {T} (TT : Transport T) : Transport (T * list event) := {|
  NewRequest_error := NewRequest_error;
  Do call w := let '(r, t) := Do call w.1 in (r, (t, w.2 ++ [Sent call r]));
  CtxDone w := CtxDone w.1;
  SelectAfter d w := let '(b, t) := SelectAfter d w.1 in (b, (t, w.2 ++ [Waited d b]));
  SelectTick w := let '(b, t) := SelectTick w.1 in (b, (t, w.2));
|}.

Section trace.
Context {JT : JsonText} {T : Type} {TT : Transport T}.

Definition transient (r : HttpReply + bytes) : bool :=
  match reply_outcome r with Failed e => isTransientError e | Got _ => false end.

(** Requests that failed in passing, each followed by a wait that ran out. *)
Definition longest (cfg : RetryConfig) : Z := Z.max (InitialDelay cfg) (MaxDelay cfg).

Inductive retries (call : HttpCall) (cfg : RetryConfig) : nat -> list event -> Prop :=
  | retries_none : retries call cfg 0 []
  | retries_more n r d evs : transient r = true -> d <= longest cfg -> retries call cfg n evs ->
      retries call cfg (S n) (Sent call r :: Waited d false :: evs).

(** How a call can end, after [n] retries of at most [max] requests; the next delay, as a
    float64 turned into an integer, may be negative. *)
Inductive ending (call : HttpCall) (cfg : RetryConfig) (max : Z) (n : nat) : list event -> outcome (option value) -> Prop :=
  | end_reply r : Z.of_nat n + 1 <= max ->
      (transient r = true -> Z.of_nat n + 1 = max) ->
      ending call cfg max n [Sent call r] (reply_outcome r)
  | end_canceled r d : Z.of_nat n + 1 < max -> transient r = true -> d <= longest cfg ->
      ending call cfg max n [Sent call r; Waited d true] (Failed (Sentinel ErrContextCanceled))
  | end_overflow r d : Z.of_nat n + 1 < max -> transient r = true -> d <= longest cfg ->
      int_of_float (fmul (of_int d) (Multiplier cfg)) < 0 ->
      ending call cfg max n [Sent call r; Waited d false] (Failed (Sentinel ErrContextCanceled))
  | end_done : Z.of_nat n < max -> ending call cfg max n [] (Failed (Sentinel ErrContextCanceled)).

Lemma retries_length call cfg n evs : retries call cfg n evs -> length evs = (2 * n)%nat.
Proof using. induction 1; simpl; lia. Qed.

Lemma shouldRetry_transient r attempt cfg e : reply_outcome r = Failed e ->
  shouldRetryRPC attempt cfg e = transient r && (attempt <? MaxAttempts cfg - 1).
Proof using. intros E. unfold shouldRetryRPC, transient. by rewrite E. Qed.

(** What a computation adds to the trace, and its result. *)
Definition traces (x : outcome (option value) * (T * list event)) (log : list event)
    (Post : list event -> outcome (option value) -> Prop) : Prop :=
  exists evs, x.2.2 = log ++ evs /\ Post evs x.1.

Definition call_of (c : DaemonClient) (body : bytes) : HttpCall :=
  mkCall (dc_baseURL c) (match dc_auth c with Some (user, pass) => SetBasicAuth user pass | None => [] end) body.

(** At most [max] requests, and the waits between them. *)
Definition call_trace (call : HttpCall) (cfg : RetryConfig) (max : Z) (trace : list event) (x : outcome (option value)) : Prop :=
  exists n evs last, trace = evs ++ last /\ retries call cfg n evs /\ ending call cfg max n last x.

Lemma ending_first call cfg max last x : ending call cfg max 0 last x -> call_trace call cfg max last x.
Proof using. intros H. exists 0%nat, [], last. split; [done|]. by split; [constructor|]. Qed.

Lemma ending_more call cfg max n last x : ending call cfg max n last x -> ending call cfg (max + 1) (S n) last x.
Proof using.
  intros [r ? Hr|r d ? ? ?|r d ? ? ? ?|?]; [apply end_reply; [lia|]; intros E; specialize (Hr E); lia
    |apply end_canceled|apply end_overflow|apply end_done]; auto; lia.
Qed.

Lemma retryFrom_trace cfg body c n : forall attempt delay lastErr (w : T * list event),
  (0 < n)%nat -> attempt + Z.of_nat n = MaxAttempts cfg -> 0 <= MaxDelay cfg ->
  NewRequest_error (T := T) (dc_baseURL c) = None -> delay <= longest cfg ->
  traces (retryFrom n attempt delay body cfg lastErr c w) w.2
    (call_trace (call_of c body) cfg (Z.of_nat n)).
Proof using.
  induction n as [|n IH]; intros attempt delay lastErr [w log] Hn Ha Hmx Hu Hd; [lia|].
  cbn [retryFrom]. unfold mbind, DM_bind, checkRPCCallContext, dtry, doRPCCall, newRPCRequest, send.
  unfold mbind, DM_bind, traces. simpl. destruct (CtxDone w); simpl.
  { exists []. rewrite app_nil_r. split; [done|]. apply ending_first, end_done. lia. }
  rewrite Hu. cbn [fst snd]. change (mkCall _ _ body) with (call_of c body). destruct (Do (call_of c body) w) as [r w1].
  assert (forall x, (transient r = true -> n = 0%nat) -> x = reply_outcome r ->
    exists evs, log ++ [Sent (call_of c body) r] = log ++ evs /\
      call_trace (call_of c body) cfg (Z.pos (Pos.of_succ_nat n)) evs x) as Hend.
  { intros x Ht ->. eexists. split; [done|]. apply ending_first, end_reply; [lia|]. intros E%Ht. lia. }
  destruct (reply_outcome r) as [raw|e] eqn:Er; simpl.
  { apply Hend; [|done]. unfold transient. by rewrite Er. }
  rewrite (shouldRetry_transient r) by done. destruct (transient r) eqn:Et; simpl; [|by apply Hend].
  destruct (Z.ltb_spec attempt (MaxAttempts cfg - 1)); simpl; [|apply Hend; [lia|done]]. clear Hend.
  unfold waitAndBackoff. simpl. destruct (SelectAfter delay w1) as [[|] w2]; simpl.
  { eexists. rewrite <-app_assoc. split; [done|]. apply ending_first, end_canceled; [lia|done|done]. }
  set (next := if _ >? _ then _ else _). assert (next <= MaxDelay cfg) as Hnx.
  { unfold next. rewrite Z.gtb_ltb. case_match; lia. }
  destruct (Z.ltb_spec next 0) as [Hneg|]; simpl.
  { eexists. rewrite <-app_assoc. split; [done|]. apply ending_first, end_overflow; [lia|done|done|]. revert Hneg. unfold next. rewrite Z.gtb_ltb. case_match; lia. }
  destruct (IH (attempt + 1) next e (w2, (log ++ [Sent (call_of c body) r]) ++ [Waited delay false])) as (evs & E & k & evs' & last & -> & Hr & He);
    [lia|lia|lia|done|unfold longest; lia|].
  exists (Sent (call_of c body) r :: Waited delay false :: evs' ++ last). split; [by rewrite E; simpl; rewrite <-!app_assoc|].
  exists (S k), (Sent (call_of c body) r :: Waited delay false :: evs'), last. split; [done|]. split; [by constructor|].
  rewrite Nat2Z.inj_succ, <-Z.add_1_r. by apply ending_more.
Qed.

Lemma rpcCall_trace m params c (w : T * list event) :
  dc_closed c = false -> 0 < MaxAttempts (dc_retryConfig c) -> 0 <= MaxDelay (dc_retryConfig c) ->
  NewRequest_error (T := T) (dc_baseURL c) = None ->
  traces (rpcCall m params c w) w.2
    (call_trace (call_of c (marshalRPCRequest m params)) (dc_retryConfig c) (MaxAttempts (dc_retryConfig c))).
Proof using.
  intros Hc Hm Hd Hu. unfold rpcCall, getRetryConfig, dasks, mbind, DM_bind. rewrite Hc. simpl.
  pose proof (retryFrom_trace (dc_retryConfig c) (marshalRPCRequest m params) c (Z.to_nat (MaxAttempts (dc_retryConfig c)))
    0 (InitialDelay (dc_retryConfig c)) (Plain []) w) as H.
  rewrite Z2Nat.id in H by lia. apply H; [lia|lia|done|done|unfold longest; lia].
Qed.

End trace.

(** ** The daemon client of a server

    The server of RpcServer.v as the daemon behind a client of Daemon.v: a request is the
    text of its struct, a response the text of its own, and a call gives back what the
    server's handler replied. *)

(** The decoder of requests reads what the client writes. *)
Class RequestLaws (JT : JsonText) (RT : RequestText) :=
  Decode_request m params : is_ascii (str m) = true -> marshalable params = true ->
    Decode (marshalRPCRequest m params) =
      (mkRequest (str m) (Some (json_of (reread params))) (JNum (Some (of_int 1))), None).

(** ** The text of a response *)

(** An identifier as it was decoded. *)
Fixpoint value_of (j : json) : value :=
  match j with
  | JNull => VNil
  | JBool b => VBool b
  | JNum x => from_option VFloat VNil x
  | JStr s => VStr s
  | JArr l => VList (value_of <$> l)
  | JObj l => VMap ((fun kv => (String.string_of_list_byte kv.1, value_of kv.2)) <$> l)
  end.

Section response.
(** The text of a message with its arguments. *)
Context (render : string -> bytes).

Definition error_value (e : Rpc.Error) : value :=
  VMap [("code"%string, VInt (Code e)); ("message"%string, VStr (render (Message_ e)))].

(** A nil result and a nil error are left out. *)
Definition response_value (r : Response) : value :=
  VMap ([("jsonrpc"%string, VStr (str "2.0"))] ++
        (match Result r with VNil => [] | v => [("result"%string, go_maps v)] end) ++
        (match Error_ r with None => [] | Some e => [("error"%string, error_value e)] end) ++
        [("id"%string, go_maps (value_of (RespID r)))]).

(** What the client makes of a response. *)
Definition replied (r : Response) : outcome (option value) :=
  match Error_ r with
  | Some e => Failed (RpcErr (Code e) (valid_string (render (Message_ e))))
  | None => Got (match Result r with VNil => None | v => Some (reread (go_maps v)) end)
  end.

End response.

Section response_decode.
Context (render : string -> bytes).

Lemma decode_response_value r :
  RespID r = JNum (Some (of_int 1)) -> from_option (fun e => - 2 ^ 63 <= Code e < 2 ^ 63) True (Error_ r) ->
  decode_response (reread (response_value render r)) =
    Some (match Result r with VNil => None | v => Some (reread (go_maps v)) end,
          (fun e => (Code e, valid_string (render (Message_ e)))) <$> Error_ r).
Proof using.
  intros Hid He. assert (reread (go_maps (value_of (RespID r))) = VInt 1) as Ei by (rewrite Hid; vm_compute; reflexivity).
  assert (valid_string (str "2.0") = str "2.0") as Ej by (vm_compute; reflexivity).
  unfold decode_response, member_string, member_int, member, member_error, response_value.
  destruct (Error_ r) as [e|]; simpl in He.
  - assert (read_int 64 (VInt (Code e)) = Some (Code e)) as Hc by by apply read_int_ok.
    destruct (Result r); cbn [reread app fmap list_fmap fst snd as_struct mbind option_bind error_value]; rewrite Ei, Ej;
      eval_members; simpl; unfold member; eval_members; simpl; rewrite ?Hc; done.
  - destruct (Result r); cbn [reread app fmap list_fmap fst snd as_struct mbind option_bind]; rewrite Ei, Ej; eval_members; done.
Qed.

End response_decode.

(** ** The server as a transport *)

Section daemon_server.
Context {B : Bolt} {LB : BoltLaws B} {CB : BoltCommits B}.
Context {W : Wire} {G : BtcLib} {R : MapRange} {D : Btcd} {Q : BtcdQueries} {BB : BtcdBlocks} {N : NetParams} {P : PeerLib}.
Context {K : Crypto} {L : KeyLib} {F : Disk} {J : WalletJson} {S : TxScript} {X : RpcLib}.
Context {RT : RequestText} {JT : JsonText} {JL : JsonTextLaws JT} {RL : RequestLaws JT RT}.
Context (render : string -> bytes) (status_line : Z -> bytes) (env : Env) (remote : bytes).

Abbreviation Server := (@Server B D P K L F).

Definition http_request (call : HttpCall) : RpcServer.HttpRequest :=
  mkHttpRequest MethodPost (Z.of_nat (length (hc_Body call))) remote (hc_Authorization call) (hc_Body call).

Definition body_text (b : Body) : bytes :=
  match b with
  | Text s => str s ++ [Byte.x0a]
  | RpcReply r => json_Marshal (response_value render r) ++ [Byte.x0a]
  | Health h => json_Marshal (VMap h) ++ [Byte.x0a]
  end.

Definition http_reply (resp : HttpResponse) : HttpReply :=
  mkReply (hw_Status resp) (status_line (hw_Status resp)) (body_text (hw_Body resp)) None.

(** The URL's path is the one of the RPC handler; nothing cancels the call. *)
#[export] Instance ServerTransport : Transport Server := {|
  NewRequest_error _ := None;
  Do call s := let '(resp, s') := newRPCMux env (str "/") (http_request call) s in (inl (http_reply resp), s');
  CtxDone _ := false;
  SelectAfter _ s := (false, s);
  SelectTick s := (false, s);
|}.

(** The server's checks before the request is decoded. *)
Definition lets_through (call : HttpCall) (s : Server) : Prop :=
  (validateHTTPRequest (Now env) (http_request call) s).1 = None.
Definition admitted (call : HttpCall) (s : Server) : Server :=
  (validateHTTPRequest (Now env) (http_request call) s).2.

Lemma admitted_limiter call s : lets_through call s ->
  (exists l, admitted call s = set_limiter l s) /\ Z.of_nat (length (hc_Body call)) <= maxRequestSize s.
Proof using.
  unfold lets_through, admitted, validateHTTPRequest. simpl. rewrite Z.gtb_ltb.
  destruct (Z.ltb_spec (maxRequestSize s) (Z.of_nat (length (hc_Body call)))); [done|].
  destruct (allow _ _ _) as [[] l]; simpl; [|done]. case_match; [done|]. simpl. intros _. split; [by exists l|lia].
Qed.

(** A client that can send. *)
Definition sends (dc : DaemonClient) : Prop := dc_closed dc = false /\ 0 < MaxAttempts (dc_retryConfig dc).

Definition rpc_call (dc : DaemonClient) (m : string) (params : value) : HttpCall := call_of dc (marshalRPCRequest m params).
Definition rpc_request (m : string) (params : value) : Request :=
  mkRequest (str m) (Some (json_of (reread params))) (JNum (Some (of_int 1))).

Lemma rpcCall_served dc m params s r s2 :
  sends dc -> is_ascii (str m) = true -> marshalable params = true -> lets_through (rpc_call dc m params) s ->
  processRequest env (rpc_request m params) (admitted (rpc_call dc m params) s) = (Ok r, s2) ->
  RespID r = JNum (Some (of_int 1)) -> from_option (fun e => - 2 ^ 63 <= Code e < 2 ^ 63) True (Error_ r) ->
  marshalable (response_value render r) = true ->
  rpcCall m params dc s = (replied render r, s2).
Proof using JL RL.
  intros [Hc Hm] Ha Hp Hl Hr Hid He Hw. destruct (admitted_limiter _ _ Hl) as [[l El] Hlen].
  unfold rpcCall, getRetryConfig, dasks, mbind, DM_bind. rewrite Hc. simpl. unfold executeWithRetry.
  destruct (Z.to_nat (MaxAttempts (dc_retryConfig dc))) as [|n] eqn:En; [lia|].
  cbn [retryFrom]. unfold mbind, DM_bind, checkRPCCallContext, dtry, doRPCCall, newRPCRequest, send, mbind, DM_bind. simpl.
  change (mkCall _ _ _) with (rpc_call dc m params).
  unfold newRPCMux. simpl. unfold withPanicRecovery, handleRequest. unfold lets_through, admitted in *.
  destruct (validateHTTPRequest _ _ s) as [v s1]. simpl in Hl, El, Hr |- *. subst v s1. simpl in Hr |- *.
  rewrite take_ge by (unfold http_request; simpl; simpl in Hlen; lia). rewrite Decode_request by done.
  fold (rpc_request m params). rewrite Hr. simpl.
  unfold decodeRPCResponse. simpl. pose proof (Decode_Marshal (response_value render r) [] Hw) as Hd.
  rewrite app_nil_r in Hd. rewrite Hd. rewrite decode_response_value by done.
  unfold replied. destruct (Error_ r) as [e|]; simpl; [|by destruct (Result r)].
  unfold shouldRetryRPC, isTransientError. simpl. by destruct (Result r).
Qed.

(** ** Names *)

(** What a record of the embedded client is over the wire: its expiry and time are not
    sent. *)
Definition remote_record (r : cNameRecord) : cNameRecord :=
  mkCRecord (valid_string (cr_Name r)) (valid_string (cr_Value r)) (valid_string (cr_TxHash r)) (cr_Height r) 0
    (cr_ExpiresIn r) (valid_string (cr_Address r)) zero_time.

Definition shown (r : NameRecord) (best : Z) : value := reread (go_maps (buildNameShowResult r best)).

Definition shown_fields (r : NameRecord) (best : Z) : list (string * value) :=
  [("address"%string, VStr (valid_string (Address r))); ("expired"%string, VBool (int32 (ExpiresAt r - best) <? 0));
   ("expires_in"%string, VInt (int32 (ExpiresAt r - best))); ("height"%string, VInt (Height r));
   ("name"%string, VStr (valid_string (Name r))); ("txid"%string, VStr (valid_string (Hash_String (Record.TxHash r))));
   ("value"%string, VStr (valid_string (Value r)))].

Lemma shown_is r best : shown r best = VMap (shown_fields r best).
Proof using. reflexivity. Qed.

Lemma shown_decoded r best : is_int32 (Height r) ->
  shown_record (shown_fields r best) = Some (remote_record (convertToClientRecord r best)) /\
  member_bool "expired" (shown_fields r best) = Some (int32 (ExpiresAt r - best) <? 0).
Proof using.
  intros Hh. pose proof (int32_range (ExpiresAt r - best)) as He. unfold is_int32 in *.
  assert (read_int 32 (VInt (Height r)) = Some (Height r)) as E1 by (apply read_int_ok; lia).
  assert (read_int 32 (VInt (int32 (ExpiresAt r - best))) = Some (int32 (ExpiresAt r - best))) as E2 by (apply read_int_ok; lia).
  unfold shown_record, shown_fields, member_bool, member_string, member_int, member. eval_members. simpl. by rewrite E1, E2.
Qed.

Lemma set_ec_db_same (c : @EmbeddedClient B D P K L F) : set_ec_db (ec_db c) c = c.
Proof using. by destruct c as [[? [] ? ? ? ?] ? ? ? ? ?]. Qed.

Section served.
Context (dc : DaemonClient) (s : Server) (c : @EmbeddedClient B D P K L F) (a : names_state) (ctx : context).
Hypothesis Hdc : sends dc.
Hypothesis Hs : blockchain_nil s = false.
Hypothesis Hc : ec_peerMgr c = peerMgr s.
Hypothesis Hr : ready ctx c.
Hypothesis V : db_view (ec_db c) a (ndb_utxos (ec_db c)).
(** The expiry of every name is within an int32 of the best height. *)
Hypothesis Hexp : forall name r, s_names a !! name = Some r -> is_int32 (ExpiresAt r - ec_best c).

Lemma record_height name r : s_names a !! name = Some r -> is_int32 (Height r).
Proof using V.
  rewrite <-(md_names _ _ (dv_models _ _ _ V)). intros E.
  by destruct (names_of_ok _ _ _ _ (wf_names _ (md_wf _ _ (dv_models _ _ _ V))) E) as ([] & _).
Qed.

Lemma expired_iff name r : s_names a !! name = Some r ->
  (int32 (ExpiresAt r - ec_best c) <? 0) = (ExpiresAt r <? ec_best c).
Proof using Hexp.
  intros E. rewrite int32_id by (by eapply Hexp).
  destruct (Z.ltb_spec (ExpiresAt r - ec_best c) 0), (Z.ltb_spec (ExpiresAt r) (ec_best c)); lia.
Qed.

(** The handler of name_show after the checks. *)
Lemma nameShow_served name l : (0 < length name <= 255)%nat ->
  exists resp s2, processRequest env (mkRequest (str "name_show") (Some (JArr [JStr name])) (JNum (Some (of_int 1)))) (set_limiter l s) = (Ok resp, s2) /\
    RespID resp = JNum (Some (of_int 1)) /\
    match s_names a !! name with
    | Some r => resp = successResponse (JNum (Some (of_int 1))) (buildNameShowResult r (ec_best c))
    | None => resp = errorResponse (JNum (Some (of_int 1))) (-5) "Name not found: %s"
    end.
Proof using Hs Hc V LB.
  intros Hn. pose proof (GetName_view _ a (ndb_utxos (ec_db c)) name V) as Wp. unfold wp in Wp.
  unfold ec_db, ec_best, ec_chain in *. rewrite Hc in Wp |- *.
  unfold processRequest. simpl. unfold nameShow, requireBlockchain, gets, parseNameParam, validateNameLength, mbind, Handler_bind. simpl.
  rewrite Hs. simpl. unfold Unmarshal_strings. simpl.
  assert ((blen name =? 0) || (blen name >? 255) = false) as ->.
  { unfold blen. rewrite Z.gtb_ltb. destruct (Z.eqb_spec (Z.of_nat (length name)) 0), (Z.ltb_spec 255 (Z.of_nat (length name))); simpl; try done; lia. }
  simpl. unfold on_nameDB, on_peerMgr, call, in_chain, in_nameDB, zoom. simpl.
  destruct (GetName name (nameDB (blockchain (peerMgr s)))) as [[r|e] n'].
  - destruct Wp as [_ ->]. simpl. by eexists _, _.
  - destruct Wp as (_ & -> & ->). simpl. by eexists _, _.
Qed.

(** What the client answers for an answer of the embedded client. *)
Definition over_rpc {A C} (f : A -> C) (x : res A) : outcome C :=
  match x with Ok y => Got (f y) | Err e => Failed (Sentinel e) end.

Lemma ResolveName_run name : (ResolveName ctx name c).1 = resolved a c name.
Proof using Hr V LB.
  assert (seen a (ndb_utxos (ec_db c)) c c) as Hse.
  { split; [done|]. exists (ec_db c). by rewrite set_ec_db_same. }
  pose proof (ResolveName_answers a _ c ctx name c Hse Hr) as Wp. unfold wp in Wp.
  destruct (ResolveName ctx name c) as [[x|e] c']; by destruct Wp as [_ ->].
Qed.

Lemma marshalable_names name : marshalable (strings [name]) = true.
Proof using. done. Qed.

Lemma success_marshalable v : writable 9 (go_maps v) = true ->
  marshalable (response_value render (successResponse (JNum (Some (of_int 1))) v)) = true.
Proof using.
  intros H. unfold marshalable, response_value. rewrite writable_map, !forallb_app. cbn [Result successResponse].
  destruct v; [reflexivity|..]; cbn [forallb fst snd]; rewrite H; reflexivity.
Qed.

Lemma shown_marshalable r best : marshalable (response_value render (successResponse (JNum (Some (of_int 1))) (buildNameShowResult r best))) = true.
Proof using. reflexivity. Qed.

(** Resolving over the server gives what the embedded client gives. *)
Lemma dc_ResolveName_served name : valid_string name = name -> (length name <= 255)%nat ->
  lets_through (rpc_call dc "name_show" (strings [name])) s ->
  (dc_ResolveName name dc s).1 = over_rpc remote_record (ResolveName ctx name c).1.
Proof using All.
  intros Hv Hn Hl. rewrite ResolveName_run. unfold resolved, dc_ResolveName. case_bool_decide as Ee; [done|].
  assert (0 < length name <= 255)%nat as Hn' by (destruct name; [done|simpl in *; lia]).
  destruct (admitted_limiter _ _ Hl) as [[l El] _].
  destruct (nameShow_served name l Hn') as (resp & s2 & Hp & Hid & Hresp).
  assert (rpcCall "name_show" (strings [name]) dc s = (replied render resp, s2)) as Hcall.
  { apply rpcCall_served; try done.
    - rewrite El. rewrite <-Hp. unfold rpc_request. simpl. by rewrite Hv.
    - destruct (s_names a !! name); subst resp; simpl; [done|lia].
    - destruct (s_names a !! name); subst resp; reflexivity. }
  unfold mbind, DM_bind, dtry. rewrite Hcall. destruct (s_names a !! name) as [r|] eqn:Er; subst resp; simpl; [|done].
  destruct (shown_decoded r (ec_best c) (record_height _ _ Er)) as [Hd _].
  unfold parseResolvedName, decoded, raw_struct. change (VMap _) with (VMap (shown_fields r (ec_best c))). simpl.
  rewrite Hd. simpl. unfold mbind, DM_bind. simpl.
  rewrite (expired_iff _ _ Er). by destruct (ExpiresAt r <? ec_best c).
Qed.

(** ** Listing *)

Lemma dc_pagination rs f : dc_applyPagination (remote_record <$> rs) f = remote_record <$> applyPagination rs f.
Proof using.
  unfold dc_applyPagination, applyPagination. rewrite length_fmap. case_match; [done|].
  set (rs' := if Offset f >? 0 then drop (Z.to_nat (Offset f)) rs else rs).
  assert ((if Offset f >? 0 then drop (Z.to_nat (Offset f)) (remote_record <$> rs) else remote_record <$> rs) = remote_record <$> rs') as ->.
  { unfold rs'. case_match; [by rewrite fmap_drop|done]. }
  rewrite length_fmap. case_match; [by rewrite fmap_take|done].
Qed.

(** The records that can go over the wire unchanged. *)
Definition clean (r : NameRecord) : Prop := valid_string (Name r) = Name r /\ valid_string (Address r) = Address r.

Definition listable (r : NameRecord) : Prop := is_int32 (Height r) /\ is_int32 (ExpiresAt r - ec_best c) /\ clean r.

Lemma HasPrefix_matches name p : negb (bool_decide (p = [])) && negb (HasPrefix name p) = negb (matchesPattern name p).
Proof using.
  apply eq_true_iff_eq. rewrite andb_true_iff, !negb_true_iff, bool_decide_eq_false.
  rewrite <-!not_true_iff_false, HasPrefix_true, matchesPattern_iff. split; [naive_solver|].
  intros H. split; [intros ->; apply H; by exists name|done].
Qed.

Lemma matchesListFilter_is r f : listable r ->
  matchesListFilter (cr_Name (remote_record (convertToClientRecord r (ec_best c))))
    (cr_Address (remote_record (convertToClientRecord r (ec_best c)))) (int32 (ExpiresAt r - ec_best c) <? 0) f =
  matchesFilter r f (ec_best c).
Proof using.
  intros (_ & He & Hn & Ha). unfold matchesListFilter, matchesFilter. simpl. rewrite Hn, Ha.
  rewrite int32_id by done. rewrite !HasPrefix_matches.
  replace (ExpiresAt r - ec_best c <? 0) with (ExpiresAt r <? ec_best c); [done|].
  destruct (Z.ltb_spec (ExpiresAt r - ec_best c) 0), (Z.ltb_spec (ExpiresAt r) (ec_best c)); lia.
Qed.

Lemma listed_shown r : is_int32 (Height r) ->
  listed_record (VMap (shown_fields r (ec_best c))) =
    Some (remote_record (convertToClientRecord r (ec_best c)), int32 (ExpiresAt r - ec_best c) <? 0).
Proof using.
  intros H. destruct (shown_decoded r (ec_best c) H) as [E1 E2]. unfold listed_record. cbn [as_struct mbind option_bind].
  rewrite E1. cbn [mbind option_bind]. by rewrite E2.
Qed.

Lemma listed_records rs : Forall listable rs ->
  as_slice_of listed_record (reread (go_maps (formatNameRecords rs (ec_best c)))) =
    Some ((fun r => (remote_record (convertToClientRecord r (ec_best c)), int32 (ExpiresAt r - ec_best c) <? 0)) <$> rs) /\
  forallb (writable 8) (go_maps <$> ((fun r => buildNameShowResult r (ec_best c)) <$> rs)) = true.
Proof using.
  intros H. simpl. induction H as [|r rs Hr' H [IH1 IH2]]; [done|]. split; [|by cbn [fmap list_fmap forallb]; rewrite IH2].
  cbn [fmap list_fmap]. change (reread (go_maps (buildNameShowResult r (ec_best c)))) with (VMap (shown_fields r (ec_best c))).
  cbn [mapM]. rewrite listed_shown by apply Hr'. cbn [mbind option_bind]. by rewrite IH1.
Qed.

Lemma filtered_records rs f : Forall listable rs ->
  omap (fun item : cNameRecord * bool =>
    if matchesListFilter (cr_Name item.1) (cr_Address item.1) item.2 f then Some item.1 else None)
    ((fun r => (remote_record (convertToClientRecord r (ec_best c)), int32 (ExpiresAt r - ec_best c) <? 0)) <$> rs) =
  remote_record <$> filterAndConvertRecords rs f (ec_best c).
Proof using.
  intros H. unfold filterAndConvertRecords. induction H as [|r rs Hr' H IH]; [done|].
  cbn [fmap list_fmap omap list_omap]. cbn [fst snd]. rewrite matchesListFilter_is by done.
  destruct (matchesFilter r f (ec_best c)); [|done]. cbn [fmap list_fmap]. by rewrite IH.
Qed.

(** The handler of name_list after the checks. *)
Lemma nameList_served params l : exists rs s2, listing (s_names a) rs /\
  (forall f, (ec_ListNames ctx f c).1 = Ok (applyPagination (filterAndConvertRecords rs (normalizeListFilter f) (ec_best c)) (normalizeListFilter f))) /\
  processRequest env (mkRequest (str "name_list") params (JNum (Some (of_int 1)))) (set_limiter l s) =
    (Ok (successResponse (JNum (Some (of_int 1))) (formatNameRecords rs (ec_best c))), s2).
Proof using Hs Hc Hr V LB.
  pose proof (ListNames_correct (ec_db c) (md_wf _ _ (dv_models _ _ _ V))) as Wp.
  rewrite (md_names _ _ (dv_models _ _ _ V)) in Wp. unfold wp in Wp. destruct Hr as [H1 H2].
  destruct (ListNames (ec_db c)) as [[rs|e] n'] eqn:E; [|done]. destruct Wp as [-> Hl].
  assert (forall f, (ec_ListNames ctx f c).1 = Ok (applyPagination (filterAndConvertRecords rs (normalizeListFilter f) (ec_best c)) (normalizeListFilter f))) as Hf.
  { intros f. unfold ec_ListNames, checkContextAndState, checkClientContext, checkOpenState, asks, lift, get, mbind, M_bind, mret, M_ret.
    rewrite H1. simpl. rewrite H2. simpl. unfold wrapM, on_db, in_chain, in_nameDB, zoom. simpl.
    unfold ec_db in E. unfold ec_chain in *. rewrite E. reflexivity. }
  eexists rs, _. split; [done|]. split; [exact Hf|].
  unfold processRequest. simpl. unfold nameList, requireBlockchain, gets, mbind, Handler_bind. simpl.
  rewrite Hs. simpl. unfold on_nameDB, on_peerMgr, call, in_chain, in_nameDB, zoom. simpl.
  unfold ec_db, ec_best, ec_chain in *. rewrite Hc in E |- *. rewrite E. simpl. reflexivity.
Qed.

(** Listing over the server gives what the embedded client gives. *)
Lemma dc_ListNames_served f : map_Forall (fun _ r => clean r) (s_names a) ->
  lets_through (rpc_call dc "name_list" VNil) s ->
  (dc_ListNames f dc s).1 = over_rpc (fmap remote_record) (ec_ListNames ctx f c).1.
Proof using All.
  intros Hv Hl. destruct (admitted_limiter _ _ Hl) as [[l El] _].
  destruct (nameList_served (Some JNull) l) as (rs & s2 & [Hso Hrs] & Hf & Hp). rewrite Hf. simpl.
  assert (Forall listable rs) as Hall.
  { apply Forall_forall. intros r E%Hrs. split; [by eapply record_height|]. split; [by eapply Hexp|by eapply Hv]. }
  destruct (listed_records rs Hall) as [Hd Hw].
  assert (rpcCall "name_list" VNil dc s = (Got (Some (reread (go_maps (formatNameRecords rs (ec_best c))))), s2)) as Hcall.
  { apply (rpcCall_served dc "name_list" VNil s (successResponse (JNum (Some (of_int 1))) (formatNameRecords rs (ec_best c))) s2);
      [done|done|done|done| |done|done|].
    - rewrite El. exact Hp.
    - apply success_marshalable. simpl. by rewrite writable_list. }
  unfold dc_ListNames, dwrap, mbind, DM_bind. rewrite Hcall. unfold decoded. cbn [mbind option_bind]. rewrite Hd.
  unfold mret, DM_ret. cbn [fst]. rewrite filtered_records by done. by rewrite dc_pagination.
Qed.

End served.

End daemon_server.
