(* ===== verification/Mail.v ===== *)
(** * Mail addresses and their resolution

    mail/config.go, bridge/namecoin.go and mail/router.go: the local part of an address
    is a name, whose value says where the mail goes; the router keeps the answers for a
    while. *)

From S2P Require Import Prelude Clock Strings Json Base64 Client.

(** ** Addresses *)

(** The name of an address localpart@domain.bit. *)
Definition parseBitAddress (addr : bytes) : res bytes :=
  match Split addr Byte.x40 with
  | [localpart; domain] =>
      if bool_decide (localpart = []) then Err (EMsg "invalid email address: localpart cannot be empty")
      else if negb (HasSuffix domain (str ".bit")) then Err (EMsg "invalid .bit address: domain must end with .bit")
      else if bool_decide (TrimSuffix domain (str ".bit") = []) then Err (EMsg "invalid .bit address: domain cannot be just .bit")
      else Ok localpart
  | _ => Err (EMsg "invalid email address: must contain exactly one @ symbol")
  end.

(** ** The value of a name *)

Record MailConfig := mkMailConfig { ForwardTo : bytes; BackupAddrs : list bytes; PublicKey : bytes }.

Definition ErrInvalidMailConfig : error := EMsg "invalid mail configuration".

(** A [[]string] that is decoded again: the elements of the array behind the slice are
    decoded into, and null leaves an element; the array has been as long as [backing]. *)
Record slice_strings := mkSlice { visible : nat; backing : list bytes }.

Fixpoint decode_elements (old : list bytes) (l : list value) : option (list bytes) :=
  match l with
  | [] => Some []
  | v :: l =>
      x ← (match v with VNil => Some (default [] (head old)) | _ => read_string v end);
      xs ← decode_elements (tail old) l;
      Some (x :: xs)
  end.

Definition decode_slice (s : slice_strings) (v : value) : option slice_strings :=
  match v with
  | VNil | VList [] => Some (mkSlice 0 [])
  | VList l =>
      xs ← decode_elements (backing s) l;
      Some (mkSlice (length xs) (xs ++ drop (length xs) (backing s)))
  | _ => None
  end.

Definition member_strings (name : string) (l : list (string * value)) : option (list bytes) :=
  s ← foldl (fun acc v => s ← acc; decode_slice s v) (Some (mkSlice 0 [])) (members name l);
  Some (take (visible s) (backing s)).

Section config.
Context {JT : JsonText}.

Definition parseMailConfig (v : bytes) : res MailConfig :=
  match json_Unmarshal v with
  | inr _ => Err (EWrap "invalid JSON" (EMsg "syntax error"))
  | inl j =>
      '(email, backup, pubkey) ← option_res (EWrap "invalid JSON" UnmarshalTypeError)
        (l ← as_struct j;
         email ← member_string "email" l; backup ← member_strings "backup" l; pubkey ← member_string "pubkey" l;
         Some (email, backup, pubkey));
      if bool_decide (email = []) then Err (EMsg "missing required field: email")
      else
        pubKey ← (if bool_decide (pubkey = []) then Ok []
                  else wrap_err "invalid base64 pubkey" (b64_DecodeString pubkey));
        Ok (mkMailConfig email backup pubKey)
  end.

(** The record of a name that a client resolves. *)
Definition bridge_LookupMail (ResolveName : bytes -> res cNameRecord) (name : bytes) : res MailConfig :=
  record ← ResolveName name;
  match parseMailConfig (cr_Value record) with
  | Ok config => Ok config
  | Err _ => Err (EWrap "%w: %v" ErrInvalidMailConfig)
  end.

End config.

(** ** The router *)

Record ForwardingRule := mkRule { Target : bytes; Backups : list bytes }.
Record cacheEntry := mkEntry { rule : ForwardingRule; entry_expiresAt : Z }.
Record Router := mkRouter { cache : gmap bytes cacheEntry; ttl : Z }.

Definition NewRouter (ttl : Z) : Router := mkRouter ∅ ttl.

Definition getCached (now : Z) (name : bytes) (r : Router) : option ForwardingRule :=
  if ttl r =? 0 then None
  else
    entry ← cache r !! name;
    if now >? entry_expiresAt entry then None else Some (rule entry).

Definition setCached (now : Z) (name : bytes) (x : ForwardingRule) (r : Router) : Router :=
  if ttl r =? 0 then r
  else mkRouter (<[name := mkEntry x (now + ttl r)]> (cache r)) (ttl r).

(** What one call meets: the clock when it looks into the cache and when it stores, and
    the resolver's answers. *)
Record RouteEnv := mkRouteEnv { asked_at : Z; stored_at : Z; LookupMail : bytes -> res MailConfig }.

Definition Route (e : RouteEnv) (toAddr : bytes) : M Router bytes :=
  name ← lift (wrap_err "invalid address" (parseBitAddress toAddr));
  r ← get;
  match getCached (asked_at e) name r with
  | Some rule => mret (Target rule)
  | None =>
      config ← lift (wrap_err "lookup failed for %s" (LookupMail e name));
      let rule := mkRule (ForwardTo config) (BackupAddrs config) in
      modify (setCached (stored_at e) name rule);;
      mret (Target rule)
  end.

(** ** What the router promises

    Its cache is a function of the history of what was stored; an answer is the last one
    stored for the name, while it is fresh, or the resolver's. *)

(** ** The history of a router *)

Record store := mkStore { st_time : Z; st_name : bytes; st_rule : ForwardingRule }.

(** The router after some calls have stored their answers, in any order. *)
Definition after (ttl : Z) (h : list store) : Router :=
  foldl (fun r x => setCached (st_time x) (st_name x) (st_rule x) r) (NewRouter ttl) h.

Definition last_store (h : list store) (name : bytes) : option store := last (filter (fun x => st_name x = name) h).

Lemma after_snoc ttl h x : after ttl (h ++ [x]) = setCached (st_time x) (st_name x) (st_rule x) (after ttl h).
Proof. unfold after. by rewrite foldl_app. Qed.

Lemma after_ttl d h : ttl (after d h) = d.
Proof.
  induction h as [|x h IH] using rev_ind; [done|]. rewrite after_snoc. unfold setCached. by case_match.
Qed.

Lemma last_store_snoc h x name : last_store (h ++ [x]) name = if decide (st_name x = name) then Some x else last_store h name.
Proof.
  unfold last_store. rewrite filter_app, filter_cons, filter_nil. case_decide; [by rewrite last_snoc|]. by rewrite app_nil_r.
Qed.

Lemma after_cache d h name : d <> 0 ->
  cache (after d h) !! name = (fun x => mkEntry (st_rule x) (st_time x + d)) <$> last_store h name.
Proof.
  intros Hd. induction h as [|x h IH] using rev_ind; [done|].
  rewrite after_snoc, last_store_snoc. unfold setCached. rewrite after_ttl. destruct (Z.eqb_spec d 0); [done|]. simpl.
  case_decide as E; [subst; by rewrite lookup_insert_eq|]. by rewrite lookup_insert_ne.
Qed.

(** The answer that is still fresh. *)
Definition fresh (d : Z) (h : list store) (now : Z) (name : bytes) : option ForwardingRule :=
  if d =? 0 then None
  else x ← last_store h name; if now >? st_time x + d then None else Some (st_rule x).

Lemma getCached_fresh d h now name : getCached now name (after d h) = fresh d h now name.
Proof.
  unfold getCached, fresh. rewrite after_ttl. destruct (Z.eqb_spec d 0); [done|]. rewrite after_cache by done.
  by destruct (last_store h name).
Qed.

(** ** Addresses *)

(** localpart@domain.bit *)
Definition bit_address (addr name domain : bytes) : Prop :=
  addr = name ++ Byte.x40 :: domain ++ str ".bit" /\ (Byte.x40 ∉ name) /\ (Byte.x40 ∉ domain) /\ name <> [] /\ domain <> [].

Lemma parseBitAddress_iff addr name : parseBitAddress addr = Ok name <-> exists domain, bit_address addr name domain.
Proof.
  assert (Byte.x40 ∉ str ".bit") as Hbit by (by apply (bool_decide_unpack _)). unfold parseBitAddress. split.
  - destruct (Split addr Byte.x40) as [|p [|q [|]]] eqn:Es; try done. case_bool_decide as Hp; [done|].
    destruct (HasSuffix q (str ".bit")) eqn:Hq; simpl; [|done]. case_bool_decide as Ht; [done|]. intros <-%Ok_inj.
    apply Split_more in Es as (t & -> & Hnp & Hs). apply Split_one in Hs as [-> Hnq].
    apply HasSuffix_true in Hq as [d ->]. rewrite TrimSuffix_app in Ht.
    exists d. split_and!; [done|done| |done|done]. intros Hin. apply Hnq. by apply elem_of_app; left.
  - intros (d & -> & Hn & Hd & Hne & Hde).
    rewrite Split_app, Split_none by (done || (rewrite elem_of_app; by intros [|])).
    rewrite bool_decide_false by done. rewrite (proj2 (HasSuffix_true (d ++ str ".bit") (str ".bit"))) by eauto. simpl.
    rewrite TrimSuffix_app. by rewrite bool_decide_false.
Qed.

(** ** Routing *)

(** The answer of a call after the history [h], and what it stores. *)
Definition routed_to (d : Z) (h : list store) (e : RouteEnv) (name : bytes) : res bytes * list store :=
  match fresh d h (asked_at e) name with
  | Some x => (Ok (Target x), h)
  | None =>
      match LookupMail e name with
      | Ok c => (Ok (ForwardTo c), h ++ [mkStore (stored_at e) name (mkRule (ForwardTo c) (BackupAddrs c))])
      | Err err => (Err (EWrap "lookup failed for %s" err), h)
      end
  end.

Lemma Route_spec d h e addr :
  Route e addr (after d h) =
    match parseBitAddress addr with
    | Ok name => ((routed_to d h e name).1, after d (routed_to d h e name).2)
    | Err err => (Err (EWrap "invalid address" err), after d h)
    end.
Proof.
  unfold Route, lift, get, mbind, M_bind, wrap_err. destruct (parseBitAddress addr) as [name|err]; [|done].
  rewrite getCached_fresh. unfold routed_to. destruct (fresh d h (asked_at e) name); [done|].
  destruct (LookupMail e name) as [c|err]; [|done]. unfold modify. simpl. by rewrite after_snoc.
Qed.

(** ** The value of a name *)

(** A configuration as the value of a name; the key may be left out. *)
Definition mail_value (c : MailConfig) : value :=
  VMap ([("email"%string, VStr (ForwardTo c)); ("backup"%string, VList (VStr <$> BackupAddrs c))] ++
        if bool_decide (PublicKey c = []) then [] else [("pubkey"%string, VStr (b64_EncodeToString (PublicKey c)))]).

Lemma decode_elements_strings l : forall old, decode_elements old (VStr <$> l) = Some l.
Proof. induction l as [|s l IH]; intros old; [done|]. simpl. by rewrite IH. Qed.

Section config.
Context {JT : JsonText} {JL : JsonTextLaws JT}.

(** Text that survives JSON. *)
Definition clean_config (c : MailConfig) : Prop :=
  ForwardTo c <> [] /\ valid_string (ForwardTo c) = ForwardTo c /\ Forall (fun s => valid_string s = s) (BackupAddrs c).

Lemma writable_strings n l : forallb (writable (S n)) (VStr <$> l) = true.
Proof. induction l as [|s l IH]; [done|]. cbn [fmap list_fmap forallb]. by rewrite IH. Qed.

Lemma reread_strings l : Forall (fun s => valid_string s = s) l -> reread <$> (VStr <$> l) = VStr <$> l.
Proof. induction 1 as [|s l Hs _ IH]; [done|]. cbn [fmap list_fmap reread]. by rewrite Hs, IH. Qed.

Lemma valid_b64 s : valid_string (b64_EncodeToString s) = b64_EncodeToString s.
Proof.
  apply valid_ascii, forallb_forall. intros b Hb%list_elem_of_In. pose proof (b64_encode_plain s) as F.
  rewrite Forall_forall in F. by apply Z.ltb_lt, F.
Qed.

Lemma b64_nonempty s : s <> [] -> b64_EncodeToString s <> [].
Proof. by destruct s as [|a [|b [|c s]]]. Qed.

Lemma member_backup l x rest : members "backup" rest = [VList (VStr <$> l)] -> member_strings "backup" rest = x -> x = Some l.
Proof.
  intros E <-. unfold member_strings. rewrite E. cbn [foldl mbind option_bind].
  destruct l as [|s l]; [done|]. change (decode_slice _ _) with
    (xs ← decode_elements [] (VStr <$> (s :: l)); Some (mkSlice (length xs) (xs ++ drop (length xs) []))).
  rewrite decode_elements_strings. cbn [mbind option_bind visible backing]. by rewrite take_app_length.
Qed.

(** A configuration that is published as the value of a name is read back. *)
Lemma parseMailConfig_value c : clean_config c -> parseMailConfig (json_Marshal (mail_value c)) = Ok c.
Proof.
  intros (Hne & Hv & Hb). unfold parseMailConfig. rewrite Unmarshal_Marshal.
  2: { unfold marshalable, mail_value. rewrite writable_map, forallb_app. cbn [forallb fst snd].
       rewrite writable_list, writable_strings. by case_bool_decide. }
  unfold mail_value. cbn [reread]. rewrite fmap_app. cbn [fmap list_fmap fst snd reread]. rewrite Hv, reread_strings by done.
  set (key := if bool_decide (PublicKey c = []) then _ else _).
  assert ((fun kv => (kv.1, reread kv.2)) <$> key = key) as Ek.
  { unfold key. case_bool_decide; [done|]. cbn [fmap list_fmap fst snd reread]. by rewrite valid_b64. }
  change (list_fmap _ _) with (fmap (M := list)) in Ek. rewrite Ek. cbn [as_struct mbind option_bind].
  set (l := _ ++ key).
  assert (members "backup" l = [VList (VStr <$> BackupAddrs c)]) as E1.
  { unfold l, key. case_bool_decide; cbn [app]; by eval_members. }
  assert (member_string "email" l = Some (ForwardTo c)) as E2.
  { unfold l, key, member_string, member. case_bool_decide; cbn [app]; by eval_members. }
  assert (member_string "pubkey" l = Some (if bool_decide (PublicKey c = []) then [] else b64_EncodeToString (PublicKey c))) as E3.
  { unfold l, key, member_string, member. case_bool_decide; cbn [app]; by eval_members. }
  rewrite E2, (member_backup _ _ _ E1 eq_refl), E3. cbn [mbind option_bind option_res res_bind]. rewrite bool_decide_false by done.
  destruct c as [f b k]. simpl in *. case_bool_decide as Hk; simpl; [by subst|].
  rewrite bool_decide_false by (by apply b64_nonempty). by rewrite b64_roundtrip.
Qed.

End config.
