(* ===== verification/Smtp.v ===== *)
(** * The SMTP relay

    mail/smtp.go: one session with a client, and the calls it makes of the upstream
    server.  What the client sends before the reader fails is the list of bytes [input];
    what the connection takes is counted by [writes_left].  The upstream server answers
    each call, which may depend on all calls before: class [Upstream]. *)

From stdpp Require Import pretty.
From S2P Require Import Prelude Clock Strings Json Mail.

(** ** The relay *)

Inductive TLSMode := TLSModeDefault | TLSModeDisabled | TLSModeSTARTTLS | TLSModeImplicit | TLSModeOther (mode : bytes).

Record RelayConfig := mkRelayConfig {
  ListenAddr : bytes; UpstreamHost : bytes; UpstreamPort : Z; UpstreamTLS : TLSMode; UpstreamAuth : bool;
  ReadTimeout : Z; WriteTimeout : Z; MaxMessageSize : Z; MaxConnections : Z }.

Definition DefaultRelayConfig : RelayConfig :=
  mkRelayConfig (str ":2525") [] 587 TLSModeDefault false (5 * Minute) (5 * Minute) (10 * 1024 * 1024) 0.

Definition inferUpstreamTLSMode (port : Z) : TLSMode :=
  if port =? 587 then TLSModeSTARTTLS else if port =? 465 then TLSModeImplicit else TLSModeDisabled.

(** The semaphore of NewRelay; a connection that finds it full is closed. *)
Record Relay := mkRelay { relay_started : bool; connSem : Z; connMax : Z }.

Definition NewRelay (config : RelayConfig) : Relay :=
  mkRelay false 0 (if MaxConnections config <=? 0 then 100 else MaxConnections config).

Definition Start (listen : res unit) : M Relay unit :=
  r ← get;
  if relay_started r then fail (EMsg "relay already started")
  else lift (wrap_err "failed to listen on %s" listen);; modify (fun r => mkRelay true (connSem r) (connMax r)).

Definition Stop (close : res unit) : M Relay unit :=
  r ← get;
  if negb (relay_started r) then fail (EMsg "relay not started")
  else modify (fun r => mkRelay false (connSem r) (connMax r));; lift (wrap_err "failed to close listener" close).

(** A connection is accepted, and given up when its session is over. *)
Definition acceptConn (r : Relay) : bool * Relay :=
  if connSem r <? connMax r then (true, mkRelay (relay_started r) (connSem r + 1) (connMax r)) else (false, r).
Definition releaseConn (r : Relay) : Relay := mkRelay (relay_started r) (connSem r - 1) (connMax r).

(** ** The upstream server *)

Inductive call :=
  | DialTCP (addr : bytes)
  | DialTLS (addr host : bytes)
  | Greeting                                   (* smtp.NewClient *)
  | StartTLS (host : bytes)
  | Auth
  | Mail (from : bytes)
  | Rcpt (to : bytes)
  | DataCmd
  | WriteBody (body : bytes)
  | CloseBody
  | Quit
  | CloseConn
  | CloseClient.

(** The error of the last call of a sequence. *)
Class Upstream := up_error : list call -> option error.

Section session.
Context {U : UnicodeTables} {UP : Upstream} (config : RelayConfig) (route_env : nat -> RouteEnv).

Record smtpSession := mkSession {
  from : bytes;
  to : list bytes;
  input : bytes;
  input_end : error;
  output : list bytes;
  writes_left : option nat;
  router : Router;
  routed : nat;
  upstream : list call;
}.

Definition set_envelope (f : bytes) (t : list bytes) (s : smtpSession) : smtpSession :=
  mkSession f t (input s) (input_end s) (output s) (writes_left s) (router s) (routed s) (upstream s).
Definition set_input (i : bytes) (s : smtpSession) : smtpSession :=
  mkSession (from s) (to s) i (input_end s) (output s) (writes_left s) (router s) (routed s) (upstream s).
Definition set_output (o : list bytes) (w : option nat) (s : smtpSession) : smtpSession :=
  mkSession (from s) (to s) (input s) (input_end s) o w (router s) (routed s) (upstream s).
Definition set_router (r : Router) (s : smtpSession) : smtpSession :=
  mkSession (from s) (to s) (input s) (input_end s) (output s) (writes_left s) r (S (routed s)) (upstream s).
Definition set_upstream (u : list call) (s : smtpSession) : smtpSession :=
  mkSession (from s) (to s) (input s) (input_end s) (output s) (writes_left s) (router s) (routed s) u.

Abbreviation Session := (M smtpSession).

(** ** Lines *)

Definition io_EOF : error := EMsg "EOF".
Definition is_message (m : string) (err : error) : bool := match err with EMsg m' => bool_decide (m' = m) | _ => false end.
Definition is_EOF : error -> bool := is_message "EOF".
Definition LF : byte := Byte.x0a.
Definition CRLF : bytes := [Byte.x0d; Byte.x0a].

(** [bufio.Reader.ReadString]: up to and with the newline, or what is left and an
    error. *)
Definition ReadString : Session (bytes * option error) := fun s =>
  match IndexByte (input s) LF with
  | Some i => (Ok (take (S i) (input s), None), set_input (drop (S i) (input s)) s)
  | None => (Ok (input s, Some (input_end s)), set_input [] s)
  end.

Definition readRawLine : Session bytes :=
  r ← ReadString;
  match r.2 with Some err => fail err | None => mret r.1 end.

Definition trimLineEnding (line : bytes) : bytes := TrimSuffix (TrimSuffix line CRLF) [LF].

Definition readLine : Session bytes :=
  line ← readRawLine;
  let line := trimLineEnding line in
  if 1024 <? Z.of_nat (length line) then fail (EMsg "line too long") else mret line.

Definition ErrWrite : error := EMsg "write: connection closed or deadline exceeded".

Definition writeLine (line : bytes) : Session unit := fun s =>
  match writes_left s with
  | Some O => (Err ErrWrite, s)
  | Some (S n) => (Ok tt, set_output (output s ++ [line]) (Some n) s)
  | None => (Ok tt, set_output (output s ++ [line]) None s)
  end.

Definition reply (line : string) : Session unit := writeLine (str line).
Definition decimal (z : Z) : bytes := str (pretty z).

(** ** Commands *)

Definition sendGreeting : Session unit := reply "220 nmcd SMTP Relay Service Ready".
Definition handleQuit : Session unit := reply "221 Goodbye".
Definition handleReset : Session unit := modify (set_envelope [] []);; reply "250 OK".
Definition handleNoop : Session unit := reply "250 OK".
Definition handleUnknown : Session unit := reply "502 Command not implemented".

Definition handleHelo (cmd : bytes) : Session unit :=
  if HasPrefix cmd (str "EHLO ") then
    reply "250-nmcd.local";;
    writeLine (str "250 SIZE " ++ decimal (MaxMessageSize config))
  else reply "250 nmcd.local".

(** [s[n:]] *)
Definition slice_from (n : nat) (s : bytes) : Session bytes :=
  if bool_decide (n <= length s)%nat then mret (drop n s) else fail (EPanic "slice bounds out of range").

(** The character @ is one byte, and so are the two brackets. *)
Definition extractAddress (param : bytes) : bytes :=
  let param := TrimSpace param in
  if ContainsAny param CRLF then []
  else if HasPrefix param (str "<") && HasSuffix param (str ">") then slice param 1 (length param - 1)
  else param.

Definition AT : byte := Byte.x40.

Definition handleMailFrom (cmd : bytes) : Session unit :=
  param ← slice_from 10 cmd;
  let addr := extractAddress param in
  if bool_decide (addr = []) then reply "501 Syntax error in MAIL FROM"
  else
    match LastIndexByte addr AT with
    | None => reply "501 Invalid email address format"
    | Some _ =>
        modify (fun s => set_envelope (ToLower addr) (to s) s);;
        reply "250 OK"
    end.

Definition handleRcptTo (cmd : bytes) : Session unit :=
  param ← slice_from 8 cmd;
  let addr := extractAddress param in
  if bool_decide (addr = []) then reply "501 Syntax error in RCPT TO"
  else
    match LastIndexByte addr AT with
    | None => reply "501 Invalid email address format"
    | Some atIndex =>
        let domain := ToLower (drop (S atIndex) addr) in
        if negb (HasSuffix domain (str ".bit")) then reply "550 Only .bit addresses accepted"
        else
          modify (fun s => set_envelope (from s) (to s ++ [ToLower addr]) s);;
          reply "250 OK"
    end.

(** ** The message *)

Definition ErrSize : error := EMsg "message exceeds maximum size of %d bytes".

Definition isDataTerminator (line : bytes) : bool := bool_decide (trimLineEnding line = str ".").

(** The body, and whether it became too long; it is kept as it was then. *)
Definition appendDataLine (body line : bytes) : bytes * bool :=
  if MaxMessageSize config <? Z.of_nat (length body) + Z.of_nat (length line) then (body, true) else (body ++ line, false).

Definition bodyResult (body : bytes) (sizeErr : bool) : Session bytes :=
  if sizeErr then fail ErrSize else mret body.

(** The loop; each turn reads at least a byte or ends. *)
Fixpoint readBodyFrom (n : nat) (body : bytes) (sizeErr : bool) : Session bytes :=
  match n with
  | O => fail (EPanic "out of fuel")
  | S n =>
      r ← try readRawLine;
      match r with
      | Err err => if is_EOF err then bodyResult body sizeErr else fail err
      | Ok line =>
          if isDataTerminator line then bodyResult body sizeErr
          else if sizeErr then readBodyFrom n body sizeErr
          else let '(body, sizeErr) := appendDataLine body line in readBodyFrom n body sizeErr
      end
  end.

Definition readDataBody : Session bytes := fun s => readBodyFrom (S (length (input s))) [] false s.

(** ** Forwarding *)

(** One call of the upstream server. *)
Definition up (c : call) : Session unit := fun s =>
  let s := set_upstream (upstream s ++ [c]) s in
  match up_error (upstream s) with Some err => (Err err, s) | None => (Ok tt, s) end.

(** [x.Close()] whose error is dropped. *)
Definition up_ (c : call) : Session unit := _ ← try (up c); mret tt.

Definition upstream_addr : bytes := UpstreamHost config ++ str ":" ++ decimal (UpstreamPort config).

Definition resolveUpstreamTLSMode : TLSMode :=
  match UpstreamTLS config with TLSModeDefault => inferUpstreamTLSMode (UpstreamPort config) | mode => mode end.

(** [smtp.NewClient] closes the connection itself when the greeting fails. *)
Definition dialSMTPWithTimeout : Session unit := up (DialTCP upstream_addr);; up Greeting.

Definition dialImplicitTLSClient : Session unit :=
  wrapM "failed to connect to upstream SMTP with implicit TLS" (up (DialTLS upstream_addr (UpstreamHost config)));;
  r ← try (up Greeting);
  match r with
  | Err err => up_ CloseConn;; fail (EWrap "failed to create SMTP client" err)
  | Ok _ => mret tt
  end.

Definition dialStartTLSClient : Session unit :=
  wrapM "failed to connect to upstream SMTP" dialSMTPWithTimeout;;
  r ← try (up (StartTLS (UpstreamHost config)));
  match r with
  | Err err => up_ CloseClient;; fail (EWrap "STARTTLS failed" err)
  | Ok _ => mret tt
  end.

Definition dialUpstreamClient (mode : TLSMode) : Session unit :=
  match mode with
  | TLSModeImplicit => dialImplicitTLSClient
  | TLSModeSTARTTLS => dialStartTLSClient
  | TLSModeDisabled => wrapM "failed to connect to upstream SMTP" dialSMTPWithTimeout
  | _ => fail (EMsg "invalid TLS mode: %s")
  end.

Definition authenticateUpstream (mode : TLSMode) : Session unit :=
  if negb (UpstreamAuth config) then mret tt
  else match mode with
       | TLSModeDisabled => fail (EMsg "refusing to authenticate over cleartext connection (TLS mode: %s)")
       | _ => wrapM "upstream authentication failed" (up Auth)
       end.

Definition connectUpstream : Session unit :=
  let mode := resolveUpstreamTLSMode in
  dialUpstreamClient mode;;
  r ← try (authenticateUpstream mode);
  match r with
  | Err err => up_ CloseClient;; fail err
  | Ok _ => mret tt
  end.

Definition sendEnvelope (f t : bytes) : Session unit :=
  wrapM "MAIL FROM failed" (up (Mail f));; wrapM "RCPT TO failed" (up (Rcpt t)).

Definition sendBody (body : bytes) : Session unit :=
  wrapM "DATA command failed" (up DataCmd);;
  wrapM "write message failed" (up (WriteBody body));;
  wrapM "close message failed" (up CloseBody);;
  wrapM "QUIT command failed" (up Quit).

Definition route (t : bytes) : Session bytes := fun s =>
  let '(r, router') := Route (route_env (routed s)) t (router s) in (r, set_router router' s).

Definition forwardMessage (f t body : bytes) : Session unit :=
  realAddr ← wrapM "routing failed" (route t);
  connectUpstream;;
  r ← try (sendEnvelope f realAddr;; sendBody body);
  up_ CloseClient;;
  lift r.

(** The numbers of deliveries and failures. *)
Fixpoint forwardTo (f body : bytes) (l : list bytes) (successCount failCount : Z) : Session (Z * Z) :=
  match l with
  | [] => mret (successCount, failCount)
  | t :: l =>
      r ← try (forwardMessage f t body);
      match r with
      | Err _ => forwardTo f body l successCount (failCount + 1)
      | Ok _ => forwardTo f body l (successCount + 1) failCount
      end
  end.

Definition forwardDataBody (body : bytes) : Session (Z * Z) :=
  s ← get;
  forwardTo (from s) body (to s) 0 0.

Definition resetEnvelope : Session unit := modify (set_envelope [] []).

Definition writeDataResult (successCount failCount : Z) : Session unit :=
  if failCount =? 0 then reply "250 OK: Message accepted for delivery"
  else if successCount =? 0 then reply "554 Transaction failed"
  else writeLine (str "250 OK: Delivered to " ++ decimal successCount ++ str " of " ++ decimal (successCount + failCount) ++
                  str " recipients").

Definition handleDataReadError (err : error) : Session unit :=
  if is_message "message exceeds maximum size of %d bytes" err then resetEnvelope;; reply "552 Message exceeds maximum size" else fail err.

Definition handleData : Session unit :=
  s ← get;
  if bool_decide (from s = []) || bool_decide (to s = []) then reply "503 Bad sequence of commands"
  else
    reply "354 Start mail input; end with <CRLF>.<CRLF>";;
    r ← try readDataBody;
    match r with
    | Err err => handleDataReadError err
    | Ok body =>
        '(successCount, failCount) ← forwardDataBody body;
        resetEnvelope;;
        writeDataResult successCount failCount
    end.

(** ** The session *)

Definition dispatchCommand (cmd : bytes) : Session unit :=
  let upper := ToUpper cmd in
  if HasPrefix upper (str "HELO ") || HasPrefix upper (str "EHLO ") then handleHelo cmd
  else if HasPrefix upper (str "MAIL FROM:") then handleMailFrom cmd
  else if HasPrefix upper (str "RCPT TO:") then handleRcptTo cmd
  else if bool_decide (upper = str "DATA") then handleData
  else if bool_decide (upper = str "QUIT") then handleQuit
  else if bool_decide (upper = str "RSET") then handleReset
  else if bool_decide (upper = str "NOOP") then handleNoop
  else handleUnknown.

(** QUIT has no letter with a variant outside ASCII. *)
Definition shouldQuit (cmd : bytes) : bool := EqualFold_ascii cmd (str "QUIT").

(** The loop; each turn reads at least a byte or ends. *)
Fixpoint processFrom (n : nat) : Session unit :=
  match n with
  | O => fail (EPanic "out of fuel")
  | S n =>
      line ← readLine;
      let cmd := TrimSpace line in
      dispatchCommand cmd;;
      if shouldQuit cmd then mret tt else processFrom n
  end.

Definition processCommands : Session unit := fun s => processFrom (S (length (input s))) s.

Definition handle : Session unit := sendGreeting;; processCommands.

(** [handleConnection] *)
Definition newSession (received : bytes) (ending : error) (writes : option nat) (r : Router) : smtpSession :=
  mkSession [] [] received ending [] writes r 0 [].

End session.
