(* ===== verification/SmtpSpec.v ===== *)
(** * What the relay does

    Reading: lines, the body of a message, the loops of a session and why they end.
    Sending: the calls of one delivery, and the invariant of a session. *)

From S2P Require Import Prelude Strings Json Client Mail Smtp.

(** ** Relations and invariants of computations *)

Section monotone.
Context {S : Type} (Rel : S -> S -> Prop) `{!PreOrder Rel}.

(** Whatever [m] does, the state moves along the relation. *)
Definition moves {A} (m : M S A) : Prop := forall s, Rel s (m s).2.

Lemma moves_ret {A} (a : A) : moves (mret a).
Proof. intros s. reflexivity. Qed.
Lemma moves_fail {A} e : moves (@fail S A e).
Proof. intros s. reflexivity. Qed.
Lemma moves_get : moves get.
Proof. intros s. reflexivity. Qed.
Lemma moves_lift {A} (r : res A) : moves (lift r).
Proof. intros s. reflexivity. Qed.
Lemma moves_modify f : (forall s, Rel s (f s)) -> moves (modify f).
Proof. intros H s. apply H. Qed.
Lemma moves_bind {A C} (m : M S A) (k : A -> M S C) : moves m -> (forall a, moves (k a)) -> moves (mbind k m).
Proof.
  intros Hm Hk s. specialize (Hm s). unfold mbind, M_bind. destruct (m s) as [[a|e] s']; [|done].
  simpl in Hm. etrans; [exact Hm|apply Hk].
Qed.
Lemma moves_try {A} (m : M S A) : moves m -> moves (try m).
Proof. intros Hm s. specialize (Hm s). unfold try. by destruct (m s). Qed.
Lemma moves_wrapM {A} msg (m : M S A) : moves m -> moves (wrapM msg m).
Proof. intros Hm s. specialize (Hm s). unfold wrapM. by destruct (m s). Qed.
End monotone.

Create HintDb moves.
#[export] Hint Resolve moves_ret moves_fail moves_get moves_lift moves_bind moves_try moves_wrapM : moves.

Section spec.
Context {U : UnicodeTables} {UP : Upstream} (config : RelayConfig) (route_env : nat -> RouteEnv).

Abbreviation Session := (M smtpSession).

(** ** Reading *)

(** The input only gets shorter, from the front. *)
Definition reads (s s' : smtpSession) : Prop := exists p, input s = p ++ input s'.

#[export] Instance reads_preorder : PreOrder reads.
Proof.
  split; [intros s; by exists []|]. intros s1 s2 s3 [p Hp] [q Hq]. exists (p ++ q). by rewrite Hp, Hq, app_assoc.
Qed.

Lemma reads_length s s' : reads s s' -> (length (input s') <= length (input s))%nat.
Proof using. intros [p ->]. rewrite length_app. lia. Qed.

Lemma readRawLine_run s :
  match IndexByte (input s) LF with
  | Some i => readRawLine s = (Ok (take (S i) (input s)), set_input (drop (S i) (input s)) s) /\ (i < length (input s))%nat
  | None => readRawLine s = (Err (input_end s), set_input [] s)
  end.
Proof using.
  unfold readRawLine, ReadString, mbind, M_bind. destruct (IndexByte (input s) LF) as [i|] eqn:E; [|done].
  split; [done|]. apply IndexByte_Some in E as [E _]. by apply lookup_lt_Some in E.
Qed.

Lemma readRawLine_reads : moves reads readRawLine.
Proof using.
  intros s. pose proof (readRawLine_run s) as H. destruct (IndexByte (input s) LF) as [i|].
  - destruct H as [-> _]. exists (take (S i) (input s)). simpl. by rewrite take_drop.
  - rewrite H. exists (input s). simpl. by rewrite app_nil_r.
Qed.

(** A line that is read is not empty. *)
Lemma readRawLine_shorter s line s' : readRawLine s = (Ok line, s') -> (length (input s') < length (input s))%nat.
Proof using.
  pose proof (readRawLine_run s) as H. destruct (IndexByte (input s) LF) as [i|]; [|by rewrite H].
  destruct H as [-> Hi]. intros [= _ <-]. simpl. rewrite length_drop. lia.
Qed.

Lemma readLine_reads : moves reads readLine.
Proof using.
  unfold readLine. apply moves_bind; [tc_solve|apply readRawLine_reads|]. intros line. case_match; auto with moves typeclass_instances.
Qed.

Lemma readLine_shorter s line s' : readLine s = (Ok line, s') -> (length (input s') < length (input s))%nat.
Proof using.
  unfold readLine, mbind, M_bind. destruct (readRawLine s) as [[raw|e] s1] eqn:E; [|done].
  apply readRawLine_shorter in E. case_match; [done|]. by intros [= _ <-].
Qed.

(** ** What does not read *)

Lemma keeps_writeLine line : keeps input (writeLine line).
Proof using. intros s. unfold writeLine. by destruct (writes_left s) as [[|n]|]. Qed.
Lemma keeps_reply line : keeps input (reply line).
Proof using. apply keeps_writeLine. Qed.
Lemma keeps_up c : keeps input (up c).
Proof using. intros s. unfold up. by destruct (up_error _). Qed.
Lemma keeps_route t : keeps input (route route_env t).
Proof using. intros s. unfold route. by destruct (Route _ _ _). Qed.
Lemma keeps_slice n x : keeps input (slice_from n x).
Proof using. intros s. unfold slice_from. by case_bool_decide. Qed.
Lemma keeps_envelope g : (forall s, input (g s) = input s) -> keeps input (modify g).
Proof using. intros H s. apply H. Qed.

Hint Resolve keeps_writeLine keeps_reply keeps_up keeps_route keeps_slice : keeps.
Hint Extern 1 (keeps input (modify _)) => (apply keeps_envelope; reflexivity) : keeps.

Lemma keeps_forwardMessage f t body : keeps input (forwardMessage config route_env f t body).
Proof using.
  unfold forwardMessage, connectUpstream, dialUpstreamClient, dialImplicitTLSClient, dialStartTLSClient, dialSMTPWithTimeout,
    authenticateUpstream, sendEnvelope, sendBody, up_. keeps_auto.
Qed.

Lemma keeps_forwardTo f body l : forall a b, keeps input (forwardTo config route_env f body l a b).
Proof using.
  induction l as [|t l IH]; intros a b; [apply keeps_ret|]. cbn [forwardTo].
  apply keeps_bind; [apply keeps_try, keeps_forwardMessage|]. intros []; apply IH.
Qed.

Hint Resolve keeps_forwardTo : keeps.

Lemma keeps_reads {A} (m : Session A) : keeps input m -> moves reads m.
Proof using. intros H s. exists []. by rewrite H. Qed.

(** ** The body of a message *)

Lemma readBodyFrom_reads n : forall body e, moves reads (readBodyFrom config n body e).
Proof using.
  induction n as [|n IH]; intros body e; [apply keeps_reads, keeps_fail|]. cbn [readBodyFrom].
  apply moves_bind; [tc_solve|apply moves_try, readRawLine_reads|]. intros [line|err].
  - case_match; [apply keeps_reads; unfold bodyResult; keeps_auto|]. case_match; [apply IH|]. destruct (appendDataLine _ _ _); apply IH.
  - case_match; apply keeps_reads; unfold bodyResult; keeps_auto.
Qed.

Lemma readBodyFrom_fuel n : forall m body e s, (length (input s) < n)%nat -> (length (input s) < m)%nat ->
  readBodyFrom config n body e s = readBodyFrom config m body e s.
Proof using.
  induction n as [|n IH]; intros [|m] body e s Hn Hm; try lia. cbn [readBodyFrom]. unfold try, mbind, M_bind.
  destruct (readRawLine s) as [[line|err] s1] eqn:E; [|done]. apply readRawLine_shorter in E.
  case_match; [done|]. case_match; [apply IH; lia|]. destruct (appendDataLine _ _ _) as [b e']. apply IH; lia.
Qed.

(** The loop of [readDataBody] without its fuel. *)
Definition readBody (body : bytes) (sizeErr : bool) : Session bytes := fun s =>
  readBodyFrom config (S (length (input s))) body sizeErr s.

Definition body_turn (rest : bytes -> bool -> Session bytes) (body : bytes) (sizeErr : bool) : Session bytes :=
  r ← try readRawLine;
  match r with
  | Err err => if is_EOF err then bodyResult body sizeErr else fail err
  | Ok line =>
      if isDataTerminator line then bodyResult body sizeErr
      else if sizeErr then rest body sizeErr
      else let '(body, sizeErr) := appendDataLine config body line in rest body sizeErr
  end.

Lemma readBody_turn body e s : readBody body e s = body_turn readBody body e s.
Proof using.
  unfold readBody at 1. cbn [readBodyFrom]. unfold body_turn, try, mbind, M_bind.
  destruct (readRawLine s) as [[line|err] s1] eqn:E; [|done]. apply readRawLine_shorter in E. unfold readBody.
  case_match; [done|]. case_match; [apply readBodyFrom_fuel; lia|].
  destruct (appendDataLine _ _ _) as [b e']. apply readBodyFrom_fuel; lia.
Qed.

(** A line with its newline that is not the end of the message. *)
Definition text_line (l : bytes) : Prop := (exists x, (LF ∉ x) /\ l = x ++ [LF]) /\ isDataTerminator l = false.

Lemma set_input_twice i j s : set_input i (set_input j s) = set_input i s.
Proof using. done. Qed.
Lemma set_input_same s : set_input (input s) s = s.
Proof using. by destruct s. Qed.

Lemma readRawLine_line x rest s : LF ∉ x -> input s = (x ++ [LF]) ++ rest ->
  readRawLine s = (Ok (x ++ [LF]), set_input rest s).
Proof using.
  intros Hx E. pose proof (readRawLine_run s) as H. rewrite E, <-app_assoc in H. simpl in H.
  rewrite IndexByte_app in H by done. destruct H as [-> _]. f_equal.
  - f_equal. change (x ++ LF :: rest) with (x ++ [LF] ++ rest). rewrite app_assoc, take_app_length'; [done|rewrite length_app; simpl; lia].
  - f_equal. change (x ++ LF :: rest) with (x ++ [LF] ++ rest). rewrite app_assoc, drop_app_length'; [done|rewrite length_app; simpl; lia].
Qed.

Definition too_long (size : nat) : bool := MaxMessageSize config <? Z.of_nat size.

Lemma too_long_more n m : too_long n = true -> too_long (n + m) = true.
Proof using. unfold too_long. rewrite !Z.ltb_lt. lia. Qed.

(** Lines are taken until they are too long together. *)
Lemma readBody_lines ls rest : Forall text_line ls -> forall body e s, input s = concat ls ++ rest ->
  (e = false -> too_long (length body) = false) ->
  exists body', readBody body e s = readBody body' (e || too_long (length body + length (concat ls))) (set_input rest s) /\
    (e || too_long (length body + length (concat ls)) = false -> body' = body ++ concat ls).
Proof using.
  induction 1 as [|l ls [(x & Hx & ->) Ht] Hls IH]; intros body e s E Hb.
  - simpl in E. subst rest. rewrite set_input_same, Nat.add_0_r. exists body. simpl. rewrite app_nil_r. split; [|done].
    destruct e; [done|]. by rewrite Hb.
  - cbn [concat] in E |- *. rewrite <-app_assoc in E. rewrite readBody_turn. unfold body_turn, try, mbind, M_bind.
    rewrite (readRawLine_line x _ s Hx E), Ht. rewrite length_app. destruct e; simpl.
    + destruct (IH body true (set_input (concat ls ++ rest) s)) as (b & E1 & E2); [done|done|]. exists b. split; [exact E1|done].
    + unfold appendDataLine. destruct (Z.ltb_spec (MaxMessageSize config) (Z.of_nat (length body) + Z.of_nat (length (x ++ [LF])))) as [Hl|Hl].
      * destruct (IH body true (set_input (concat ls ++ rest) s)) as (b & E1 & E2); [done|done|]. exists b. rewrite Nat.add_assoc.
        rewrite (too_long_more (length body + length (x ++ [LF]))); [split; [exact E1|done]|]. unfold too_long. apply Z.ltb_lt. lia.
      * destruct (IH (body ++ (x ++ [LF])) false (set_input (concat ls ++ rest) s)) as (b & E1 & E2); [done| |].
        { intros _. unfold too_long. rewrite length_app. apply Z.ltb_ge. lia. }
        rewrite length_app, <-Nat.add_assoc in E1, E2. exists b. split; [exact E1|]. intros H. rewrite (E2 H). by rewrite <-!app_assoc.
Qed.

(** The two ends of a message. *)
Lemma readBody_end body e x rest s : LF ∉ x -> isDataTerminator (x ++ [LF]) = true -> input s = (x ++ [LF]) ++ rest ->
  readBody body e s = bodyResult body e (set_input rest s).
Proof using.
  intros Hx Ht E. rewrite readBody_turn. unfold body_turn, try, mbind, M_bind. by rewrite (readRawLine_line x _ s Hx E), Ht.
Qed.

Lemma readBody_cut body e s : LF ∉ input s ->
  readBody body e s = (if is_EOF (input_end s) then bodyResult body e else fail (input_end s)) (set_input [] s).
Proof using.
  intros Hx. rewrite readBody_turn. unfold body_turn, try, mbind, M_bind.
  pose proof (readRawLine_run s) as H. rewrite (proj2 (IndexByte_None _ _) Hx) in H. rewrite H. by destruct (is_EOF _).
Qed.

(** ** The session *)

Lemma handleData_reads : moves reads (handleData config route_env).
Proof using.
  unfold handleData. apply moves_bind; [tc_solve|apply moves_get; tc_solve|]. intros s0.
  case_match; [apply keeps_reads, keeps_writeLine|].
  apply moves_bind; [tc_solve|apply keeps_reads, keeps_writeLine|]. intros [].
  apply moves_bind; [tc_solve|apply moves_try; intros s; apply readBodyFrom_reads|]. intros [body|err].
  - apply keeps_reads. unfold forwardDataBody, resetEnvelope, writeDataResult. keeps_auto.
  - apply keeps_reads. unfold handleDataReadError, resetEnvelope. keeps_auto.
Qed.

Lemma dispatch_reads cmd : moves reads (dispatchCommand config route_env cmd).
Proof using.
  unfold dispatchCommand. repeat (case_match; [try apply handleData_reads; apply keeps_reads;
    unfold handleHelo, handleMailFrom, handleRcptTo, handleQuit, handleReset, handleNoop; keeps_auto|]).
  apply keeps_reads, keeps_writeLine.
Qed.

Lemma processFrom_fuel n : forall m s, (length (input s) < n)%nat -> (length (input s) < m)%nat ->
  processFrom config route_env n s = processFrom config route_env m s.
Proof using.
  induction n as [|n IH]; intros [|m] s Hn Hm; try lia. cbn [processFrom]. unfold mbind, M_bind.
  destruct (readLine s) as [[line|err] s1] eqn:E; [|done]. apply readLine_shorter in E.
  pose proof (reads_length _ _ (dispatch_reads (TrimSpace line) s1)) as Hd.
  destruct (dispatchCommand _ _ _ s1) as [[[]|e] s2]; [|done]. simpl in Hd. case_match; [done|]. apply IH; lia.
Qed.

(** The loop of [processCommands] without its fuel. *)
Definition process_turn (rest : Session unit) : Session unit :=
  line ← readLine;
  let cmd := TrimSpace line in
  dispatchCommand config route_env cmd;;
  if shouldQuit cmd then mret tt else rest.

Lemma process_turn_eq s : processCommands config route_env s = process_turn (processCommands config route_env) s.
Proof using.
  unfold processCommands at 1. cbn [processFrom]. unfold process_turn, mbind, M_bind.
  destruct (readLine s) as [[line|err] s1] eqn:E; [|done]. apply readLine_shorter in E.
  pose proof (reads_length _ _ (dispatch_reads (TrimSpace line) s1)) as Hd.
  destruct (dispatchCommand _ _ _ s1) as [[[]|e] s2]; [|done]. simpl in Hd. case_match; [done|].
  unfold processCommands. apply processFrom_fuel; lia.
Qed.

(** ** One delivery *)

Definition dial_plan : list call :=
  match resolveUpstreamTLSMode config with
  | TLSModeImplicit => [DialTLS (upstream_addr config) (UpstreamHost config); Greeting]
  | TLSModeSTARTTLS => [DialTCP (upstream_addr config); Greeting; StartTLS (UpstreamHost config)]
  | TLSModeDisabled => [DialTCP (upstream_addr config); Greeting]
  | _ => []
  end.

(** The relay sends when the mode is one of the three, and it authenticates only over
    TLS. *)
Definition can_send : bool :=
  match resolveUpstreamTLSMode config with
  | TLSModeImplicit | TLSModeSTARTTLS => true
  | TLSModeDisabled => negb (UpstreamAuth config)
  | _ => false
  end.

Definition plan (f t body : bytes) : list call :=
  dial_plan ++
  if can_send then (if UpstreamAuth config then [Auth] else []) ++ [Mail f; Rcpt t; DataCmd; WriteBody body; CloseBody; Quit]
  else [].

(** The calls up to the first that fails, after the calls [h], and whether none does. *)
Fixpoint attempted (h cs : list call) : list call * bool :=
  match cs with
  | [] => ([], true)
  | c :: cs =>
      match up_error (h ++ [c]) with
      | Some _ => ([c], false)
      | None => let '(done, ok) := attempted (h ++ [c]) cs in (c :: done, ok)
      end
  end.

Definition closers : list (list call) := [[]; [CloseConn]; [CloseClient]].

Definition same_session (s s' : smtpSession) : Prop :=
  from s' = from s /\ to s' = to s /\ input s' = input s /\ output s' = output s /\ writes_left s' = writes_left s /\
  input_end s' = input_end s.

(** [m] makes the calls [cs] one after the other up to the first that fails, and succeeds
    when none does and [sends] holds; then, if it failed, it may close the connection. *)
Definition runs (cs : list call) (sends tidy : bool) (m : Session unit) : Prop := forall s,
  is_ok (m s).1 = (attempted (upstream s) cs).2 && sends /\
  exists cl, cl ∈ closers /\ (is_ok (m s).1 = true \/ tidy = false -> cl = []) /\
    (m s).2 = set_upstream (upstream s ++ (attempted (upstream s) cs).1 ++ cl) s.

Lemma set_upstream_same s : set_upstream (upstream s) s = s.
Proof using. by destruct s. Qed.
Lemma set_upstream_twice u v s : set_upstream u (set_upstream v s) = set_upstream u s.
Proof using. done. Qed.

Lemma attempted_ok h cs : (attempted h cs).2 = true -> (attempted h cs).1 = cs.
Proof using.
  revert h. induction cs as [|c cs IH]; intros h; [done|]. simpl. destruct (up_error _); [done|].
  specialize (IH (h ++ [c])). destruct (attempted _ cs) as [d ok]. simpl in *. intros H. by rewrite IH.
Qed.

Lemma attempted_app h a b :
  attempted h (a ++ b) =
    if (attempted h a).2 then (a ++ (attempted (h ++ a) b).1, (attempted (h ++ a) b).2) else attempted h a.
Proof using.
  revert h. induction a as [|c a IH]; intros h; simpl; [rewrite app_nil_r; by destruct (attempted h b)|].
  destruct (up_error _); [done|]. rewrite IH, <-app_assoc. simpl.
  destruct (attempted (h ++ [c]) a) as [d []]; [|done]. simpl. done.
Qed.

Lemma runs_up c tidy : runs [c] true tidy (up c).
Proof using.
  intros s. unfold up. simpl. destruct (up_error _); simpl; (split; [done|]); exists []; (split; [left|done]).
Qed.

Lemma runs_wrap cs sends tidy msg m : runs cs sends tidy m -> runs cs sends tidy (wrapM msg m).
Proof using. intros H s. specialize (H s). unfold wrapM. by destruct (m s) as [[[]|e] s']. Qed.

Lemma runs_seq cs1 cs2 sends tidy (m k : Session unit) : runs cs1 true tidy m -> runs cs2 sends tidy k ->
  runs (cs1 ++ cs2) sends tidy (m;; k).
Proof using.
  intros Hm Hk s. destruct (Hm s) as (E1 & cl & Hcl & Hno & E2). rewrite andb_true_r in E1. rewrite attempted_app.
  unfold mbind, M_bind. destruct (m s) as [[[]|e] s1]; simpl in E1, E2, Hno.
  - rewrite <-E1. subst s1. rewrite Hno, app_nil_r by auto. rewrite (attempted_ok _ cs1) by done.
    destruct (Hk (set_upstream (upstream s ++ cs1) s)) as (F1 & cl' & Hcl' & Hno' & F2).
    simpl in *. split; [done|]. exists cl'. split; [done|]. split; [done|]. rewrite F2. simpl. by rewrite <-!app_assoc.
  - destruct (attempted (upstream s) cs1) as [d ok]. simpl in E1, E2 |- *. subst ok. simpl. split; [done|].
    exists cl. split; [done|]. split; [exact Hno|exact E2].
Qed.

Lemma runs_refused cs2 tidy e : cs2 = [] -> runs cs2 false tidy (@fail smtpSession unit e).
Proof using.
  intros ->. intros s. simpl. split; [done|]. exists []. split; [left|]. split; [done|]. by rewrite app_nil_r, set_upstream_same.
Qed.

Lemma up_run c s : up_ c s = (Ok tt, set_upstream (upstream s ++ [c]) s).
Proof using. unfold up_, up, try, mbind, M_bind. by destruct (up_error _). Qed.

(** A failure is followed by closing the connection. *)
Lemma runs_catch cs sends (m : Session unit) (k : error -> Session unit) c : c ∈ [CloseConn; CloseClient] ->
  (forall e, exists e', k e = (up_ c;; fail e')) -> runs cs sends false m ->
  runs cs sends true (r ← try m; match r with Err e => k e | Ok _ => mret tt end).
Proof using.
  intros Hc Hk H s. destruct (H s) as (E1 & cl & _ & Hno & E2). rewrite (Hno (or_intror eq_refl)), app_nil_r in E2.
  unfold try, mbind, M_bind. destruct (m s) as [[[]|e] s1]; simpl in E1, E2 |- *; subst s1.
  - rewrite <-E1. split; [done|]. exists []. rewrite app_nil_r. split; [left|]. done.
  - destruct (Hk e) as [e' ->]. unfold up_, try, up, mbind, M_bind. simpl.
    destruct (up_error _); simpl; rewrite <-E1; (split; [done|]); exists [c]; rewrite <-app_assoc; (split; [|by split; [intros [|]|]]);
      apply list_elem_of_In; revert Hc; rewrite list_elem_of_In; simpl; naive_solver.
Qed.

Definition auth_plan : list call := if UpstreamAuth config then [Auth] else [].

Lemma runs_ret tidy : runs [] true tidy (mret tt).
Proof using.
  intros s. simpl. split; [done|]. exists []. split; [left|]. split; [done|]. by rewrite app_nil_r, set_upstream_same.
Qed.

Lemma runs_dial tidy : runs [DialTCP (upstream_addr config); Greeting] true tidy (dialSMTPWithTimeout config).
Proof using. apply (runs_seq [DialTCP (upstream_addr config)] [Greeting]); apply runs_up. Qed.

Lemma runs_connect : runs (dial_plan ++ if can_send then auth_plan else []) can_send true (connectUpstream config).
Proof using.
  unfold connectUpstream, can_send, dial_plan, dialUpstreamClient, auth_plan, authenticateUpstream.
  assert (forall (m : Session unit) cs sends, runs cs sends false m -> runs cs sends true
    (r ← try m; match r with Err err => up_ CloseClient;; fail err | Ok _ => mret tt end)) as Hcatch.
  { intros m cs sends. apply (runs_catch _ _ _ _ CloseClient); [right; left|]. intros e. by exists e. }
  destruct (resolveUpstreamTLSMode config).
  - intros s. exact (runs_refused [] true _ eq_refl s).
  - apply runs_seq; [apply runs_wrap, runs_dial|]. apply Hcatch. destruct (UpstreamAuth config); cbn [negb]; [exact (runs_refused [] false _ eq_refl)|apply runs_ret].
  - apply runs_seq.
    + apply (runs_seq [DialTCP (upstream_addr config); Greeting] [StartTLS (UpstreamHost config)]); [apply runs_wrap, runs_dial|].
      apply (runs_catch _ _ _ _ CloseClient); [right; left|intros e; by eexists|apply runs_up].
    + apply Hcatch. destruct (UpstreamAuth config); [apply runs_wrap, runs_up|apply runs_ret].
  - apply runs_seq.
    + apply (runs_seq [DialTLS (upstream_addr config) (UpstreamHost config)] [Greeting]); [apply runs_wrap, runs_up|].
      apply (runs_catch _ _ _ _ CloseConn); [left|intros e; by eexists|apply runs_up].
    + apply Hcatch. destruct (UpstreamAuth config); [apply runs_wrap, runs_up|apply runs_ret].
  - intros s. exact (runs_refused [] true _ eq_refl s).
Qed.

Definition send_plan (f x body : bytes) : list call := [Mail f; Rcpt x; DataCmd; WriteBody body; CloseBody; Quit].

Lemma runs_send f x body : runs (send_plan f x body) true false (sendEnvelope f x;; sendBody body).
Proof using.
  apply (runs_seq [Mail f; Rcpt x] [DataCmd; WriteBody body; CloseBody; Quit]).
  - apply (runs_seq [Mail f] [Rcpt x]); apply runs_wrap, runs_up.
  - apply (runs_seq [DataCmd] [WriteBody body; CloseBody; Quit]); [apply runs_wrap, runs_up|].
    apply (runs_seq [WriteBody body] [CloseBody; Quit]); [apply runs_wrap, runs_up|].
    apply (runs_seq [CloseBody] [Quit]); apply runs_wrap, runs_up.
Qed.

Lemma plan_parts f x body : plan f x body = (dial_plan ++ if can_send then auth_plan else []) ++ if can_send then send_plan f x body else [].
Proof using. unfold plan, auth_plan, send_plan. destruct can_send; [by rewrite <-app_assoc|by rewrite !app_nil_r]. Qed.

(** What a delivery to the address [x] does. *)
Definition delivered (f x body : bytes) (s : smtpSession) (y : res unit * smtpSession) : Prop :=
  is_ok y.1 = (attempted (upstream s) (plan f x body)).2 && can_send /\
  exists cl, cl ∈ closers /\ y.2 = set_upstream (upstream s ++ (attempted (upstream s) (plan f x body)).1 ++ cl) s.

Lemma deliver f x body s : delivered f x body s ((connectUpstream config;;
  r ← try (sendEnvelope f x;; sendBody body); up_ CloseClient;; lift r) s).
Proof using.
  unfold delivered. rewrite plan_parts, attempted_app. destruct (runs_connect s) as (E1 & cl & Hcl & Hno & E2).
  unfold try, lift, mbind, M_bind. destruct (connectUpstream config s) as [[[]|e] s1]; cbn [fst snd] in *; simpl in E1, Hno.
  - symmetry in E1. apply andb_true_iff in E1 as [E1 Ec]. rewrite Ec in *. rewrite E1. cbv iota.
    rewrite Hno, app_nil_r, attempted_ok in E2 by auto. subst s1.
    destruct (runs_send f x body (set_upstream (upstream s ++ dial_plan ++ auth_plan) s)) as (F1 & cl' & _ & Hno' & F2).
    rewrite (Hno' (or_intror eq_refl)), app_nil_r in F2. cbn [upstream set_upstream] in F1, F2.
    revert F1 F2. generalize (attempted (upstream s ++ dial_plan ++ auth_plan) (send_plan f x body)). intros [d ok].
    unfold mbind, M_bind. match goal with |- is_ok (fst ?m) = _ -> _ => destruct m as [r s2] end.
    cbn [fst snd]. intros F1 ->. rewrite up_run. cbn [fst snd]. split; [done|].
    exists [CloseClient]. split; [right; right; left|]. rewrite !set_upstream_twice. simpl. by rewrite <-!app_assoc.
  - pose proof (attempted_ok (upstream s) (dial_plan ++ if can_send then auth_plan else [])) as Ho.
    destruct (attempted (upstream s) _) as [d ok]. simpl in *. destruct ok; simpl in *.
    + rewrite Ho in E2 by done. rewrite <-E1 in *. simpl. split; [done|]. exists cl. split; [done|]. subst s1. by rewrite !app_nil_r.
    + split; [done|]. by exists cl.
Qed.

Lemma forwardMessage_spec f t body s :
  match Route (route_env (routed s)) t (router s) with
  | (Ok x, r') => delivered f x body (set_router r' s) (forwardMessage config route_env f t body s)
  | (Err e, r') => forwardMessage config route_env f t body s = (Err (EWrap "routing failed" e), set_router r' s)
  end.
Proof using.
  destruct (Route _ t (router s)) as [[x|e] r'] eqn:E.
  - pose proof (deliver f x body (set_router r' s)) as H. revert H. generalize (delivered f x body (set_router r' s)). intros Post H.
    unfold forwardMessage, wrapM, route. unfold mbind at 1, M_bind at 1. rewrite E. exact H.
  - unfold forwardMessage, wrapM, route, mbind, M_bind. by rewrite E.
Qed.

(** ** The invariant of a session *)

Section invariant.
Context (r0 : Router).

(** An address that the resolver gave for the name, in this session or, through the cache
    [r0], before. *)
Definition resolves (name x : bytes) : Prop :=
  (exists e0, cache r0 !! name = Some e0 /\ Target (rule e0) = x) \/
  exists k c, LookupMail (route_env k) name = Ok c /\ ForwardTo c = x.

Definition sender_ok (f : bytes) : Prop := exists a, f = ToLower a /\ AT ∈ a.

(** The lower case of an address whose last part ends in .bit. *)
Definition recipient_ok (t : bytes) : Prop :=
  exists l d, t = ToLower (l ++ AT :: d) /\ (AT ∉ d) /\ HasSuffix (ToLower d) (str ".bit") = true.

Definition size_ok (body : bytes) : Prop := Z.of_nat (length body) <= Z.max 0 (MaxMessageSize config).

(** The calls of some deliveries. *)
Inductive deliveries : list call -> Prop :=
  | no_delivery : deliveries []
  | one_delivery h f t name x body cl : deliveries h ->
      sender_ok f -> recipient_ok t -> parseBitAddress t = Ok name -> resolves name x -> size_ok body -> cl ∈ closers ->
      deliveries (h ++ (attempted h (plan f x body)).1 ++ cl).

Record sess_inv (s : smtpSession) : Prop := {
  si_from : from s = [] \/ sender_ok (from s);
  si_to : Forall recipient_ok (to s);
  si_calls : deliveries (upstream s);
  si_end : panics (input_end s) = false;
  si_cache : forall name e, cache (router s) !! name = Some e -> resolves name (Target (rule e));
}.

(** Whatever happens the invariant holds, and an error is not a panic. *)
Definition sound {A} (m : Session A) (Q : A -> Prop) : Prop := forall s, sess_inv s ->
  wp m (fun a s' => sess_inv s' /\ Q a) (fun e s' => sess_inv s' /\ panics e = false) s.

Definition any {A} (a : A) : Prop := True.

Lemma sound_ret {A} (a : A) (Q : A -> Prop) : Q a -> sound (mret a) Q.
Proof using. intros H s I. done. Qed.
Lemma sound_fail {A} e (Q : A -> Prop) : panics e = false -> sound (fail e) Q.
Proof using. intros H s I. done. Qed.
Lemma sound_bind {A C} (m : Session A) (k : A -> Session C) P Q : sound m P -> (forall a, P a -> sound (k a) Q) -> sound (mbind k m) Q.
Proof using.
  intros Hm Hk s I. rewrite wp_bind. eapply wp_mono; [by apply Hm| |done]. intros a s' [I' HP]. by apply Hk.
Qed.
Lemma sound_modify f : (forall s, sess_inv s -> sess_inv (f s)) -> sound (modify f) any.
Proof using. intros H s I. split; [by apply H|done]. Qed.
Lemma sound_writeLine line : sound (writeLine line) any.
Proof using.
  intros s [H1 H2 H3 H4 H5]. unfold wp, writeLine. destruct (writes_left s) as [[|n]|]; repeat split; simpl; auto.
Qed.
Lemma sound_reply line : sound (reply line) any.
Proof using. apply sound_writeLine. Qed.

Hint Resolve sound_reply sound_writeLine : core.

(** *** Senders and recipients *)

Lemma sound_slice n x : (n <= length x)%nat -> sound (slice_from n x) any.
Proof using. intros H. unfold slice_from. rewrite bool_decide_true by done. by apply sound_ret. Qed.

Lemma sound_MailFrom cmd : (10 <= length cmd)%nat -> sound (handleMailFrom cmd) any.
Proof using.
  intros H. unfold handleMailFrom. eapply sound_bind; [by apply sound_slice|]. intros param _. cbv zeta.
  case_bool_decide; [done|]. destruct (LastIndexByte _ AT) as [i|] eqn:E; [|done].
  eapply sound_bind; [apply sound_modify|done]. intros s [H1 H2 H3 H4 H5]. split; simpl; auto. right.
  eexists. split; [done|]. destruct (decide (AT ∈ extractAddress param)) as [|Hn]; [done|].
  apply LastIndexByte_None in Hn. congruence.
Qed.

Lemma sound_RcptTo cmd : (8 <= length cmd)%nat -> sound (handleRcptTo cmd) any.
Proof using.
  intros H. unfold handleRcptTo. eapply sound_bind; [by apply sound_slice|]. intros param _. cbv zeta.
  case_bool_decide; [done|]. destruct (LastIndexByte _ AT) as [i|] eqn:E; [|done].
  destruct (HasSuffix _ _) eqn:Hs; simpl; [|done].
  eapply sound_bind; [apply sound_modify|done]. intros s [H1 H2 H3 H4 H5]. split; simpl; auto.
  apply Forall_app. split; [done|]. apply Forall_singleton.
  apply LastIndexByte_Some in E as [E1 E2].
  exists (take i (extractAddress param)), (drop (S i) (extractAddress param)). split_and!; [|done|done].
  by rewrite (take_drop_middle _ _ _ E1).
Qed.

(** *** Reading *)

Lemma inv_input i s : sess_inv s -> sess_inv (set_input i s).
Proof using. intros []. by split. Qed.

Lemma sound_readRawLine : sound readRawLine any.
Proof using.
  intros s I. unfold wp. pose proof (readRawLine_run s) as H. destruct (IndexByte (input s) LF) as [i|].
  - destruct H as [-> _]. split; [by apply inv_input|done].
  - rewrite H. split; [by apply inv_input|apply I].
Qed.

Lemma sound_readLine : sound readLine any.
Proof using.
  eapply sound_bind; [apply sound_readRawLine|]. intros line _. cbv zeta. case_match; [by apply sound_fail|by apply sound_ret].
Qed.

Lemma size_append body line body' e : appendDataLine config body line = (body', e) -> size_ok body -> size_ok body'.
Proof using.
  unfold appendDataLine, size_ok. destruct (Z.ltb_spec (MaxMessageSize config) (Z.of_nat (length body) + Z.of_nat (length line))).
  - by intros [= <- _].
  - intros [= <- _] _. rewrite length_app. lia.
Qed.

Lemma sound_bodyResult body e : size_ok body -> sound (bodyResult body e) size_ok.
Proof using. intros H. unfold bodyResult. destruct e; [by apply sound_fail|by apply sound_ret]. Qed.

Lemma sound_readBodyFrom n : forall body e s, (length (input s) < n)%nat -> size_ok body -> sess_inv s ->
  wp (readBodyFrom config n body e) (fun b s' => sess_inv s' /\ size_ok b) (fun err s' => sess_inv s' /\ panics err = false) s.
Proof using.
  induction n as [|n IH]; intros body e s Hn Hb I; [lia|]. cbn [readBodyFrom]. rewrite wp_bind, wp_try. unfold wp at 1.
  pose proof (sound_readRawLine s I) as Hr. unfold wp in Hr. destruct (readRawLine s) as [[line|err] s1] eqn:E.
  - destruct Hr as [I1 _]. apply readRawLine_shorter in E. destruct (isDataTerminator line); [by apply sound_bodyResult|].
    destruct e; [apply IH; [lia|done|done]|].
    destruct (appendDataLine config body line) as [b e'] eqn:Ea. apply IH; [lia|by eapply size_append|done].
  - destruct Hr as [I1 Hp]. destruct (is_EOF err); [by apply sound_bodyResult|by apply sound_fail].
Qed.

Lemma sound_readDataBody : sound (readDataBody config) size_ok.
Proof using. intros s I. apply sound_readBodyFrom; [lia| |done]. unfold size_ok. simpl. lia. Qed.

(** *** Forwarding *)

Lemma Route_cache e k t r : e = route_env k -> (forall name e, cache r !! name = Some e -> resolves name (Target (rule e))) ->
  let '(x, r') := Route e t r in
  (forall name e, cache r' !! name = Some e -> resolves name (Target (rule e))) /\
  match x with Ok y => exists name, parseBitAddress t = Ok name /\ resolves name y | Err _ => True end.
Proof using.
  intros -> H. unfold Route, lift, get, mbind, M_bind, wrap_err, getCached. destruct (parseBitAddress t) as [name|err]; [|done].
  destruct (if ttl r =? 0 then None else _) as [x|] eqn:Ec.
  - simpl. split; [done|]. exists name. split; [done|]. destruct (ttl r =? 0); [done|].
    destruct (cache r !! name) as [e|] eqn:E; [|done]. simpl in Ec. case_match; [done|]. injection Ec as <-. by apply H.
  - destruct (LookupMail (route_env k) name) as [c|err] eqn:El; [|done]. simpl.
    assert (resolves name (ForwardTo c)) as Hres by (right; by exists k, c). split; [|by exists name].
    unfold setCached. case_match; [done|]. simpl. intros n e [[<- <-]|[_ E]]%lookup_insert_Some; [done|by apply H].
Qed.

Lemma inv_router r' s : (forall name e, cache r' !! name = Some e -> resolves name (Target (rule e))) -> sess_inv s ->
  sess_inv (set_router r' s).
Proof using. intros H []. by split. Qed.

Lemma sound_forwardMessage f t body : sender_ok f -> recipient_ok t -> size_ok body -> forall s, sess_inv s ->
  sess_inv (forwardMessage config route_env f t body s).2.
Proof using.
  intros Hf Ht Hb s I. pose proof (forwardMessage_spec f t body s) as Hs.
  pose proof (Route_cache _ (routed s) t (router s) eq_refl (si_cache _ I)) as Hr.
  destruct (Route _ t (router s)) as [[x|e] r']; [|rewrite Hs; apply inv_router; [apply Hr|done]].
  destruct Hr as (Hc & name & Hn & Hx). destruct Hs as (_ & cl & Hcl & ->).
  destruct (inv_router r' s Hc I) as [H1 H2 H3 H4 H5]. split; simpl in *; auto. by eapply one_delivery.
Qed.

Lemma sound_forwardTo f body l : sender_ok f -> size_ok body -> Forall recipient_ok l -> forall a b,
  sound (forwardTo config route_env f body l a b) any.
Proof using.
  intros Hf Hb. induction 1 as [|t l Ht Hl IH]; intros a b; [by apply sound_ret|]. cbn [forwardTo]. intros s I.
  rewrite wp_bind, wp_try. unfold wp at 1. pose proof (sound_forwardMessage f t body Hf Ht Hb s I) as I'.
  destruct (forwardMessage _ _ f t body s) as [[[]|e] s']; simpl in I'; by apply IH.
Qed.

Lemma sound_reset : sound resetEnvelope any.
Proof using. apply sound_modify. intros s []. split; simpl; auto. Qed.

Lemma readDataBody_from : keeps from (readDataBody config).
Proof using.
  assert (forall n body e, keeps from (readBodyFrom config n body e)) as H.
  { assert (keeps from readRawLine) as Hr.
    { intros s. pose proof (readRawLine_run s) as H. destruct (IndexByte (input s) LF); [destruct H as [-> _]|rewrite H]; done. }
    assert (forall body e, keeps from (bodyResult body e)) as Hb by (intros body []; [apply keeps_fail|apply keeps_ret]).
    induction n as [|n IH]; intros body e; [apply keeps_fail|]. cbn [readBodyFrom].
    apply keeps_bind; [by apply keeps_try|]. intros [line|err]; [|case_match; [apply Hb|apply keeps_fail]].
    case_match; [apply Hb|]. case_match; [apply IH|]. destruct (appendDataLine _ _ _). apply IH. }
  intros s. apply H.
Qed.

Lemma reply_from line : keeps from (reply line).
Proof using. intros s. unfold reply, writeLine. by destruct (writes_left s) as [[|n]|]. Qed.

(** A computation after one that keeps the sender. *)
Lemma sound_after {A C} (m : Session A) (k : A -> Session C) P Q s : keeps from m -> sound m P -> sess_inv s ->
  (forall a s', P a -> from s' = from s -> sess_inv s' ->
     wp (k a) (fun c s' => sess_inv s' /\ Q c) (fun e s' => sess_inv s' /\ panics e = false) s') ->
  wp (mbind k m) (fun c s' => sess_inv s' /\ Q c) (fun e s' => sess_inv s' /\ panics e = false) s.
Proof using.
  intros Hf Hm I Hk. rewrite wp_bind. pose proof (Hm s I) as Hw. specialize (Hf s). unfold wp in *.
  destruct (m s) as [[a|e] s']; [|done]. simpl in Hf. destruct Hw as [I' HP]. by apply Hk.
Qed.

Lemma sound_try {A} (m : Session A) P : sound m P -> sound (try m) (fun r => match r with Ok a => P a | Err e => panics e = false end).
Proof using. intros H s I. rewrite wp_try. eapply wp_mono; [by apply H|done|done]. Qed.

Lemma sound_forwardDataBody body s : size_ok body -> sess_inv s -> from s <> [] ->
  wp (forwardDataBody config route_env body) (fun a s' => sess_inv s' /\ any a) (fun e s' => sess_inv s' /\ panics e = false) s.
Proof using.
  intros Hb I Hf. unfold forwardDataBody. rewrite wp_bind, wp_get. destruct (si_from _ I) as [E|Hs]; [done|].
  apply sound_forwardTo; [done|done|apply I|done].
Qed.

Lemma sound_handleData : sound (handleData config route_env) any.
Proof using.
  intros s I. unfold handleData. rewrite wp_bind, wp_get.
  destruct (bool_decide (from s = []) || bool_decide (to s = [])) eqn:Hf; [by apply sound_reply|].
  apply orb_false_iff in Hf as [Hf%bool_decide_eq_false _].
  apply (sound_after _ _ any); [apply reply_from|done|done|]. intros [] s1 _ E1 I1.
  eapply (sound_after _ _ _); [apply keeps_try, readDataBody_from|apply sound_try, sound_readDataBody|done|].
  intros [body|err] s2 HP E2 I2.
  - rewrite wp_bind. eapply wp_mono; [apply (sound_forwardDataBody body s2); [done|done|congruence]| |done].
    intros [a b] s3 [I3 _]. revert s3 I3. eapply sound_bind; [apply sound_reset|]. intros [] _.
    unfold writeDataResult. repeat case_match; auto.
  - unfold handleDataReadError. case_match; [|by apply sound_fail]. revert s2 I2 E2. intros s2 I2 _. revert s2 I2.
    eapply sound_bind; [apply sound_reset|auto].
Qed.

(** *** The session *)

Lemma sound_dispatch cmd : sound (dispatchCommand config route_env cmd) any.
Proof using.
  unfold dispatchCommand. case_match.
  { unfold handleHelo. case_match; [|auto]. eapply sound_bind; auto. }
  destruct (HasPrefix _ (str "MAIL FROM:")) eqn:E1.
  { apply sound_MailFrom. by apply (ToUpper_prefix cmd (str "MAIL FROM:")). }
  destruct (HasPrefix _ (str "RCPT TO:")) eqn:E2.
  { apply sound_RcptTo. by apply (ToUpper_prefix cmd (str "RCPT TO:")). }
  case_match; [apply sound_handleData|]. case_match; [apply sound_reply|].
  case_match; [|case_match; apply sound_reply].
  unfold handleReset. eapply sound_bind; [apply sound_reset|auto].
Qed.

Lemma sound_processFrom n : forall s, (length (input s) < n)%nat -> sess_inv s ->
  wp (processFrom config route_env n) (fun _ s' => sess_inv s') (fun e s' => sess_inv s' /\ panics e = false) s.
Proof using.
  induction n as [|n IH]; intros s Hn I; [lia|]. cbn [processFrom]. rewrite wp_bind. unfold wp at 1.
  pose proof (sound_readLine s I) as Hr. unfold wp in Hr. destruct (readLine s) as [[line|e] s1] eqn:E; [|done].
  destruct Hr as [I1 _]. apply readLine_shorter in E. cbv zeta. rewrite wp_bind. unfold wp at 1.
  pose proof (sound_dispatch (TrimSpace line) s1 I1) as Hd. unfold wp in Hd.
  pose proof (reads_length _ _ (dispatch_reads (TrimSpace line) s1)) as Hl.
  destruct (dispatchCommand _ _ _ s1) as [[[]|e] s2]; [|done]. simpl in Hl. destruct Hd as [I2 _].
  case_match; [done|]. apply IH; [lia|done].
Qed.

Lemma sound_handle : sound (handle config route_env) any.
Proof using.
  unfold handle. eapply sound_bind; [apply sound_reply|]. intros [] _ s I.
  eapply wp_mono; [apply sound_processFrom; [|exact I]; simpl; lia| |done]. done.
Qed.

(** *** What is in a trace *)

Lemma attempted_sub h cs c : c ∈ (attempted h cs).1 -> c ∈ cs.
Proof using.
  revert h. induction cs as [|c' cs IH]; intros h; simpl; [done|]. destruct (up_error _); [by intros ->%list_elem_of_singleton; left|].
  specialize (IH (h ++ [c'])). destruct (attempted _ cs) as [d ok]. simpl in *. intros [->|H]%elem_of_cons; [left|right; auto].
Qed.

Lemma deliveries_plan (P : call -> Prop) calls : deliveries calls ->
  (forall cl c, cl ∈ closers -> c ∈ cl -> P c) -> (forall f x body c, c ∈ plan f x body -> P c) -> Forall P calls.
Proof using.
  intros Hd Hc Hp. induction Hd as [|h f t name x body cl Hd IH Hs Hr Hn Hx Hb Hcl]; [constructor|].
  apply Forall_app. split; [done|]. apply Forall_app. split.
  - apply Forall_forall. intros c Hin%attempted_sub. by eapply Hp.
  - apply Forall_forall. intros c Hin. by eapply Hc.
Qed.

Lemma closers_in cl c : cl ∈ closers -> c ∈ cl -> c = CloseConn \/ c = CloseClient.
Proof using.
  unfold closers. rewrite !list_elem_of_In. simpl. intros [<-|[<-|[<-|[]]]] Hc; simpl in Hc; naive_solver.
Qed.

Lemma deliveries_auth calls : deliveries calls -> Auth ∈ calls ->
  UpstreamAuth config = true /\ resolveUpstreamTLSMode config ∈ [TLSModeSTARTTLS; TLSModeImplicit].
Proof using.
  intros Hd Hin. pose proof (deliveries_plan (fun c => c = Auth ->
    UpstreamAuth config = true /\ resolveUpstreamTLSMode config ∈ [TLSModeSTARTTLS; TLSModeImplicit]) calls Hd) as H.
  refine (proj1 (Forall_forall _ _) (H _ _) _ Hin eq_refl).
  - intros cl c Hcl Hc ->. by destruct (closers_in cl _ Hcl Hc).
  - intros f x body c Hc ->. unfold plan, dial_plan, can_send in Hc.
    destruct (resolveUpstreamTLSMode config), (UpstreamAuth config); simpl in Hc;
      rewrite ?list_elem_of_In in *; simpl in *; naive_solver.
Qed.

Lemma deliveries_write calls body : deliveries calls -> WriteBody body ∈ calls ->
  resolveUpstreamTLSMode config ∈ [TLSModeSTARTTLS; TLSModeImplicit] \/
  resolveUpstreamTLSMode config = TLSModeDisabled /\ UpstreamAuth config = false.
Proof using.
  intros Hd Hin. pose proof (deliveries_plan (fun c => c = WriteBody body ->
    resolveUpstreamTLSMode config ∈ [TLSModeSTARTTLS; TLSModeImplicit] \/
    resolveUpstreamTLSMode config = TLSModeDisabled /\ UpstreamAuth config = false) calls Hd) as H.
  refine (proj1 (Forall_forall _ _) (H _ _) _ Hin eq_refl).
  - intros cl c Hcl Hc ->. by destruct (closers_in cl _ Hcl Hc).
  - intros f x b c Hc ->. unfold plan, dial_plan, can_send in Hc.
    destruct (resolveUpstreamTLSMode config), (UpstreamAuth config); simpl in Hc;
      rewrite ?list_elem_of_In in *; simpl in *; naive_solver.
Qed.

End invariant.

End spec.
