(* ===== verification/Permamail.v ===== *)
(** * The permamail command

    cmd/permamail/main.go, over the flags of Settings.v, the daemon client of Daemon.v, the
    bridge of Mail.v and the relay of Smtp.v.  What a command prints is what it returns; an
    error ends the process. *)

From S2P Require Import Prelude Clock Strings Json Client Settings Daemon Mail Smtp.

Record CLI := mkCLI {
  network : bytes; dataDir : bytes; rpcAddr : bytes; rpcUser : bytes; rpcPassword : bytes;
  forwardTo : bytes; backups : list bytes;
  listenAddr : bytes; upstreamHost : bytes; upstreamPort : Z; smtpUser : bytes; smtpPassword : bytes;
}.

Definition no_cli : CLI := mkCLI [] [] [] [] [] [] [] [] [] 0 [] [].

Section permamail.
Context {U : UnicodeTables} {OS : ClientOS} {JT : JsonText}.

(** ** Flags *)

(** The defaults of [parseGlobalFlags] ... *)
Definition global_defaults (c : CLI) : CLI :=
  let homeDir := match UserHomeDir with Ok h => h | Err _ => [] end in
  mkCLI (str "mainnet") (filepath_Join [homeDir; str ".nmcd"]) (str "localhost:8336") [] [] (forwardTo c) (backups c)
    (listenAddr c) (upstreamHost c) (upstreamPort c) (smtpUser c) (smtpPassword c).

(** ... and its flags. *)
Definition global_flags (c : CLI) : list (bytes * (bytes -> res CLI)) :=
  let '(mkCLI n d a u p f b l h o su sp) := c in
  [ (str "network", fun v => Ok (mkCLI v d a u p f b l h o su sp));
    (str "datadir", fun v => Ok (mkCLI n v a u p f b l h o su sp));
    (str "rpcaddr", fun v => Ok (mkCLI n d v u p f b l h o su sp));
    (str "rpcuser", fun v => Ok (mkCLI n d a v p f b l h o su sp));
    (str "rpcpass", fun v => Ok (mkCLI n d a u v f b l h o su sp)) ].

Definition set_forwardTo (v : bytes) (c : CLI) : CLI :=
  mkCLI (network c) (dataDir c) (rpcAddr c) (rpcUser c) (rpcPassword c) v (backups c)
    (listenAddr c) (upstreamHost c) (upstreamPort c) (smtpUser c) (smtpPassword c).
Definition set_backups (l : list bytes) (c : CLI) : CLI :=
  mkCLI (network c) (dataDir c) (rpcAddr c) (rpcUser c) (rpcPassword c) (forwardTo c) l
    (listenAddr c) (upstreamHost c) (upstreamPort c) (smtpUser c) (smtpPassword c).

(** The flags of register and update; the second component is [backupAddrs]. *)
Definition name_flags (s : CLI * bytes) : list (bytes * (bytes -> res (CLI * bytes))) :=
  let '(c, backupAddrs) := s in
  ((fun nf => (nf.1, fun v => c ← nf.2 v; Ok (c, backupAddrs))) <$> global_flags c) ++
  [ (str "forward", fun v => Ok (set_forwardTo v c, backupAddrs)); (str "backup", fun v => Ok (c, v)) ].

Definition serve_flags (c : CLI) : list (bytes * (bytes -> res CLI)) :=
  let '(mkCLI n d a u p f b l h o su sp) := c in
  global_flags c ++
  [ (str "listen", fun v => Ok (mkCLI n d a u p f b v h o su sp));
    (str "upstream", fun v => Ok (mkCLI n d a u p f b l v o su sp));
    (str "upstreamport", fun v => match ParseInt0 v with
                                  | Some i => Ok (mkCLI n d a u p f b l h i su sp)
                                  | None => Err (EMsg "invalid value %q for flag -%s: %v")
                                  end);
    (str "smtpuser", fun v => Ok (mkCLI n d a u p f b l h o v sp));
    (str "smtppass", fun v => Ok (mkCLI n d a u p f b l h o su v)) ].

Definition parseBackupAddresses (backupAddrs : bytes) : list bytes :=
  if bool_decide (backupAddrs = []) then [] else SplitAndTrim backupAddrs.

(** ** Commands *)

(** Daemon mode: [client.NewClient] only makes the daemon client. *)
Definition createClient (c : CLI) : res DaemonClient :=
  NewDaemonClient (Some (mkClientConfig ModeDaemon (dataDir c) (network c) (rpcAddr c) (rpcUser c) (rpcPassword c) 0 [] false)).

(** The map that becomes the value of the name. *)
Definition mail_map (forwardTo : bytes) (backups : list bytes) : value :=
  VMap (sort_keys (("email"%string, VStr forwardTo) ::
    if bool_decide (backups = []) then [] else [("backup"%string, VList (VStr <$> backups))])).

Record nameCommandConfig := mkNameCommand { nc_name : bytes; mailJSON : bytes }.

Definition parseNameCommand (args : list bytes) : res (CLI * nameCommandConfig) :=
  '((c, backupAddrs), rest) ← flag_Parse name_flags args (global_defaults no_cli, []);
  let c := set_backups (parseBackupAddresses backupAddrs) c in
  match rest with
  | [] => Err (EMsg "name required: permamail %s <name> --forward <email>")
  | name :: _ =>
      if bool_decide (forwardTo c = []) then Err (EMsg "--forward flag required")
      else
        _ ← wrap_err "failed to create client" (createClient c);
        let mailConfig := mail_map (forwardTo c) (backups c) in
        if marshalable mailConfig then Ok (c, mkNameCommand name (json_Marshal mailConfig))
        else Err (EWrap "failed to create mail config" (EMsg "json: unsupported value"))
  end.

(** Neither command sends anything: each prints the name and its value. *)
Definition register (args : list bytes) : res (bytes * bytes) :=
  '(_, cfg) ← parseNameCommand args; mret (nc_name cfg, mailJSON cfg).
Definition update (args : list bytes) : res (bytes * bytes) :=
  '(_, cfg) ← parseNameCommand args; mret (nc_name cfg, mailJSON cfg).

(** [ResolveName] is the client's. *)
Definition lookup (ResolveName : DaemonClient -> bytes -> res cNameRecord) (args : list bytes) : res MailConfig :=
  '(c, rest) ← flag_Parse global_flags args (global_defaults no_cli);
  match rest with
  | [] => Err (EMsg "name required: permamail lookup <name>")
  | name :: _ =>
      nc ← wrap_err "failed to create client" (createClient c);
      wrap_err "failed to lookup name" (bridge_LookupMail (ResolveName nc) name)
  end.

(** The relay that serve starts, and its router. *)
Definition serve (args : list bytes) : res (RelayConfig * Router) :=
  '(c, _) ← flag_Parse serve_flags args
    (let c := global_defaults no_cli in
     mkCLI (network c) (dataDir c) (rpcAddr c) (rpcUser c) (rpcPassword c) [] [] (str ":2525") [] 587 [] []);
  if bool_decide (upstreamHost c = []) then Err (EMsg "--upstream flag required")
  else
    _ ← wrap_err "failed to create client" (createClient c);
    let relayConfig := DefaultRelayConfig in
    let auth := negb (bool_decide (smtpUser c = [])) && negb (bool_decide (smtpPassword c = [])) in
    mret (mkRelayConfig (listenAddr c) (upstreamHost c) (upstreamPort c) (UpstreamTLS relayConfig) auth
            (ReadTimeout relayConfig) (WriteTimeout relayConfig) (MaxMessageSize relayConfig) (MaxConnections relayConfig),
          NewRouter Hour).

(** ** main *)

Inductive exit := Usage | Help | Version | Failure (e : error) | Printed (name value : bytes) | Shown (c : MailConfig)
  | Serving (config : RelayConfig) (r : Router).

(** [args] is [os.Args] after the program. *)
Definition main (ResolveName : DaemonClient -> bytes -> res cNameRecord) (args : list bytes) : exit :=
  match args with
  | [] => Usage
  | command :: args =>
      if bool_decide (command = str "register") then
        match register args with Ok (n, v) => Printed n v | Err e => Failure e end
      else if bool_decide (command = str "update") then
        match update args with Ok (n, v) => Printed n v | Err e => Failure e end
      else if bool_decide (command = str "lookup") then
        match lookup ResolveName args with Ok c => Shown c | Err e => Failure e end
      else if bool_decide (command = str "serve") then
        match serve args with Ok (c, r) => Serving c r | Err e => Failure e end
      else if bool_decide (command = str "help" \/ command = str "-h" \/ command = str "--help") then Help
      else if bool_decide (command = str "version" \/ command = str "-v" \/ command = str "--version") then Version
      else Usage
  end.

End permamail.

(** ** Lemmas *)

(** An argument that is not a flag. *)
Definition plain (arg : bytes) : Prop := (length arg < 2)%nat \/ HasPrefix arg (str "-") = false.

Lemma flag_Parse_plain {V} (table : V -> list (bytes * (bytes -> res V))) arg rest f : plain arg ->
  flag_Parse table (arg :: rest) f = Ok (f, arg :: rest).
Proof.
  intros Hp. destruct arg as [|a [|b t]]; [done|by destruct a|]. destruct Hp as [Hl|Hd]; [simpl in Hl; lia|].
  destruct a; try reflexivity. exfalso. unfold HasPrefix in Hd. cbn in Hd. by rewrite bool_decide_eq_true_2 in Hd.
Qed.

(** The value that register prints is one that the bridge reads. *)
Lemma parseMailConfig_map {JT : JsonText} {JL : JsonTextLaws JT} email backups : email <> [] -> valid_string email = email ->
  Forall (fun s => valid_string s = s) backups ->
  marshalable (mail_map email backups) = true /\
  parseMailConfig (json_Marshal (mail_map email backups)) = Ok (mkMailConfig email backups []).
Proof.
  intros Hne Hv Hb.
  assert (marshalable (mail_map email backups) = true) as Hm.
  { unfold marshalable, mail_map. case_bool_decide; [done|]. cbn [sort_keys insert_key foldr fst snd].
    change (String.leb "email" "backup") with false. cbv iota. rewrite writable_map. cbn [forallb fst snd].
    by rewrite writable_list, writable_strings. }
  split; [exact Hm|]. unfold parseMailConfig. rewrite Unmarshal_Marshal by exact Hm. unfold mail_map.
  set (l := sort_keys _).
  assert (exists l', reread (VMap l) = VMap l' /\ member_string "email" l' = Some email /\
    member_strings "backup" l' = Some backups /\ member_string "pubkey" l' = Some []) as (l' & -> & Hem & Hbk & Hpk).
  { subst l. case_bool_decide as He; cbn [sort_keys insert_key foldr fst snd].
    - subst. eexists. split; [reflexivity|]. cbn [fmap list_fmap fst snd reread]. rewrite Hv.
      unfold member_string, member_strings, member. split_and!; by eval_members.
    - change (String.leb "email" "backup") with false. cbv iota. eexists. split; [reflexivity|].
      cbn [fmap list_fmap fst snd reread]. rewrite Hv, reread_strings by done.
      split_and!; [unfold member_string, member; by eval_members| |unfold member_string, member; by eval_members].
      eapply member_backup; [|reflexivity]. by eval_members. }
  cbn [as_struct mbind option_bind]. rewrite Hem, Hbk, Hpk. cbn [mbind option_bind option_res res_bind].
  by rewrite bool_decide_false.
Qed.

Section flags.
Context {OS : ClientOS}.

Lemma parse_forward c b email args :
  flag_Parse name_flags (str "--forward" :: email :: args) (c, b) = flag_Parse name_flags args (set_forwardTo email c, b).
Proof. by destruct c. Qed.

Lemma parse_backup c b v args :
  flag_Parse name_flags (str "--backup" :: v :: args) (c, b) = flag_Parse name_flags args (c, v).
Proof. by destruct c. Qed.

End flags.
