(* ===== verification/RpcProps.v ===== *)
(** * Properties: the RPC server

    The theorems about rpc/, on the lemmas of RpcSpec.v and the specifications of the
    components that the handlers call. *)

From stdpp Require Import relations.
From S2P Require Import Prelude Clock Float Strings Base64 Json Bolt Lru Record NameDB Utxo Config Script Wire AuxPow Chain ChainUpdate.
From S2P Require Import NamesSpec UtxoSpec ScriptSpec.
From S2P Require Import Mempool MempoolSpec Network Node Encryption Wallet WalletTx RateLimit.
From S2P Require Import Rpc RpcNames RpcWallet RpcChain RpcServer RpcSpec AutoLock.
From S2P Require Import Ref NetProps WalletProps.

Section props.
Context {B : Bolt} {W : Wire} {G : BtcLib} {R : MapRange} {D : Btcd} {Q : BtcdQueries} {N : NetParams} {P : PeerLib}.
Context {K : Crypto} {L : KeyLib} {F : Disk} {J : WalletJson} {S : TxScript} {X : RpcLib} {T : RequestText}.

(** C28: no request changes the stored names, the chain or the configuration; only the
    three methods that build name transactions and sendrawtransaction touch the pool and
    the messages to peers, and only getnewaddress and the three locking methods touch the
    wallet, its file and the timer. *)
Theorem request_effects env req (s : Server) :
  let s' := (processRequest env req s).2 in
  names_part s' = names_part s /\ config_part s' = config_part s /\
  (is_method (Method req) relaying = true \/ node_part s' = node_part s) /\
  (is_method (Method req) locking = true \/ wallet_part s' = wallet_part s).
Proof using R Q N J S X.
  cbv zeta. split_and!.
  - apply (processRequest_keeps _ []); [|done]. apply handlers_keep.
    + intros A m. apply stable_on_nameDB_names.
    + right. split; [split; intros; apply stable_on_world_names|]. intros. apply stable_Broadcast_names.
    + right. split; [intros; apply stable_on_world_names|done].
  - apply (processRequest_keeps _ []); [|done]. apply handlers_keep.
    + intros A m _. apply stable_on_nameDB_config.
    + right. split; [split; intros; apply stable_on_world_config|]. intros. apply stable_Broadcast_config.
    + right. split; [intros; apply stable_on_world_config|done].
  - destruct (is_method (Method req) relaying) eqn:Em; [by left|right]. revert Em.
    apply processRequest_keeps, handlers_keep; [intros A m _; apply stable_on_nameDB_node|by left|].
    right. split; [intros; apply stable_on_world_node|done].
  - destruct (is_method (Method req) locking) eqn:Em; [by left|right]. revert Em.
    apply processRequest_keeps, handlers_keep; [intros A m _; apply stable_on_nameDB_wallet| |by left].
    right. split; [|intros; apply stable_Broadcast_wallet].
    split; [intros; apply stable_ask_wallet|apply stable_rand].
Qed.

(** C29: a server with credentials, whose authentication code has no second preimage,
    processes a request only when its header carries exactly these, printable: any other
    request is refused with a status 401, 405, 413 or 429 and changes nothing but the
    limiter; the header of a client with printable credentials, no colon in the user, is
    accepted exactly when they are the server's. *)
Theorem auth_exact env r (s : Server) :
  authEnabled s = true -> Z.of_nat (length (rpcUser s) + length (rpcPassword s)) < 2 ^ 32 ->
  (forall m, HMAC_SHA256 (authKey s) m = HMAC_SHA256 (authKey s) (mac_message (rpcUser s) (rpcPassword s)) ->
     m = mac_message (rpcUser s) (rpcPassword s)) ->
  (BasicAuth (hr_Authorization r) = Some (rpcUser s, rpcPassword s) /\ isASCII (rpcUser s) = true /\ isASCII (rpcPassword s) = true \/
   exists status headers text l, (handleRequest env r s) = (Ok (mkHttpResponse status headers (Text text)), set_limiter l s) /\
     status ∈ [401; 405; 413; 429]) /\
  (forall user pass, Byte.x3a ∉ user -> isASCII user = true -> isASCII pass = true ->
     (checkAuth (basic_header user pass) s = true <-> user = rpcUser s /\ pass = rpcPassword s)).
Proof using Q N J S X.
  intros Ha Hl Hc. assert (forall user pass, isASCII user = true -> isASCII pass = true ->
    forall auth, BasicAuth auth = Some (user, pass) -> (checkAuth auth s = true <-> user = rpcUser s /\ pass = rpcPassword s)) as Hk.
  { intros user pass Hu Hp auth E. unfold checkAuth. rewrite E, Hu, Hp. simpl. rewrite bool_decide_eq_true. split.
    - unfold credentials_mac. intros Em. apply mac_message_inj, Hc; [done|]. by unfold mac_message.
    - by intros [-> ->]. }
  split; [|intros user pass Hn Hu Hp; by apply Hk, BasicAuth_header].
  destruct (checkAuth (hr_Authorization r) s) eqn:Ec.
  - left. pose proof Ec as Ec'. revert Ec'. unfold checkAuth. destruct (BasicAuth (hr_Authorization r)) as [[user pass]|] eqn:E; [|done].
    destruct (isASCII user) eqn:Hu; [|done]. destruct (isASCII pass) eqn:Hp; [|done]. intros _.
    destruct (proj1 (Hk _ _ Hu Hp _ E) Ec) as [<- <-]. done.
  - right. unfold handleRequest, validateHTTPRequest. destruct (negb (bool_decide (hr_Method r = MethodPost))).
    { eexists _, _, _, (limiter s). split; [by destruct s|set_solver]. }
    destruct (hr_ContentLength r >? maxRequestSize s).
    { eexists _, _, _, (limiter s). split; [by destruct s|set_solver]. }
    destruct (allow (extractIP (hr_RemoteAddr r)) (Now env) (limiter s)) as [ok l]. destruct ok; simpl negb; cbv iota.
    + assert (authEnabled (set_limiter l s) = true) as -> by done.
      assert (checkAuth (hr_Authorization r) (set_limiter l s) = false) as -> by (by destruct s).
      eexists _, _, _, l. split; [reflexivity|set_solver].
    + eexists _, _, _, l. split; [reflexivity|set_solver].
Qed.


(** Encryptwallet leaves the wallet open without a timer, and an open wallet cannot be
    given one: walletpassphrase with any parameters is an error and changes nothing. *)
Theorem encrypted_wallet_open env req (s : Server) :
  match encryptWallet req s with
  | (Go _, s') => is_open s' /\ autoLockTimer s' = autoLockTimer s
  | _ => True
  end /\
  (~ is_open s \/ exists r, Error_ r <> None /\ walletPassphrase env req s = (Reply r, s)).
Proof using R Q N J S X.
  split.
  - unfold encryptWallet, requireWallet, gets, reply_error, reply, or_error, mbind, Handler_bind, mret, Handler_ret. simpl.
    destruct (wallet_nil s); [done|]. destruct (Unmarshal_slice (Params_ req)) as [[|p0 ps]|]; [done| |done].
    destruct (as_string p0) as [pw|]; [|done]. unfold on_world, call. pose proof (EncryptWallet_open pw (world s)) as Ho.
    unfold wp in Ho. destruct (EncryptWallet pw (world s)) as [[[]|e] w]; [done|]. by destruct (panics e).
  - destruct (decide (is_open s)) as [Ho|]; [right|by left].
    cut (exists r, Error_ r <> None /\ unlockRequest req s = (Reply r, s)).
    { intros (r & Hr & E). exists r. split; [done|]. unfold walletPassphrase, mbind, Handler_bind. by rewrite E. }
    by apply unlock_open.
Qed.

(** C31: getrawtransaction answers with the transaction of that hash in the highest of the
    last 1001 blocks of the main chain that has one, in hexadecimal, which
    sendrawtransaction reads back; it reports an error exactly when none has it; it ends
    and changes nothing. *)
Theorem getrawtransaction_exact {LW : WireLaws W} req (s : Server) hash rest txid :
  blockchain_nil s = false -> Unmarshal_slice (Params_ req) = Ok (JStr hash :: rest) ->
  (rest = [] \/ head rest = Some (JBool false)) -> NewHashFromStr hash = Ok txid ->
  let bc := srv_chain s in let best := btcd_BestHeight (btcd bc) in
  0 <= best <= MaxInt32 ->
  match getRawTransaction req s with
  | (Go r, s') => s' = s /\ exists tx h, best - 1000 <= h <= best /\ in_block bc h tx /\ TxHash tx = txid /\
      (forall h' tx', h < h' <= best -> in_block bc h' tx' -> TxHash tx' <> txid) /\
      r = successResponse (ID_ req) (VStr (hex_EncodeToString (tx_Serialize tx))) /\
      (tx_fits tx -> exists b, hex_DecodeString (hex_EncodeToString (tx_Serialize tx)) = Ok b /\ (tx_Deserialize b).1 = Ok tx)
  | (Reply r, s') => s' = s /\ Error_ r <> None /\
      forall h tx, 0 <= h -> best - 1000 <= h <= best -> in_block bc h tx -> TxHash tx <> txid
  | (Panic _, _) => False
  end.
Proof using R N J S X.
  intros Hn Hp Hrest Hh bc best Hbest. unfold getRawTransaction, parseInterfaceParams. rewrite Hp.
  rewrite bool_decide_false by (simpl; lia). unfold mbind, Handler_bind, mret, Handler_ret. simpl.
  unfold parseHashParam, nth_param, or_error, mbind, Handler_bind. simpl. rewrite Hh. simpl.
  assert (parseVerboseParam (JStr hash :: rest) 1 (ID_ req) s = (Go false, s)) as ->.
  { unfold parseVerboseParam. destruct rest as [|p rest]; [done|]. simpl in *. by destruct Hrest as [|[= ->]]. }
  unfold requireBlockchain, gets, mbind, Handler_bind. rewrite Hn. unfold mret, Handler_ret. unfold searchTransaction, gets, mbind, Handler_bind, mret, Handler_ret.
  fold bc. fold best.
  set (start := if int32 (best - 1000) <? 0 then 0 else int32 (best - 1000)).
  assert (start = Z.max 0 (best - 1000)) as Es.
  { unfold start. rewrite int32_id by (unfold_int; unfold MaxInt32 in *; lia). destruct (Z.ltb_spec (best - 1000) 0); lia. }
  pose proof (searchFrom_spec bc txid (Z.to_nat (best - start + 1)) best) as Sp.
  destruct (searchFrom bc txid best _) as [[[tx h] h']|]; simpl.
  - destruct Sp as (S1 & S2 & S3 & S4). split; [done|]. exists tx, h'. split_and!; [lia|lia|done|done|done|done|].
    intros Hf. exists (tx_Serialize tx). split; [apply hex_roundtrip|].
    pose proof (tx_roundtrip tx [] Hf) as E. rewrite app_nil_r in E. by rewrite E.
  - split; [done|]. split; [done|]. intros h tx H0 Hr. apply Sp. lia.
Qed.

(** Getbalance is the sum, as an int64, of the outputs of the wallet's addresses, and
    listunspent lists those of them, or of the addresses of the filter, whose
    confirmations are within its bounds; every output of the database with such an
    address is counted, and once. *)
Theorem balance_and_unspent {LB : BoltLaws B} req (s : Server) :
  wallet_nil s = false -> blockchain_nil s = false -> ndb_utxo_wf (srv_db s) ->
  (exists us, outputs_of (srv_db s) (GetAddresses (srv_wallet s)) us /\ NoDup us /\
     (getBalance req s).2 = s /\
     (getBalance req s).1 = Go (successResponse (ID_ req)
        (VFloat (if bool_decide (GetAddresses (srv_wallet s) = []) then of_int 0
                 else satoshisToNMC (int64 (foldr (fun u z => u_Value u + z) 0 us)))))) /\
  (let '(minConf, maxConf, filterAddrs) := parseListUnspentParams (Params_ req) in
   let addresses := if bool_decide (filterAddrs <> []) then filterAddrs else GetAddresses (srv_wallet s) in
   let best := btcd_BestHeight (btcd (srv_chain s)) in
   exists us, outputs_of (srv_db s) addresses us /\
     listUnspent req s = (Go (successResponse (ID_ req)
       (VList (omap (fun u => buildUTXOResult u best minConf maxConf) us))), s)).
Proof using R N J S X.
  intros Hw Hb Wf. split.
  - destruct (collect_run s (GetAddresses (srv_wallet s)) Wf) as (us & Ho & Es & _). exists us.
    split; [done|]. split; [apply Ho, GetAddresses_spec|].
    unfold getBalance, validateBalanceState, requireWallet, requireBlockchain, gets, mbind, Handler_bind, mret, Handler_ret.
    rewrite Hw, Hb. case_bool_decide as E; [done|]. rewrite Es. simpl. split; [done|].
    do 4 f_equal. apply (total_outputs us 0).
  - destruct (parseListUnspentParams (Params_ req)) as [[minConf maxConf] filterAddrs] eqn:Ep. cbv zeta.
    set (addresses := if bool_decide (filterAddrs <> []) then filterAddrs else GetAddresses (srv_wallet s)).
    destruct (collect_run s addresses Wf) as (us & Ho & _ & Ec). exists us. split; [done|].
    unfold listUnspent, validateBalanceState, requireWallet, requireBlockchain, gets, mbind, Handler_bind, mret, Handler_ret.
    rewrite Hw, Hb, Ep. assert (resolveTargetAddresses filterAddrs s = (Go addresses, s)) as ->.
    { unfold resolveTargetAddresses, addresses, gets, mbind, Handler_bind, mret, Handler_ret. by case_bool_decide. }
    unfold best_height, gets. by rewrite Ec.
Qed.

End props.

(** ** Concrete inputs

    The chain is a list of blocks, the highest first, which are asked for by height or
    by hash; the map order is that of the keys; an address and a hash are read as they
    are printed. *)

#[export] Instance ToyBtcd : Btcd := {
  btcd_state := list MsgBlock;
  btcd_BlockHeightByHash c h := None;
  btcd_BestHeight c := Z.of_nat (length c) - 1;
  BFNoPoWCheck := 2;
  btcd_ProcessBlock b f c := mkProcess _ true false None [] b (mkMsgBlock (blk_Header b) (blk_Txs b) :: c);
}.

#[export] Instance ToyQueries : BtcdQueries := {
  q_BestHash c := zero_hash;
  q_BestBits c := 0x207fffff;
  q_LatestBlockLocator c := Ok [];
  q_BlockByHash c h := option_res (EMsg "block not found") (find (fun b => bool_decide (BlockHash (mb_Header b) = h)) c);
  q_BlockHashByHeight c h := option_res (EMsg "no block at height") ((fun b => BlockHash (mb_Header b)) <$> reverse c !! Z.to_nat h);
  q_LocateHeaders c loc stop := [];
  q_LocateBlocks c loc stop n := [];
}.

#[export] Instance ToyNet : NetParams := NamecoinRegTestParams.

#[export] Instance ToyRpc : RpcLib := {
  DecodeAddress a p := hex_DecodeString a;
  Hash_String h := hex_EncodeToString h;
  NewHashFromStr s := hex_DecodeString s;
  block_Bytes b := Ok [];
  HMAC_SHA256 k m := k ++ m;
}.

(** Every body is a walletlock. *)
#[export] Instance ToyText : RequestText := fun body => (mkRequest (str "walletlock") None JNull, None).

Definition my_output : UTXO :=
  {| u_TxHash := replicate 32 Byte.x09; u_OutIndex := 1; u_Value := 500000000;
     u_Address := my_address; u_PkScript := p2pkh pkh; u_Height := 0 |}.
Definition my_db : @NameDatabase RefBolt := (AddUTXO (Some my_output) fresh_db).2.

Lemma my_db_wf : ndb_utxo_wf my_db.
Proof.
  assert (utxo_ok my_output) as Ho by (split; by vm_compute).
  assert (ndb_utxos fresh_db = ∅) as E0.
  { unfold ndb_utxos. rewrite fresh_bkt. apply map_eq. intros k. by rewrite utxos_of_lookup, !lookup_empty. }
  destruct (wp_run _ _ _ (AddUTXO_correct fresh_db my_output fresh_utxo_wf Ho
    ltac:(intros u'; rewrite E0; by rewrite lookup_empty))) as (_ & H1 & _). exact H1.
Qed.

Definition small_tx : MsgTx := mkMsgTx 1 [] [mkTxOut 1 []] 0.
Definition srv_block : MsgBlock := mkMsgBlock a_header [small_tx].
Definition my_chain : @BlockChain RefBolt ToyBtcd := mkBlockChain my_db (newLRUCache 10 10) [srv_block].
Definition my_world : World := (Lock wallet2).2.
Definition my_user : bytes := str "user".
Definition my_server : Server :=
  NewServer false false false (NewPeerManager my_chain 2) my_world my_user secret1 (replicate 32 Byte.x01) 0 0.
Definition my_env : Env := mkEnv (fun _ => false) 0 VNil.
Definition request (method : string) (params : list json) : Request := mkRequest (str method) (Some (JArr params)) JNull.

Definition post (auth : bytes) : HttpRequest := mkHttpRequest MethodPost 0 (str "10.0.0.1:5000") auth [].

Lemma auth_exact_witness :
  checkAuth (basic_header my_user secret1) my_server = true /\
  checkAuth (basic_header my_user (str "other")) my_server = false /\
  exists status headers text l, (handleRequest my_env (post []) my_server) =
    (Ok (mkHttpResponse status headers (Text text)), set_limiter l my_server) /\ status ∈ [401; 405; 413; 429].
Proof.
  assert (authEnabled my_server = true) as Ha by (vm_compute; reflexivity).
  assert (Z.of_nat (length (rpcUser my_server) + length (rpcPassword my_server)) < 2 ^ 32) as Hl by (vm_compute; reflexivity).
  assert (forall m, HMAC_SHA256 (authKey my_server) m =
     HMAC_SHA256 (authKey my_server) (mac_message (rpcUser my_server) (rpcPassword my_server)) ->
     m = mac_message (rpcUser my_server) (rpcPassword my_server)) as Hc.
  { intros m E. exact (app_inv_head _ _ _ E). }
  destruct (auth_exact my_env (post []) my_server Ha Hl Hc) as [H1 H2].
  split; [|split].
  - apply (H2 my_user secret1); [|reflexivity|reflexivity|split; reflexivity]. apply (bool_decide_unpack _). vm_compute. exact I.
  - apply not_true_is_false. intros E.
    apply (H2 my_user (str "other")) in E; [|apply (bool_decide_unpack _); vm_compute; exact I|reflexivity|reflexivity].
    destruct E as [_ E]. vm_compute in E. discriminate.
  - destruct H1 as [[E _]|H1]; [|exact H1]. vm_compute in E. discriminate.
Defined.

(** The wallet is opened for a minute, and the timer started. *)
Definition unlock_req : Request := request "walletpassphrase" [JStr secret1; JNum (Some (of_int 60))].
Definition locker0 : locker := lock_start my_server.
Definition open_server : Server := (unlockRequest unlock_req my_server).2.
Definition locker1 : locker :=
  mkLocker open_server 0 [] [(Scheduling 60, 0)] (due_of [] (0 + 60 * Second)).
Definition timed_server : Server := scheduleAutoLock 0 60 open_server.
Definition locker2 : locker :=
  mkLocker timed_server 0 (started timed_server ++ stop open_server []) [] (due_of [] (0 + 60 * Second)).


Definition rawtx_req : Request := request "getrawtransaction" [JStr (hex_EncodeToString (TxHash small_tx))].

Lemma getrawtransaction_exact_witness :
  (getRawTransaction rawtx_req my_server).1 =
    Go (successResponse JNull (VStr (hex_EncodeToString (tx_Serialize small_tx)))) /\
  (getRawTransaction rawtx_req my_server).2 = my_server.
Proof.
  assert ((getRawTransaction rawtx_req my_server).1 =
    Go (successResponse JNull (VStr (hex_EncodeToString (tx_Serialize small_tx))))) as E by (vm_compute; reflexivity).
  split; [exact E|].
  assert (Unmarshal_slice (Params_ rawtx_req) = Ok [JStr (hex_EncodeToString (TxHash small_tx))]) as Hp by (vm_compute; reflexivity).
  assert (NewHashFromStr (hex_EncodeToString (TxHash small_tx)) = Ok (TxHash small_tx)) as Hh by (vm_compute; reflexivity).
  assert (0 <= btcd_BestHeight (btcd (srv_chain my_server)) <= MaxInt32) as Hb by (vm_compute; split; discriminate).
  pose proof (getrawtransaction_exact rawtx_req my_server _ [] _ eq_refl Hp (or_introl eq_refl) Hh Hb) as H.
  destruct (getRawTransaction rawtx_req my_server) as [[r|r|e] s']; [destruct H as [-> _]; reflexivity|discriminate E|destruct H].
Defined.

(** A locked wallet holds no keys. *)
Definition rich_server : Server := set_world wallet1 my_server.

Lemma balance_and_unspent_witness :
  (exists us, outputs_of my_db [my_address] us /\ NoDup us /\
     (getBalance (request "getbalance" []) rich_server).2 = rich_server) /\
  (getBalance (request "getbalance" []) rich_server).1 = Go (successResponse JNull (VFloat (of_int 5))).
Proof.
  split; [|vm_compute; reflexivity].
  destruct (balance_and_unspent (request "getbalance" []) rich_server eq_refl eq_refl my_db_wf) as [(us & H1 & H2 & H3 & _) _].
  exists us. split; [|split; [exact H2|exact H3]].
  assert (GetAddresses (srv_wallet rich_server) = [my_address]) as E by (vm_compute; reflexivity). rewrite <-E. exact H1.
Defined.
