(* ===== verification/ClientProps.v ===== *)
(** * Properties: the embedded client

    The theorems about client/embedded.go, and what the client and the RPC server share:
    neither ever builds an update. *)

From stdpp Require Import relations.
From S2P Require Import Prelude Clock Float Strings Json Bolt Lru Record NameDB NamesSpec ExpirySpec Utxo UtxoSpec.
From S2P Require Import Config Script ScriptSpec Wire AuxPow Chain ChainSpec ChainNames ChainUpdate UpdateSpec BlockSpec BlockProps Grown.
From S2P Require Import Mempool MempoolSpec Network Node Encryption Wallet WalletTx RateLimit.
From S2P Require Import Rpc RpcNames RpcWallet RpcChain RpcServer RpcSpec RpcNamesSpec Client ClientSpec.
From S2P Require Import Ref NetProps WalletProps RpcProps.

Section props.
Context {B : Bolt} {LB : BoltLaws B} {CB : BoltCommits B}.
Context {W : Wire} {LW : WireLaws W} {G : BtcLib} {LG : BtcLaws G} {SG : StandardLaws G} {R : MapRange}.
Context {D : Btcd} {Q : BtcdQueries} {BB : BtcdBlocks} {N : NetParams} {P : PeerLib}.
Context {K : Crypto} {L : KeyLib} {F : Disk} {J : WalletJson} {S : TxScript} {X : RpcLib} {T : RequestText}.



(** C34: with any filter and any page length from 1 to 10000, the pages of ListNames, one
    after the other, are exactly the records of the database that the filter selects, in
    the order of their names. *)
Theorem ListNames_pages ctx f (c : EmbeddedClient) a l :
  ready ctx c -> db_view (ec_db c) a (ndb_utxos (ec_db c)) -> 1 <= l <= 10000 ->
  let page o := ec_ListNames ctx (Some (mkListFilter (NamePattern f) (Namespace f) (lf_Address f) (IncludeExpired f) l o)) c in
  exists rs, listing (s_names a) rs /\
    let all := (fun r => convertToClientRecord r (ec_best c)) <$> filter (selects f (ec_best c)) rs in
    forall n, Z.of_nat (length all) <= Z.of_nat n * l ->
      exists pages, length pages = n /\ concat pages = all /\
        forall k p, pages !! k = Some p -> (page (Z.of_nat k * l)).1 = Ok p.
Proof using All.
  intros Hr V Hl page. destruct (ListNames_page ctx f c a Hr V) as (rs & Hls & Hp). exists rs. split; [done|].
  fold (selected f (ec_best c) rs). intros all n Hn.
  exists ((fun k => take (Z.to_nat l) (drop (k * Z.to_nat l) all)) <$> seq 0 n).
  split; [by rewrite length_fmap, length_seq|]. split; [apply pages_concat; lia|].
  intros k p (k' & -> & Hk)%list_lookup_fmap_Some. apply lookup_seq in Hk as [-> _]. unfold page. rewrite Hp by lia.
  replace (Z.to_nat (Z.of_nat k * l)) with ((0 + k) * Z.to_nat l)%nat by lia. reflexivity.
Qed.

End props.

(** ** Concrete inputs

    A database with an ordinary output and an old commitment; a block registers the name
    for a key of the wallet, and pays another output to it. *)

#[export] Instance RefStandard : StandardLaws RefBtc.
Proof.
  intros script p addrs Ho. simpl. intros [= <-]. rewrite bool_decide_false; [done|]. intros E.
  revert Ho. unfold name_opcode. by rewrite E.
Qed.

#[export] Instance ToyBlocks : BtcdBlocks := fun c h =>
  option_res (EMsg "no block at height") (mb_Transactions <$> reverse c !! Z.to_nat h).

Definition old_db : @NameDatabase RefBolt := (PutNameNew the_commit 80 utxo_db).2.
Definition old_state : names_state := set_commit the_commit 80 empty_state.

Definition key_hash : bytes := Byte.x02 :: Byte.x07 :: replicate 18 Byte.x00.
Definition register_tx : MsgTx :=
  {| tx_Version := 1; LockTime := 0;
     TxIns := [{| PreviousOutPoint := mkOutPoint (u_TxHash the_utxo) 1; SignatureScript := []; Sequence := 0 |}];
     TxOuts := [{| to_Value := 1000000;
                   PkScript := built (BuildNameFirstUpdateScript the_name (hex_EncodeToString the_rand) (str "{}") key_hash) |};
                {| to_Value := 400000000; PkScript := p2pkh key_hash |}] |}.
Definition register_block : btcBlock :=
  {| blk_Header := blk_Header the_block; blk_Height := 100; blk_Txs := [coinbase_tx; register_tx] |}.
Definition reg_view : chain_view := mkView false false (fun _ => None) NamecoinRegTestParams.
Definition registered_db : @NameDatabase RefBolt := (updateNameDatabase NamecoinRegTestParams register_block old_db).2.
Definition registered_state : names_state := steps NamecoinRegTestParams 100 1700000600 (items (blk_Txs register_block)) old_state.

Lemma old_db_spec : models old_db old_state /\ ndb_utxo_wf old_db /\ ndb_utxos old_db = <[uk the_utxo := the_utxo]> ∅.
Proof.
  destruct utxo_db_spec as (Wf & Ec & Fr & E).
  assert (models utxo_db empty_state) as M.
  { eapply models_utxo_side; [apply Wf|exact Ec| |exact fresh_models]. by eapply frame_weaken; [|exact Fr]. }
  assert (key_ok the_commit) as Hk by exact (Hash160_key_ok the_rand the_name).
  pose proof (PutNameNew_models utxo_db empty_state the_commit 80 M Hk (lookup_empty _)) as Hp.
  destruct (wp_run _ _ _ Hp) as (u & H1 & H2).
  destruct (frame_utxos utxo_db _ (ndb_wf_open _ (md_wf _ _ H1)) H2 Wf) as [H3 H4]. rewrite E in H4.
  exact (conj H1 (conj H3 H4)).
Qed.

Lemma old_chain_state : chain_state old_db old_state 100.
Proof.
  destruct old_db_spec as (Mo & Wf & _). split; [done| |done| |left; by vm_compute| |].
  - split.
    + intros name r Er. simpl in Er. by rewrite lookup_empty in Er.
    + intros c d. simpl. intros [[<- <-]|[_ E]]%lookup_insert_Some; [|by rewrite lookup_empty in E].
      exists 80. split; [unfold is_int32; lia|]. split; [lia|done].
    + intros name. simpl. lia.
  - intros name r Er. simpl in Er. by rewrite lookup_empty in Er.
  - intros k _. assert (ndb_bkt old_db expiredNamesIdxBucket = ∅) as -> by by vm_compute. by rewrite lookup_empty.
  - intros k _. assert (ndb_bkt old_db spentUtxoIdxBucket = ∅) as -> by by vm_compute. by rewrite lookup_empty.
Qed.

Lemma register_spent txIn : txIn ∈ TxIns register_tx -> in_ok txIn /\ spent_output old_db txIn = Some the_utxo.
Proof.
  intros ->%list_elem_of_singleton. split; [by split; vm_compute|].
  unfold spent_output. destruct old_db_spec as (_ & _ & ->). by rewrite lookup_insert_eq.
Qed.

Lemma register_item_ok x : x ∈ items (blk_Txs register_block) ->
  utxo_ok (item_utxo NamecoinRegTestParams 100 x) /\ uk (item_utxo NamecoinRegTestParams 100 x) <> uk the_utxo /\
  out_commit x.2 = None.
Proof.
  change (items (blk_Txs register_block)) with
    ((TxHash coinbase_tx, 0%nat, {| to_Value := 5000000000; PkScript := [Byte.x51] |}) :: tx_items register_tx).
  intros [->| [->| ->%list_elem_of_singleton]%elem_of_cons]%elem_of_cons;
    (split; [split; by vm_compute|split; [by vm_compute|by vm_compute]]).
Qed.

Lemma register_accepted : BlockProps.accepted reg_view NamecoinRegTestParams old_db old_state register_block.
Proof.
  split; [by vm_compute|by vm_compute| |done| | |by vm_compute|by vm_compute].
  - apply Forall_cons; split; [|apply Forall_singleton]; (split; [|repeat constructor; by vm_compute]);
      repeat constructor; by vm_compute.
  - split.
    + intros txIn Hin. destruct (register_spent txIn Hin) as [? ->]. eauto.
    + change (tail (blk_Txs register_block)) with [register_tx]. rewrite spent_by_one.
      destruct (register_spent _ ltac:(by left)) as [_ E]. cbn [register_tx TxIns omap list_omap]. rewrite E. apply NoDup_singleton.
    + intros x Hx. destruct (register_item_ok x Hx) as (? & Hne & _). split; [done|].
      rewrite (proj2 (proj2 old_db_spec)). by rewrite lookup_insert_ne, lookup_empty.
    + apply (bool_decide_unpack _). by vm_compute.
  - split.
    + intros x Hx. apply lookup_empty.
    + apply (bool_decide_unpack _). by vm_compute.
    + apply (bool_decide_unpack _). by vm_compute.
    + intros x c Hx Ec. destruct (register_item_ok x Hx) as (_ & _ & E). by rewrite E in Ec.
Qed.

Lemma registered_grown : grown NamecoinRegTestParams registered_db registered_state.
Proof.
  apply (grown_connect NamecoinRegTestParams old_db old_state reg_view register_block).
  - destruct old_db_spec as (Mo & Wf & E). apply grown_new; [exact Mo|exact Wf|reflexivity|].
    intros k u. rewrite E. intros [[_ <-]|[_ E']]%lookup_insert_Some; [reflexivity|by rewrite lookup_empty in E'].
  - exact old_chain_state.
  - exact register_accepted.
  - intros x name r _ Er. simpl in Er. by rewrite lookup_empty in Er.
  - apply (result_ok (updateNameDatabase NamecoinRegTestParams register_block)). vm_compute. reflexivity.
Qed.

Definition reg_chain : @BlockChain RefBolt ToyBtcd := mkBlockChain registered_db (newLRUCache 10 10) [srv_block].
Definition reg_server : Server :=
  NewServer false false false (NewPeerManager reg_chain 2) wallet1 my_user secret1 (replicate 32 Byte.x01) 0 0.
Definition reg_client : EmbeddedClient := mkEmbedded (NewPeerManager reg_chain 2) false wallet1 false (str "regtest") false.
Definition update_req : Request := request "name_update" [JStr the_name; JStr (str "[]")].
Definition now_ctx : context := mkContext false [].

(** The name is live, the wallet has its key and another output of its address. *)
Lemma registered_ready :
  (Address <$> ndb_names registered_db !! the_name) = Some my_address /\ HasKey my_address (wallet wallet1) = true /\
  (GetUTXOsForAddress my_address registered_db).1 = Ok [item_utxo NamecoinRegTestParams 100 (TxHash register_tx, 1%nat, mkTxOut 400000000 (p2pkh key_hash))].
Proof. split_and!; vm_compute; reflexivity. Qed.


(** A wait for two confirmations, during which a block comes. *)
Definition next_chain : @BlockChain RefBolt ToyBtcd := mkBlockChain registered_db (newLRUCache 10 10) [mkMsgBlock a_header []; srv_block].
Definition wait_ctx : context := mkContext false [Tick (NewPeerManager reg_chain 2); Tick (NewPeerManager next_chain 2); CtxDone].


Lemma ListNames_pages_witness :
  exists rs pages, listing (s_names registered_state) rs /\ length pages = length rs /\
    concat pages = (fun r => convertToClientRecord r 0) <$> filter (selects (mkListFilter [] [] [] true 100 0) 0) rs.
Proof.
  destruct (grown_view _ _ _ registered_grown) as [V _].
  assert (1 <= 1 <= 10000) as Hl by lia.
  destruct (ListNames_pages now_ctx (mkListFilter [] [] [] true 100 0) reg_client registered_state 1 (conj eq_refl eq_refl) V Hl)
    as (rs & H1 & H2).
  destruct (H2 (length rs)) as (pages & H3 & H4 & _); [|exists rs, pages; split; [exact H1|split; [exact H3|exact H4]]].
  rewrite length_fmap. pose proof (length_filter (selects (mkListFilter [] [] [] true 100 0) (ec_best reg_client)) rs). lia.
Defined.
