(* ===== verification/RefText.v ===== *)
(** * A concrete text of values

    Instances of [JsonText] and [RequestText] with their laws, for the witnesses: a value
    is written as the digits of its number in an enumeration, and ended by a full stop. *)

From Stdlib Require Import Floats.SpecFloat.
From stdpp Require Import countable strings.
From S2P Require Import Prelude Float Strings Json Rpc RpcServer Daemon DaemonSpec.

Definition float_code (x : float64) : bool * bool + option (bool * positive * Z) :=
  match x with
  | S754_zero s => inl (false, s)
  | S754_infinity s => inl (true, s)
  | S754_nan => inr None
  | S754_finite s m e => inr (Some (s, m, e))
  end.
Definition float_uncode (c : bool * bool + option (bool * positive * Z)) : float64 :=
  match c with
  | inl (false, s) => S754_zero s
  | inl (true, s) => S754_infinity s
  | inr None => S754_nan
  | inr (Some (s, m, e)) => S754_finite s m e
  end.
#[export] Program Instance float_countable : Countable float64 := inj_countable' float_code float_uncode _.
Next Obligation. by intros []. Qed.

(** ** Values as trees *)

Definition leaf : Type := option bool + Z + float64 + bytes + string.

Fixpoint to_tree (v : value) : gen_tree leaf :=
  match v with
  | VNil => GenLeaf (inl (inl (inl (inl None))))
  | VBool b => GenLeaf (inl (inl (inl (inl (Some b)))))
  | VInt z => GenLeaf (inl (inl (inl (inr z))))
  | VFloat x => GenLeaf (inl (inl (inr x)))
  | VStr s => GenLeaf (inl (inr s))
  | VList l => GenNode 0 (to_tree <$> l)
  | VMap l => GenNode 1 ((fun kv => GenNode 2 [GenLeaf (inr kv.1); to_tree kv.2]) <$> l)
  end.

Fixpoint of_tree (t : gen_tree leaf) : value :=
  match t with
  | GenLeaf (inl (inl (inl (inl None)))) => VNil
  | GenLeaf (inl (inl (inl (inl (Some b))))) => VBool b
  | GenLeaf (inl (inl (inl (inr z)))) => VInt z
  | GenLeaf (inl (inl (inr x))) => VFloat x
  | GenLeaf (inl (inr s)) => VStr s
  | GenNode 0 l => VList (of_tree <$> l)
  | GenNode _ l =>
      VMap ((fun t => match t with GenNode _ [GenLeaf (inr k); v] => (k, of_tree v) | _ => (EmptyString, VNil) end) <$> l)
  | GenLeaf (inr _) => VNil
  end.

Lemma of_to_tree : forall v, of_tree (to_tree v) = v.
Proof.
  fix IH 1. intros [|b|z|x|s|l|l]; try reflexivity.
  - simpl. f_equal. induction l as [|v l IHl]; [reflexivity|]. simpl. rewrite IH. f_equal. exact IHl.
  - simpl. f_equal. induction l as [|[k v] l IHl]; [reflexivity|]. simpl. rewrite IH. f_equal. exact IHl.
Qed.

(** ** Numbers as text *)

Fixpoint digits (p : positive) : bytes :=
  match p with
  | xH => [Byte.x2e]
  | xO p => Byte.x30 :: digits p
  | xI p => Byte.x31 :: digits p
  end.

Fixpoint undigits (s : bytes) : option positive :=
  match s with
  | [] => None
  | b :: s =>
      if decide (b = Byte.x2e) then Some xH
      else if decide (b = Byte.x30) then xO <$> undigits s
      else if decide (b = Byte.x31) then xI <$> undigits s
      else None
  end.

Lemma undigits_digits p rest : undigits (digits p ++ rest) = Some p.
Proof. induction p as [p IH|p IH|]; simpl; [rewrite IH..|]; done. Qed.

Definition text_of (v : value) : bytes := digits (encode (to_tree v)).
Definition read_text (s : bytes) : option value := p ← undigits s; of_tree <$> decode p.

Lemma read_text_of v rest : read_text (text_of v ++ rest) = Some v.
Proof.
  unfold read_text, text_of. rewrite undigits_digits. simpl. rewrite decode_encode. simpl. by rewrite of_to_tree.
Qed.

(** ** The instances *)

#[export] Instance RefJsonText : JsonText := {|
  json_Marshal := text_of;
  json_Unmarshal s := match read_text s with Some v => inl (reread v) | None => inr (str "syntax error") end;
  json_Decode s e := match read_text s with Some v => inl (reread v) | None => inr (default (str "EOF") e) end;
|}.

#[export] Instance RefJsonTextLaws : JsonTextLaws RefJsonText.
Proof.
  split; [intros v rest _|intros v _]; simpl; [by rewrite read_text_of|].
  rewrite <-(app_nil_r (text_of v)). by rewrite read_text_of.
Qed.

(** The members of a request, looked up by their names. *)
Definition RefRequestText : RequestText := fun body =>
  match json_Decode body None with
  | inl (VMap l) =>
      (mkRequest (default [] (member_string "method" l)) (json_of <$> last (members "params" l))
         (from_option json_of JNull (last (members "id" l))), None)
  | _ => (mkRequest [] None JNull, Some (EMsg "invalid request"))
  end.

#[export] Instance RefRequestLaws : RequestLaws RefJsonText RefRequestText.
Proof.
  intros m params Ha _. unfold RefRequestText, marshalRPCRequest, Decode. simpl. rewrite <-(app_nil_r (text_of _)), read_text_of.
  cbn [reread fmap list_fmap fst snd]. unfold member_string, member. eval_members. simpl. by rewrite valid_ascii.
Qed.
