(* ===== verification/DaemonProps.v ===== *)
(** * Properties: the daemon client

    The theorems about client/daemon.go and client/client.go. *)

From Stdlib Require Import Floats.SpecFloat.
From S2P Require Import Prelude Clock Float Strings Base64 Json Bolt Lru Record NameDB NamesSpec Utxo UtxoSpec.
From S2P Require Import Config Script ScriptSpec Wire AuxPow Genesis Chain ChainUpdate UpdateSpec Grown.
From S2P Require Import Mempool MempoolSpec Network Node Encryption Wallet WalletTx RateLimit.
From S2P Require Import Rpc RpcNames RpcWallet RpcChain RpcServer RpcSpec Client Daemon DaemonSpec ClientSpec.
From S2P Require Import Ref NetProps WalletProps RpcProps ClientProps RefText.

Section props.
Context {B : Bolt} {LB : BoltLaws B} {CB : BoltCommits B}.
Context {W : Wire} {G : BtcLib} {R : MapRange} {D : Btcd} {Q : BtcdQueries} {BB : BtcdBlocks} {N : NetParams} {P : PeerLib}.
Context {K : Crypto} {L : KeyLib} {F : Disk} {J : WalletJson} {S : TxScript} {X : RpcLib}.
Context {RT : RequestText} {JT : JsonText} {JL : JsonTextLaws JT} {RL : RequestLaws JT RT}.



(** *** Genesis blocks *)

Context {WF : WireFormat W}.

Definition genesis_hash (p : NetworkParams) : bytes := BlockHash (mb_Header (np_GenesisBlock p)).

(** C17: whether the constants of the three networks are those of their genesis blocks.  The coinbase is that of Bitcoin,
    and the block of testnet is the one of Bitcoin's testnet: its hash, Merkle root and work are right.  The block of
    mainnet has neither the hash that the parameters and the first checkpoint name nor a Merkle root that is the hash
    of its transaction, and not the work of its target; with Namecoin's root its header has the hash.  The block of
    regtest has the hash that is named only with the nonce 2 instead of 0. *)
Theorem genesis_blocks :
  let root b := MerkleRoot (mb_Header b) in
  let worked b := HashToBig (BlockHash (mb_Header b)) <=? CompactToBig (Bits (mb_Header b)) in
  (genesis_hash TestNetParams = testNetGenesisHash /\ root testNetGenesisBlock = TxHash genesisCoinbaseTx /\
   worked testNetGenesisBlock = true) /\
  (genesis_hash MainNetParams <> MainNetGenesisHash /\ root genesisBlock <> TxHash genesisCoinbaseTx /\
   worked genesisBlock = false /\
   BlockHash (mkHeader 1 no_hash namecoin_root genesisTimestamp 0x1c007fff 0xa21ea192) = MainNetGenesisHash) /\
  (genesis_hash RegTestParams <> regTestGenesisHash /\ root regTestGenesisBlock = TxHash genesisCoinbaseTx /\
   worked regTestGenesisBlock = true /\
   BlockHash (mkHeader 1 no_hash regTestGenesisMerkleRoot regTestGenesisTimestamp 0x207fffff 2) = regTestGenesisHash).
Proof using WF.
  unfold genesis_hash. cbv zeta. rewrite !wf_BlockHash, !wf_HashToBig, wf_TxHash, !wf_CompactToBig by done.
  split_and!; first [intros E; vm_compute in E; discriminate E|vm_compute; reflexivity].
Qed.

Lemma GetBlockHash_served render line env remote dc (s : Server) h :
  sends dc -> blockchain_nil s = false -> lets_through env remote (rpc_call dc "getblockhash" (VList [VInt 0])) s ->
  q_BlockHashByHeight (btcd (srv_chain s)) 0 = Ok h -> valid_string (Hash_String h) = Hash_String h ->
  (GetBlockHash (TT := ServerTransport render line env remote) 0 dc s).1 = Got (Hash_String h).
Proof using All.
  intros Hdc Hs Hl Hh Hv. destruct (admitted_limiter _ _ _ _ Hl) as [[l El] _].
  assert (rpcCall (TT := ServerTransport render line env remote) "getblockhash" (VList [VInt 0]) dc s =
    (replied render (successResponse (JNum (Some (of_int 1))) (VStr (Hash_String h))), set_limiter l s)) as Hcall.
  { apply rpcCall_served; try done.
    rewrite El. unfold processRequest. simpl.
    unfold getBlockHash, requireBlockchain, gets, parseInterfaceParams, nth_param, mbind, Handler_bind. simpl.
    rewrite Hs. simpl. change (srv_chain (set_limiter l s)) with (srv_chain s). rewrite Hh. reflexivity. }
  unfold GetBlockHash, dwrap, mbind, DM_bind. rewrite Hcall. simpl. by rewrite Hv.
Qed.

(** C18: an nmcd daemon is never taken for one of mainnet or testnet.  A client that a daemon answers with the hash of
    the first block of any of the three networks of this program finds "regtest": in automatic mode, a client that is
    configured for mainnet (the default) or testnet fails with a network mismatch instead of using the daemon. *)
Theorem network_not_recognised render line env remote dc (s : Server) cfg p :
  (forall h, Hash_String h = hex_EncodeToString (rev h)) ->
  p ∈ [MainNetParams; TestNetParams; RegTestParams] ->
  sends dc -> blockchain_nil s = false -> lets_through env remote (rpc_call dc "getblockhash" (VList [VInt 0])) s ->
  q_BlockHashByHeight (btcd (srv_chain s)) 0 = Ok (genesis_hash p) ->
  (DetectNetwork (TT := ServerTransport render line env remote) dc s).1 = Got (str "regtest") /\
  (validateDaemonNetwork (TT := ServerTransport render line env remote) cfg dc s).1 =
    if bool_decide (cc_Network cfg = str "regtest") then Got true
    else Failed (Sentinel (EMsg "network mismatch: daemon is running on %s but client configured for %s (ensure cfg.Network matches daemon's network or use explicit mode)")).
Proof using All.
  intros HS Hp Hdc Hs Hl Hh. unfold genesis_hash in Hh. rewrite wf_BlockHash in Hh.
  assert (exists h, q_BlockHashByHeight (btcd (srv_chain s)) 0 = Ok h /\ valid_string (hex_EncodeToString (rev h)) = hex_EncodeToString (rev h) /\
    hex_EncodeToString (rev h) <> str "000000000062b72c5e2ceb45fbc8c80c7b157c0da7e635483dfba2a9f0a9c770" /\
    hex_EncodeToString (rev h) <> str "00000007199508e34a9ff81e6ec0c477a4cccff2a4767a8eee39c11db367b008") as (h & Eh & Hv & Hm & Ht).
  { eexists. split; [exact Hh|]. rewrite !elem_of_cons in Hp. destruct Hp as [->|[->|[->|[]%not_elem_of_nil]]];
      (split; [vm_compute; reflexivity|split; intros E; vm_compute in E; discriminate E]). }
  assert ((DetectNetwork (TT := ServerTransport render line env remote) dc s).1 = Got (str "regtest")) as Hd.
  { pose proof (GetBlockHash_served render line env remote dc s h Hdc Hs Hl Eh) as Hg. rewrite HS in Hg. specialize (Hg Hv).
    unfold DetectNetwork, dwrap, mbind, DM_bind. destruct (GetBlockHash 0 dc s) as [r s']. cbn in Hg. subst r. cbn -[bool_decide].
    by rewrite !bool_decide_false by done. }
  split; [exact Hd|]. unfold validateDaemonNetwork, dtry, mbind, DM_bind. destruct (DetectNetwork dc s) as [r s']. cbn in Hd. subst r.
  cbn -[bool_decide str]. destruct (decide (cc_Network cfg = str "regtest")) as [E|E].
  - rewrite E, (bool_decide_true (str "regtest" = str "regtest")) by done. done.
  - rewrite (bool_decide_false (cc_Network cfg = str "regtest")), bool_decide_true by (try done; by case_bool_decide). done.
Qed.

End props.

(** ** Concrete inputs *)

(** The server of ClientProps.v behind HTTP, and the embedded client of its node. *)
Definition my_daemon : DaemonClient := mkDaemon default_addr (Some (my_user, secret1)) defaultRetryConfig false.
Definition my_remote : bytes := str "127.0.0.1:5000".
Definition my_lines (status : Z) : bytes := str "status".

Abbreviation MyTransport := (ServerTransport (RT := RefRequestText) str my_lines my_env my_remote).


(** A daemon that is started while the client tries. *)
#[export] Instance Canned : Transport (list (HttpReply + bytes)) := {|
  NewRequest_error _ := None;
  Do _ l := match l with r :: l => (r, l) | [] => (inr (str "connection refused"), []) end;
  CtxDone _ := false;
  SelectAfter _ l := (false, l);
  SelectTick l := (false, l);
|}.

Definition ok_reply : HttpReply :=
  mkReply 200 (str "200 OK") (json_Marshal (VMap [("jsonrpc", VStr (str "2.0")); ("result", VInt 7); ("id", VInt 1)]%string)) None.
Definition canned : list (HttpReply + bytes) * list event :=
  ([inr (str "dial tcp: connection refused"); inr (str "EOF"); inl ok_reply], []).


(** A node whose chain is the genesis block of mainnet, with the hashes of the protocol. *)
Lemma genesis_blocks_witness : genesis_hash (W := BitcoinWire) MainNetParams <> MainNetGenesisHash.
Proof. apply (genesis_blocks (WF := BitcoinWireFormat)). Defined.

Definition BitcoinQueries : @BtcdQueries ToyBtcd := {|
  q_BestHash c := zero_hash;
  q_BestBits c := 0x1d00ffff;
  q_LatestBlockLocator c := Ok [];
  q_BlockByHash c h := Err (EMsg "block not found");
  q_BlockHashByHeight c h :=
    option_res (EMsg "no block at height") ((fun b => @BlockHash BitcoinWire (mb_Header b)) <$> reverse c !! Z.to_nat h);
  q_LocateHeaders c loc stop := [];
  q_LocateBlocks c loc stop n := [];
|}.

Definition BitcoinRpc : RpcLib := {|
  DecodeAddress a p := hex_DecodeString a;
  Hash_String h := hex_EncodeToString (rev h);
  NewHashFromStr s := h ← hex_DecodeString s; mret (rev h);
  block_Bytes b := Ok [];
  HMAC_SHA256 k m := Sha256.Sum256 (k ++ m);
|}.

Definition new_chain : @BlockChain RefBolt ToyBtcd := mkBlockChain my_db (newLRUCache 10 10) [genesisBlock].
Definition new_server : Server :=
  NewServer false false false (NewPeerManager new_chain 2) my_world my_user secret1 (replicate 32 Byte.x01) 0 0.

Lemma network_not_recognised_witness :
  let T := ServerTransport (W := BitcoinWire) (Q := BitcoinQueries) (X := BitcoinRpc) (RT := RefRequestText)
    str my_lines my_env my_remote in
  (DetectNetwork (TT := T) my_daemon new_server).1 = Got (str "regtest").
Proof.
  intros T. apply (network_not_recognised (WF := BitcoinWireFormat) str my_lines my_env my_remote my_daemon new_server
    (mkClientConfig ModeAuto [] [] [] [] [] 0 [] false) MainNetParams).
  - done.
  - left.
  - by split.
  - done.
  - vm_compute. reflexivity.
  - vm_compute. reflexivity.
Defined.
