(* ===== verification/MailProps.v ===== *)
(** * Properties: mail

    The theorems about mail/ and bridge/. *)

From S2P Require Import Prelude Clock Strings Base64 Json Client Settings Mail Smtp SmtpSpec Daemon Permamail RefText.

Section props.
Context {U : UnicodeTables} {UP : Upstream}.

Lemma new_inv config route_env received ending writes r : panics ending = false ->
  sess_inv config route_env r (newSession received ending writes r).
Proof using.
  intros He. split; simpl; [by left|constructor|constructor|done|]. intros name e E. left. by exists e.
Qed.

(** C37: a session ends whatever the client sends, the upstream server answers and the
    connection takes: its two loops are those of the Go code, which have no fuel, and it
    never panics, so no slice of a command is out of bounds. *)
Theorem session_ends config route_env received ending writes r :
  panics ending = false ->
  (forall e s', handle config route_env (newSession received ending writes r) = (Err e, s') -> panics e = false) /\
  (forall s, processCommands config route_env s = process_turn config route_env (processCommands config route_env) s) /\
  (forall s, readDataBody config s = body_turn config (readBody config) [] false s) /\
  (forall body e s, readBody config body e s = body_turn config (readBody config) body e s).
Proof using.
  intros He. split_and!.
  - intros e s' E. pose proof (sound_handle config route_env r _ (new_inv config route_env received ending writes r He)) as H.
    unfold wp in H. rewrite E in H. apply H.
  - apply process_turn_eq.
  - intros s. apply readBody_turn.
  - apply readBody_turn.
Qed.

(** C38: whatever happens in a session, what it asks of the upstream server is a sequence
    of deliveries: each of a message of at most the maximal size, from an accepted sender,
    for an accepted .bit recipient, to an address that the resolver gave for the name of
    that recipient; each is the plan of the configured mode up to the first call that
    fails, and a closing.  Over a connection in the clear the relay never authenticates,
    and when it should authenticate it sends nothing. *)
Theorem relay_sends config route_env received ending writes r :
  panics ending = false ->
  let s' := (handle config route_env (newSession received ending writes r)).2 in
  deliveries config route_env r (upstream s') /\
  ((Auth ∈ upstream s') -> UpstreamAuth config = true /\ resolveUpstreamTLSMode config ∈ [TLSModeSTARTTLS; TLSModeImplicit]) /\
  (forall body, (WriteBody body ∈ upstream s') ->
     resolveUpstreamTLSMode config ∈ [TLSModeSTARTTLS; TLSModeImplicit] \/
     resolveUpstreamTLSMode config = TLSModeDisabled /\ UpstreamAuth config = false).
Proof using.
  intros He s'. assert (deliveries config route_env r (upstream s')) as Hd.
  { pose proof (sound_handle config route_env r _ (new_inv config route_env received ending writes r He)) as H.
    unfold wp in H. subst s'. destruct (handle _ _ _) as [[[]|e] s']; apply (si_calls _ _ _ _ (proj1 H)). }
  split; [done|]. split; [intros Ha; by eapply deliveries_auth|intros body Hw; by eapply deliveries_write].
Qed.

(** C39: the body of a message is exactly the bytes of its lines, up to a line that is a
    full stop, which is not part of it, and the commands go on behind; a message that is
    longer than the limit is refused, however it is cut into lines, and the commands go on
    behind it too.  A client that disconnects before the full stop has the whole lines it
    sent delivered; the dot that stuffs a line is kept. *)
Theorem body_exact config lines dot rest (s : smtpSession) :
  0 <= MaxMessageSize config -> Forall text_line lines ->
  let result := if MaxMessageSize config <? Z.of_nat (length (concat lines)) then Err ErrSize else Ok (concat lines) in
  ((dot ∈ [str "." ++ [LF]; str "." ++ CRLF]) -> input s = concat lines ++ dot ++ rest ->
     readDataBody config s = (result, set_input rest s)) /\
  ((LF ∉ rest) -> input s = concat lines ++ rest -> is_EOF (input_end s) = true ->
     readDataBody config s = (result, set_input [] s)).
Proof using.
  intros Hm Hl result.
  assert (forall tail, input s = concat lines ++ tail -> exists body,
    readDataBody config s = readBody config body (MaxMessageSize config <? Z.of_nat (length (concat lines))) (set_input tail s) /\
    ((MaxMessageSize config <? Z.of_nat (length (concat lines))) = false -> body = concat lines)) as Hr.
  { intros tail E. destruct (readBody_lines config lines tail Hl [] false s E) as (body & E1 & E2).
    - intros _. unfold too_long. apply Z.ltb_ge. simpl. lia.
    - exists body. split; [exact E1|exact E2]. }
  assert (forall body i, ((MaxMessageSize config <? Z.of_nat (length (concat lines))) = false -> body = concat lines) ->
    bodyResult body (MaxMessageSize config <? Z.of_nat (length (concat lines))) (set_input i s) = (result, set_input i s)) as Hb.
  { intros body i H. unfold bodyResult, result. destruct (MaxMessageSize config <? _); [done|]. by rewrite H. }
  split.
  - intros Hd E. destruct (Hr (dot ++ rest) E) as (body & -> & E2).
    assert (exists x, dot = x ++ [LF] /\ (LF ∉ x) /\ isDataTerminator (x ++ [LF]) = true) as (x & -> & Hx & Ht).
    { apply elem_of_cons in Hd as [->|Hd%list_elem_of_singleton].
      - exists (str "."). split_and!; [done|by apply (bool_decide_unpack _)|by vm_compute].
      - subst dot. exists (str "." ++ [Byte.x0d]). split_and!; [done|by apply (bool_decide_unpack _)|by vm_compute]. }
    rewrite (readBody_end config body _ x rest) by done. rewrite set_input_twice. by apply Hb.
  - intros Hn E He. destruct (Hr rest E) as (body & -> & E2). rewrite readBody_cut by done. simpl. rewrite He, set_input_twice.
    by apply Hb.
Qed.

(** C40: after any history of answers that calls have stored, in whatever order, an
    address is routed exactly when it is name@domain.bit with non-empty parts and one @:
    to the target stored last for the name while that is not older than the time to live,
    without asking the resolver, and to the resolver's answer otherwise, which is then
    stored; an error stores nothing. *)
Theorem route_exact d h e addr :
  (forall name, parseBitAddress addr = Ok name <-> exists domain, bit_address addr name domain) /\
  Route e addr (after d h) =
    match parseBitAddress addr with
    | Err err => (Err (EWrap "invalid address" err), after d h)
    | Ok name => ((routed_to d h e name).1, after d (routed_to d h e name).2)
    end /\
  (forall name x, fresh d h (asked_at e) name = Some x <->
     d <> 0 /\ exists y, last_store h name = Some y /\ st_rule y = x /\ asked_at e <= st_time y + d).
Proof using.
  split; [apply parseBitAddress_iff|]. split; [apply Route_spec|]. intros name x. unfold fresh.
  destruct (Z.eqb_spec d 0); [by split; [|intros []]|]. destruct (last_store h name) as [y|]; simpl.
  - rewrite Z.gtb_ltb. destruct (Z.ltb_spec (st_time y + d) (asked_at e)).
    + split; [done|]. intros (_ & y' & [= <-] & _ & ?). lia.
    + split; [intros [= <-]; eauto|]. by intros (_ & y' & [= <-] & -> & _).
  - split; [done|]. by intros (_ & y & ? & _).
Qed.

(** What a client publishes as the value of a name, the bridge reads back: a
    configuration whose addresses are valid UTF-8, the first not empty; and it answers
    with the error of the client when the client has one. *)
Theorem bridge_reads {JT : JsonText} {JL : JsonTextLaws JT} (ResolveName : bytes -> res cNameRecord) name c :
  clean_config c ->
  match ResolveName name with
  | Ok r => cr_Value r = json_Marshal (mail_value c) -> bridge_LookupMail ResolveName name = Ok c
  | Err e => bridge_LookupMail ResolveName name = Err e
  end.
Proof using.
  intros Hc. unfold bridge_LookupMail. destruct (ResolveName name) as [r|e]; simpl; [|done].
  intros ->. by rewrite parseMailConfig_value.
Qed.

End props.

Section permamail.
Context {OS : ClientOS} {JT : JsonText} {JL : JsonTextLaws JT}.

(** Permamail refuses the command line its usage text gives, a name and then the flags:
    parsing stops at the name, so --forward is never seen.  With the flags before the name,
    both commands print the name and a value that the mail bridge reads back as the
    addresses given. *)
Theorem permamail_flags_first name rest email backup :
  plain name ->
  register (name :: rest) = Err (EMsg "--forward flag required") /\
  update (name :: rest) = Err (EMsg "--forward flag required") /\
  (email <> [] -> Forall (fun s => valid_string s = s) (email :: parseBackupAddresses backup) ->
   exists v, parseMailConfig v = Ok (mkMailConfig email (parseBackupAddresses backup) []) /\
     register (str "--forward" :: email :: str "--backup" :: backup :: name :: rest) = Ok (name, v) /\
     update (str "--forward" :: email :: str "--backup" :: backup :: name :: rest) = Ok (name, v)).
Proof using All.
  intros Hn.
  assert (parseNameCommand (name :: rest) = Err (EMsg "--forward flag required")) as He.
  { unfold parseNameCommand. by rewrite flag_Parse_plain. }
  unfold register, update. rewrite He. split_and!; [done..|].
  intros Hne [Hv Hb]%Forall_cons. exists (json_Marshal (mail_map email (parseBackupAddresses backup))).
  destruct (parseMailConfig_map email (parseBackupAddresses backup) Hne Hv Hb) as [Hm Hp]. split; [exact Hp|].
  assert (exists c, parseNameCommand (str "--forward" :: email :: str "--backup" :: backup :: name :: rest) =
    Ok (c, mkNameCommand name (json_Marshal (mail_map email (parseBackupAddresses backup))))) as [c ->]; [|done].
  eexists. unfold parseNameCommand. rewrite parse_forward, parse_backup, flag_Parse_plain by done.
  cbn [mbind res_bind forwardTo backups set_backups set_forwardTo]. rewrite bool_decide_false by done.
  unfold createClient, NewDaemonClient. cbn [global_defaults no_cli set_backups set_forwardTo rpcAddr rpcUser rpcPassword dataDir network].
  cbn -[json_Marshal mail_map marshalable]. rewrite Hm. reflexivity.
Qed.

End permamail.

(** ** Concrete inputs *)

#[export] Instance AsciiTables : UnicodeTables := {|
  unicode_ToUpper r := if (97 <=? r) && (r <=? 122) then r - 32 else r;
  unicode_ToLower r := if (65 <=? r) && (r <=? 90) then r + 32 else r;
|}.

(** An upstream server that takes everything. *)
#[export] Instance QuietUpstream : Upstream := fun _ => None.

Definition my_relay : RelayConfig :=
  mkRelayConfig (str ":2525") (str "smtp.example.com") 587 TLSModeDefault true 0 0 1000 0.
Definition alice : MailConfig := mkMailConfig (str "alice@example.com") [str "al@example.org"] (str "key").
Definition my_routes (n : nat) : RouteEnv :=
  mkRouteEnv 0 0 (fun name => if bool_decide (name = str "alice") then Ok alice else Err ErrNotFound).

Definition line (s : string) : bytes := str s ++ CRLF.
Definition my_lines : list bytes := [line "Subject: hello"; line ""; line "..stuffed"].
Definition my_input : bytes :=
  line "EHLO client" ++ line "MAIL FROM:<bob@example.net>" ++ line "RCPT TO:<Alice@mail.bit>" ++ line "DATA" ++
  concat my_lines ++ line "." ++ line "QUIT".
Definition my_session : smtpSession := newSession my_input io_EOF None (NewRouter 0).

Lemma session_ends_witness :
  output (handle my_relay my_routes my_session).2 =
    (str <$> ["220 nmcd SMTP Relay Service Ready"; "250-nmcd.local"; "250 SIZE 1000"; "250 OK"; "250 OK";
              "354 Start mail input; end with <CRLF>.<CRLF>"; "250 OK: Message accepted for delivery"; "221 Goodbye"]%string) /\
  (forall e s', handle my_relay my_routes my_session = (Err e, s') -> panics e = false).
Proof.
  split; [vm_compute; reflexivity|]. exact (proj1 (session_ends my_relay my_routes my_input io_EOF None (NewRouter 0) eq_refl)).
Defined.

Lemma relay_sends_witness :
  upstream (handle my_relay my_routes my_session).2 =
    [DialTCP (str "smtp.example.com:587"); Greeting; StartTLS (str "smtp.example.com"); Auth; Mail (str "bob@example.net");
     Rcpt (str "alice@example.com"); DataCmd; WriteBody (concat my_lines); CloseBody; Quit; CloseClient] /\
  deliveries my_relay my_routes (NewRouter 0) (upstream (handle my_relay my_routes my_session).2).
Proof.
  split; [vm_compute; reflexivity|]. exact (proj1 (relay_sends my_relay my_routes my_input io_EOF None (NewRouter 0) eq_refl)).
Defined.

(** The client disconnects in the middle of a line: the lines before it are the body. *)
Definition cut_session : smtpSession := newSession (concat my_lines ++ str "cut of") io_EOF None (NewRouter 0).

Lemma body_exact_witness :
  readDataBody my_relay cut_session = (Ok (concat my_lines), set_input [] cut_session).
Proof.
  assert (Forall text_line my_lines) as Hl.
  { repeat (apply Forall_cons; split); [| | |constructor]; (split; [|vm_compute; reflexivity]).
    - exists (str "Subject: hello" ++ [Byte.x0d]). split; [by apply (bool_decide_unpack _)|reflexivity].
    - exists [Byte.x0d]. split; [by apply (bool_decide_unpack _)|reflexivity].
    - exists (str "..stuffed" ++ [Byte.x0d]). split; [by apply (bool_decide_unpack _)|reflexivity]. }
  assert (LF ∉ str "cut of") as Hc by (by apply (bool_decide_unpack _)).
  assert (0 <= MaxMessageSize my_relay) as Hm by (vm_compute; discriminate).
  exact (proj2 (body_exact my_relay my_lines [] (str "cut of") cut_session Hm Hl) Hc eq_refl eq_refl).
Defined.

Definition alice_name (name : bytes) : res cNameRecord :=
  Ok (mkCRecord name (json_Marshal (mail_value alice)) [] 0 0 0 [] 0).

Lemma bridge_reads_witness : bridge_LookupMail alice_name (str "alice") = Ok alice.
Proof.
  assert (clean_config alice) as Hc.
  { split; [discriminate|]. split; [vm_compute; reflexivity|]. apply Forall_cons; split; [vm_compute; reflexivity|constructor]. }
  exact (bridge_reads alice_name (str "alice") alice Hc eq_refl).
Defined.

Definition no_host : ClientOS :=
  {| UserHomeDir := Err (EMsg "no home"); os_MkdirAll := fun _ => Ok tt; LookupHost := fun _ => Ok [] |}.

Lemma permamail_flags_first_witness :
  let OS := no_host in
  plain (str "alice") /\
  register [str "alice"; str "--forward"; str "a@example.com"] = Err (EMsg "--forward flag required") /\
  exists v, parseMailConfig v = Ok (mkMailConfig (str "a@example.com") [str "b@example.com"] []) /\
    register [str "--forward"; str "a@example.com"; str "--backup"; str " b@example.com,"; str "alice"] = Ok (str "alice", v).
Proof.
  intros OS. assert (plain (str "alice")) as Hp by (right; reflexivity). split; [exact Hp|].
  destruct (permamail_flags_first (str "alice") [str "--forward"; str "a@example.com"] [] [] Hp) as (He & _ & _).
  split; [exact He|].
  destruct (permamail_flags_first (str "alice") [] (str "a@example.com") (str " b@example.com,") Hp) as (_ & _ & Hv).
  destruct Hv as (v & Hc & Hr & _); [discriminate|repeat constructor|]. exists v. split; [exact Hc|exact Hr].
Defined.
