(* ===== verification/Metrics.v ===== *)
(** * Metrics

    metrics/metrics.go: counters of the process behind one mutex, and metrics/prometheus.go:
    their names and values for a scrape.  The struct's fields are grouped as its comments
    group them.  Counters are uint64, durations int64 numbers of nanoseconds. *)

From S2P Require Import Prelude Clock Float.
From Stdlib Require Import Floats.SpecFloat.

(** ** The counters *)

Record BlockMetrics := mkBlockMetrics {
  BlocksProcessed : Z;  (* uint64 *)
  BlocksAccepted : Z; BlocksOrphaned : Z; BlocksRejected : Z;
  LastBlockTime : option Z;  (* None: the zero time *)
  LastBlockHash : bytes; LastBlockHeight : Z; BlockProcessingErrors : Z
}.

Record NameMetrics := mkNameMetrics {
  NameOperationsTotal : Z; NameNewOps : Z; NameFirstUpdateOps : Z; NameUpdateOps : Z; NamesExpired : Z;
  NameErrors : Z
}.

Record ReorgMetrics := mkReorgMetrics {
  Reorgs : Z; LastReorg : option Z; ReorgBlocks : Z
}.

Record PeerMetrics := mkPeerMetrics {
  PeersConnected : Z;  (* uint32 *)
  PeersMax : Z; InboundPeers : Z; OutboundPeers : Z;
  PeerDisconnects : Z;  (* uint64 *)
  LastPeerConnected : option Z
}.

Record TxMetrics := mkTxMetrics {
  TxsProcessed : Z; TxsInMempool : Z
}.

Record ValidationMetrics := mkValidationMetrics {
  ValidationErrors : Z; SubsidyErrors : Z; ProofOfWorkErrors : Z; AuxPoWErrors : Z; VersionErrors : Z;
  DustLimitErrors : Z; TimingWindowErrors : Z; NameTheftAttempts : Z; DoubleSpendAttempts : Z
}.

Record PerfMetrics := mkPerfMetrics {
  StartTime : Z;
  AvgBlockProcessTime : Z;  (* int64 *)
  totalBlockTime : Z
}.

Record DBMetrics := mkDBMetrics {
  NameDBSizeBytes : Z; NameDBReadLatency : Z; NameDBWriteLatency : Z; totalDBReadTime : Z;
  totalDBWriteTime : Z; dbReadCount : Z; dbWriteCount : Z
}.

Record RPCMetrics := mkRPCMetrics {
  rpcRequests : gmap bytes Z; rpcDurations : gmap bytes Z
}.

Record ErrorMetrics := mkErrorMetrics {
  NetworkErrors : Z; DatabaseErrors : Z
}.

Record Metrics := mkMetrics {
  on_block : BlockMetrics;
  on_name : NameMetrics;
  on_reorg : ReorgMetrics;
  on_peer : PeerMetrics;
  on_tx : TxMetrics;
  on_validation : ValidationMetrics;
  on_perf : PerfMetrics;
  on_database : DBMetrics;
  on_rpc_calls : RPCMetrics;
  on_errors : ErrorMetrics
}.

Definition with_block (f : BlockMetrics -> BlockMetrics) (m : Metrics) : Metrics :=
  mkMetrics (f (on_block m)) (on_name m) (on_reorg m) (on_peer m) (on_tx m) (on_validation m) (on_perf m) (on_database m) (on_rpc_calls m) (on_errors m).
Definition with_name (f : NameMetrics -> NameMetrics) (m : Metrics) : Metrics :=
  mkMetrics (on_block m) (f (on_name m)) (on_reorg m) (on_peer m) (on_tx m) (on_validation m) (on_perf m) (on_database m) (on_rpc_calls m) (on_errors m).
Definition with_reorg (f : ReorgMetrics -> ReorgMetrics) (m : Metrics) : Metrics :=
  mkMetrics (on_block m) (on_name m) (f (on_reorg m)) (on_peer m) (on_tx m) (on_validation m) (on_perf m) (on_database m) (on_rpc_calls m) (on_errors m).
Definition with_peer (f : PeerMetrics -> PeerMetrics) (m : Metrics) : Metrics :=
  mkMetrics (on_block m) (on_name m) (on_reorg m) (f (on_peer m)) (on_tx m) (on_validation m) (on_perf m) (on_database m) (on_rpc_calls m) (on_errors m).
Definition with_tx (f : TxMetrics -> TxMetrics) (m : Metrics) : Metrics :=
  mkMetrics (on_block m) (on_name m) (on_reorg m) (on_peer m) (f (on_tx m)) (on_validation m) (on_perf m) (on_database m) (on_rpc_calls m) (on_errors m).
Definition with_validation (f : ValidationMetrics -> ValidationMetrics) (m : Metrics) : Metrics :=
  mkMetrics (on_block m) (on_name m) (on_reorg m) (on_peer m) (on_tx m) (f (on_validation m)) (on_perf m) (on_database m) (on_rpc_calls m) (on_errors m).
Definition with_perf (f : PerfMetrics -> PerfMetrics) (m : Metrics) : Metrics :=
  mkMetrics (on_block m) (on_name m) (on_reorg m) (on_peer m) (on_tx m) (on_validation m) (f (on_perf m)) (on_database m) (on_rpc_calls m) (on_errors m).
Definition with_database (f : DBMetrics -> DBMetrics) (m : Metrics) : Metrics :=
  mkMetrics (on_block m) (on_name m) (on_reorg m) (on_peer m) (on_tx m) (on_validation m) (on_perf m) (f (on_database m)) (on_rpc_calls m) (on_errors m).
Definition with_rpc_calls (f : RPCMetrics -> RPCMetrics) (m : Metrics) : Metrics :=
  mkMetrics (on_block m) (on_name m) (on_reorg m) (on_peer m) (on_tx m) (on_validation m) (on_perf m) (on_database m) (f (on_rpc_calls m)) (on_errors m).
Definition with_errors (f : ErrorMetrics -> ErrorMetrics) (m : Metrics) : Metrics :=
  mkMetrics (on_block m) (on_name m) (on_reorg m) (on_peer m) (on_tx m) (on_validation m) (on_perf m) (on_database m) (on_rpc_calls m) (f (on_errors m)).

(** ** Recording *)

Definition incr (n : Z) : Z := uint64 (n + 1).
(** [total / time.Duration(count)], for a count that is not 0. *)
Definition average (total count : Z) : Z := int64 (Z.quot total (int64 count)).

Definition new_metrics (now : Z) : Metrics :=
  mkMetrics (mkBlockMetrics 0 0 0 0 None [] 0 0) (mkNameMetrics 0 0 0 0 0 0) (mkReorgMetrics 0 None 0)
    (mkPeerMetrics 0 0 0 0 0 None) (mkTxMetrics 0 0) (mkValidationMetrics 0 0 0 0 0 0 0 0 0) (mkPerfMetrics now 0 0)
    (mkDBMetrics 0 0 0 0 0 0 0) (mkRPCMetrics ∅ ∅) (mkErrorMetrics 0 0).

(** [now] is what the call reads of the clock. *)
Definition RecordBlockProcessed (hash : bytes) (height : Z) (isMainChain isOrphan : bool) (processingTime now : Z)
    (m : Metrics) : Metrics :=
  let m := with_block (fun b => mkBlockMetrics (incr (BlocksProcessed b))
    (if isMainChain then incr (BlocksAccepted b) else BlocksAccepted b)
    (if isOrphan then incr (BlocksOrphaned b) else BlocksOrphaned b) (BlocksRejected b) (Some now) hash height
    (BlockProcessingErrors b)) m in
  with_perf (fun p =>
    let total := int64 (totalBlockTime p + processingTime) in
    mkPerfMetrics (StartTime p)
      (if BlocksProcessed (on_block m) >? 0 then average total (BlocksProcessed (on_block m)) else AvgBlockProcessTime p)
      total) m.

Definition RecordBlockRejected : Metrics -> Metrics := with_block (fun b =>
  mkBlockMetrics (BlocksProcessed b) (BlocksAccepted b) (BlocksOrphaned b) (incr (BlocksRejected b)) (LastBlockTime b)
    (LastBlockHash b) (LastBlockHeight b) (incr (BlockProcessingErrors b))).

Definition RecordNameOperation (opType : bytes) : Metrics -> Metrics := with_name (fun n =>
  let when_op t := bool_decide (opType = str t) in
  mkNameMetrics (incr (NameOperationsTotal n))
    (if when_op "NAME_NEW"%string then incr (NameNewOps n) else NameNewOps n)
    (if when_op "NAME_FIRSTUPDATE"%string then incr (NameFirstUpdateOps n) else NameFirstUpdateOps n)
    (if when_op "NAME_UPDATE"%string then incr (NameUpdateOps n) else NameUpdateOps n)
    (NamesExpired n) (NameErrors n)).

Definition RecordNameExpired : Metrics -> Metrics := with_name (fun n =>
  mkNameMetrics (NameOperationsTotal n) (NameNewOps n) (NameFirstUpdateOps n) (NameUpdateOps n) (incr (NamesExpired n))
    (NameErrors n)).

Definition add_validation_error (kind : bytes) : Metrics -> Metrics := with_validation (fun v =>
  let on (t : string) (n : Z) := if bool_decide (kind = str t) then incr n else n in
  mkValidationMetrics (incr (ValidationErrors v)) (on "subsidy"%string (SubsidyErrors v))
    (on "proof_of_work"%string (ProofOfWorkErrors v)) (on "auxpow"%string (AuxPoWErrors v)) (on "version"%string (VersionErrors v))
    (on "dust_limit"%string (DustLimitErrors v)) (on "timing_window"%string (TimingWindowErrors v))
    (on "name_theft"%string (NameTheftAttempts v)) (on "double_spend"%string (DoubleSpendAttempts v))).

Definition RecordNameError (m : Metrics) : Metrics :=
  add_validation_error [] (with_name (fun n =>
    mkNameMetrics (NameOperationsTotal n) (NameNewOps n) (NameFirstUpdateOps n) (NameUpdateOps n) (NamesExpired n)
      (incr (NameErrors n))) m).

Definition RecordReorg (blocksRolledBack now : Z) : Metrics -> Metrics := with_reorg (fun r =>
  mkReorgMetrics (incr (Reorgs r)) (Some now) (uint64 (ReorgBlocks r + blocksRolledBack))).

Definition UpdatePeerCount (total inbound outbound now : Z) : Metrics -> Metrics := with_peer (fun p =>
  mkPeerMetrics total (if total >? PeersMax p then total else PeersMax p) inbound outbound (PeerDisconnects p)
    (if total >? 0 then Some now else LastPeerConnected p)).

Definition RecordPeerDisconnect : Metrics -> Metrics := with_peer (fun p =>
  mkPeerMetrics (PeersConnected p) (PeersMax p) (InboundPeers p) (OutboundPeers p) (incr (PeerDisconnects p))
    (LastPeerConnected p)).

Definition RecordTransaction : Metrics -> Metrics := with_tx (fun t => mkTxMetrics (incr (TxsProcessed t)) (TxsInMempool t)).
Definition UpdateMempoolSize (count : Z) : Metrics -> Metrics := with_tx (fun t => mkTxMetrics (TxsProcessed t) count).

Definition RecordValidationError (errorType : bytes) : Metrics -> Metrics := add_validation_error errorType.

Definition RecordDatabaseRead (duration : Z) : Metrics -> Metrics := with_database (fun d =>
  let total := int64 (totalDBReadTime d + duration) in
  let count := incr (dbReadCount d) in
  mkDBMetrics (NameDBSizeBytes d) (if count >? 0 then average total count else NameDBReadLatency d) (NameDBWriteLatency d)
    total (totalDBWriteTime d) count (dbWriteCount d)).

Definition RecordDatabaseWrite (duration : Z) : Metrics -> Metrics := with_database (fun d =>
  let total := int64 (totalDBWriteTime d + duration) in
  let count := incr (dbWriteCount d) in
  mkDBMetrics (NameDBSizeBytes d) (NameDBReadLatency d) (if count >? 0 then average total count else NameDBWriteLatency d)
    (totalDBReadTime d) total (dbReadCount d) count).

Definition UpdateDatabaseSize (sizeBytes : Z) : Metrics -> Metrics := with_database (fun d =>
  mkDBMetrics sizeBytes (NameDBReadLatency d) (NameDBWriteLatency d) (totalDBReadTime d) (totalDBWriteTime d)
    (dbReadCount d) (dbWriteCount d)).

(** A missing key of a Go map reads as 0. *)
Definition at_key (k : bytes) (m : gmap bytes Z) : Z := default 0 (m !! k).

Definition RecordRPCRequest (method : bytes) (duration : Z) : Metrics -> Metrics := with_rpc_calls (fun r =>
  mkRPCMetrics (<[method := incr (at_key method (rpcRequests r))]> (rpcRequests r))
    (<[method := int64 (at_key method (rpcDurations r) + duration)]> (rpcDurations r))).

Definition GetRPCStats (method : bytes) (m : Metrics) : Z * Z :=
  let count := at_key method (rpcRequests (on_rpc_calls m)) in
  (count, if count >? 0 then average (at_key method (rpcDurations (on_rpc_calls m))) count else 0).

Definition RecordNetworkError : Metrics -> Metrics := with_errors (fun e => mkErrorMetrics (incr (NetworkErrors e)) (DatabaseErrors e)).
Definition RecordDatabaseError : Metrics -> Metrics := with_errors (fun e => mkErrorMetrics (NetworkErrors e) (incr (DatabaseErrors e))).

(** [Snapshot]: a copy of everything, its maps included, with the time since the start. *)
Record MetricsSnapshot := mkSnapshot { counters : Metrics; Uptime : Z }.
Definition Snapshot (now : Z) (m : Metrics) : MetricsSnapshot := mkSnapshot m (Sub now (StartTime (on_perf m))).

(** ** Prometheus *)

Record Desc := NewDesc { fqName : string; help : string; variableLabels : list string }.

#[export] Instance Desc_eq_dec : EqDecision Desc.
Proof. solve_decision. Defined.

Definition blocksProcessedDesc : Desc :=
  NewDesc "nmcd_blocks_processed_total" "Total number of blocks processed" []%string.
Definition blocksAcceptedDesc : Desc :=
  NewDesc "nmcd_blocks_accepted_total" "Total number of blocks accepted on main chain" []%string.
Definition blocksOrphanedDesc : Desc :=
  NewDesc "nmcd_blocks_orphaned_total" "Total number of orphaned blocks received" []%string.
Definition blocksRejectedDesc : Desc :=
  NewDesc "nmcd_blocks_rejected_total" "Total number of blocks rejected due to validation errors" []%string.
Definition lastBlockHeightDesc : Desc :=
  NewDesc "nmcd_last_block_height" "Height of the last processed block" []%string.
Definition blockProcessingErrorsDesc : Desc :=
  NewDesc "nmcd_block_processing_errors_total" "Total number of block processing errors" []%string.
Definition avgBlockProcessTimeDesc : Desc :=
  NewDesc "nmcd_avg_block_process_time_seconds" "Average block processing time in seconds" []%string.
Definition nameOperationsTotalDesc : Desc :=
  NewDesc "nmcd_name_operations_total" "Total number of name operations processed" []%string.
Definition nameNewDesc : Desc := NewDesc "nmcd_name_new_total" "Total number of NAME_NEW operations" []%string.
Definition nameFirstUpdateDesc : Desc :=
  NewDesc "nmcd_name_firstupdate_total" "Total number of NAME_FIRSTUPDATE operations" []%string.
Definition nameUpdateDesc : Desc :=
  NewDesc "nmcd_name_update_total" "Total number of NAME_UPDATE operations" []%string.
Definition namesExpiredDesc : Desc :=
  NewDesc "nmcd_names_expired_total" "Total number of names expired during processing" []%string.
Definition nameErrorsDesc : Desc :=
  NewDesc "nmcd_name_errors_total" "Total number of name operation validation errors" []%string.
Definition reorgsDesc : Desc := NewDesc "nmcd_reorgs_total" "Total number of blockchain reorganizations" []%string.
Definition reorgBlocksDesc : Desc :=
  NewDesc "nmcd_reorg_blocks_total" "Total number of blocks rolled back during reorganizations" []%string.
Definition peersConnectedDesc : Desc :=
  NewDesc "nmcd_peers_connected" "Number of currently connected peers" []%string.
Definition peersMaxDesc : Desc := NewDesc "nmcd_peers_max" "Maximum number of peers reached" []%string.
Definition inboundPeersDesc : Desc := NewDesc "nmcd_inbound_peers" "Number of current inbound peers" []%string.
Definition outboundPeersDesc : Desc := NewDesc "nmcd_outbound_peers" "Number of current outbound peers" []%string.
Definition peerDisconnectsDesc : Desc :=
  NewDesc "nmcd_peer_disconnects_total" "Total number of peer disconnections" []%string.
Definition txsProcessedDesc : Desc :=
  NewDesc "nmcd_txs_processed_total" "Total number of transactions processed" []%string.
Definition txsInMempoolDesc : Desc :=
  NewDesc "nmcd_txs_in_mempool" "Current number of transactions in mempool" []%string.
Definition validationErrorsDesc : Desc :=
  NewDesc "nmcd_validation_errors_total" "Total number of validation errors" []%string.
Definition subsidyErrorsDesc : Desc :=
  NewDesc "nmcd_subsidy_errors_total" "Total number of block subsidy validation errors" []%string.
Definition proofOfWorkErrorsDesc : Desc :=
  NewDesc "nmcd_proof_of_work_errors_total" "Total number of proof of work validation errors" []%string.
Definition auxpowErrorsDesc : Desc :=
  NewDesc "nmcd_auxpow_errors_total" "Total number of AuxPoW validation errors" []%string.
Definition versionErrorsDesc : Desc :=
  NewDesc "nmcd_version_errors_total" "Total number of block version validation errors" []%string.
Definition dustLimitErrorsDesc : Desc :=
  NewDesc "nmcd_dust_limit_errors_total" "Total number of dust limit validation errors" []%string.
Definition timingWindowErrorsDesc : Desc :=
  NewDesc "nmcd_timing_window_errors_total" "Total number of name timing window errors" []%string.
Definition nameTheftAttemptsDesc : Desc :=
  NewDesc "nmcd_name_theft_attempts_total" "Total number of name theft attempts detected" []%string.
Definition doubleSpendAttemptsDesc : Desc :=
  NewDesc "nmcd_double_spend_attempts_total" "Total number of double-spend attempts detected" []%string.
Definition uptimeDesc : Desc := NewDesc "nmcd_uptime_seconds" "Node uptime in seconds" []%string.
Definition namedbSizeBytesDesc : Desc :=
  NewDesc "nmcd_namedb_size_bytes" "Size of name database in bytes" []%string.
Definition namedbReadLatencyDesc : Desc :=
  NewDesc "nmcd_namedb_read_latency_seconds" "Average name database read latency in seconds" []%string.
Definition namedbWriteLatencyDesc : Desc :=
  NewDesc "nmcd_namedb_write_latency_seconds" "Average name database write latency in seconds" []%string.
Definition errorsTotalDesc : Desc :=
  NewDesc "nmcd_errors_total" "Total number of errors by category" ["type"]%string.
Definition rpcRequestsTotalDesc : Desc :=
  NewDesc "nmcd_rpc_requests_total" "Total number of RPC requests by method" ["method"]%string.
Definition rpcDurationSecondsDesc : Desc :=
  NewDesc "nmcd_rpc_duration_seconds" "Average RPC request duration in seconds by method" ["method"]%string.
Definition goGoroutinesDesc : Desc :=
  NewDesc "nmcd_go_goroutines" "Number of goroutines currently running" []%string.
Definition goMemstatAllocBytesDesc : Desc :=
  NewDesc "nmcd_go_memstats_alloc_bytes" "Number of bytes allocated and currently in use" []%string.
Definition goMemstatHeapAllocDesc : Desc :=
  NewDesc "nmcd_go_memstats_heap_alloc_bytes" "Number of heap bytes allocated and currently in use" []%string.
Definition goMemstatHeapIdleDesc : Desc :=
  NewDesc "nmcd_go_memstats_heap_idle_bytes" "Number of heap bytes waiting to be used" []%string.
Definition goMemstatHeapInuseDesc : Desc :=
  NewDesc "nmcd_go_memstats_heap_inuse_bytes" "Number of heap bytes that are in use" []%string.

Definition Describe : list Desc := [
  blocksProcessedDesc; blocksAcceptedDesc; blocksOrphanedDesc; blocksRejectedDesc; lastBlockHeightDesc;
  blockProcessingErrorsDesc; avgBlockProcessTimeDesc; nameOperationsTotalDesc; nameNewDesc;
  nameFirstUpdateDesc; nameUpdateDesc; namesExpiredDesc; nameErrorsDesc; reorgsDesc; reorgBlocksDesc;
  peersConnectedDesc; peersMaxDesc; inboundPeersDesc; outboundPeersDesc; peerDisconnectsDesc; txsProcessedDesc;
  txsInMempoolDesc; validationErrorsDesc; subsidyErrorsDesc; proofOfWorkErrorsDesc; auxpowErrorsDesc;
  versionErrorsDesc; dustLimitErrorsDesc; timingWindowErrorsDesc; nameTheftAttemptsDesc;
  doubleSpendAttemptsDesc; uptimeDesc; namedbSizeBytesDesc; namedbReadLatencyDesc; namedbWriteLatencyDesc;
  errorsTotalDesc; rpcRequestsTotalDesc; rpcDurationSecondsDesc; goGoroutinesDesc; goMemstatAllocBytesDesc;
  goMemstatHeapAllocDesc; goMemstatHeapIdleDesc; goMemstatHeapInuseDesc ].

Inductive ValueType := CounterValue | GaugeValue.
Record Metric := MustNewConstMetric { m_desc : Desc; m_type : ValueType; m_value : float64; m_labels : list bytes }.

(** The Go runtime's numbers, as [updateGoRuntimeStats] reads them for a scrape. *)
Record goRuntimeStats := mkGoStats {
  goroutines : Z; allocBytes : Z; heapAllocBytes : Z; heapIdleBytes : Z; heapInuseBytes : Z }.

Section collect.
Context {R : MapRange}.

Definition Collect (now : Z) (stats : goRuntimeStats) (m : Metrics) : list Metric :=
  let snapshot := Snapshot now m in
  let s := counters snapshot in
  let uptime := Uptime snapshot in
  [
  MustNewConstMetric blocksProcessedDesc CounterValue (of_int (BlocksProcessed (on_block s))) [];
  MustNewConstMetric blocksAcceptedDesc CounterValue (of_int (BlocksAccepted (on_block s))) [];
  MustNewConstMetric blocksOrphanedDesc CounterValue (of_int (BlocksOrphaned (on_block s))) [];
  MustNewConstMetric blocksRejectedDesc CounterValue (of_int (BlocksRejected (on_block s))) [];
  MustNewConstMetric lastBlockHeightDesc GaugeValue (of_int (LastBlockHeight (on_block s))) [];
  MustNewConstMetric blockProcessingErrorsDesc CounterValue (of_int (BlockProcessingErrors (on_block s))) [];
  MustNewConstMetric avgBlockProcessTimeDesc GaugeValue (Seconds (AvgBlockProcessTime (on_perf s))) [];
  MustNewConstMetric nameOperationsTotalDesc CounterValue (of_int (NameOperationsTotal (on_name s))) [];
  MustNewConstMetric nameNewDesc CounterValue (of_int (NameNewOps (on_name s))) [];
  MustNewConstMetric nameFirstUpdateDesc CounterValue (of_int (NameFirstUpdateOps (on_name s))) [];
  MustNewConstMetric nameUpdateDesc CounterValue (of_int (NameUpdateOps (on_name s))) [];
  MustNewConstMetric namesExpiredDesc CounterValue (of_int (NamesExpired (on_name s))) [];
  MustNewConstMetric nameErrorsDesc CounterValue (of_int (NameErrors (on_name s))) [];
  MustNewConstMetric reorgsDesc CounterValue (of_int (Reorgs (on_reorg s))) [];
  MustNewConstMetric reorgBlocksDesc CounterValue (of_int (ReorgBlocks (on_reorg s))) [];
  MustNewConstMetric peersConnectedDesc GaugeValue (of_int (PeersConnected (on_peer s))) [];
  MustNewConstMetric peersMaxDesc GaugeValue (of_int (PeersMax (on_peer s))) [];
  MustNewConstMetric inboundPeersDesc GaugeValue (of_int (InboundPeers (on_peer s))) [];
  MustNewConstMetric outboundPeersDesc GaugeValue (of_int (OutboundPeers (on_peer s))) [];
  MustNewConstMetric peerDisconnectsDesc CounterValue (of_int (PeerDisconnects (on_peer s))) [];
  MustNewConstMetric txsProcessedDesc CounterValue (of_int (TxsProcessed (on_tx s))) [];
  MustNewConstMetric txsInMempoolDesc GaugeValue (of_int (TxsInMempool (on_tx s))) [];
  MustNewConstMetric validationErrorsDesc CounterValue (of_int (ValidationErrors (on_validation s))) [];
  MustNewConstMetric subsidyErrorsDesc CounterValue (of_int (SubsidyErrors (on_validation s))) [];
  MustNewConstMetric proofOfWorkErrorsDesc CounterValue (of_int (ProofOfWorkErrors (on_validation s))) [];
  MustNewConstMetric auxpowErrorsDesc CounterValue (of_int (AuxPoWErrors (on_validation s))) [];
  MustNewConstMetric versionErrorsDesc CounterValue (of_int (VersionErrors (on_validation s))) [];
  MustNewConstMetric dustLimitErrorsDesc CounterValue (of_int (DustLimitErrors (on_validation s))) [];
  MustNewConstMetric timingWindowErrorsDesc CounterValue (of_int (TimingWindowErrors (on_validation s))) [];
  MustNewConstMetric nameTheftAttemptsDesc CounterValue (of_int (NameTheftAttempts (on_validation s))) [];
  MustNewConstMetric doubleSpendAttemptsDesc CounterValue (of_int (DoubleSpendAttempts (on_validation s))) [];
  MustNewConstMetric uptimeDesc GaugeValue (Seconds uptime) [];
  MustNewConstMetric namedbSizeBytesDesc GaugeValue (of_int (NameDBSizeBytes (on_database s))) [];
  MustNewConstMetric namedbReadLatencyDesc GaugeValue (Seconds (NameDBReadLatency (on_database s))) [];
  MustNewConstMetric namedbWriteLatencyDesc GaugeValue (Seconds (NameDBWriteLatency (on_database s))) [];
  MustNewConstMetric errorsTotalDesc CounterValue (of_int (ValidationErrors (on_validation s))) [str "validation"];
  MustNewConstMetric errorsTotalDesc CounterValue (of_int (NetworkErrors (on_errors s))) [str "network"];
  MustNewConstMetric errorsTotalDesc CounterValue (of_int (DatabaseErrors (on_errors s))) [str "database"]  ] ++
  ((fun '(method, count) => MustNewConstMetric rpcRequestsTotalDesc CounterValue (of_int count) [method])
     <$> range (rpcRequests (on_rpc_calls s))) ++
  omap (fun '(method, duration) =>
      let count := at_key method (rpcRequests (on_rpc_calls s)) in
      if count =? 0 then None
      else Some (MustNewConstMetric rpcDurationSecondsDesc GaugeValue (fdiv (Seconds duration) (of_int count)) [method]))
    (range (rpcDurations (on_rpc_calls s))) ++
  [
  MustNewConstMetric goGoroutinesDesc GaugeValue (of_int (goroutines stats)) [];
  MustNewConstMetric goMemstatAllocBytesDesc GaugeValue (of_int (allocBytes stats)) [];
  MustNewConstMetric goMemstatHeapAllocDesc GaugeValue (of_int (heapAllocBytes stats)) [];
  MustNewConstMetric goMemstatHeapIdleDesc GaugeValue (of_int (heapIdleBytes stats)) [];
  MustNewConstMetric goMemstatHeapInuseDesc GaugeValue (of_int (heapInuseBytes stats)) []  ].

End collect.
