(* ===== verification/MetricsProps.v ===== *)
(** * Metrics: what the counters say

    The calls of the metrics package as values of a type, [run] of a list of them, and the
    state as a function of the list ([metrics_of]); then what one scrape delivers. *)

From S2P Require Import Prelude Clock Float Metrics.

(** ** The calls *)

Inductive Event :=
  | BlockProcessed (hash : bytes) (height : Z) (isMainChain isOrphan : bool) (processingTime now : Z)
  | BlockRejected
  | NameOperation (opType : bytes)
  | NameExpired
  | NameError
  | Reorg (blocksRolledBack now : Z)
  | PeerCount (total inbound outbound now : Z)
  | PeerDisconnect
  | Transaction
  | MempoolSize (count : Z)
  | ValidationError (errorType : bytes)
  | DatabaseRead (duration : Z)
  | DatabaseWrite (duration : Z)
  | DatabaseSize (sizeBytes : Z)
  | RPCRequest (method : bytes) (duration : Z)
  | NetworkError
  | DatabaseError.

Definition record (e : Event) : Metrics -> Metrics :=
  match e with
  | BlockProcessed hash height main orphan t now => RecordBlockProcessed hash height main orphan t now
  | BlockRejected => RecordBlockRejected
  | NameOperation op => RecordNameOperation op
  | NameExpired => RecordNameExpired
  | NameError => RecordNameError
  | Reorg n now => RecordReorg n now
  | PeerCount total inbound outbound now => UpdatePeerCount total inbound outbound now
  | PeerDisconnect => RecordPeerDisconnect
  | Transaction => RecordTransaction
  | MempoolSize n => UpdateMempoolSize n
  | ValidationError k => RecordValidationError k
  | DatabaseRead t => RecordDatabaseRead t
  | DatabaseWrite t => RecordDatabaseWrite t
  | DatabaseSize n => UpdateDatabaseSize n
  | RPCRequest method t => RecordRPCRequest method t
  | NetworkError => RecordNetworkError
  | DatabaseError => RecordDatabaseError
  end.

Definition run (start : Z) (es : list Event) : Metrics := foldl (fun m e => record e m) (new_metrics start) es.

Lemma run_snoc start es e : run start (es ++ [e]) = record e (run start es).
Proof. unfold run. by rewrite foldl_app. Qed.

(** ** What a history adds up to *)

Definition total (f : Event -> Z) (es : list Event) : Z := foldr (fun e n => f e + n) 0 es.
Definition times (P : Event -> bool) : list Event -> Z := total (fun e => if P e then 1 else 0).
(** The mean of the durations [f], over the events [P]. *)
Definition mean (f : Event -> Z) (P : Event -> bool) (es : list Event) : Z :=
  if times P es =? 0 then 0 else int64 (Z.quot (int64 (total f es)) (times P es)).
(** The last of the values the events have. *)
Definition latest {A} (f : Event -> option A) (es : list Event) : option A := last (omap f es).

Lemma total_snoc f es e : total f (es ++ [e]) = total f es + f e.
Proof. unfold total. induction es as [|a es IH]; simpl; [lia|rewrite IH; lia]. Qed.

Lemma times_snoc P es e : times P (es ++ [e]) = times P es + (if P e then 1 else 0).
Proof. apply total_snoc. Qed.

Lemma times_range P es : 0 <= times P es <= Z.of_nat (length es).
Proof. unfold times, total. induction es as [|e es IH]; simpl; [lia|destruct (P e); lia]. Qed.

Lemma mean_skip f P es e : f e = 0 -> P e = false -> mean f P (es ++ [e]) = mean f P es.
Proof. intros Hf HP. unfold mean. by rewrite times_snoc, total_snoc, Hf, HP, !Z.add_0_r. Qed.

Lemma latest_snoc {A} (f : Event -> option A) es e :
  latest f (es ++ [e]) = match f e with Some a => Some a | None => latest f es end.
Proof. unfold latest. rewrite omap_app. simpl. destruct (f e); [by rewrite last_snoc|by rewrite app_nil_r]. Qed.

(** ** The counters of a history *)

Definition processed e := match e with BlockProcessed _ _ _ _ _ _ => true | _ => false end.
Definition accepted e := match e with BlockProcessed _ _ main _ _ _ => main | _ => false end.
Definition orphaned e := match e with BlockProcessed _ _ _ orphan _ _ => orphan | _ => false end.
Definition rejected e := match e with BlockRejected => true | _ => false end.
Definition block_time e := match e with BlockProcessed _ _ _ _ t _ => t | _ => 0 end.
Definition block_seen e := match e with BlockProcessed _ _ _ _ _ now => Some now | _ => None end.
Definition block_hash e := match e with BlockProcessed h _ _ _ _ _ => Some h | _ => None end.
Definition block_height e := match e with BlockProcessed _ n _ _ _ _ => Some n | _ => None end.
Definition name_op e := match e with NameOperation _ => true | _ => false end.
Definition name_op_of t e := match e with NameOperation op => bool_decide (op = str t) | _ => false end.
Definition name_expired e := match e with NameExpired => true | _ => false end.
Definition name_error e := match e with NameError => true | _ => false end.
Definition reorg e := match e with Reorg _ _ => true | _ => false end.
Definition reorg_seen e := match e with Reorg _ now => Some now | _ => None end.
Definition rolled_back e := match e with Reorg n _ => n | _ => 0 end.
Definition peers e := match e with PeerCount n _ _ _ => Some n | _ => None end.
Definition inbound e := match e with PeerCount _ n _ _ => Some n | _ => None end.
Definition outbound e := match e with PeerCount _ _ n _ => Some n | _ => None end.
Definition peers_seen e := match e with PeerCount n _ _ now => if n >? 0 then Some now else None | _ => None end.
Definition peer_lost e := match e with PeerDisconnect => true | _ => false end.
Definition tx_seen e := match e with Transaction => true | _ => false end.
Definition mempool e := match e with MempoolSize n => Some n | _ => None end.
Definition invalid e := match e with ValidationError _ | NameError => true | _ => false end.
Definition invalid_for k e := match e with ValidationError k' => bool_decide (k' = str k) | _ => false end.
Definition read_db e := match e with DatabaseRead _ => true | _ => false end.
Definition read_time e := match e with DatabaseRead t => t | _ => 0 end.
Definition wrote_db e := match e with DatabaseWrite _ => true | _ => false end.
Definition write_time e := match e with DatabaseWrite t => t | _ => 0 end.
Definition db_size e := match e with DatabaseSize n => Some n | _ => None end.
Definition rpc_method e := match e with RPCRequest k _ => Some k | _ => None end.
Definition rpc_for k e := match e with RPCRequest k' _ => bool_decide (k' = k) | _ => false end.
Definition rpc_time k e := match e with RPCRequest k' t => if bool_decide (k' = k) then t else 0 | _ => 0 end.
Definition network_error e := match e with NetworkError => true | _ => false end.
Definition database_error e := match e with DatabaseError => true | _ => false end.

Definition methods (es : list Event) : gset bytes := list_to_set (omap rpc_method es).

Section groups.
Variable es : list Event.
Let zero (o : option Z) : Z := default 0 o.
Let kind (k : string) : Z := times (invalid_for k) es.

Definition block_of : BlockMetrics :=
  mkBlockMetrics (times processed es) (times accepted es) (times orphaned es) (times rejected es)
    (latest block_seen es) (default [] (latest block_hash es)) (zero (latest block_height es)) (times rejected es).
Definition name_of : NameMetrics :=
  mkNameMetrics (times name_op es) (times (name_op_of "NAME_NEW") es) (times (name_op_of "NAME_FIRSTUPDATE") es)
    (times (name_op_of "NAME_UPDATE") es) (times name_expired es) (times name_error es).
Definition reorg_of : ReorgMetrics :=
  mkReorgMetrics (times reorg es) (latest reorg_seen es) (uint64 (total rolled_back es)).
Definition peer_of : PeerMetrics :=
  mkPeerMetrics (zero (latest peers es)) (foldr Z.max 0 (omap peers es)) (zero (latest inbound es))
    (zero (latest outbound es)) (times peer_lost es) (latest peers_seen es).
Definition tx_of : TxMetrics := mkTxMetrics (times tx_seen es) (zero (latest mempool es)).
Definition validation_of : ValidationMetrics :=
  mkValidationMetrics (times invalid es) (kind "subsidy") (kind "proof_of_work") (kind "auxpow") (kind "version")
    (kind "dust_limit") (kind "timing_window") (kind "name_theft") (kind "double_spend").
Definition perf_of (start : Z) : PerfMetrics :=
  mkPerfMetrics start (mean block_time processed es) (int64 (total block_time es)).
Definition database_of : DBMetrics :=
  mkDBMetrics (zero (latest db_size es)) (mean read_time read_db es) (mean write_time wrote_db es)
    (int64 (total read_time es)) (int64 (total write_time es)) (times read_db es) (times wrote_db es).
Definition rpc_of : RPCMetrics :=
  mkRPCMetrics (set_to_map (fun k => (k, times (rpc_for k) es)) (methods es))
    (set_to_map (fun k => (k, int64 (total (rpc_time k) es))) (methods es)).
Definition errors_of : ErrorMetrics := mkErrorMetrics (times network_error es) (times database_error es).

Definition metrics_of (start : Z) : Metrics :=
  mkMetrics block_of name_of reorg_of peer_of tx_of validation_of (perf_of start) database_of rpc_of errors_of.

End groups.

(** ** Each call adds its event *)

Lemma incr_times P es : Z.of_nat (length es) < 2 ^ 63 -> incr (times P es) = times P es + 1.
Proof.
  intros Hn. pose proof (times_range P es) as Hr. unfold incr, uint64, wrapU. apply Z.mod_small.
  change (2 ^ 64) with (2 * 2 ^ 63). lia.
Qed.

Lemma average_times f P es e t : Z.of_nat (length es) < 2 ^ 63 - 1 -> f e = t -> P e = true ->
  (if times P es + 1 >? 0 then average (int64 (total f es + t)) (times P es + 1) else mean f P es) =
  mean f P (es ++ [e]).
Proof.
  intros Hn Hf HP. pose proof (times_range P es) as Hr. unfold mean, average. rewrite times_snoc, total_snoc, HP, Hf.
  change (2 ^ 63) with 9223372036854775808 in Hn.
  destruct (Z.gtb_spec (times P es + 1) 0); [|lia]. destruct (Z.eqb_spec (times P es + 1) 0); [lia|].
  rewrite (int64_id (times P es + 1)); [done|]. unfold is_int64. lia.
Qed.

Lemma methods_snoc es e :
  methods (es ++ [e]) = match rpc_method e with Some k => {[k]} ∪ methods es | None => methods es end.
Proof. unfold methods. rewrite omap_app. destruct e; simpl; try (by rewrite app_nil_r). set_solver. Qed.

Lemma lookup_by_method (f : bytes -> Z) Y k :
  (set_to_map (fun k => (k, f k)) Y : gmap bytes Z) !! k = if decide (k ∈ (Y : gset bytes)) then Some (f k) else None.
Proof.
  assert (forall a b : bytes, a ∈ Y -> b ∈ Y -> (a, f a).1 = (b, f b).1 -> (a, f a) = (b, f b)) as Hf by naive_solver.
  destruct (decide (k ∈ Y)) as [Hk|Hk]; [apply lookup_set_to_map; naive_solver|].
  apply eq_None_not_Some. intros [x (y & Hy & Heq)%lookup_set_to_map]; naive_solver.
Qed.

Lemma total_absent f k es : (forall e, rpc_method e ≠ Some k -> f e = 0) -> k ∉ methods es -> total f es = 0.
Proof.
  intros Hf. unfold methods, total. rewrite elem_of_list_to_set, list_elem_of_omap.
  induction es as [|e es IH]; intros Hk; simpl; [done|].
  rewrite IH, Hf; [done|intros He; apply Hk; exists e; split; [left|done]|intros (e' & ? & ?); apply Hk; exists e'; split; [by right|done]].
Qed.

(** One more request for [k]: the entry of [k] alone changes. *)
Lemma by_method_step (f g : bytes -> Z) (Y : gset bytes) k x :
  x = g k -> (forall k', k' ≠ k -> f k' = g k') ->
  <[k := x]> (set_to_map (fun k => (k, f k)) Y) = (set_to_map (fun k => (k, g k)) ({[k]} ∪ Y : gset bytes) : gmap bytes Z).
Proof.
  intros -> Hg. apply map_eq. intros k'. rewrite lookup_by_method. destruct (decide (k = k')) as [<-|Hk].
  - rewrite lookup_insert_eq, decide_True by set_solver. done.
  - rewrite lookup_insert_ne, lookup_by_method, Hg by done.
    destruct (decide (k' ∈ Y)); [rewrite decide_True by set_solver|rewrite decide_False by set_solver]; done.
Qed.

Lemma at_key_by_method f k es : (k ∉ methods es -> f k = 0) ->
  at_key k (set_to_map (fun k => (k, f k)) (methods es)) = f k.
Proof. intros Hf. unfold at_key. rewrite lookup_by_method. case_decide; simpl; [done|by rewrite Hf]. Qed.

Lemma max_snoc l (n : Z) : foldr Z.max 0 (l ++ [n]) = Z.max (foldr Z.max 0 l) n.
Proof. induction l as [|a l IH]; simpl; lia. Qed.

Section step.
Context (es : list Event) (Hn : Z.of_nat (length es) < 2 ^ 63 - 1).

Let Hlen : Z.of_nat (length es) < 2 ^ 63.
Proof. lia. Qed.

(** One group of counters, after one more call. *)
Ltac history :=
  intros Hm; match type of Hm with ?group _ = ?G _ => unfold G in *; match goal with |- _ (record ?e _) = _ =>
    destruct e; cbn -[Z.max Z.gtb bool_decide uint64 int64]; rewrite ?Hm; cbn -[Z.max Z.gtb bool_decide uint64 int64] end end;
  rewrite ?times_snoc, ?total_snoc, ?latest_snoc, ?omap_app; cbn -[Z.max Z.gtb bool_decide uint64 int64];
  rewrite ?Z.add_0_r, ?app_nil_r, ?max_snoc, ?incr_times by exact Hlen;
  try reflexivity; f_equal; repeat case_match; try lia.

Lemma block_step e m : on_block m = block_of es -> on_block (record e m) = block_of (es ++ [e]).
Proof. history. Qed.
Lemma name_step e m : on_name m = name_of es -> on_name (record e m) = name_of (es ++ [e]).
Proof. history. Qed.
Lemma reorg_step e m : on_reorg m = reorg_of es -> on_reorg (record e m) = reorg_of (es ++ [e]).
Proof. history. int_lia. Qed.
Lemma peer_step e m : on_peer m = peer_of es -> on_peer (record e m) = peer_of (es ++ [e]).
Proof. history. all: try (by destruct (Z.gtb_spec total0 0)); destruct (Z.gtb_spec total0 (foldr Z.max 0 (omap peers es))); lia. Qed.
Lemma tx_step e m : on_tx m = tx_of es -> on_tx (record e m) = tx_of (es ++ [e]).
Proof. history. Qed.
Lemma validation_step e m : on_validation m = validation_of es -> on_validation (record e m) = validation_of (es ++ [e]).
Proof. history. Qed.
Lemma errors_step e m : on_errors m = errors_of es -> on_errors (record e m) = errors_of (es ++ [e]).
Proof. history. Qed.

Lemma perf_step e m start : on_block m = block_of es -> on_perf m = perf_of es start ->
  on_perf (record e m) = perf_of (es ++ [e]) start.
Proof.
  intros Hb Hm. unfold perf_of in *.
  destruct e; cbn -[uint64 int64 Z.gtb incr average]; rewrite Hm; try (by rewrite mean_skip, total_snoc, Z.add_0_r by done).
  rewrite Hb. cbn -[uint64 int64 Z.gtb incr average]. rewrite int64_add_l, incr_times, total_snoc by exact Hlen.
  f_equal. by apply average_times.
Qed.

Lemma database_step e m : on_database m = database_of es -> on_database (record e m) = database_of (es ++ [e]).
Proof.
  intros Hm. unfold database_of in *.
  destruct e; cbn -[uint64 int64 Z.gtb incr average]; rewrite Hm; cbn -[uint64 int64 Z.gtb incr average];
    rewrite ?(mean_skip read_time), ?(mean_skip write_time) by done;
    rewrite ?times_snoc, ?total_snoc, ?latest_snoc; cbn -[uint64 int64 Z.gtb incr average];
    rewrite ?int64_add_l, ?incr_times, ?Z.add_0_r by exact Hlen; try reflexivity; f_equal; by apply average_times.
Qed.

Lemma rpc_step e m : on_rpc_calls m = rpc_of es -> on_rpc_calls (record e m) = rpc_of (es ++ [e]).
Proof.
  intros Hm. destruct (rpc_method e) as [k|] eqn:He.
  - destruct e as [| | | | | | | | | | | | | |k' t| |]; try done. injection He as ->.
    cbn -[incr int64]. rewrite Hm. unfold rpc_of. rewrite methods_snoc. cbn -[incr int64].
    assert (forall f, (forall e, rpc_method e ≠ Some k -> f e = 0) -> k ∉ methods es -> total f es = 0) as Habs
      by (intros f Hf; exact (total_absent f k es Hf)).
    rewrite (at_key_by_method (fun k => times (rpc_for k) es)), (at_key_by_method (fun k => int64 (total (rpc_time k) es)))
      by (intros Hk; unfold times; rewrite Habs; [done| |done]; intros []; cbn; try done; case_bool_decide; by simplify_eq).
    f_equal; apply by_method_step.
    + rewrite incr_times, times_snoc by exact Hlen. cbn. by rewrite bool_decide_true.
    + intros k' Hk. rewrite times_snoc. cbn. rewrite bool_decide_false by done. lia.
    + rewrite int64_add_l, total_snoc. cbn. by rewrite bool_decide_true.
    + intros k' Hk. rewrite total_snoc. cbn. rewrite bool_decide_false by done. f_equal. lia.
  - transitivity (on_rpc_calls m); [by destruct e|]. rewrite Hm. unfold rpc_of. rewrite methods_snoc, He.
    f_equal; apply map_eq; intros k; rewrite !lookup_by_method; (case_decide; [|done]); f_equal.
    + rewrite times_snoc. destruct e; cbn; lia || done.
    + rewrite total_snoc. f_equal. destruct e; cbn; lia || done.
Qed.

Lemma metrics_step start e : record e (metrics_of es start) = metrics_of (es ++ [e]) start.
Proof.
  pose (m := metrics_of es start).
  unfold metrics_of at 2.
  rewrite <-(block_step e m), <-(name_step e m), <-(reorg_step e m), <-(peer_step e m), <-(tx_step e m),
    <-(validation_step e m), <-(perf_step e m start), <-(database_step e m), <-(rpc_step e m), <-(errors_step e m) by done.
  fold m. by destruct (record e m).
Qed.

End step.

Lemma run_metrics start es : Z.of_nat (length es) < 2 ^ 63 -> run start es = metrics_of es start.
Proof.
  induction es as [|e es IH] using rev_ind; intros Hn; [done|].
  rewrite length_app, Nat2Z.inj_add in Hn. cbn [length] in Hn. rewrite run_snoc, IH by lia. apply metrics_step. lia.
Qed.



(** ** A scrape *)

Section scrape.
Context {R : MapRange}.

(** What the registry checks of a scrape: the metrics were described, with as many label values as labels, no metric is
    delivered twice, and the metrics of one name have one type. *)
Definition consistent (out : list Metric) : Prop :=
  (forall x, x ∈ out -> m_desc x ∈ Describe /\ length (m_labels x) = length (variableLabels (m_desc x))) /\
  NoDup ((fun x => (m_desc x, m_labels x)) <$> out) /\
  (forall x y, x ∈ out -> y ∈ out -> fqName (m_desc x) = fqName (m_desc y) -> m_type x = m_type y).

Lemma NoDup_range {V} (m : gmap bytes V) : NoDup (range m).*1.
Proof. rewrite range_perm. apply NoDup_fst_map_to_list. Qed.

Lemma describe_names : NoDup (fqName <$> Describe).
Proof. apply (bool_decide_unpack _). by vm_compute. Qed.

Definition type_of (d : Desc) : ValueType :=
  if bool_decide (d ∈ [lastBlockHeightDesc; avgBlockProcessTimeDesc; peersConnectedDesc; peersMaxDesc; inboundPeersDesc;
    outboundPeersDesc; txsInMempoolDesc; uptimeDesc; namedbSizeBytesDesc; namedbReadLatencyDesc; namedbWriteLatencyDesc;
    rpcDurationSecondsDesc; goGoroutinesDesc; goMemstatAllocBytesDesc; goMemstatHeapAllocDesc; goMemstatHeapIdleDesc;
    goMemstatHeapInuseDesc]) then GaugeValue else CounterValue.

(** One metric, as described. *)
Definition described (x : Metric) : Prop :=
  m_desc x ∈ Describe /\ length (m_labels x) = length (variableLabels (m_desc x)) /\ m_type x = type_of (m_desc x).

Lemma collected_described now stats m : Forall described (Collect now stats m).
Proof.
  unfold Collect. rewrite !Forall_app. split; [|split; [|split]].
  - repeat constructor; cbn [m_desc]; apply (bool_decide_unpack _); by vm_compute.
  - apply Forall_fmap, Forall_true. intros [k n]. split; [apply (bool_decide_unpack _); by vm_compute|done].
  - apply Forall_forall. intros x ([k d] & _ & Hx)%list_elem_of_omap. cbn in Hx. case_match; [done|]. injection Hx as <-.
    split; [apply (bool_decide_unpack _); by vm_compute|done].
  - repeat constructor; cbn [m_desc]; apply (bool_decide_unpack _); by vm_compute.
Qed.
(** The samples of the request tables, between those of fixed metrics. *)
Definition request_samples (c : RPCMetrics) : list Metric :=
  (fun '(k, n) => MustNewConstMetric rpcRequestsTotalDesc CounterValue (of_int n) [k]) <$> range (rpcRequests c).
Definition duration_samples (c : RPCMetrics) : list Metric :=
  omap (fun '(k, d) => let n := at_key k (rpcRequests c) in
    if n =? 0 then None
    else Some (MustNewConstMetric rpcDurationSecondsDesc GaugeValue (fdiv (Seconds d) (of_int n)) [k])) (range (rpcDurations c)).

Definition sample_id (x : Metric) : Desc * list bytes := (m_desc x, m_labels x).

Lemma request_samples_id c : sample_id <$> request_samples c =
  (fun k => (rpcRequestsTotalDesc, [k])) <$> (range (rpcRequests c)).*1.
Proof. unfold request_samples. rewrite <-!list_fmap_compose. apply list_fmap_ext. by intros ? [k n]. Qed.

Lemma duration_samples_id c : exists l, l `sublist_of` (range (rpcDurations c)).*1 /\
  sample_id <$> duration_samples c = (fun k => (rpcDurationSecondsDesc, [k])) <$> l.
Proof.
  unfold duration_samples. induction (range (rpcDurations c)) as [|[k d] l (l' & Hl & IH)]; [by exists []|].
  cbn -[Z.eqb]. destruct (at_key k (rpcRequests c) =? 0); cbn; [exists l'; split; [by apply sublist_cons|done]|].
  exists (k :: l'). split; [by apply sublist_skip|]. cbn. by rewrite <-IH.
Qed.

(** Distinct fixed samples and the samples of the two tables are distinct. *)
Lemma fixed_and_tables (fixed : list (Desc * list bytes)) (reqs durs : list bytes) :
  bool_decide (NoDup fixed) -> Forall (fun x => x.1 ≠ rpcRequestsTotalDesc /\ x.1 ≠ rpcDurationSecondsDesc) fixed ->
  NoDup reqs -> NoDup durs ->
  NoDup (fixed ++ ((fun k => (rpcRequestsTotalDesc, [k])) <$> reqs) ++ ((fun k => (rpcDurationSecondsDesc, [k])) <$> durs)).
Proof.
  intros Hf%bool_decide_unpack Hfix Hr Hd. rewrite Forall_forall in Hfix.
  rewrite !NoDup_app. setoid_rewrite elem_of_app. setoid_rewrite list_elem_of_fmap.
  split; [done|split; [|split; [|split]]].
  - intros x Hx%Hfix [(? & -> & _)|(? & -> & _)]; by destruct Hx.
  - apply NoDup_fmap; [intros ?? [=]; done|done].
  - intros ? (? & -> & _) (? & [=] & _).
  - apply NoDup_fmap; [intros ?? [=]; done|done].
Qed.

Lemma collected_once now stats m : NoDup (sample_id <$> Collect now stats m).
Proof.
  destruct (duration_samples_id (on_rpc_calls m)) as (ks & Hks & Hdur).
  unfold Collect. cbv zeta. rewrite !fmap_app.
  change (counters (Snapshot now m)) with m. fold (request_samples (on_rpc_calls m)) (duration_samples (on_rpc_calls m)).
  rewrite request_samples_id, Hdur.
  rewrite (app_assoc _ _ (sample_id <$> _)), (Permutation_app_comm _ (sample_id <$> _)), app_assoc.
  apply fixed_and_tables.
  - by vm_compute.
  - apply (bool_decide_unpack _). by vm_compute.
  - apply NoDup_range.
  - eapply sublist_NoDup; [|exact Hks]. apply NoDup_range.
Qed.

Lemma collected_consistent now stats m : consistent (Collect now stats m).
Proof.
  pose proof (collected_described now stats m) as Hd. rewrite Forall_forall in Hd.
  split; [|split; [apply collected_once|]].
  - intros x (? & ? & _)%Hd. done.
  - intros x y (Hx & _ & Tx)%Hd (Hy & _ & Ty)%Hd Hxy. rewrite Tx, Ty. f_equal.
    revert Hxy Hx Hy. generalize (m_desc x) (m_desc y). pose proof describe_names as Hn. revert Hn. generalize Describe.
    induction l as [|d l IH]; intros Hn a b Hab; [set_solver|].
    apply NoDup_cons in Hn as [Hd' Hn]. rewrite !elem_of_cons. intros [->|Ha] [->|Hb]; [done| | |by apply IH].
    + destruct Hd'. rewrite Hab. by apply list_elem_of_fmap_2.
    + destruct Hd'. rewrite <-Hab. by apply list_elem_of_fmap_2.
Qed.

(** A sample of one of the tables is in that table. *)
Lemma collected_request now stats m x :
  m_desc x = rpcRequestsTotalDesc -> x ∈ Collect now stats m <-> x ∈ request_samples (on_rpc_calls m).
Proof.
  intros Hx. unfold Collect. cbv zeta. change (counters (Snapshot now m)) with m.
  fold (request_samples (on_rpc_calls m)) (duration_samples (on_rpc_calls m)). rewrite !elem_of_app.
  split; [|tauto]. intros [H|[H|[H|H]]]; [exfalso| |exfalso|exfalso]; try done.
  1, 3: apply (list_elem_of_fmap_2 m_desc) in H; rewrite Hx in H; revert H; apply (bool_decide_unpack _); by vm_compute.
  apply list_elem_of_omap in H as ([k d] & _ & He). cbn in He. case_match; [done|]. by injection He as <-.
Qed.

Lemma collected_duration now stats m x :
  m_desc x = rpcDurationSecondsDesc -> x ∈ Collect now stats m <-> x ∈ duration_samples (on_rpc_calls m).
Proof.
  intros Hx. unfold Collect. cbv zeta. change (counters (Snapshot now m)) with m.
  fold (request_samples (on_rpc_calls m)) (duration_samples (on_rpc_calls m)). rewrite !elem_of_app.
  split; [|tauto]. intros [H|[H|[H|H]]]; [exfalso|exfalso| |exfalso]; try done.
  1, 3: apply (list_elem_of_fmap_2 m_desc) in H; rewrite Hx in H; revert H; apply (bool_decide_unpack _); by vm_compute.
  apply list_elem_of_fmap in H as ([k d] & -> & _). done.
Qed.

Lemma elem_of_range {V} (m : gmap bytes V) k v : (k, v) ∈ range m <-> m !! k = Some v.
Proof. rewrite range_perm. apply elem_of_map_to_list. Qed.

Lemma called_times k es : k ∈ methods es <-> 0 < times (rpc_for k) es.
Proof.
  unfold methods. rewrite elem_of_list_to_set, list_elem_of_omap. unfold times, total.
  induction es as [|e es IH]; cbn; [split; [intros (? & [] %not_elem_of_nil & _)|lia]|].
  pose proof (times_range (rpc_for k) es) as Hr. unfold times, total in Hr.
  setoid_rewrite elem_of_cons. destruct (rpc_for k e) eqn:He.
  - split; [lia|]. intros _. exists e. split; [by left|]. destruct e; try done. cbn in *. by case_bool_decide; subst.
  - rewrite Z.add_0_l, <-IH. split; [|naive_solver]. intros (e' & [->|] & He'); [|naive_solver].
    destruct e; try done. cbn in *. injection He' as ->. by rewrite bool_decide_true in He.
Qed.

(** What a scrape delivers.  After any sequence of fewer than 2^63 calls, the metrics of a scrape pass the registry's
    checks: each is one of those described, with its labels, no two are the same, and one name has one type.  Every
    method that was called has one request counter, with the number of its calls, and one duration, the sum of its
    durations over that number, and no other method has either: the code never divides by zero and never skips a
    method. *)
Theorem scrape_history (start now : Z) (stats : goRuntimeStats) (es : list Event) (Hn : Z.of_nat (length es) < 2 ^ 63) :
  let out := Collect now stats (run start es) in
  let calls k := times (rpc_for k) es in
  consistent out /\
  (forall k v, MustNewConstMetric rpcRequestsTotalDesc CounterValue v [k] ∈ out <-> 0 < calls k /\ v = of_int (calls k)) /\
  (forall k v, MustNewConstMetric rpcDurationSecondsDesc GaugeValue v [k] ∈ out <->
     0 < calls k /\ v = fdiv (Seconds (int64 (total (rpc_time k) es))) (of_int (calls k))).
Proof.
  cbv zeta. split; [apply collected_consistent|].
  assert (run start es = metrics_of es start) as -> by by apply run_metrics.
  split; intros k v.
  - rewrite collected_request by done. unfold request_samples. rewrite list_elem_of_fmap, <-called_times.
    cbn [on_rpc_calls metrics_of rpc_of rpcRequests]. split.
    + intros ([k' n] & [=-> ->] & Hk). rewrite elem_of_range, lookup_by_method in Hk. case_decide; by simplify_eq.
    + intros [Hk ->]. exists (k, times (rpc_for k) es). split; [done|]. by rewrite elem_of_range, lookup_by_method, decide_True.
  - rewrite collected_duration by done. unfold duration_samples. rewrite list_elem_of_omap.
    cbn [on_rpc_calls metrics_of rpc_of rpcRequests rpcDurations].
    assert (forall k, at_key k (set_to_map (fun k => (k, times (rpc_for k) es)) (methods es)) = times (rpc_for k) es) as Hat.
    { intros k'. apply at_key_by_method. pose proof (times_range (rpc_for k') es). rewrite called_times. lia. }
    split.
    + intros ([k' d] & Hk & He). rewrite elem_of_range, lookup_by_method in Hk. cbn -[Z.eqb] in He. rewrite Hat in He.
      case_decide as Hc; [|done]. rewrite called_times in Hc. destruct (Z.eqb_spec (times (rpc_for k') es) 0); [done|].
      by simplify_eq.
    + intros [Hk ->]. exists (k, int64 (total (rpc_time k) es)). rewrite elem_of_range, lookup_by_method.
      rewrite decide_True by by apply called_times. split; [done|]. cbn -[Z.eqb]. rewrite Hat.
      destruct (Z.eqb_spec (times (rpc_for k) es) 0); [lia|done].
Qed.

End scrape.

Lemma scrape_history_witness :
  let es := [RPCRequest (str "name_show") 1500000000; NetworkError; RPCRequest (str "name_show") 500000000] in
  MustNewConstMetric rpcDurationSecondsDesc GaugeValue (of_int 1) [str "name_show"] ∈
    Collect 9 (mkGoStats 3 0 0 0 0) (run 5 es).
Proof.
  cbv zeta. refine (proj2 (proj2 (proj2 (scrape_history 5 9 (mkGoStats 3 0 0 0 0)
    [RPCRequest (str "name_show") 1500000000; NetworkError; RPCRequest (str "name_show") 500000000] _)) _ _) _).
  - cbn. lia.
  - by vm_compute.
Defined.
