(* ===== verification/StartupProps.v ===== *)
(** * Properties: settings, starting and stopping

    The theorems about config/configfile.go, cmd/nmcd/main.go and internal/server/server.go,
    with their witnesses on a host of which everything is given. *)

From stdpp Require Import relations.
From S2P Require Import Prelude Clock Strings Bolt Lru NameDB Config Wire AuxPow Chain ChainUpdate.
From S2P Require Import Mempool MempoolSpec Network Node Encryption Wallet WalletTx RateLimit.
From S2P Require Import Rpc RpcServer Client Settings Startup StartupSpec Logging Ref NetProps WalletProps RpcProps MailProps.

Section props.
Context {H : Host}.

(** The first of some texts that is not empty, and what is used when all are. *)
Fixpoint first_set (l : list bytes) (default : bytes) : bytes :=
  match l with
  | [] => default
  | x :: l => if bool_decide (x <> []) then x else first_set l default
  end.

Lemma applyString_first l x d : applyString (first_set l d) x = first_set (x :: l) d.
Proof. done. Qed.

(** What the file adds: nothing when it cannot be used. *)
Definition file_settings (path : bytes) : FileConfig :=
  match LoadConfigFile path with Ok fc => fc | Err _ => no_file end.

Lemma load_file path c :
  match LoadConfigFile path with Err _ => c | Ok fc => ApplyFileConfig fc c end = ApplyFileConfig (file_settings path) c.
Proof. unfold file_settings. by destruct (LoadConfigFile path) as [|?], c. Qed.


End props.

(** ** Logging *)

Definition With_all (ctx : list attr) (l : Logger) : Logger := foldl (fun l a => With a l) l ctx.

(** What a handler of slog has after some calls of [With]. *)
Lemma With_all_handler ctx l :
  let h := ch_Handler (lg_handler l) in
  h_groups h = [] ->
  lg_handler (With_all ctx l) =
  mkComponent (mkHandler (h_format h) (h_writer h) (h_level h) [] (h_attrs h ++ (pair [] <$> ctx))) (ch_component (lg_handler l)).
Proof.
  revert l. induction ctx as [|a ctx IH]; intros l h Hg.
  { cbn. rewrite app_nil_r, <-Hg. subst h. by destruct (lg_handler l) as [[] ?]. }
  change (With_all (a :: ctx) l) with (With_all ctx (With a l)). rewrite IH by done. cbn. fold h.
  rewrite Hg. by rewrite <-app_assoc.
Qed.

(** The lines of a logger and of those derived from it. *)
Lemma Log_With_all cfg w closer ctx level now msg args :
  Log level now msg args (With_all ctx (mkLogger (newComponentHandler cfg w) cfg closer)) =
  if resolveSlogLevel (lc_Level cfg) <=? level then
    Some (mkLine w (if bool_decide (lc_Format cfg = str "json") then JSONHandler else TextHandler) now level msg
      (pair [] <$> (ctx ++ (str "component", AString (lc_Component cfg)) :: args)))
  else None.
Proof.
  unfold Log. rewrite With_all_handler by done. unfold slog_Enabled, newComponentHandler. cbn -[resolveSlogLevel].
  case_match; [|done]. unfold ch_Handle, slog_Handle. cbn -[resolveSlogLevel]. by rewrite fmap_app.
Qed.

(** A reader of a JSON object keeps the last of several fields of one name. *)
Definition field_of (key : bytes) (f : list bytes * attr) : option attr_value :=
  if bool_decide (f.1 = [] /\ f.2.1 = key) then Some f.2.2 else None.
Definition json_field (key : bytes) (ln : Line) : option attr_value := last (omap (field_of key) (ln_fields ln)).

Lemma json_field_last key pre v post w f now level msg : (forall a, a ∈ post -> a.1 <> key) ->
  json_field key (mkLine w f now level msg (pair [] <$> (pre ++ (key, v) :: post))) = Some v.
Proof.
  intros Hp. unfold json_field. cbn [ln_fields].
  assert (omap (field_of key) (pair [] <$> post) = []) as E.
  { induction post as [|a post IH]; [done|]. cbn. unfold field_of at 1.
    rewrite bool_decide_false by (intros [_ E]; eapply Hp; [left|exact E]). apply IH. intros b Hb. apply Hp. by right. }
  rewrite fmap_app, omap_app, fmap_cons. cbn -[fmap omap].
  change (omap (field_of key) (([], (key, v)) :: (pair [] <$> post)))
    with (match field_of key ([], (key, v)) with Some x => x :: omap (field_of key) (pair [] <$> post)
          | None => omap (field_of key) (pair [] <$> post) end).
  unfold field_of at 2. rewrite bool_decide_true, E by done. by rewrite last_snoc.
Qed.

Section server.
Context {B : Bolt} {W : Wire} {G : BtcLib} {R : MapRange} {D : Btcd} {P : PeerLib}.
Context {K : Crypto} {L : KeyLib} {F : Disk} {J : WalletJson} {S : TxScript} {X : RpcLib}.
Context {H : Host} {Sys : System} {SL : SystemLaws Sys}.


(** ** main *)

Definition log_handles (l : Logger) : list (nat * Handle) :=
  match lg_closer l with Some n => [(n, LogFile (lc_Output (lg_config l)))] | None => [] end.

(** The logger for a configuration: its writer is the output that was asked for. *)
Definition logger_for (cfg : LogConfig) (l : Logger) : Prop :=
  exists w, l = mkLogger (newComponentHandler cfg w) cfg (match w with FileWriter n => Some n | _ => None end) /\
    match w with
    | Stdout => lc_Output cfg = str "stdout"
    | Stderr => lc_Output cfg = str "stderr"
    | FileWriter _ => lc_Output cfg <> str "stdout" /\ lc_Output cfg <> str "stderr"
    end.

Lemma wp_openLogFile before held path m : own before held m ->
  wp (openLogFile path)
    (fun r m' => exists n, r = (FileWriter n, Some n) /\ own before ((n, LogFile path) :: held) m')
    (fun _ => own before held) m.
Proof using All.
  intros Ho. unfold openLogFile. wps. eapply wp_mono; [own_apply wp_call| |done]. intros ? m1 Ho1.
  assert (wp (if bool_decide (filepath_Dir path <> str ".")
              then wrapM "failed to set permissions on log directory %s" call else mret tt)
            (fun _ => own before held) (fun _ => own before held) m1) as Hc.
  { case_bool_decide; wps; [own_apply wp_call|done]. }
  wps. eapply wp_mono; [exact Hc| |done]. intros ? m2 Ho2. wps.
  eapply wp_mono; [own_apply wp_open| |done]. intros n m3 [Ho3 _]. wps.
  eapply wp_mono; [own_apply wp_call| |].
  - intros ? m4 Ho4. wps. by exists n.
  - intros e m4 Ho4. wps. eapply wp_close_quietly; [done|]. intros m5 ? _. by wps.
Qed.

Lemma wp_Init before held cfg m : own before held m ->
  wp (Init (Some cfg)) (fun l m' => logger_for cfg l /\ own before (log_handles l ++ held) m')
    (fun _ => own before held) m.
Proof using All.
  intros Ho. unfold Init, openLogOutput. cbn [default]. wps. repeat case_bool_decide.
  - wps. split; [by exists Stdout|done].
  - wps. split; [by exists Stderr|done].
  - eapply wp_mono; [own_apply wp_openLogFile| |done]. intros ? m1 (n & -> & Ho1). wps.
    split; [by exists (FileWriter n)|done].
Qed.

(** What [main] has made when the server is there. *)
Lemma main_init_ok args m g r p :
  (forall n, is_Some (live m !! n) -> (n < ncalls m)%nat) -> main_init args (m, g) = (Ok r, p) ->
  exists cfg m1, parseFlags args = Ok cfg /\ logger_for (log_config cfg) r.1 /\ own (live m) (log_handles r.1) m1 /\
    NewServer cfg m1 = (Ok r.2, p.1) /\ p.2 = mkGlobals (Some r.1) (once g).
Proof using All.
  intros Hf. unfold main_init. cbn -[NewServer Init]. destruct (parseFlags args) as [cfg|]; [|done].
  pose proof (wp_Init (live m) [] (log_config cfg) m) as Hi. unfold wp in Hi.
  unfold SetDefault, set_globals, on_os, zoom, wrapM, wrap_err, mbind, M_bind, lift, modify, get, mret, M_ret. cbn -[NewServer Init].
  destruct (Init (Some (log_config cfg)) m) as [[l|] m1]; [|done]. destruct Hi as [Hl Ho]; [by split|].
  rewrite app_nil_r in Ho. cbn -[NewServer Init].
  destruct (NewServer cfg m1) as [[s|] m2] eqn:En; cbn -[NewServer Init]; [|done]. intros [= <- <-]. eauto 10.
Qed.

(** Closing the log file after the server. *)
Lemma log_Close_live (before : gmap nat Handle) l m1 m : own before (log_handles l) m1 -> live m = live m1 ->
  live (log_Close l m).2 = before.
Proof using All.
  intros Ho E. unfold log_Close. unfold log_handles in Ho. destruct (lg_closer l) as [n|]; cbn.
  - rewrite E. apply own_delete in Ho as [Ho _]. by apply own_nil in Ho.
  - rewrite E. by apply own_nil.
Qed.

(** The process gives back what it took.  Whenever main has made its logger and its server, from the command line,
    the file and the environment, the logger writes to the output that was asked for; and after whatever the server
    does, leaving the deferred calls of main to run closes the server's files, listeners and connections and then the
    log file, unless an accepted connection is still without a peer. *)
Theorem main_closes args m g logger s p :
  (forall n, is_Some (live m !! n) -> (n < ncalls m)%nat) ->
  main_init args (m, g) = (Ok (logger, s), p) ->
  (exists cfg, parseFlags args = Ok cfg /\ config s = cfg /\ logger_for (log_config cfg) logger) /\
  forall q, rtc server_step (Start (p.1, s)).2 q ->
    (pending q.2 = [] -> live (main_exit logger q).2.1 = live m) /\
    (pending q.2 <> [] -> (Stop q).1 = Err Blocked).
Proof using All.
  intros Hf Hm. destruct (main_init_ok _ _ _ _ _ Hf Hm) as (cfg & m1 & Hc & Hl & Ho & En & _). cbn in Hl, Ho, En.
  pose proof (wp_NewServer (live m1) cfg m1) as Hn. unfold wp in Hn. rewrite En in Hn.
  assert (started cfg (live m1) s p.1) as Hs by (apply Hn; split; [done|by destruct Ho]).
  pose proof (started_running _ _ _ _ Hs) as Hr. destruct Hs as (_ & Ec & _ & _ & _ & Enl & _).
  split; [by exists cfg|]. intros q Hq.
  assert (running (live m1) q) as Hrq.
  { pose proof (wp_Start _ _ Hr Enl) as Hst. unfold wp in Hst.
    assert (running (live m1) (Start (p.1, s)).2) as H0 by (destruct (Start (p.1, s)) as [[] ?]; [exact Hst|done]).
    by eapply rtc_running. }
  split; intros Hpd; [|by eapply Stop_blocks].
  pose proof (wp_Stop _ _ Hrq Hpd) as Hst. unfold wp in Hst. unfold main_exit, mbind, M_bind, try.
  assert (live (Stop q).2.1 = live m1) as El by (by destruct (Stop q) as [[|] ?]; [|destruct Hst]).
  destruct (Stop q) as [r q1]. cbn in El |- *. unfold on_machine, zoom.
  pose proof (log_Close_live _ _ _ _ Ho El) as Hcl. by destruct (log_Close logger q1.1).
Qed.

(** C21: who logs where.  The logger that main makes, and every logger derived from it, writes a line exactly when the
    level is at least the configured one, to the configured output, with its context, then the component, then the
    fields of the call; whatever WithComponent added before, a reader of the JSON line sees the component of the
    configuration.  But the loggers of the RPC server and of the network are derived from [GetDefault], whose first
    call replaces the logger that main had set: they write text, from level INFO, to standard output, whatever level,
    format and output are configured. *)
Theorem daemon_logging args m g logger s p :
  (forall n, is_Some (live m !! n) -> (n < ncalls m)%nat) ->
  main_init args (m, g) = (Ok (logger, s), p) ->
  exists cfg, parseFlags args = Ok cfg /\ logger_for (log_config cfg) logger /\
    (forall ctx level now msg fields,
      Log level now msg fields (With_all ctx logger) =
        (if resolveSlogLevel (cfg_LogLevel cfg) <=? level then
           Some (mkLine (h_writer (ch_Handler (lg_handler logger)))
             (if bool_decide (cfg_LogFormat cfg = str "json") then JSONHandler else TextHandler) now level msg
             (pair [] <$> (ctx ++ (str "component", AString (str "nmcd")) :: fields)))
         else None) /\
      ((forall a, a ∈ fields -> a.1 <> str "component") -> forall ln, Log level now msg fields (With_all ctx logger) = Some ln ->
         json_field (str "component") ln = Some (AString (str "nmcd")))) /\
    (once g = false -> forall component, exists l,
      (component_logger component p).1 = Ok (Some l) /\
      forall level now msg fields, Log level now msg fields l =
        if 0 <=? level then
          Some (mkLine Stdout TextHandler now level msg (pair []
            <$> ((str "component", AString component) :: (str "component", AString (str "nmcd")) :: fields)))
        else None).
Proof using All.
  intros Hf Hm. destruct (main_init_ok _ _ _ _ _ Hf Hm) as (cfg & m1 & Hc & Hl & _ & _ & Hg). cbn in Hl, Hg.
  exists cfg. split; [done|]. split; [done|]. split.
  - intros ctx level now msg fields. destruct Hl as (w & -> & _). split.
    + rewrite Log_With_all. reflexivity.
    + intros Hn ln. rewrite Log_With_all. destruct (_ <=? level); [|done]. intros [= <-]. by apply json_field_last.
  - intros Ho component. destruct p as [mp gp]. cbn in Hg. subst gp. eexists. split.
    + unfold component_logger, GetDefault. cbn. rewrite Ho. reflexivity.
    + intros level now msg fields. exact (Log_With_all log_DefaultConfig Stdout None [(str "component", AString component)] level now msg fields).
Qed.

End server.

(** ** Concrete inputs

    A host whose configuration file has credentials and a data directory; every call
    succeeds, or the n-th fails. *)

Definition the_file : FileConfig :=
  mkFileConfig (mkRPCConfig (str "alice") (str "secret") []) (mkNetworkConfig (str "regtest") [str "10.0.0.1:18445"] [str "10.0.0.2:18445"])
    (str "/var/lib/nmcd") [] 10.

Definition mode_0600 : Z := 384.
Definition mode_0644 : Z := 420.

Definition host (perm : Z) (datadir : bytes) : Host := {|
  host_os := {| UserHomeDir := Ok (str "/home/u"); os_MkdirAll := fun _ => Ok tt; LookupHost := fun _ => Err (EMsg "no such host") |};
  Getenv name := if bool_decide (name = str "NMCD_DATADIR") then datadir else [];
  os_Stat path := if bool_decide (path = str "/home/u/.nmcd/nmcd.conf" \/ path = str "/data/nmcd.conf") then FileMode perm else NotExist;
  DecodeFile path := Ok the_file |}.

Definition toy_system (fails : option nat) : @System RefBolt ToyBtcd RefPeers := {|
  outcome n := if bool_decide (fails = Some n) then Some (EMsg "I/O error") else None;
  names_at path := ∅;
  chain_at net path p := [];
  new_peer n addr inbound := Z.of_nat n |}.

Lemma toy_laws fails : SystemLaws (toy_system fails).
Proof. split; [|exact RefPeerLaws]. intros n a b n' a' b' E. by apply Nat2Z.inj. Qed.

Definition my_args : list bytes := [str "-datadir=/data"; str "--maxpeers"; str "0x10"; str "rest"].


(** The flag for the data directory loses against the environment. *)
Lemma datadir_flag_ignored :
  let H := host mode_0600 (str "/srv/nmcd") in
  cfg_DataDir <$> match parseFlags my_args with Ok c => Some c | Err _ => None end = Some (str "/srv/nmcd").
Proof. vm_compute. reflexivity. Qed.

Definition my_machine : Machine := mkMachine 0 ∅ wallet0.

Definition my_settings : Settings :=
  match parseFlags (H := host mode_0600 []) [] with Ok c => c | Err _ => DefaultConfig (H := host mode_0600 []) end.

(** A configuration file that others may read is refused, and the daemon starts without
    the credentials in it: its server asks for none. *)
Lemma readable_file_unprotected (Sys : @System RefBolt ToyBtcd RefPeers) (m : Machine) :
  let H := host mode_0644 [] in
  (forall n, is_Some (live m !! n) -> (n < ncalls m)%nat) ->
  exists cfg, parseFlags [] = Ok cfg /\
    match (NewServer cfg m).1 with Ok s => authEnabled (rpcServer s) = false | Err _ => True end.
Proof.
  intros H Hf. eexists. split; [vm_compute; reflexivity|].
  match goal with |- context [NewServer ?c m] => pose proof (wp_NewServer (live m) c m) as Hn end. unfold wp in Hn.
  destruct (NewServer _ m) as [[s|e] m']; [|done]. destruct Hn as (_ & _ & _ & _ & _ & _ & _ & _ & Eu & Ep); [by split|].
  cbn in Eu, Ep |- *. unfold authEnabled. by rewrite Eu, Ep.
Qed.


Definition log_args : list bytes := [str "-loglevel=DEBUG"; str "-logformat=json"; str "-logoutput"; str "/var/log/nmcd/nmcd.log"].

Definition my_globals : Globals := mkGlobals None false.

Lemma fresh_machine n : is_Some (live my_machine !! n) -> (n < ncalls my_machine)%nat.
Proof. intros [h E]. cbn in E. by rewrite lookup_empty in E. Qed.

Lemma main_closes_witness :
  let H := host mode_0600 [] in
  let Sys := toy_system None in
  let SL := toy_laws None in
  exists logger s p, main_init log_args (my_machine, my_globals) = (Ok (logger, s), p) /\
    (exists n, live p.1 !! n = Some (LogFile (str "/var/log/nmcd/nmcd.log"))) /\
    forall addr, live (main_exit logger (dialPeer addr (Start (p.1, s)).2).2).2.1 = ∅.
Proof.
  intros H Sys SL. pose proof (main_closes (SL := SL) log_args my_machine my_globals) as Hm.
  assert (match main_init log_args (my_machine, my_globals) with
          | (Ok (l, s), p) => pending (Start (p.1, s)).2.2 = [] /\ live p.1 !! 2%nat = Some (LogFile (str "/var/log/nmcd/nmcd.log"))
          | (Err _, _) => False end) as Hpd by (vm_compute; done).
  destruct (main_init log_args (my_machine, my_globals)) as [[[logger s]|e] p]; [|destruct Hpd].
  exists logger, s, p. split; [reflexivity|]. destruct Hpd as [Hpd Hlog]. split; [by exists 2%nat|]. intros addr.
  destruct (Hm logger s p fresh_machine eq_refl) as [_ Hq].
  apply Hq; [eapply rtc_once; constructor|]. rewrite (pending_dialPeer addr). exact Hpd.
Defined.

Lemma daemon_logging_witness :
  let H := host mode_0600 [] in
  let Sys := toy_system None in
  let SL := toy_laws None in
  exists logger s p, main_init log_args (my_machine, my_globals) = (Ok (logger, s), p) /\
    (exists ln, Log slog_LevelDebug 7 (str "hello") [] (WithComponent (str "rpc") logger) = Some ln /\
       json_field (str "component") ln = Some (AString (str "nmcd"))) /\
    exists l, (component_logger (str "rpc") p).1 = Ok (Some l) /\ LogRPCRequest 7 l (str "name_show") (str "10.0.0.9") = None.
Proof.
  intros H Sys SL. pose proof (daemon_logging (SL := SL) log_args my_machine my_globals) as Hm.
  assert (match main_init log_args (my_machine, my_globals) with (Ok _, _) => True | (Err _, _) => False end) as Hok
    by (vm_compute; done).
  destruct (main_init log_args (my_machine, my_globals)) as [[[logger s]|e] p]; [|destruct Hok].
  exists logger, s, p. split; [reflexivity|].
  destruct (Hm logger s p fresh_machine eq_refl) as (cfg & Hc & _ & Hd & Hg).
  split.
  - destruct (Hd [(str "component", AString (str "rpc"))] slog_LevelDebug 7 (str "hello") []) as [El Hj].
    assert (cfg_LogLevel cfg = str "DEBUG") as El' by (vm_compute in Hc; by injection Hc as <-).
    rewrite El' in El. change (resolveSlogLevel (str "DEBUG") <=? slog_LevelDebug) with true in El. cbv iota in El.
    assert (forall a : attr, a ∈ [] -> a.1 <> str "component") as Hn
      by exact (fun a Ha => match not_elem_of_nil a Ha with end).
    eexists. split; [exact El|exact (Hj Hn _ El)].
  - destruct (Hg eq_refl (str "rpc")) as (l & Hl & Hlog). exists l. split; [exact Hl|]. apply Hlog.
Defined.
